(** * Spike2RawIO: a shallow embedding of [neo/rawio/spike2rawio.py]

    The reader of CED Spike2 [.smr] files is embedded as pure functions over
    the bytes of the file.  Exceptions are values of [exn]; every function
    that can raise returns a [result].

    Conventions of the embedding.
    - The memory map of the file is a [list byte]; fixed-width integers are
      decoded little-endian with their two's-complement wrap-around.
    - NumPy scalar arithmetic is taken with the promotion rules in which an
      [np.int16]/[np.int32] scalar combined with a Python [int] is computed
      in 64 bits and an [np.float32] scalar combined with a Python [float]
      in binary64.  Products of header fields then never overflow, so they
      are written in [Z]; floating-point results are binary64 ([float]).
    - [read_as_dict] on the file and channel headers (source lines 68-114)
      is not re-derived from bytes: [_parse_header] starts from the decoded
      header [global_info] and the decoded channel records [chan_info], and
      reads everything else (block chains, payloads) from the memory map.
      [read_as_dict] itself is embedded on its own, over a file object and
      a description of the structure (section "Header structures"). *)

From Stdlib Require Import String ZArith List Lia Bool PrimFloat FloatOps SpecFloat.
From Stdlib Require Import FinFun Permutation Sorted.
From Stdlib.Strings Require Import Byte.
Import ListNotations.
Open Scope list_scope.
Open Scope Z_scope.

Set Implicit Arguments.

(* ================================================================== *)
(** ** Exceptions and the error monad *)

Inductive exn : Type :=
| NeoReadWriteError (msg : string)
| IndexError
| KeyError (key : string)
| ValueError
| TypeError
| OverflowError
| OSError.

Definition result (A : Type) : Type := (exn + A)%type.

Definition ret {A} (x : A) : result A := inr x.
Definition raise {A} (e : exn) : result A := inl e.
Definition bind {A B} (m : result A) (k : A -> result B) : result B :=
  match m with
  | inl e => inl e
  | inr x => k x
  end.

Notation "x <- m ;; k" := (bind m (fun x => k))
  (at level 61, m at next level, right associativity).
Notation "' pat <- m ;; k" := (bind m (fun x => match x with pat => k end))
  (at level 61, pat pattern, m at next level, right associativity).

(** [for x in xs: acc = body(x, acc)], stopping at the first exception. *)
Fixpoint foldM {A S} (body : A -> S -> result S) (xs : list A) (s : S)
  : result S :=
  match xs with
  | [] => ret s
  | x :: xs' => s' <- body x s ;; foldM body xs' s'
  end.

Fixpoint mapM {A B} (f : A -> result B) (xs : list A) : result (list B) :=
  match xs with
  | [] => ret []
  | x :: xs' => y <- f x ;; ys <- mapM f xs' ;; ret (y :: ys)
  end.

(* ================================================================== *)
(** ** Python and NumPy primitives *)

Module Py.

(** [range(n)] and [range(a, b)]. *)
Definition range (n : Z) : list Z := map Z.of_nat (seq 0 (Z.to_nat n)).
Definition range2 (a b : Z) : list Z :=
  map (fun i => a + Z.of_nat i) (seq 0 (Z.to_nat (b - a))).

Definition len {A} (l : list A) : Z := Z.of_nat (length l).

(** [enumerate(xs)]. *)
Definition enumerate {A} (l : list A) : list (Z * A) :=
  combine (range (len l)) l.

(** A slice bound [i] of a sequence of length [n], as Python normalises it:
    a negative bound counts from the end, and the result is clamped. *)
Definition norm_bound (n i : Z) : Z :=
  if i <? 0 then Z.max 0 (i + n) else Z.min i n.

(** The bounds [(a', b')] of [l[a:b]], with [a' <= b']. *)
Definition slice_bounds (n a b : Z) : Z * Z :=
  let a' := norm_bound n a in
  let b' := norm_bound n b in
  (a', Z.max a' b').

(** [l[a:b]] for the already normalised bounds of a view. *)
Definition view_of {A} (l : list A) (v : Z * Z) : list A :=
  firstn (Z.to_nat (snd v - fst v)) (skipn (Z.to_nat (fst v)) l).

(** [l[a:b]] *)
Definition slice {A} (l : list A) (a b : Z) : list A :=
  view_of l (slice_bounds (len l) a b).

(** [l[a:]] *)
Definition slice_from {A} (l : list A) (a : Z) : list A :=
  slice l a (len l).

(** [l[:b]] *)
Definition slice_to {A} (l : list A) (b : Z) : list A :=
  slice l 0 b.

(** [l[i]]: negative indices count from the end, anything out of range
    raises [IndexError]. *)
Definition index {A} (l : list A) (i : Z) : result A :=
  let j := if i <? 0 then i + len l else i in
  if (0 <=? j) && (j <? len l) then
    match nth_error l (Z.to_nat j) with
    | Some x => ret x
    | None => raise IndexError
    end
  else raise IndexError.

(** [d[k]] on a dict kept as an association list in insertion order. *)
Fixpoint lookup {A} (d : list (Z * A)) (k : Z) : option A :=
  match d with
  | [] => None
  | (k', v) :: d' => if k' =? k then Some v else lookup d' k
  end.

Definition getitem {A} (d : list (Z * A)) (k : Z) : result A :=
  match lookup d k with
  | Some v => ret v
  | None => raise (KeyError "chan_id")
  end.

(** [np.sum] of an integer column. *)
Definition sum (l : list Z) : Z := fold_right Z.add 0 l.

(** [np.cumsum]. *)
Fixpoint cumsum_from (acc : Z) (l : list Z) : list Z :=
  match l with
  | [] => []
  | x :: l' => (acc + x) :: cumsum_from (acc + x) l'
  end.
Definition cumsum (l : list Z) : list Z := cumsum_from 0 l.

(** [np.nonzero(mask)[0]]: the indices at which [mask] holds. *)
Definition nonzero (mask : list bool) : list Z :=
  map fst (filter snd (enumerate mask)).

(** Two's-complement wrap of [x] to a signed [w]-bit integer. *)
Definition wrap (w : Z) (x : Z) : Z :=
  (x + 2 ^ (w - 1)) mod 2 ^ w - 2 ^ (w - 1).
Definition int16 := wrap 16.
Definition int32 := wrap 32.

(** [np.searchsorted(a, v, side="right")]: NumPy's bisection.  On a sorted
    array it returns the number of entries [<= v]. *)
Fixpoint bisect_right (fuel : nat) (a : list Z) (v : Z) (lo hi : Z) : Z :=
  match fuel with
  | O => lo
  | S fuel' =>
      if lo <? hi then
        let mid := lo + (hi - lo) / 2 in
        if v <? nth (Z.to_nat mid) a 0
        then bisect_right fuel' a v lo mid
        else bisect_right fuel' a v (mid + 1) hi
      else lo
  end.
Definition searchsorted_right (a : list Z) (v : Z) : Z :=
  bisect_right (length a) a v 0 (len a).

(** [sorted(xs)] on integers (insertion sort; the result is the sorted
    list whatever the algorithm). *)
Fixpoint insert_sorted (x : Z) (l : list Z) : list Z :=
  match l with
  | [] => [x]
  | y :: l' => if x <=? y then x :: l else y :: insert_sorted x l'
  end.
Definition sorted (l : list Z) : list Z := fold_right insert_sorted [] l.

(** [s.update(xs)] on a set of integers kept as a duplicate-free list. *)
Definition set_add (x : Z) (s : list Z) : list Z :=
  if existsb (Z.eqb x) s then s else s ++ [x].
Definition set_update (s : list Z) (xs : list Z) : list Z :=
  fold_left (fun acc x => set_add x acc) xs s.

End Py.

(* ================================================================== *)
(** ** Binary64 arithmetic *)

Module F64.

(** Conversion of an integer, rounding to nearest-even. *)
Definition of_Z (z : Z) : float :=
  SF2Prim (binary_normalize prec emax z 0 false).

(** [int(x)]: truncation toward zero; [inf] and [nan] raise. *)
Definition to_int (x : float) : result Z :=
  match Prim2SF x with
  | S754_zero _ => ret 0
  | S754_infinity _ => raise OverflowError
  | S754_nan => raise ValueError
  | S754_finite s m e =>
      let a := if 0 <=? e then Z.pos m * 2 ^ e else Z.pos m / 2 ^ (- e) in
      ret (if s then - a else a)
  end.

(** [np.round(x)]: round half to even, as a float. *)
Definition round (x : float) : float :=
  match Prim2SF x with
  | S754_finite s m e =>
      if 0 <=? e then x
      else
        let d := 2 ^ (- e) in
        let q := Z.pos m / d in
        let r := Z.pos m mod d in
        let q' := if 2 * r <? d then q
                  else if d <? 2 * r then q + 1
                  else if Z.even q then q else q + 1 in
        let y := of_Z q' in
        if s then PrimFloat.opp y else y
  | _ => x
  end.

End F64.

(* ================================================================== *)
(** ** Little-endian decoding of the memory map *)

Definition byte_val (b : byte) : Z := Z.of_N (Byte.to_N b).

Fixpoint le_unsigned (bs : list byte) : Z :=
  match bs with
  | [] => 0
  | b :: bs' => byte_val b + 256 * le_unsigned bs'
  end.

(** The field of [n] bytes at offset [off] of a record. *)
Definition field (rec : list byte) (off n : nat) : list byte :=
  firstn n (skipn off rec).

Definition field_i4 (rec : list byte) (off : nat) : Z :=
  Py.int32 (le_unsigned (field rec off 4)).
Definition field_i2 (rec : list byte) (off : nat) : Z :=
  Py.int16 (le_unsigned (field rec off 2)).

(** [raw.view(dt)] for a structured or scalar type of [itemsize] bytes: the
    byte count must be a multiple of the item size. *)
Definition view (itemsize : Z) (raw : list byte) : result (list (list byte)) :=
  if itemsize <=? 0 then raise ValueError
  else if Py.len raw mod itemsize =? 0 then
    ret (map (fun i => field raw (i * Z.to_nat itemsize) (Z.to_nat itemsize))
             (seq 0 (Z.to_nat (Py.len raw / itemsize))))
  else raise ValueError.

Set Warnings "-inexact-float".

(* ================================================================== *)
(** ** Data model *)

(** The decoded file header ([headerDescription]); only the fields the
    reader uses after decoding. *)
Record global_info : Type := {
  system_id : Z;      (* i2 *)
  us_per_time : Z;    (* i2 *)
  time_per_adc : Z;   (* i2 *)
  dtime_base : float  (* f8 *)
}.

(** A decoded channel record ([channelHeaderDesciption1] and the
    kind-dependent trailer of source lines 87-114).  [scale], [offset] and
    [unit] are read only for the kinds whose trailer holds them, [divide]
    only for signal kinds of files with [system_id] in 1..5. *)
Record chan_info : Type := {
  kind : Z;           (* u1 *)
  firstblock : Z;     (* i4 *)
  blocks : Z;         (* i2 *)
  n_extra : Z;        (* i2 *)
  l_chan_dvd : Z;     (* i4 *)
  phy_chan : Z;       (* i2 *)
  title : string;
  comment : string;
  ideal_rate : float; (* f4 *)
  scale : float;      (* f4 *)
  offset : float;     (* f4 *)
  chan_unit : string;  (* key "unit" *)
  divide : Z          (* i2 *)
}.

(** One row of a channel's block index (the structured array built at
    source lines 142-151). *)
Record data_block : Type := {
  pos : Z;
  size : Z;
  cumsum : Z;
  start_time : Z;
  end_time : Z
}.

Definition set_cumsum (b : data_block) (c : Z) : data_block :=
  {| pos := pos b; size := size b; cumsum := c;
     start_time := start_time b; end_time := end_time b |}.

(** The constructor arguments of [Spike2RawIO]. *)
Record config : Type := {
  take_ideal_sampling_rate : bool;
  ced_units : bool;
  try_signal_grouping : bool
}.

Definition default_config : config :=
  {| take_ideal_sampling_rate := false; ced_units := true;
     try_signal_grouping := true |}.

(** What [_parse_header] reads: the decoded headers and the bytes. *)
Record smr_file : Type := {
  file_info : global_info;
  file_channels : list chan_info;
  file_bytes : list byte
}.

Definition DISKBLOCK : Z := 512.

Definition kind_in (ci : chan_info) (ks : list Z) : bool :=
  existsb (Z.eqb (kind ci)) ks.

(* ================================================================== *)
(** ** Time and sampling-rate utilities *)

(** Source lines 71-74: files older than version 6 have no [dtime_base]. *)
Definition fix_info (info : global_info) : global_info :=
  if system_id info <? 6 then
    {| system_id := system_id info; us_per_time := us_per_time info;
       time_per_adc := time_per_adc info; dtime_base := 1e-6%float |}
  else info.

(** Source line 80. *)
Definition time_factor_of (info : global_info) : float :=
  PrimFloat.mul (F64.of_Z (us_per_time info)) (dtime_base info).

(** [get_sample_interval], source lines 677-685. *)
Definition get_sample_interval (info : global_info) (ci : chan_info) : float :=
  if existsb (Z.eqb (system_id info)) [1; 2; 3; 4; 5] then
    PrimFloat.mul
      (F64.of_Z (divide ci * us_per_time info * time_per_adc info))
      1e-6%float
  else
    PrimFloat.mul
      (F64.of_Z (l_chan_dvd ci * us_per_time info))
      (dtime_base info).

(* ================================================================== *)
(** ** End of the channel header loop (source lines 116-127) *)

(** [dict_kind], source lines 744-755: the recognised kinds. *)
Definition dict_kind (k : Z) : result string :=
  if k =? 0 then ret "empty"%string
  else if k =? 1 then ret "Adc"%string
  else if k =? 2 then ret "EventFall"%string
  else if k =? 3 then ret "EventRise"%string
  else if k =? 4 then ret "EventBoth"%string
  else if k =? 5 then ret "Marker"%string
  else if k =? 6 then ret "AdcMark"%string
  else if k =? 7 then ret "RealMark"%string
  else if k =? 8 then ret "TextMark"%string
  else if k =? 9 then ret "RealWave"%string
  else raise (KeyError "kind").

(** Lines 116-125 for one channel: its type name and [t_start], read from
    the header of its first block through the file object (a seek to a
    negative offset fails). *)
Definition finish_channel (info : global_info) (mm : list byte)
  (diskblock : Z) (ci : chan_info) : result (string * float) :=
  type <- dict_kind (kind ci) ;;
  if blocks ci =? 0 then ret (type, 0%float)
  else
    let off := firstblock ci * diskblock in
    if off <? 0 then raise OSError
    else
      recs <- view 20 (Py.slice mm off (off + 20)) ;;
      block_info <- Py.index recs 0 ;;
      ret (type,
           PrimFloat.mul
             (PrimFloat.mul (F64.of_Z (field_i4 block_info 8))
                            (F64.of_Z (us_per_time info)))
             (dtime_base info)).

(* ================================================================== *)
(** ** Block index builder (source lines 129-155) *)

(** The loop of lines 137-140: follow the chain for [n] blocks from the
    byte offset [ind]. *)
Fixpoint read_chain (mm : list byte) (diskblock : Z) (n : nat) (ind : Z)
  : result (list data_block) :=
  match n with
  | O => ret []
  | S n' =>
      recs <- view 20 (Py.slice mm ind (ind + 20)) ;;
      block_info <- Py.index recs 0 ;;
      rest <- read_chain mm diskblock n' (field_i4 block_info 4 * diskblock) ;;
      ret ({| pos := ind;
              size := field_i2 block_info 18;
              cumsum := 0;
              start_time := field_i4 block_info 8;
              end_time := field_i4 block_info 12 |} :: rest)
  end.

Definition skip_header (b : data_block) : data_block :=
  {| pos := pos b + 20; size := size b; cumsum := cumsum b;
     start_time := start_time b; end_time := end_time b |}.

Definition build_index (mm : list byte) (diskblock : Z) (ci : chan_info)
  : result (list data_block) :=
  data_blocks <- read_chain mm diskblock (Z.to_nat (blocks ci))
                   (firstblock ci * diskblock) ;;
  ret (map skip_header data_blocks).

(* ================================================================== *)
(** ** Segmentation engine (source lines 157-226) *)

(** Lines 168-169: indices [i] with [start_time[i+1] - end_time[i] > interval]. *)
Definition detect_gaps (interval : Z) (data_blocks : list data_block)
  : list Z :=
  let inter_block_sizes :=
    map (fun se => Py.int32 (fst se - snd se))
        (combine (Py.slice_from (map start_time data_blocks) 1)
                 (Py.slice_to (map end_time data_blocks) (-1))) in
  Py.nonzero (map (fun d => interval <? d) inter_block_sizes).

(** Lines 161-170 for one channel: [Some gaps] when the channel takes part
    in segmentation. *)
Definition channel_gaps (info : global_info) (tf : float) (ci : chan_info)
  (data_blocks : list data_block) : result (option (list Z)) :=
  if kind_in ci [1; 9] then
    let sig_size := Py.sum (map size data_blocks) in
    if 0 <? sig_size then
      interval <- F64.to_int
                    (F64.round (PrimFloat.div (get_sample_interval info ci) tf)) ;;
      ret (Some (detect_gaps interval data_blocks))
    else ret None
  else ret None.

(** [all_gaps_block_ind], a dict in insertion (channel) order. *)
Fixpoint all_gaps (info : global_info) (tf : float)
  (chans : list (Z * (chan_info * list data_block)))
  : result (list (Z * list Z)) :=
  match chans with
  | [] => ret []
  | (chan_id, (ci, data_blocks)) :: rest =>
      g <- channel_gaps info tf ci data_blocks ;;
      gs <- all_gaps info tf rest ;;
      ret (match g with
           | Some gaps => (chan_id, gaps) :: gs
           | None => gs
           end)
  end.

(** Lines 179-186: the stop tick when no signal channel takes part. *)
Definition no_signal_t_stop (all_blocks : list (list data_block))
  : result (option Z) :=
  foldM (fun data_blocks t_stop =>
           if 0 <? Py.len data_blocks then
             b <- Py.index data_blocks (-1) ;;
             ret (match t_stop with
                  | None => Some (end_time b)
                  | Some t => if t <? end_time b then Some (end_time b)
                              else Some t
                  end)
           else ret t_stop)
        all_blocks None.

(** Line 192, as written: [np.all(all_nb_seg[0] != all_nb_seg)]. *)
Definition pauses_differ (all_nb_seg : list Z) : result bool :=
  x0 <- Py.index all_nb_seg 0 ;;
  ret (forallb (fun x => negb (x0 =? x)) all_nb_seg).

(** Line 216: [seg["cumsum"][1:] = np.cumsum(seg["size"][:-1])]. *)
Definition recompute_cumsum (seg : list data_block) : list data_block :=
  let cs := Py.cumsum (Py.slice_to (map size seg) (-1)) in
  match seg with
  | [] => []
  | b :: rest => b :: map (fun bc => set_cumsum (fst bc) (snd bc)) (combine rest cs)
  end.

(** A segment's block list is a NumPy view [data_blocks[a:b]] of the
    channel's index: writing its cumsum column writes the index itself. *)
Definition write_cumsum (store : list data_block) (v : Z * Z)
  : list data_block :=
  firstn (Z.to_nat (fst v)) store
  ++ recompute_cumsum (Py.view_of store v)
  ++ skipn (Z.to_nat (snd v)) store.

(** Per-channel result of lines 196-217.  [views] are the bounds of the
    slices kept in [_by_seg_data_blocks[chan_id]]; they alias [store], the
    channel's entry of [_all_data_blocks]. *)
Record chan_segments : Type := {
  store : list data_block;
  t_starts : list Z;
  t_stops : list Z;
  views : list (Z * Z)
}.

(** The body of the loop of line 201. *)
Definition segment_step (nb_segment : Z) (gaps_block_ind : list Z)
  (seg_ind : Z) (s : chan_segments) : result chan_segments :=
  fisrt_bl <- (if seg_ind =? 0 then ret 0
               else g <- Py.index gaps_block_ind (seg_ind - 1) ;; ret (g + 1)) ;;
  b0 <- Py.index (store s) fisrt_bl ;;
  last_bl <- (if seg_ind <? nb_segment - 1 then Py.index gaps_block_ind seg_ind
              else ret (Py.len (store s) - 1)) ;;
  b1 <- Py.index (store s) last_bl ;;
  let v := Py.slice_bounds (Py.len (store s)) fisrt_bl (last_bl + 1) in
  ret {| store := write_cumsum (store s) v;
         t_starts := t_starts s ++ [start_time b0];
         t_stops := t_stops s ++ [end_time b1];
         views := views s ++ [v] |}.

Definition segment_channel (nb_segment : Z) (data_blocks : list data_block)
  (gaps_block_ind : list Z) : result chan_segments :=
  foldM (segment_step nb_segment gaps_block_ind) (Py.range nb_segment)
        {| store := data_blocks; t_starts := []; t_stops := []; views := [] |}.

(** Python's [min] and [max] of a non-empty sequence. *)
Definition py_min (l : list Z) : result Z :=
  match l with
  | [] => raise ValueError
  | x :: l' => ret (fold_left Z.min l' x)
  end.
Definition py_max (l : list Z) : result Z :=
  match l with
  | [] => raise ValueError
  | x :: l' => ret (fold_left Z.max l' x)
  end.

(** What segmentation leaves in the reader. *)
Record segmentation : Type := {
  seg_nb_segment : Z;
  seg_channels : list (Z * chan_segments);  (* keyed like [_sig_t_starts] *)
  seg_starts : list Z;                      (* [_seg_t_starts] *)
  seg_stops : list (option Z)               (* [_seg_t_stops]; [None] is Python's *)
}.

(** Lines 196-217 over every channel of [all_gaps_block_ind]. *)
Fixpoint segment_channels (nb_segment : Z)
  (all_blocks : list (Z * list data_block)) (gaps : list (Z * list Z))
  : result (list (Z * chan_segments)) :=
  match gaps with
  | [] => ret []
  | (chan_id, gaps_block_ind) :: rest =>
      data_blocks <- Py.getitem all_blocks chan_id ;;
      s <- segment_channel nb_segment data_blocks gaps_block_ind ;;
      ss <- segment_channels nb_segment all_blocks rest ;;
      ret ((chan_id, s) :: ss)
  end.

(** Lines 219-226 for one segment index. *)
Definition segment_bounds (chans : list (Z * chan_segments)) (seg_ind : Z)
  : result (Z * Z) :=
  starts <- mapM (fun cs => Py.index (t_starts (snd cs)) seg_ind) chans ;;
  stops <- mapM (fun cs => Py.index (t_stops (snd cs)) seg_ind) chans ;;
  t_start <- py_min starts ;;
  t_stop <- py_max stops ;;
  ret (t_start, t_stop).

(** Lines 172-226. *)
Definition segment (all_blocks : list (Z * list data_block))
  (gaps : list (Z * list Z)) : result segmentation :=
  if Py.len gaps =? 0 then
    t_stop <- no_signal_t_stop (map snd all_blocks) ;;
    ret {| seg_nb_segment := 1; seg_channels := [];
           seg_starts := [0]; seg_stops := [t_stop] |}
  else
    let all_nb_seg := map (fun g => Py.len (snd g) + 1) gaps in
    differ <- pauses_differ all_nb_seg ;;
    if (differ : bool) then
      raise (NeoReadWriteError
               "Signal channels have different pauses so different nb_segment")
    else
      nb_segment <- Py.index all_nb_seg 0 ;;
      chans <- segment_channels nb_segment all_blocks gaps ;;
      bounds <- mapM (segment_bounds chans) (Py.range nb_segment) ;;
      ret {| seg_nb_segment := nb_segment; seg_channels := chans;
             seg_starts := map fst bounds;
             seg_stops := map (fun b => Some (snd b)) bounds |}.

(* ================================================================== *)
(** ** Record layouts ([get_channel_dtype], source lines 645-674) *)

(** A NumPy dtype as the reader uses it: its item size and field names.
    [tick] is at offset 0 and [marker] at offset 4 whenever present; a
    scalar type has no field. *)
Record np_dtype : Type := {
  itemsize : Z;
  fields : list string
}.

Definition int16_dtype : np_dtype := {| itemsize := 2; fields := [] |}.
Definition float32_dtype : np_dtype := {| itemsize := 4; fields := [] |}.

Definition get_channel_dtype (ci : chan_info) : result np_dtype :=
  let subarray (n width : Z) (name : string) :=
    if n <? 0 then raise ValueError
    else ret {| itemsize := 8 + width * n;
                fields := ["tick"; "marker"; name]%string |} in
  if kind ci =? 1 then ret int16_dtype
  else if kind_in ci [2; 3; 4] then
    ret {| itemsize := 4; fields := ["tick"]%string |}
  else if kind_in ci [5] then
    ret {| itemsize := 8; fields := ["tick"; "marker"]%string |}
  else if kind_in ci [6] then subarray (n_extra ci / 2) 2 "waveform"%string
  else if kind_in ci [7] then subarray (n_extra ci / 4) 4 "waveform"%string
  else if kind_in ci [8] then subarray (n_extra ci) 1 "label"%string
  else if kind ci =? 9 then ret float32_dtype
  else raise (KeyError "dt").  (* [dt] is unbound: UnboundLocalError *)

(** [self._memmap[ind0:ind1].view(dt)] for one block (e.g. lines 285-287). *)
Definition read_block (mm : list byte) (dt : np_dtype) (b : data_block)
  : result (list (list byte)) :=
  let ind0 := pos b in
  let ind1 := size b * itemsize dt + ind0 in
  view (itemsize dt) (Py.slice mm ind0 ind1).

(** [raw_data[name]] for the integer fields [tick] and [marker]. *)
Definition int_column (dt : np_dtype) (name : string) (off : nat)
  (raw_data : list (list byte)) : result (list Z) :=
  if existsb (String.eqb name) (fields dt) then
    ret (map (fun rec => field_i4 rec off) raw_data)
  else match fields dt with
       | [] => raise IndexError
       | _ => raise ValueError
       end.

Definition tick_column dt raw := int_column dt "tick" 0 raw.
Definition marker_column dt raw := int_column dt "marker" 4 raw.

(** [raw_data[other_field]] for [marker], [waveform] or [label]: the bytes
    of the field in each record. *)
Definition other_column (dt : np_dtype) (name : string)
  (raw_data : list (list byte)) : result (list (list byte)) :=
  if existsb (String.eqb name) (fields dt) then
    ret (map (fun rec => if String.eqb name "marker" then field rec 4 4
                         else skipn 8 rec) raw_data)
  else match fields dt with
       | [] => raise IndexError
       | _ => raise ValueError
       end.

(* ================================================================== *)
(** ** Typed channels (source lines 228-298) *)

Inductive unit_id : Type :=
| Marker (value : Z)   (* a marker byte, with [ced_units] *)
| All.                 (* the string "all" *)

Record signal_channel : Type := {
  sc_name : string;
  sc_id : Z;                 (* [str(chan_id)] *)
  sc_sampling_rate : float;
  sc_dtype : string;
  sc_units : string;
  sc_gain : float;
  sc_offset : float;
  sc_stream_id : Z           (* the number whose [str] is stored *)
}.

Record spike_channel : Type := {
  sp_name : string;
  sp_id : Z * unit_id;       (* the string "ch{chan_id}#{unit_id}" *)
  wf_units : string;
  wf_gain : float;
  wf_offset : float;
  wf_left_sweep : Z;
  wf_sampling_rate : float
}.

Record event_channel : Type := {
  ev_name : string;
  ev_id : Z
}.

Record signal_stream : Type := {
  st_name : string;          (* "Signal stream {id}", or the channel's name *)
  st_id : Z
}.

(** [np.unique] of a one-dimensional integer array. *)
Definition np_unique (l : list Z) : list Z :=
  Py.sorted (Py.set_update [] l).

(** Lines 281-290: the distinct low marker bytes of all blocks, sorted. *)
Definition scan_unit_ids (mm : list byte) (dt : np_dtype)
  (data_blocks : list data_block) : result (list Z) :=
  unit_ids <- foldM (fun bl unit_ids =>
                       raw_data <- read_block mm dt bl ;;
                       m <- marker_column dt raw_data ;;
                       let marker := map (fun x => Z.land x 255) m in
                       ret (Py.set_update unit_ids (np_unique marker)))
                    data_blocks [] ;;
  ret (Py.sorted unit_ids).

(** Lines 236-240.  The source looks [ideal_rate] up in the file header,
    which has no such field. *)
Definition sampling_rate_of (cfg : config) (info : global_info)
  (ci : chan_info) : result float :=
  if take_ideal_sampling_rate cfg then raise (KeyError "ideal_rate")
  else ret (PrimFloat.div 1 (get_sample_interval info ci)).

Record typed_channels : Type := {
  tc_signal : list signal_channel;
  tc_spike : list spike_channel;
  tc_event : list event_channel;
  tc_unit_ids : list (Z * unit_id)   (* [internal_unit_ids], by unit index *)
}.

(** The body of the loop of line 234.  [participating] are the keys of
    [_sig_t_starts]. *)
Definition typed_channel_step (cfg : config) (info : global_info)
  (mm : list byte) (participating : list Z)
  (chan : Z * (chan_info * list data_block)) (acc : typed_channels)
  : result typed_channels :=
  let chan_id := fst chan in
  let ci := fst (snd chan) in
  let data_blocks := snd (snd chan) in
  sampling_rate <- (if kind_in ci [1; 6; 7; 9] then sampling_rate_of cfg info ci
                    else ret 0%float) ;;
  let name := title ci in
  if kind_in ci [1; 9] then
    if negb (existsb (Z.eqb chan_id) participating) then ret acc
    else
      let '(gain, offs, sig_dtype) :=
        if kind ci =? 1
        then (PrimFloat.div (scale ci) 6553.6%float, offset ci, "int16"%string)
        else (1%float, 0%float, "float32"%string) in
      ret {| tc_signal := tc_signal acc ++
               [{| sc_name := name; sc_id := chan_id;
                   sc_sampling_rate := sampling_rate; sc_dtype := sig_dtype;
                   sc_units := chan_unit ci; sc_gain := gain; sc_offset := offs;
                   sc_stream_id := 0 |}];
             tc_spike := tc_spike acc; tc_event := tc_event acc;
             tc_unit_ids := tc_unit_ids acc |}
  else if kind_in ci [2; 3; 4; 5; 8] then
    ret {| tc_signal := tc_signal acc; tc_spike := tc_spike acc;
           tc_event := tc_event acc ++ [{| ev_name := name; ev_id := chan_id |}];
           tc_unit_ids := tc_unit_ids acc |}
  else if kind_in ci [6; 7] then
    let '(gain, offs, left_sweep) :=
      if kind ci =? 6
      then (PrimFloat.div (scale ci) 6553.6%float, offset ci, n_extra ci / 4)
      else (1%float, 0%float, n_extra ci / 8) in
    unit_ids <- (if ced_units cfg then
                   dt <- get_channel_dtype ci ;;
                   ids <- scan_unit_ids mm dt data_blocks ;;
                   ret (map Marker ids)
                 else ret [All]) ;;
    ret {| tc_signal := tc_signal acc;
           tc_spike := tc_spike acc ++
             map (fun u => {| sp_name := name; sp_id := (chan_id, u);
                              wf_units := chan_unit ci; wf_gain := gain;
                              wf_offset := offs; wf_left_sweep := left_sweep;
                              wf_sampling_rate := sampling_rate |}) unit_ids;
           tc_event := tc_event acc;
           tc_unit_ids := tc_unit_ids acc ++ map (fun u => (chan_id, u)) unit_ids |}
  else ret acc.

Definition typed_channels_of (cfg : config) (info : global_info)
  (mm : list byte) (participating : list Z)
  (chans : list (Z * (chan_info * list data_block))) : result typed_channels :=
  foldM (typed_channel_step cfg info mm participating) chans
        {| tc_signal := []; tc_spike := []; tc_event := []; tc_unit_ids := [] |}.

(* ================================================================== *)
(** ** Stream grouping engine (source lines 306-346) *)

(** The fields [common_keys] of a signal channel. *)
Definition characteristic : Type := (float * string * string * float * float)%type.

Definition characteristic_of (c : signal_channel) : characteristic :=
  (sc_sampling_rate c, sc_dtype c, sc_units c, sc_gain c, sc_offset c).

(** [==] on records: every field equal ([nan] differs from itself). *)
Definition charact_eqb (a b : characteristic) : bool :=
  let '(r1, d1, u1, g1, o1) := a in
  let '(r2, d2, u2, g2, o2) := b in
  PrimFloat.eqb r1 r2 && String.eqb d1 d2 && String.eqb u1 u2
  && PrimFloat.eqb g1 g2 && PrimFloat.eqb o1 o2.

(** The order NumPy sorts records by: field after field, floats with
    [nan] last. *)
Definition float_cmp (a b : float) : comparison :=
  let lt x y := PrimFloat.ltb x y || (PrimFloat.is_nan y && negb (PrimFloat.is_nan x)) in
  if lt a b then Lt else if lt b a then Gt else Eq.

Definition lex (c : comparison) (k : comparison) : comparison :=
  match c with Eq => k | _ => c end.

Definition charact_cmp (a b : characteristic) : comparison :=
  let '(r1, d1, u1, g1, o1) := a in
  let '(r2, d2, u2, g2, o2) := b in
  lex (float_cmp r1 r2) (lex (String.compare d1 d2) (lex (String.compare u1 u2)
    (lex (float_cmp g1 g2) (float_cmp o1 o2)))).

Fixpoint charact_insert (x : characteristic) (l : list characteristic) :=
  match l with
  | [] => [x]
  | y :: l' => match charact_cmp x y with
               | Gt => y :: charact_insert x l'
               | _ => x :: l
               end
  end.

(** [np.unique] on records: sort, then keep what differs from its
    predecessor. *)
Fixpoint drop_repeats (prev : characteristic) (l : list characteristic) :=
  match l with
  | [] => []
  | x :: l' => if charact_eqb x prev then drop_repeats x l'
               else x :: drop_repeats x l'
  end.

Definition unique_characteristics (l : list characteristic) : list characteristic :=
  match fold_right charact_insert [] l with
  | [] => []
  | x :: l' => x :: drop_repeats x l'
  end.

(** [self._by_seg_data_blocks[chan_id][seg_index]]: a view of the block
    index of the channel. *)
Definition by_seg_data_blocks (all_blocks : list (Z * list data_block))
  (by_seg : list (Z * list (Z * Z))) (chan_id seg_index : Z)
  : result (list data_block) :=
  vs <- Py.getitem by_seg chan_id ;;
  v <- Py.index vs seg_index ;;
  data_blocks <- Py.getitem all_blocks chan_id ;;
  ret (Py.view_of data_blocks v).

(** Line 328, as written: [np.all(sig_sizes != sig_sizes[0])]. *)
Definition sizes_differ (sig_sizes : list Z) : result bool :=
  x0 <- Py.index sig_sizes 0 ;;
  ret (forallb (fun x => negb (x =? x0)) sig_sizes).

(** Lines 321-331 for one bucket. *)
Definition check_group_sizes (all_blocks : list (Z * list data_block))
  (by_seg : list (Z * list (Z * Z))) (nb_segment : Z)
  (signal_channels : list signal_channel) (chan_grp_indexes : list Z)
  : result Datatypes.unit :=
  foldM (fun seg_index (_ : Datatypes.unit) =>
           sig_sizes <- mapM (fun ind =>
                                c <- Py.index signal_channels ind ;;
                                bl <- by_seg_data_blocks all_blocks by_seg (sc_id c) seg_index ;;
                                ret (Py.sum (map size bl)))
                             chan_grp_indexes ;;
           differ <- sizes_differ sig_sizes ;;
           if (differ : bool) then
             raise (NeoReadWriteError
               "Signal channel in groups do not have same size, use try_signal_grouping=False")
           else ret tt)
        (Py.range nb_segment) tt.

Definition set_stream_id (c : signal_channel) (s : Z) : signal_channel :=
  {| sc_name := sc_name c; sc_id := sc_id c;
     sc_sampling_rate := sc_sampling_rate c; sc_dtype := sc_dtype c;
     sc_units := sc_units c; sc_gain := sc_gain c; sc_offset := sc_offset c;
     sc_stream_id := s |}.

(** [signal_channels["stream_id"][chan_grp_indexes] = stream_id] *)
Definition assign_stream (signal_channels : list signal_channel)
  (chan_grp_indexes : list Z) (stream_id : Z) : list signal_channel :=
  map (fun ic => if existsb (Z.eqb (fst ic)) chan_grp_indexes
                 then set_stream_id (snd ic) stream_id else snd ic)
      (Py.enumerate signal_channels).

Definition dtype_of_name (name : string) : np_dtype :=
  if String.eqb name "int16" then int16_dtype else float32_dtype.

Record grouping : Type := {
  gr_channels : list signal_channel;
  gr_streams : list signal_stream;
  gr_dtypes : list (Z * np_dtype)   (* [_sig_dtypes] *)
}.

(** The body of the loop of line 315. *)
Definition group_step (all_blocks : list (Z * list data_block))
  (by_seg : list (Z * list (Z * Z))) (nb_segment : Z)
  (characteristics : list characteristic)
  (sc : Z * characteristic) (g : grouping) : result grouping :=
  let stream_index := fst sc in
  let charact := snd sc in
  let chan_grp_indexes :=
    Py.nonzero (map (fun c => charact_eqb c charact) characteristics) in
  let stream_id := stream_index in
  let signal_channels := assign_stream (gr_channels g) chan_grp_indexes stream_id in
  _ <- check_group_sizes all_blocks by_seg nb_segment signal_channels
         chan_grp_indexes ;;
  ret {| gr_channels := signal_channels;
         gr_streams := gr_streams g ++
           [{| st_name := "Signal stream"; st_id := stream_id |}];
         gr_dtypes := gr_dtypes g ++
           [(stream_id, dtype_of_name (snd (fst (fst (fst charact)))))] |}.

(** Lines 306-346. *)
Definition group_signals (cfg : config)
  (all_blocks : list (Z * list data_block))
  (by_seg : list (Z * list (Z * Z))) (nb_segment : Z)
  (signal_channels : list signal_channel) : result grouping :=
  if 0 <? Py.len signal_channels then
    if try_signal_grouping cfg then
      let characteristics := map characteristic_of signal_channels in
      foldM (group_step all_blocks by_seg nb_segment characteristics)
            (Py.enumerate (unique_characteristics characteristics))
            {| gr_channels := signal_channels; gr_streams := []; gr_dtypes := [] |}
    else
      let numbered := Py.enumerate signal_channels in
      ret {| gr_channels := map (fun ic => set_stream_id (snd ic) (fst ic)) numbered;
             gr_streams := map (fun ic => {| st_name := sc_name (snd ic);
                                             st_id := fst ic |}) numbered;
             gr_dtypes := map (fun ic => (fst ic, dtype_of_name (sc_dtype (snd ic))))
                              numbered |}
  else ret {| gr_channels := signal_channels; gr_streams := []; gr_dtypes := [] |}.

(* ================================================================== *)
(** ** The reader after [_parse_header] *)

Record Spike2RawIO : Type := {
  options : config;
  _global_info : global_info;
  _time_factor : float;
  _channel_infos : list chan_info;
  _channel_types : list (string * float);  (* each channel's [type], [t_start] *)
  _memmap : list byte;
  _all_data_blocks : list (Z * list data_block);
  _by_seg_data_blocks : list (Z * list (Z * Z));
  _sig_t_starts : list (Z * list Z);
  _sig_t_stops : list (Z * list Z);
  _seg_t_starts : list Z;
  _seg_t_stops : list (option Z);
  internal_unit_ids : list (Z * unit_id);
  _sig_dtypes : list (Z * np_dtype);
  nb_segment : Z;                      (* [header["nb_segment"][0]] *)
  signal_streams : list signal_stream;
  signal_channels : list signal_channel;
  spike_channels : list spike_channel;
  event_channels : list event_channel
}.

(** The block index of every channel, lines 134-155. *)
Definition build_all_index (mm : list byte) (diskblock : Z)
  (chans : list chan_info) : result (list (list data_block)) :=
  mapM (build_index mm diskblock) chans.

(** [_all_data_blocks] and [_by_seg_data_blocks] once the segment loop has
    written the cumsum columns through its views. *)
Definition final_all_data_blocks (all_blocks : list (Z * list data_block))
  (chans : list (Z * chan_segments)) : list (Z * list data_block) :=
  map (fun cb => (fst cb, match Py.lookup chans (fst cb) with
                          | Some s => store s
                          | None => snd cb
                          end)) all_blocks.

Definition final_by_seg (all_blocks : list (Z * list data_block))
  (chans : list (Z * chan_segments)) : list (Z * list (Z * Z)) :=
  map (fun cb => (fst cb, match Py.lookup chans (fst cb) with
                          | Some s => views s
                          | None => []
                          end)) all_blocks.

(** [_parse_header], source lines 65-356, from the decoded headers on.
    The annotations written after line 356 go to the host's annotation
    store and are not modelled. *)
Definition _parse_header (cfg : config) (f : smr_file) : result Spike2RawIO :=
  let info := fix_info (file_info f) in
  let diskblock := if system_id info =? 9 then DISKBLOCK else 1 in
  let tf := time_factor_of info in
  let mm := file_bytes f in
  types <- mapM (finish_channel info mm diskblock) (file_channels f) ;;
  index <- build_all_index mm diskblock (file_channels f) ;;
  let all_blocks := Py.enumerate index in
  let chans := Py.enumerate (combine (file_channels f) index) in
  gaps <- all_gaps info tf chans ;;
  sg <- segment all_blocks gaps ;;
  let all_blocks' := final_all_data_blocks all_blocks (seg_channels sg) in
  let by_seg := final_by_seg all_blocks (seg_channels sg) in
  let chans' := Py.enumerate (combine (file_channels f) (map snd all_blocks')) in
  tc <- typed_channels_of cfg info mm (map fst (seg_channels sg)) chans' ;;
  gr <- group_signals cfg all_blocks' by_seg (seg_nb_segment sg) (tc_signal tc) ;;
  ret {| options := cfg;
         _global_info := info;
         _time_factor := tf;
         _channel_infos := file_channels f;
         _channel_types := types;
         _memmap := mm;
         _all_data_blocks := all_blocks';
         _by_seg_data_blocks := by_seg;
         _sig_t_starts := map (fun cs => (fst cs, t_starts (snd cs))) (seg_channels sg);
         _sig_t_stops := map (fun cs => (fst cs, t_stops (snd cs))) (seg_channels sg);
         _seg_t_starts := seg_starts sg;
         _seg_t_stops := seg_stops sg;
         internal_unit_ids := tc_unit_ids tc;
         _sig_dtypes := gr_dtypes gr;
         nb_segment := seg_nb_segment sg;
         signal_streams := gr_streams gr;
         signal_channels := gr_channels gr;
         spike_channels := tc_spike tc;
         event_channels := tc_event tc |}.

(* ================================================================== *)
(** ** Segment and stream queries (source lines 392-413) *)

Definition rescale (tick : Z) (factor : float) : float :=
  PrimFloat.mul (F64.of_Z tick) factor.

Definition _segment_t_start (r : Spike2RawIO) (block_index seg_index : Z)
  : result float :=
  t <- Py.index (_seg_t_starts r) seg_index ;;
  ret (rescale t (_time_factor r)).

(** [None * self._time_factor] raises [TypeError]. *)
Definition _segment_t_stop (r : Spike2RawIO) (block_index seg_index : Z)
  : result float :=
  t <- Py.index (_seg_t_stops r) seg_index ;;
  match t with
  | Some t => ret (rescale t (_time_factor r))
  | None => raise TypeError
  end.

(** Lines 399-402: the ids of the channels of a stream, in channel order. *)
Definition stream_chan_ids (r : Spike2RawIO) (stream_index : Z)
  : result (Z * list Z) :=
  s <- Py.index (signal_streams r) stream_index ;;
  let stream_id := st_id s in
  let mask := map (fun c => sc_stream_id c =? stream_id) (signal_channels r) in
  ret (stream_id,
       map (fun mc => sc_id (snd mc))
           (filter fst (combine mask (signal_channels r)))).

Definition _get_signal_size (r : Spike2RawIO)
  (block_index seg_index stream_index : Z) : result Z :=
  ' (_, chan_ids) <- stream_chan_ids r stream_index ;;
  chan_id0 <- Py.index chan_ids 0 ;;
  bl <- by_seg_data_blocks (_all_data_blocks r) (_by_seg_data_blocks r)
          chan_id0 seg_index ;;
  ret (Py.sum (map size bl)).

Definition _get_signal_t_start (r : Spike2RawIO)
  (block_index seg_index stream_index : Z) : result float :=
  ' (_, chan_ids) <- stream_chan_ids r stream_index ;;
  chan_id0 <- Py.index chan_ids 0 ;;
  starts <- Py.getitem (_sig_t_starts r) chan_id0 ;;
  t <- Py.index starts seg_index ;;
  ret (rescale t (_time_factor r)).

(* ================================================================== *)
(** ** Chunked signal reader (source lines 415-461) *)

(** A sample in the stream's native encoding: its [itemsize] bytes. *)
#[warnings="-notation-for-abbreviation"] Notation sample := (list byte) (only parsing).

(** A dense matrix kept by columns; [nrows] is its first dimension. *)
Record matrix : Type := {
  nrows : Z;
  columns : list (list sample)
}.

Definition zero_sample (dt : np_dtype) : sample :=
  repeat x00 (Z.to_nat (itemsize dt)).

(** [raw_signals[ind : data.size + ind, c] = data] on column [c]: the
    shapes must agree, up to NumPy's broadcast of a single value. *)
Definition assign_rows (col : list sample) (ind : Z) (data : list sample)
  : result (list sample) :=
  let v := Py.slice_bounds (Py.len col) ind (Py.len data + ind) in
  if snd v - fst v =? Py.len data then
    ret (firstn (Z.to_nat (fst v)) col ++ data ++ skipn (Z.to_nat (snd v)) col)
  else if Py.len data =? 1 then
    ret (firstn (Z.to_nat (fst v)) col
         ++ repeat (nth 0 data []) (Z.to_nat (snd v - fst v))
         ++ skipn (Z.to_nat (snd v)) col)
  else raise ValueError.

(** The body of the loop of line 445; the state is [(ind, column)]. *)
Definition chunk_step (mm : list byte) (dt : np_dtype)
  (data_blocks : list data_block) (i_start i_stop bl0 bl1 : Z)
  (bl : Z) (st : Z * list sample) : result (Z * list sample) :=
  b <- Py.index data_blocks bl ;;
  data <- read_block mm dt b ;;
  let data :=
    if bl =? bl1 - 1 then
      let border := Py.len data - (i_stop - cumsum b) in
      if 0 <? border then Py.slice_to data (- border) else data
    else data in
  let data :=
    if bl =? bl0 then
      let border := i_start - cumsum b in
      Py.slice_from data border
    else data in
  col <- assign_rows (snd st) (fst st) data ;;
  ret (Py.len data + fst st, col).

(** Lines 439-460 for one channel: its column of [raw_signals]. *)
Definition chunk_column (mm : list byte) (dt : np_dtype)
  (data_blocks : list data_block) (i_start i_stop : Z)
  : result (list sample) :=
  let bl0 := Py.searchsorted_right (map cumsum data_blocks) i_start - 1 in
  let bl1 := Py.searchsorted_right (map cumsum data_blocks) i_stop in
  st <- foldM (chunk_step mm dt data_blocks i_start i_stop bl0 bl1)
              (Py.range2 bl0 bl1)
              (0, repeat (zero_sample dt) (Z.to_nat (i_stop - i_start))) ;;
  ret (snd st).

Definition _get_analogsignal_chunk (r : Spike2RawIO)
  (block_index seg_index : Z) (i_start i_stop : option Z)
  (stream_index : Z) (channel_indexes : option (list Z)) : result matrix :=
  let i_start := match i_start with Some i => i | None => 0 end in
  i_stop <- match i_stop with
            | Some i => ret i
            | None => _get_signal_size r block_index seg_index stream_index
            end ;;
  ' (stream_id, chan_ids) <- stream_chan_ids r stream_index ;;
  dt <- Py.getitem (_sig_dtypes r) stream_id ;;
  chan_ids <- match channel_indexes with
              | Some idx => mapM (Py.index chan_ids) idx
              | None => ret chan_ids
              end ;;
  if i_stop - i_start <? 0 then raise ValueError
  else
    cols <- mapM (fun chan_id =>
                    data_blocks <- by_seg_data_blocks (_all_data_blocks r)
                                     (_by_seg_data_blocks r) chan_id seg_index ;;
                    chunk_column (_memmap r) dt data_blocks i_start i_stop)
                 chan_ids ;;
    ret {| nrows := i_stop - i_start; columns := cols |}.

(** Vertical concatenation of two matrices with the same columns count. *)
Definition vconcat (a b : matrix) : matrix :=
  {| nrows := nrows a + nrows b;
     columns := map (fun ab => fst ab ++ snd ab) (combine (columns a) (columns b)) |}.

(* ================================================================== *)
(** ** Spike and event extractor (source lines 463-541) *)

(** [ts >= lim] and [ts <= lim] against a Python value that may be [None]:
    the comparison is made element by element. *)
Definition cmp_mask (op : Z -> Z -> bool) (ts : list Z) (lim : option Z)
  : result (list bool) :=
  match lim with
  | Some l => ret (map (fun t => op t l) ts)
  | None => match ts with
            | [] => ret []
            | _ => raise TypeError
            end
  end.

Definition marker_matches (f : unit_id) (m : Z) : bool :=
  match f with
  | Marker v => Z.land m 255 =? v
  | All => false
  end.

(** Lines 474-477 (and 508-511): the mask [keep] of one block. *)
Definition keep_mask (dt : np_dtype) (raw_data : list (list byte))
  (ts : list Z) (lim0 lim1 : option Z) (marker_filter : option unit_id)
  : result (list bool) :=
  ge <- cmp_mask Z.geb ts lim0 ;;
  le <- cmp_mask Z.leb ts lim1 ;;
  let keep := map (fun p => fst p && snd p) (combine ge le) in
  match marker_filter with
  | None => ret keep
  | Some f =>
      m <- marker_column dt raw_data ;;
      let keep2 := map (marker_matches f) m in
      ret (map (fun p => fst p && snd p) (combine keep keep2))
  end.

(** [ts[-1] > lim1] *)
Definition past_limit (ts : list Z) (lim1 : option Z) : result bool :=
  last <- Py.index ts (-1) ;;
  match lim1 with
  | Some l => ret (l <? last)
  | None => raise TypeError
  end.

Definition select {A} (keep : list bool) (l : list A) : list A :=
  map snd (filter fst (combine keep l)).

(** The loop of lines 469-480, with its [break]. *)
Fixpoint count_loop (mm : list byte) (dt : np_dtype)
  (lim0 lim1 : option Z) (marker_filter : option unit_id)
  (data_blocks : list data_block) (nb : Z) : result Z :=
  match data_blocks with
  | [] => ret nb
  | bl :: rest =>
      raw_data <- read_block mm dt bl ;;
      ts <- tick_column dt raw_data ;;
      keep <- keep_mask dt raw_data ts lim0 lim1 marker_filter ;;
      let nb := nb + Py.len (filter id keep) in
      stop <- past_limit ts lim1 ;;
      if (stop : bool) then ret nb
      else count_loop mm dt lim0 lim1 marker_filter rest nb
  end.

Definition _count_in_time_slice (r : Spike2RawIO) (seg_index chan_id : Z)
  (lim0 lim1 : option Z) (marker_filter : option unit_id) : result Z :=
  data_blocks <- Py.getitem (_all_data_blocks r) chan_id ;;
  chan_info <- Py.index (_channel_infos r) chan_id ;;
  dt <- get_channel_dtype chan_info ;;
  count_loop (_memmap r) dt lim0 lim1 marker_filter data_blocks 0.

(** The loop of lines 503-517: the kept ticks and field values, one list
    per visited block. *)
Fixpoint timestamp_loop (mm : list byte) (dt : np_dtype)
  (lim0 lim1 : option Z) (other_field : option string)
  (marker_filter : option unit_id) (data_blocks : list data_block)
  (timestamps : list (list Z)) (othervalues : list (list (list byte)))
  : result (list (list Z) * list (list (list byte))) :=
  match data_blocks with
  | [] => ret (timestamps, othervalues)
  | bl :: rest =>
      raw_data <- read_block mm dt bl ;;
      ts <- tick_column dt raw_data ;;
      keep <- keep_mask dt raw_data ts lim0 lim1 marker_filter ;;
      let timestamps := timestamps ++ [select keep ts] in
      othervalues <- match other_field with
                     | Some name =>
                         o <- other_column dt name raw_data ;;
                         ret (othervalues ++ [select keep o])
                     | None => ret othervalues
                     end ;;
      stop <- past_limit ts lim1 ;;
      if (stop : bool) then ret (timestamps, othervalues)
      else timestamp_loop mm dt lim0 lim1 other_field marker_filter rest
             timestamps othervalues
  end.

(** Lines 489-499: the tick window of an extraction. *)
Definition time_slice_limits (r : Spike2RawIO) (seg_index : Z)
  (t_start t_stop : option float) : result (option Z * option Z) :=
  lim0 <- match t_start with
          | None => t <- Py.index (_seg_t_starts r) seg_index ;; ret (Some t)
          | Some t => l <- F64.to_int (PrimFloat.div t (_time_factor r)) ;;
                      ret (Some l)
          end ;;
  lim1 <- match t_stop with
          | None => Py.index (_seg_t_stops r) seg_index
          | Some t => l <- F64.to_int (PrimFloat.div t (_time_factor r)) ;;
                      ret (Some l)
          end ;;
  ret (lim0, lim1).

(** [_get_internal_timestamp_]: the timestamps and, when [other_field] is
    given, the values of that field. *)
Definition _get_internal_timestamp_ (r : Spike2RawIO) (seg_index chan_id : Z)
  (t_start t_stop : option float) (other_field : option string)
  (marker_filter : option unit_id)
  : result (list Z * option (list (list byte))) :=
  chan_info <- Py.index (_channel_infos r) chan_id ;;
  data_blocks <- Py.getitem (_all_data_blocks r) chan_id ;;
  dt <- get_channel_dtype chan_info ;;
  ' (lim0, lim1) <- time_slice_limits r seg_index t_start t_stop ;;
  ' (timestamps, othervalues) <-
      timestamp_loop (_memmap r) dt lim0 lim1 other_field marker_filter
        data_blocks [] [] ;;
  let timestamps := concat timestamps in
  match other_field with
  | None => ret (timestamps, None)
  | Some name =>
      if existsb (String.eqb name) (fields dt)
      then ret (timestamps, Some (concat othervalues))
      else raise (KeyError name)
  end.

(** [self.internal_unit_ids[unit_index]], a dict keyed by unit index. *)
Definition unit_of (r : Spike2RawIO) (unit_index : Z) : result (Z * unit_id) :=
  if (0 <=? unit_index) && (unit_index <? Py.len (internal_unit_ids r)) then
    Py.index (internal_unit_ids r) unit_index
  else raise (KeyError "unit_index").

Definition _spike_count (r : Spike2RawIO) (block_index seg_index unit_index : Z)
  : result Z :=
  ' (chan_id, unit_id) <- unit_of r unit_index ;;
  let marker_filter := if ced_units (options r) then Some unit_id else None in
  lim0 <- Py.index (_seg_t_starts r) seg_index ;;
  lim1 <- Py.index (_seg_t_stops r) seg_index ;;
  _count_in_time_slice r seg_index chan_id (Some lim0) lim1 marker_filter.

Definition _get_spike_timestamps (r : Spike2RawIO)
  (block_index seg_index unit_index : Z) (t_start t_stop : option float)
  : result (list Z) :=
  ' (chan_id, unit_id) <- unit_of r unit_index ;;
  let marker_filter := if ced_units (options r) then Some unit_id else None in
  tv <- _get_internal_timestamp_ r seg_index chan_id t_start t_stop None
          marker_filter ;;
  ret (fst tv).

(* ================================================================== *)
(** ** Events and waveforms (source lines 563-615) *)

(** [_event_count], source lines 580-585. *)
Definition _event_count (r : Spike2RawIO)
  (block_index seg_index event_channel_index : Z) : result Z :=
  event_header <- Py.index (event_channels r) event_channel_index ;;
  let chan_id := ev_id event_header in
  lim0 <- Py.index (_seg_t_starts r) seg_index ;;
  lim1 <- Py.index (_seg_t_stops r) seg_index ;;
  _count_in_time_slice r seg_index chan_id (Some lim0) lim1 None.

(** A label of an event, after [astype("U")]: the decimal text of a marker
    value, the decoded text of a TextMark record, or the empty string. *)
Inductive label : Type :=
| Number (m : Z)
| Text (s : list byte)
| Blank.

(** A fixed-width byte string as NumPy hands it out: without its trailing
    NUL bytes. *)
Fixpoint strip_nuls (bs : list byte) : list byte :=
  match bs with
  | [] => []
  | b :: bs' => match strip_nuls bs' with
                | [] => if Byte.eqb b x00 then [] else [b]
                | rest => b :: rest
                end
  end.

(** [np.char.decode(labels, "ascii", errors="ignore")] on one label: the
    bytes that are not ASCII are dropped. *)
Definition decode_ascii (bs : list byte) : list byte :=
  strip_nuls (filter (fun b => byte_val b <? 128) bs).

(** [_get_event_timestamps], source lines 587-615; the durations are
    always [None]. *)
Definition _get_event_timestamps (r : Spike2RawIO)
  (block_index seg_index event_channel_index : Z)
  (t_start t_stop : option float)
  : result (list Z * option (list Z) * list label) :=
  event_header <- Py.index (event_channels r) event_channel_index ;;
  let chan_id := ev_id event_header in
  chan_info <- Py.index (_channel_infos r) chan_id ;;
  ' (timestamps, labels) <-
      (if kind chan_info =? 5 then
         tv <- _get_internal_timestamp_ r seg_index chan_id t_start t_stop
                 (Some "marker"%string) None ;;
         ret (fst tv,
              map (fun bs => Number (Py.int32 (le_unsigned bs)))
                  (match snd tv with Some v => v | None => [] end))
       else if kind chan_info =? 8 then
         tv <- _get_internal_timestamp_ r seg_index chan_id t_start t_stop
                 (Some "label"%string) None ;;
         ret (fst tv,
              map (fun bs => Text (decode_ascii bs))
                  (match snd tv with Some v => v | None => [] end))
       else
         tv <- _get_internal_timestamp_ r seg_index chan_id t_start t_stop
                 None None ;;
         ret (fst tv, repeat Blank (length (fst tv)))) ;;
  ret (timestamps, None, labels).

(** [_get_spike_raw_waveforms], source lines 563-578: one waveform (the
    bytes of the record after its tick and marker) per spike.
    [reshape(timestamps.size, 1, -1)] cannot infer the last dimension of
    an array without any row and raises [ValueError]. *)
Definition _get_spike_raw_waveforms (r : Spike2RawIO)
  (block_index seg_index unit_index : Z) (t_start t_stop : option float)
  : result (list (list byte)) :=
  unit_header <- Py.index (spike_channels r) unit_index ;;
  ' (chan_id, unit_id) <- unit_of r unit_index ;;
  let marker_filter := if ced_units (options r) then Some unit_id else None in
  tv <- _get_internal_timestamp_ r seg_index chan_id t_start t_stop
          (Some "waveform"%string) marker_filter ;;
  let waveforms := match snd tv with Some v => v | None => [] end in
  if Py.len (fst tv) =? 0 then raise ValueError else ret waveforms.

(* ================================================================== *)
(** ** Header structures ([read_as_dict], source lines 623-642) *)

(** The field types of the header descriptions (lines 688-744), by their
    NumPy codes; [S_ n] is a byte string of [n] bytes. *)
Inductive field_type : Type :=
| i1 | u1 | i2 | i4 | f4 | f8
| S_ (width : nat).

Definition field_width (t : field_type) : nat :=
  match t with
  | i1 | u1 => 1
  | i2 => 2
  | i4 | f4 => 4
  | f8 => 8
  | S_ n => n
  end.

(** [dt.itemsize] of a packed structure. *)
Definition dtype_itemsize (dtype : list (string * field_type)) : nat :=
  fold_right (fun kt n => (field_width (snd kt) + n)%nat) 0%nat dtype.

(** A value of the dict that [read_as_dict] returns; a string is kept as
    the list of the code points of its characters, which ISO 8859-1 takes
    one to one from the bytes. *)
Inductive field_value : Type :=
| IntV (z : Z)
| FloatV (x : float)
| StrV (s : list byte).

(** The value of an IEEE 754 number of [ebits] exponent and [mbits]
    mantissa bits, from its little-endian bytes. *)
Definition ieee (ebits mbits : Z) (bs : list byte) : float :=
  let bits := le_unsigned bs in
  let m := bits mod 2 ^ mbits in
  let e := (bits / 2 ^ mbits) mod 2 ^ ebits in
  let s := Z.testbit bits (ebits + mbits) in
  if e =? 2 ^ ebits - 1 then
    if m =? 0 then (if s then neg_infinity else infinity) else nan
  else
    let mant := if e =? 0 then m else m + 2 ^ mbits in
    let expo := (if e =? 0 then 1 else e) - (2 ^ (ebits - 1) - 1) - mbits in
    SF2Prim (binary_normalize prec emax (if s then - mant else mant) expo s).

(** Lines 635-639: a string field holds a Pascal string, its first
    character being the length of the text that follows. *)
Definition pascal_string (raw : list byte) : list byte :=
  let v := strip_nuls raw in
  if 0 <? Py.len v then
    match v with
    | c :: _ => let length := byte_val c in Py.slice v 1 (length + 1)
    | [] => v
    end
  else v.

(** [h[k]] with the conversion of lines 635-639. *)
Definition field_value_of (t : field_type) (raw : list byte) : field_value :=
  match t with
  | i1 => IntV (Py.wrap 8 (le_unsigned raw))
  | u1 => IntV (le_unsigned raw)
  | i2 => IntV (Py.int16 (le_unsigned raw))
  | i4 => IntV (Py.int32 (le_unsigned raw))
  | f4 => FloatV (ieee 8 23 raw)
  | f8 => FloatV (ieee 11 52 raw)
  | S_ _ => StrV (pascal_string raw)
  end.

(** The loop of lines 632-641 over the fields of the record [h]. *)
Fixpoint fields_of (dtype : list (string * field_type)) (h : list byte)
  : list (string * field_value) :=
  match dtype with
  | [] => []
  | (k, t) :: rest =>
      (k, field_value_of t (firstn (field_width t) h))
      :: fields_of rest (skipn (field_width t) h)
  end.

(** A binary file opened for reading: its bytes and the position of the
    next read, which is never negative. *)
Record file_object : Type := {
  content : list byte;
  position : Z
}.

(** [fid.read(n)]: the bytes from the position on, [n] at most; the
    position moves past them. *)
Definition fid_read (fid : file_object) (n : Z) : list byte * file_object :=
  let data := Py.slice (content fid) (position fid) (position fid + n) in
  (data, {| content := content fid;
            position := position fid + Py.len data |}).

(** [np.dtype] refuses a description that names a field twice. *)
Fixpoint names_repeat (names : list string) : bool :=
  match names with
  | [] => false
  | k :: rest => existsb (String.eqb k) rest || names_repeat rest
  end.

(** [read_as_dict], source lines 623-642: the dict, in field order, and
    the file object after the read. *)
Definition read_as_dict (fid : file_object)
  (dtype : list (string * field_type))
  : result (list (string * field_value)) * file_object :=
  if names_repeat (map fst dtype) then (raise ValueError, fid)
  else
    let itemsize := Z.of_nat (dtype_itemsize dtype) in
    let (data, fid') := fid_read fid itemsize in
    (recs <- view itemsize data ;;
     h <- Py.index recs 0 ;;
     ret (fields_of dtype h),
     fid').

(** [blockHeaderDesciption], lines 728-735. *)
Definition blockHeaderDesciption : list (string * field_type) :=
  [("pred_block", i4); ("succ_block", i4); ("start_time", i4);
   ("end_time", i4); ("channel_num", i2); ("items", i2)]%string.

(* ================================================================== *)
(** ** Building files for concrete runs *)

Module Fixture.

Definition byte_of (z : Z) : byte :=
  match Byte.of_N (Z.to_N (z mod 256)) with
  | Some b => b
  | None => x00
  end.

(** [n] little-endian bytes of [z] (two's complement). *)
Fixpoint le_bytes (n : nat) (z : Z) : list byte :=
  match n with
  | O => []
  | S n' => byte_of z :: le_bytes n' (z / 256)
  end.

(** A 20-byte block header ([blockHeaderDesciption]). *)
Definition block_header (pred_block succ_block start_t end_t channel_num items : Z)
  : list byte :=
  le_bytes 4 pred_block ++ le_bytes 4 succ_block ++ le_bytes 4 start_t
  ++ le_bytes 4 end_t ++ le_bytes 2 channel_num ++ le_bytes 2 items.

(** A block of 16-bit samples. *)
Definition adc_block (pred_block succ_block start_t end_t channel_num : Z)
  (samples : list Z) : list byte :=
  block_header pred_block succ_block start_t end_t channel_num (Py.len samples)
  ++ concat (map (le_bytes 2) samples).

(** A block of marker records [(tick, marker)] followed by [n_extra]
    payload bytes each. *)
Definition mark_block (pred_block succ_block start_t end_t channel_num : Z)
  (n_extra : nat) (records : list (Z * Z)) : list byte :=
  block_header pred_block succ_block start_t end_t channel_num (Py.len records)
  ++ concat (map (fun tm => le_bytes 4 (fst tm) ++ le_bytes 4 (snd tm)
                            ++ repeat x00 n_extra) records).

(** The header area: 512 bytes and 140 bytes per channel slot. *)
Definition header_area (channels : Z) : list byte :=
  repeat x00 (Z.to_nat (512 + 140 * channels)).

Definition info_v6 : global_info :=
  {| system_id := 6; us_per_time := 10; time_per_adc := 1;
     dtime_base := 1e-6%float |}.

Definition channel (k first nblocks extra dvd : Z) (name : string) : chan_info :=
  {| kind := k; firstblock := first; blocks := nblocks; n_extra := extra;
     l_chan_dvd := dvd; phy_chan := 0; title := name; comment := "";
     ideal_rate := 10000%float; scale := 1%float; offset := 0%float;
     chan_unit := "mV"; divide := 0 |}.

End Fixture.

(** Concrete files used by the examples below.  Every file starts with
    the header area; blocks follow it back to back. *)
Module Scenario.
Import Fixture.

Definition ramp (from n : Z) : list Z := map (fun i => from + i) (Py.range n).

(** Two 16-bit signal channels sampled every 10 ticks.  Channel 0 has two
    contiguous blocks; channel 1 has two blocks 410 ticks apart. *)
Definition pause_mismatch : smr_file :=
  {| file_info := info_v6;
     file_channels := [channel 1 792 2 0 10 "a"; channel 1 872 2 0 10 "b"];
     file_bytes := header_area 2
       ++ adc_block (-1) 832 0 90 0 (ramp 0 10)
       ++ adc_block 792 (-1) 100 190 0 (ramp 10 10)
       ++ adc_block (-1) 912 0 90 1 (ramp 100 10)
       ++ adc_block 872 (-1) 500 590 1 (ramp 110 10) |}.

(** Two 16-bit signal channels with the same rate, unit, gain and offset,
    one block each: 10 samples on channel 0, 20 on channel 1. *)
Definition size_mismatch : smr_file :=
  {| file_info := info_v6;
     file_channels := [channel 1 792 1 0 10 "a"; channel 1 832 1 0 10 "b"];
     file_bytes := header_area 2
       ++ adc_block (-1) (-1) 0 90 0 (ramp 0 10)
       ++ adc_block (-1) (-1) 0 190 1 (ramp 100 20) |}.

(** One waveform channel (AdcMark, 4 bytes of waveform per spike) whose
    two blocks hold spikes with marker bytes 0, 1 and 1, 2; the high bytes
    of the markers are not zero. *)
Definition four_spikes : smr_file :=
  {| file_info := info_v6;
     file_channels := [channel 6 652 2 4 10 "w"];
     file_bytes := header_area 1
       ++ mark_block (-1) 696 10 20 0 4 [(10, 0); (20, 257)]
       ++ mark_block 652 (-1) 30 40 0 4 [(30, 513); (40, 2)] |}.

(** One event channel with two blocks of ticks and one empty signal
    channel. *)
Definition events_only : smr_file :=
  {| file_info := info_v6;
     file_channels := [channel 2 792 2 0 0 "e"; channel 1 0 0 0 10 "s"];
     file_bytes := header_area 2
       ++ block_header (-1) 824 5 25 0 3 ++ concat (map (le_bytes 4) [5; 15; 25])
       ++ block_header 792 (-1) 35 45 0 2 ++ concat (map (le_bytes 4) [35; 45]) |}.


End Scenario.

(* ================================================================== *)
(** ** Notions used in the statements and their proofs *)

(** An exception other than the reader's own [NeoReadWriteError]. *)
Definition foreign (e : exn) : Prop :=
  match e with
  | NeoReadWriteError _ => False
  | _ => True
  end.

(** A computation that never raises [NeoReadWriteError]. *)
Definition quiet {A} (m : result A) : Prop :=
  forall e, m = inl e -> foreign e.

(** The gaps that lines 160-170 detect on a file, per signal channel. *)
Definition gaps_of_file (f : smr_file) : result (list (Z * list Z)) :=
  let info := fix_info (file_info f) in
  let diskblock := if system_id info =? 9 then DISKBLOCK else 1 in
  index <- build_all_index (file_bytes f) diskblock (file_channels f) ;;
  all_gaps info (time_factor_of info)
           (Py.enumerate (combine (file_channels f) index)).

(** The total sample count of channel [chan_id] in segment [seg_index]. *)
Definition segment_size (r : Spike2RawIO) (chan_id seg_index : Z) : result Z :=
  bl <- by_seg_data_blocks (_all_data_blocks r) (_by_seg_data_blocks r)
          chan_id seg_index ;;
  ret (Py.sum (map size bl)).

(** Lines 118-155 up to the block index, as [_parse_header] runs them. *)
Definition block_index_of (f : smr_file) : result (list (list data_block)) :=
  let info := fix_info (file_info f) in
  build_all_index (file_bytes f)
    (if system_id info =? 9 then DISKBLOCK else 1) (file_channels f).

(** A channel takes part in gap detection (lines 162-165). *)
Definition qualifies (ci : chan_info) (data_blocks : list data_block) : bool :=
  kind_in ci [1; 9] && (0 <? Py.sum (map size data_blocks)).

(** No channel of the file takes part in gap detection. *)
Definition no_signal (f : smr_file) (index : list (list data_block)) : bool :=
  forallb (fun cb => negb (qualifies (fst cb) (snd cb)))
          (combine (file_channels f) index).

(** The end tick of every channel that has a block: the end time of the
    last block of its chain. *)
Definition end_ticks (index : list (list data_block)) : list Z :=
  flat_map (fun bl => match bl with
                      | [] => []
                      | b :: bl' => [end_time (last bl' b)]
                      end) index.

(** [t] is the greatest element of [l]; Python's [None] when [l] is empty. *)
Definition is_max_of (t : option Z) (l : list Z) : Prop :=
  match t with
  | None => l = []
  | Some t => In t l /\ Forall (fun e => e <= t) l
  end.




(** The conjunction of the two masks of line 473, cell by cell. *)
Definition band (p : bool * bool) : bool := fst p && snd p.

(** The ticks a block contributes lie in the window. *)
Definition in_window (lim0 lim1 : option Z) (t : Z) : Prop :=
  exists l0 l1, lim0 = Some l0 /\ lim1 = Some l1 /\ l0 <= t <= l1.

(** The first byte of a marker, which names the unit (line 274). *)
Definition low_byte (m : Z) : Z := Z.land m 255.

(** The [(tick, marker)] records of one block. *)
Definition block_marks (mm : list byte) (dt : np_dtype) (bl : data_block)
  : result (list (Z * Z)) :=
  raw_data <- read_block mm dt bl ;;
  ts <- tick_column dt raw_data ;;
  m <- marker_column dt raw_data ;;
  ret (combine ts m).

(** The records of every block of a channel, as the reader decodes them. *)
Definition channel_marks (r : Spike2RawIO) (chan_id : Z)
  : result (list (list (Z * Z))) :=
  data_blocks <- Py.getitem (_all_data_blocks r) chan_id ;;
  chan_info <- Py.index (_channel_infos r) chan_id ;;
  dt <- get_channel_dtype chan_info ;;
  mapM (block_marks (_memmap r) dt) data_blocks.

(** The units of channel [chan_id], in unit-index order. *)
Definition units_of_channel (r : Spike2RawIO) (chan_id : Z) : list unit_id :=
  map snd (filter (fun u => fst u =? chan_id) (internal_unit_ids r)).

(** The entries of [internal_unit_ids] that belong to one channel. *)
Definition of_chan (chan_id : Z) (us : list (Z * unit_id)) : list (Z * unit_id) :=
  filter (fun u => fst u =? chan_id) us.

(** The columns of an index entry that the chain fixes (all but cumsum). *)
Definition chain_entry (b : data_block) : Z * Z * Z * Z :=
  (pos b, size b, start_time b, end_time b).

(** Views that follow one another from entry [a] to entry [b]. *)
Fixpoint chained (a : Z) (vs : list (Z * Z)) (b : Z) : Prop :=
  match vs with
  | [] => a = b
  | v :: vs' => fst v = a /\ a <= snd v /\ chained (snd v) vs' b
  end.

(** The running item count before each block. *)
Fixpoint offsets_from (acc : Z) (sizes : list Z) : list Z :=
  match sizes with
  | [] => []
  | x :: l => acc :: offsets_from (acc + x) l
  end.

(** The cumsum column of a segment counts the items before each block. *)
Definition wf_cumsum (seg : list data_block) : Prop :=
  map cumsum seg = offsets_from 0 (map size seg).

(** The state of the segment loop of one channel before segment [j]. *)
Definition seg_inv (bl : list data_block) (gaps : list Z) (nb j : Z)
  (s : chan_segments) : Prop :=
  map chain_entry (store s) = map chain_entry bl /\
  Py.len (views s) = j /\
  exists e,
    chained 0 (views s) e /\ 0 <= e <= Py.len bl /\
    (j = 0 -> e = 0) /\
    (0 < j -> j < nb -> Py.index gaps (j - 1) = inr (e - 1)) /\
    (0 < j -> j = nb -> e = Py.len bl) /\
    Forall (fun v => wf_cumsum (Py.view_of (store s) v)) (views s) /\
    Forall (fun b => cumsum b = 0) (skipn (Z.to_nat e) (store s)) /\
    Forall (fun v => fst v < snd v) (views s).

(** The block list of every segment of a channel, in segment order. *)
Definition segments_of (r : Spike2RawIO) (chan_id : Z)
  : result (list (list data_block)) :=
  mapM (by_seg_data_blocks (_all_data_blocks r) (_by_seg_data_blocks r) chan_id)
       (Py.range (nb_segment r)).

(** One 16-bit signal channel of three blocks, with a pause of 310 ticks
    before the last one: two segments. *)
Definition two_segments : smr_file :=
  {| file_info := Fixture.info_v6;
     file_channels := [Fixture.channel 1 652 3 0 10 "a"];
     file_bytes := Fixture.header_area 1
       ++ Fixture.adc_block (-1) 692 0 90 0 (Scenario.ramp 0 10)
       ++ Fixture.adc_block 652 724 100 150 0 (Scenario.ramp 10 6)
       ++ Fixture.adc_block 692 (-1) 460 550 0 (Scenario.ramp 16 10) |}.

(** A sorted array, as [np.searchsorted] expects it. *)
Definition nondecreasing (l : list Z) : Prop :=
  forall i j : nat, (i <= j < length l)%nat -> nth i l 0 <= nth j l 0.

(** What a block's payload read gives: as many samples as its header says. *)
Definition payload_of (mm : list byte) (dt : np_dtype) (b : data_block)
  (d : list sample) : Prop :=
  read_block mm dt b = inr d /\ Py.len d = size b.

(** The number of samples before block [i] of a segment. *)
Definition block_offset (blocks : list data_block) (i : nat) : Z :=
  Py.sum (firstn i (map size blocks)).

(** Where the samples of the blocks before block [i] end inside the chunk
    [a, b). *)
Definition cut (blocks : list data_block) (a b i : Z) : Z :=
  Z.max a (Z.min b (block_offset blocks (Z.to_nat i))).

(** The column after the blocks before block [i] have been written. *)
Definition column_upto (dt : np_dtype) (flat : list sample)
  (blocks : list data_block) (a b i : Z) : Z * list sample :=
  let w := Py.view_of flat (a, cut blocks a b i) in
  (Py.len w, w ++ repeat (zero_sample dt) (Z.to_nat (b - a - Py.len w))).

(** The block holds as many samples as its header says. *)
Definition block_complete (mm : list byte) (dt : np_dtype) (b : data_block)
  : bool :=
  match read_block mm dt b with
  | inr d => Py.len d =? size b
  | inl _ => false
  end.

(** Every block of the channels [chans] in segment [seg_index] is complete. *)
Definition payloads_complete (r : Spike2RawIO) (dt : np_dtype) (seg_index : Z)
  (chans : list Z) : bool :=
  forallb (fun chan_id =>
             match by_seg_data_blocks (_all_data_blocks r)
                     (_by_seg_data_blocks r) chan_id seg_index with
             | inr blocks => forallb (block_complete (_memmap r) dt) blocks
             | inl _ => false
             end) chans.

(** A matrix of [rows] rows and [cols] columns with every cell present. *)
Definition dense (rows cols : Z) (m : matrix) : Prop :=
  nrows m = rows /\ Py.len (columns m) = cols /\
  Forall (fun c => Py.len c = rows) (columns m).

(** The samples [a .. b) of a channel whose segment holds [flat], as the
    chunk reader lays them out. *)
Definition column_of (dt : np_dtype) (a b : Z) (flat : list sample)
  : list sample :=
  Py.view_of flat (a, b)
  ++ repeat (zero_sample dt) (Z.to_nat (b - a - Py.len (Py.view_of flat (a, b)))).

(** The per-segment ticks kept for a channel are those of the first and of
    the last block of each of its views. *)
Definition times_inv (bl : list data_block) (s : chan_segments) : Prop :=
  Forall2 (fun v t => exists b, nth_error bl (Z.to_nat (fst v)) = Some b
                                /\ start_time b = t)
          (views s) (t_starts s) /\
  Forall2 (fun v t => exists b, nth_error bl (Z.to_nat (snd v - 1)) = Some b
                                /\ end_time b = t)
          (views s) (t_stops s).

(** The samples of a channel in a segment, block after block, as decoded
    with the stream's dtype. *)
Definition channel_samples (r : Spike2RawIO) (dt : np_dtype)
  (seg_index chan_id : Z) : result (list sample) :=
  blocks <- by_seg_data_blocks (_all_data_blocks r) (_by_seg_data_blocks r)
              chan_id seg_index ;;
  datas <- mapM (read_block (_memmap r) dt) blocks ;;
  ret (concat datas).

(** One event channel whose only block holds no record. *)
Definition empty_first_block : smr_file :=
  {| file_info := Fixture.info_v6;
     file_channels := [Fixture.channel 2 652 1 0 0 "e"];
     file_bytes := Fixture.header_area 1
       ++ Fixture.block_header (-1) (-1) 0 0 0 0 |}.

(** Line 166: the sample interval of a channel, in ticks. *)
Definition interval_ticks (info : global_info) (tf : float) (ci : chan_info)
  : result Z :=
  F64.to_int (F64.round (PrimFloat.div (get_sample_interval info ci) tf)).

(** The bounds of the views of a channel against its gap indices: a view
    starts after the previous gap and, unless it is the last one, ends
    with the next. *)
Definition cuts_inv (gaps : list Z) (nb : Z) (s : chan_segments) : Prop :=
  forall (k : nat) (v : Z * Z),
    nth_error (views s) k = Some v ->
    (k = 0%nat -> fst v = 0) /\
    (forall k', k = S k' -> nth_error gaps k' = Some (fst v - 1)) /\
    (Z.of_nat k < nb - 1 -> nth_error gaps k = Some (snd v - 1)).

(* ================================================================== *)
(** * Properties *)

(** ** The error monad *)

Lemma bind_inr {A B} (m : result A) (k : A -> result B) (y : B) :
  bind m k = inr y -> exists x, m = inr x /\ k x = inr y.
Proof. destruct m as [e|x]; simpl; [discriminate | eauto]. Qed.

Lemma bind_inl {A B} (m : result A) (k : A -> result B) (e : exn) :
  bind m k = inl e -> m = inl e \/ exists x, m = inr x /\ k x = inl e.
Proof. destruct m as [e'|x]; simpl; [intros [= ->]; auto | eauto]. Qed.

(** Decompose a successful run along its binds. *)
Ltac inv_bind H :=
  let x := fresh "x" in
  let Hx := fresh "E" in
  apply bind_inr in H; destruct H as (x & Hx & H).

Ltac inv_ret H :=
  unfold ret in H; injection H as H.

(** Replay a successful step in another run. *)
Ltac step E := rewrite E; cbn [bind].

Lemma quiet_ret {A} (x : A) : quiet (ret x).
Proof. intros e [=]. Qed.

Lemma quiet_inr {A} (x : A) : quiet (inr x : result A).
Proof. intros e [=]. Qed.

Lemma quiet_raise {A} (e : exn) : foreign e -> quiet (raise e : result A).
Proof. intros F e' [= <-]. exact F. Qed.

Lemma quiet_bind {A B} (m : result A) (k : A -> result B) :
  quiet m -> (forall x, m = inr x -> quiet (k x)) -> quiet (bind m k).
Proof.
  intros Qm Qk e H. apply bind_inl in H as [H | (x & Hx & H)].
  - now apply Qm.
  - now apply (Qk x Hx).
Qed.

Lemma quiet_foldM {A S} (body : A -> S -> result S) (xs : list A) :
  (forall x s, quiet (body x s)) -> forall s, quiet (foldM body xs s).
Proof.
  intros Qb. induction xs as [|x xs IH]; intros s; simpl.
  - apply quiet_ret.
  - apply quiet_bind; auto.
Qed.

Lemma quiet_mapM {A B} (f : A -> result B) (xs : list A) :
  (forall x, quiet (f x)) -> quiet (mapM f xs).
Proof.
  intros Qf. induction xs as [|x xs IH]; simpl.
  - apply quiet_ret.
  - apply quiet_bind; auto. intros y _.
    apply quiet_bind; auto. intros ys _. apply quiet_ret.
Qed.

Lemma quiet_index {A} (l : list A) (i : Z) : quiet (Py.index l i).
Proof.
  unfold Py.index. destruct (_ && _).
  - destruct nth_error; [apply quiet_ret | now apply quiet_raise].
  - now apply quiet_raise.
Qed.

Lemma quiet_getitem {A} (d : list (Z * A)) (k : Z) : quiet (Py.getitem d k).
Proof.
  unfold Py.getitem. destruct Py.lookup; [apply quiet_ret | now apply quiet_raise].
Qed.

Create HintDb quiet.
#[local] Hint Resolve quiet_ret quiet_inr quiet_index quiet_getitem : quiet.

(** ** The two consistency checks never fire

    [np.all(x[0] != x)] compares [x[0]] with itself among the others, so
    the conjunction is false on every non-empty array. *)

Lemma pauses_differ_false (all_nb_seg : list Z) (b : bool) :
  pauses_differ all_nb_seg = inr b -> b = false.
Proof.
  unfold pauses_differ, Py.index. simpl.
  destruct all_nb_seg as [|x l]; simpl; [discriminate|].
  unfold ret. intros [= <-]. now rewrite Z.eqb_refl.
Qed.

Lemma sizes_differ_false (sig_sizes : list Z) (b : bool) :
  sizes_differ sig_sizes = inr b -> b = false.
Proof.
  unfold sizes_differ, Py.index. simpl.
  destruct sig_sizes as [|x l]; simpl; [discriminate|].
  unfold ret. intros [= <-]. now rewrite Z.eqb_refl.
Qed.

Lemma quiet_view (n : Z) (raw : list byte) : quiet (view n raw).
Proof.
  unfold view. destruct (n <=? 0); [now apply quiet_raise|].
  destruct (_ =? 0); [apply quiet_ret | now apply quiet_raise].
Qed.

Lemma quiet_finish_channel info mm d ci : quiet (finish_channel info mm d ci).
Proof.
  unfold finish_channel. apply quiet_bind.
  { unfold dict_kind.
    repeat match goal with
           | |- quiet (if ?c then _ else _) => destruct c
           end; auto with quiet; now apply quiet_raise. }
  intros ty _. destruct (blocks ci =? 0); auto with quiet.
  destruct (_ <? 0); [now apply quiet_raise|].
  apply quiet_bind; [apply quiet_view|]. intros recs _.
  apply quiet_bind; auto with quiet.
Qed.

Lemma quiet_read_chain mm d n ind : quiet (read_chain mm d n ind).
Proof.
  revert ind. induction n as [|n IH]; intros ind; simpl; auto with quiet.
  apply quiet_bind; [apply quiet_view|]. intros recs _.
  apply quiet_bind; auto with quiet. intros bi _.
  apply quiet_bind; auto with quiet.
Qed.

Lemma quiet_build_all_index mm d chans : quiet (build_all_index mm d chans).
Proof.
  apply quiet_mapM. intros ci. unfold build_index.
  apply quiet_bind; [apply quiet_read_chain | auto with quiet].
Qed.

Lemma quiet_to_int (x : float) : quiet (F64.to_int x).
Proof.
  unfold F64.to_int. destruct (Prim2SF x); auto with quiet; now apply quiet_raise.
Qed.

Lemma quiet_all_gaps info tf chans : quiet (all_gaps info tf chans).
Proof.
  induction chans as [|[c [ci bl]] chans IH]; simpl; auto with quiet.
  apply quiet_bind.
  - unfold channel_gaps. destruct (kind_in ci [1; 9]); auto with quiet.
    destruct (0 <? _); auto with quiet.
    apply quiet_bind; [apply quiet_to_int | auto with quiet].
  - intros g _. apply quiet_bind; auto with quiet.
Qed.

Lemma quiet_segment_channels nb all_blocks gaps :
  quiet (segment_channels nb all_blocks gaps).
Proof.
  induction gaps as [|[c g] gaps IH]; simpl; auto with quiet.
  apply quiet_bind; auto with quiet. intros bl _.
  apply quiet_bind.
  - unfold segment_channel. apply quiet_foldM. intros seg s.
    unfold segment_step.
    apply quiet_bind.
    { destruct (seg =? 0); auto with quiet.
      apply quiet_bind; auto with quiet. }
    intros fb _. apply quiet_bind; auto with quiet. intros b0 _.
    apply quiet_bind.
    { destruct (seg <? nb - 1); auto with quiet. }
    intros lb _. apply quiet_bind; auto with quiet.
  - intros s _. apply quiet_bind; auto with quiet.
Qed.

Lemma quiet_segment all_blocks gaps : quiet (segment all_blocks gaps).
Proof.
  unfold segment. destruct (Py.len gaps =? 0).
  - apply quiet_bind; auto with quiet.
    unfold no_signal_t_stop. apply quiet_foldM. intros bl t.
    destruct (0 <? Py.len bl); auto with quiet.
    apply quiet_bind; auto with quiet.
  - apply quiet_bind.
    { unfold pauses_differ. apply quiet_bind; auto with quiet. }
    intros b Hb. apply pauses_differ_false in Hb. subst b.
    apply quiet_bind; auto with quiet. intros nb _.
    apply quiet_bind; [apply quiet_segment_channels|]. intros chans _.
    apply quiet_bind; auto with quiet.
    apply quiet_mapM. intros seg. unfold segment_bounds.
    apply quiet_bind; [apply quiet_mapM; auto with quiet|]. intros st _.
    apply quiet_bind; [apply quiet_mapM; auto with quiet|]. intros sp _.
    apply quiet_bind.
    { unfold py_min. destruct st; auto with quiet. now apply quiet_raise. }
    intros t0 _. apply quiet_bind; auto with quiet.
    unfold py_max. destruct sp; auto with quiet. now apply quiet_raise.
Qed.

Lemma quiet_get_channel_dtype ci : quiet (get_channel_dtype ci).
Proof.
  unfold get_channel_dtype.
  repeat match goal with
         | |- quiet (if ?c then _ else _) => destruct c
         end; auto with quiet; now apply quiet_raise.
Qed.

Lemma quiet_int_column dt name off raw : quiet (int_column dt name off raw).
Proof.
  unfold int_column. destruct existsb; auto with quiet.
  destruct (fields dt); now apply quiet_raise.
Qed.

Lemma quiet_read_block mm dt b : quiet (read_block mm dt b).
Proof. apply quiet_view. Qed.

Lemma quiet_typed_channels cfg info mm part chans :
  quiet (typed_channels_of cfg info mm part chans).
Proof.
  apply quiet_foldM. intros [c [ci bl]] acc. unfold typed_channel_step.
  cbn [fst snd].
  apply quiet_bind.
  { destruct (kind_in ci [1; 6; 7; 9]); auto with quiet.
    unfold sampling_rate_of. destruct take_ideal_sampling_rate; auto with quiet.
    now apply quiet_raise. }
  intros sr _.
  destruct (kind_in ci [1; 9]).
  { destruct (negb _); auto with quiet. destruct (kind ci =? 1); auto with quiet. }
  destruct (kind_in ci [2; 3; 4; 5; 8]); auto with quiet.
  destruct (kind_in ci [6; 7]); auto with quiet.
  destruct (kind ci =? 6).
  all: apply quiet_bind; auto with quiet.
  all: destruct (ced_units cfg); auto with quiet.
  all: apply quiet_bind; [apply quiet_get_channel_dtype|]; intros dt _.
  all: apply quiet_bind; auto with quiet.
  all: unfold scan_unit_ids; apply quiet_bind; auto with quiet.
  all: apply quiet_foldM; intros b u.
  all: apply quiet_bind; [apply quiet_read_block|]; intros raw _.
  all: apply quiet_bind; [apply quiet_int_column | auto with quiet].
Qed.

Lemma quiet_by_seg all_blocks by_seg c seg :
  quiet (by_seg_data_blocks all_blocks by_seg c seg).
Proof.
  unfold by_seg_data_blocks.
  apply quiet_bind; auto with quiet. intros vs _.
  apply quiet_bind; auto with quiet. intros v _.
  apply quiet_bind; auto with quiet.
Qed.

Lemma quiet_check_group_sizes all_blocks by_seg nb scs grp :
  quiet (check_group_sizes all_blocks by_seg nb scs grp).
Proof.
  unfold check_group_sizes. apply quiet_foldM. intros seg [].
  apply quiet_bind.
  { apply quiet_mapM. intros ind. apply quiet_bind; auto with quiet.
    intros c _. apply quiet_bind; [apply quiet_by_seg | auto with quiet]. }
  intros sizes _. apply quiet_bind.
  { unfold sizes_differ. apply quiet_bind; auto with quiet. }
  intros b Hb. apply sizes_differ_false in Hb. subst b. auto with quiet.
Qed.

Lemma quiet_group_signals cfg all_blocks by_seg nb scs :
  quiet (group_signals cfg all_blocks by_seg nb scs).
Proof.
  unfold group_signals. destruct (0 <? Py.len scs); auto with quiet.
  destruct (try_signal_grouping cfg); auto with quiet.
  apply quiet_foldM. intros [i ch] g. unfold group_step. cbn [fst snd].
  apply quiet_bind; [apply quiet_check_group_sizes | auto with quiet].
Qed.

(** Whatever the file and the options, [_parse_header] never raises
    [NeoReadWriteError]: both of its consistency checks are dead. *)
Lemma parse_header_quiet (cfg : config) (f : smr_file) (msg : string) :
  _parse_header cfg f <> inl (NeoReadWriteError msg).
Proof.
  intros H.
  assert (Q : quiet (_parse_header cfg f)).
  { unfold _parse_header.
    apply quiet_bind; [apply quiet_mapM, quiet_finish_channel|]. intros ty _.
    apply quiet_bind; [apply quiet_build_all_index|]. intros idx _.
    apply quiet_bind; [apply quiet_all_gaps|]. intros gaps _.
    apply quiet_bind; [apply quiet_segment|]. intros sg _.
    apply quiet_bind; [apply quiet_typed_channels|]. intros tc _.
    apply quiet_bind; [apply quiet_group_signals | auto with quiet]. }
  exact (Q _ H).
Qed.

(** C1 (the code departs from the claim).  On a file whose channel 0 has
    no gap and whose channel 1 has exactly one gap, [_parse_header] does not
    fail: it completes with a single segment. *)
Theorem pause_mismatch_not_reported :
  gaps_of_file Scenario.pause_mismatch = inr [(0, []); (1, [0])] /\
  exists r, _parse_header default_config Scenario.pause_mismatch = inr r /\
            nb_segment r = 1 /\
            _seg_t_starts r = [0] /\ _seg_t_stops r = [Some 590].
Proof.
  split; [vm_compute; reflexivity|].
  eexists. split; [vm_compute; reflexivity|].
  repeat split.
Qed.

(** C2 (the code departs from the claim).  With grouping enabled, two
    channels of one bucket holding 10 and 20 samples in segment 0 are put
    into one stream and [_parse_header] completes. *)
Theorem size_mismatch_not_reported :
  exists r, _parse_header default_config Scenario.size_mismatch = inr r /\
            try_signal_grouping (options r) = true /\
            map st_id (signal_streams r) = [0] /\
            map (fun c => (sc_id c, sc_stream_id c)) (signal_channels r)
              = [(0, 0); (1, 0)] /\
            segment_size r 0 0 = inr 10 /\
            segment_size r 1 0 = inr 20.
Proof.
  eexists. split; [vm_compute; reflexivity|].
  repeat split.
Qed.

(** ** Sampling interval *)


(** The two dialects on concrete headers: a version-3 file with
    [divide = 5], [us_per_time = 10], [time_per_adc = 2], and a version-6
    file with [l_chan_dvd = 10], [us_per_time = 10], [dtime_base = 1e-6]. *)
Example get_sample_interval_old :
  get_sample_interval
    {| system_id := 3; us_per_time := 10; time_per_adc := 2;
       dtime_base := 1e-6%float |}
    {| kind := 1; firstblock := 0; blocks := 0; n_extra := 0;
       l_chan_dvd := 77; phy_chan := 0; title := ""; comment := "";
       ideal_rate := 0%float; scale := 1%float; offset := 0%float;
       chan_unit := ""; divide := 5 |}
  = PrimFloat.mul 100%float 1e-6%float.
Proof. reflexivity. Qed.

Example get_sample_interval_new :
  get_sample_interval Fixture.info_v6 (Fixture.channel 1 0 0 0 10 "a")
  = PrimFloat.mul 100%float 1e-6%float.
Proof. reflexivity. Qed.

(** ** Lists, ranges and dicts *)

Lemma len_nonneg {A} (l : list A) : 0 <= Py.len l.
Proof. unfold Py.len. lia. Qed.

Lemma len_app {A} (l1 l2 : list A) : Py.len (l1 ++ l2) = Py.len l1 + Py.len l2.
Proof. unfold Py.len. rewrite length_app. lia. Qed.

Lemma len_cons {A} (x : A) (l : list A) : Py.len (x :: l) = 1 + Py.len l.
Proof. unfold Py.len. simpl length. lia. Qed.

Lemma len_map {A B} (f : A -> B) (l : list A) : Py.len (map f l) = Py.len l.
Proof. unfold Py.len. now rewrite length_map. Qed.

Lemma length_range (n : Z) : length (Py.range n) = Z.to_nat n.
Proof. unfold Py.range. now rewrite length_map, length_seq. Qed.

Lemma range_len_length {A} (l : list A) : length (Py.range (Py.len l)) = length l.
Proof. rewrite length_range. unfold Py.len. lia. Qed.

Lemma map_snd_combine_le {A B} (a : list A) (b : list B) :
  (length b <= length a)%nat -> map snd (combine a b) = b.
Proof.
  revert b. induction a as [|x a IH]; intros [|y b] H; simpl in *; try lia; auto.
  f_equal. apply IH. lia.
Qed.

Lemma map_fst_combine_le {A B} (a : list A) (b : list B) :
  (length a <= length b)%nat -> map fst (combine a b) = a.
Proof.
  revert b. induction a as [|x a IH]; intros [|y b] H; simpl in *; try lia; auto.
  f_equal. apply IH. lia.
Qed.

Lemma map_snd_enumerate {A} (l : list A) : map snd (Py.enumerate l) = l.
Proof.
  unfold Py.enumerate. apply map_snd_combine_le. rewrite range_len_length. lia.
Qed.

Lemma map_fst_enumerate {A} (l : list A) :
  map fst (Py.enumerate l) = Py.range (Py.len l).
Proof.
  unfold Py.enumerate. apply map_fst_combine_le. rewrite range_len_length. lia.
Qed.

Lemma in_enumerate_snd {A} (l : list A) (i : Z) (x : A) :
  In (i, x) (Py.enumerate l) -> In x l.
Proof. unfold Py.enumerate. apply in_combine_r. Qed.

Lemma mapM_inr {A B} (f : A -> result B) (xs : list A) (ys : list B) :
  mapM f xs = inr ys -> Forall2 (fun x y => f x = inr y) xs ys.
Proof.
  revert ys. induction xs as [|x xs IH]; intros ys H; simpl in H.
  - inv_ret H. subst. constructor.
  - inv_bind H. inv_bind H. inv_ret H. subst. constructor; auto.
Qed.

Lemma mapM_ok {A B} (f : A -> result B) (g : A -> B) (xs : list A) :
  (forall x, In x xs -> f x = inr (g x)) -> mapM f xs = inr (map g xs).
Proof.
  induction xs as [|x xs IH]; intros H; simpl; [reflexivity|].
  rewrite (H x (or_introl eq_refl)). simpl.
  rewrite IH by (intros; apply H; now right). reflexivity.
Qed.

Lemma last_cons_default {A} (y : A) (l : list A) (d d' : A) :
  last (y :: l) d = last (y :: l) d'.
Proof.
  revert y. induction l as [|z l IH]; intros y; [reflexivity|].
  change (last (z :: l) d = last (z :: l) d'). apply IH.
Qed.

Lemma nth_error_last {A} (x : A) (l : list A) :
  nth_error (x :: l) (length l) = Some (last l x).
Proof.
  revert x. induction l as [|y l IH]; intros x; [reflexivity|].
  change (nth_error (y :: l) (length l) = Some (last (y :: l) x)).
  rewrite IH. f_equal. destruct l; [reflexivity|].
  change (last (a :: l) y = last (a :: l) x). apply last_cons_default.
Qed.

Lemma index_last {A} (x : A) (l : list A) :
  Py.index (x :: l) (-1) = inr (last l x).
Proof.
  unfold Py.index. rewrite len_cons. pose proof (len_nonneg l) as Hl.
  replace (-1 <? 0) with true by reflexivity.
  replace ((0 <=? -1 + (1 + Py.len l)) && (-1 + (1 + Py.len l) <? 1 + Py.len l))
    with true by (symmetry; apply andb_true_iff; split; lia).
  replace (Z.to_nat (-1 + (1 + Py.len l))) with (length l)
    by (unfold Py.len; lia).
  now rewrite nth_error_last.
Qed.

(** ** The single segment of a file without signal data *)

Lemma no_signal_t_stop_max_from (index : list (list data_block))
  (t0 : option Z) (seen : list Z) :
  is_max_of t0 seen ->
  exists t,
    foldM (fun data_blocks t_stop =>
             if 0 <? Py.len data_blocks then
               b <- Py.index data_blocks (-1) ;;
               ret (match t_stop with
                    | None => Some (end_time b)
                    | Some t => if t <? end_time b then Some (end_time b)
                                else Some t
                    end)
             else ret t_stop) index t0 = inr t
    /\ is_max_of t (seen ++ end_ticks index).
Proof.
  revert t0 seen. induction index as [|bl index IH]; intros t0 seen H.
  - exists t0. simpl. now rewrite app_nil_r.
  - simpl foldM. destruct bl as [|b bl'].
    + simpl. apply (IH t0 seen H).
    + rewrite len_cons.
      replace (0 <? 1 + Py.len bl') with true
        by (symmetry; apply Z.ltb_lt; pose proof (len_nonneg bl'); lia).
      rewrite index_last. cbn [bind ret].
      set (e := end_time (last bl' b)).
      cbn [end_ticks flat_map]. fold (end_ticks index).
      change ([end_time (last bl' b)] ++ end_ticks index)
        with ([e] ++ end_ticks index).
      rewrite app_assoc.
      apply IH. destruct t0 as [t|]; simpl in *.
      * destruct H as [Hin Hall]. destruct (Z.ltb_spec t e).
        -- split; [apply in_or_app; right; now left|].
           apply Forall_app; split; [|constructor; [lia|constructor]].
           eapply Forall_impl; [|exact Hall]. simpl. intros; lia.
        -- split; [apply in_or_app; now left|].
           apply Forall_app; split; [exact Hall|constructor; [lia|constructor]].
      * subst seen. simpl. split; [now left|constructor; [lia|constructor]].
Qed.

Lemma no_signal_t_stop_max (index : list (list data_block)) :
  exists t, no_signal_t_stop index = inr t /\ is_max_of t (end_ticks index).
Proof. apply (no_signal_t_stop_max_from index None [] eq_refl). Qed.

(** Without a participating channel the segmentation engine always
    returns, with one segment starting at tick 0. *)
Lemma segment_without_signal (all_blocks : list (Z * list data_block)) :
  exists t, segment all_blocks [] =
              inr {| seg_nb_segment := 1; seg_channels := [];
                     seg_starts := [0]; seg_stops := [t] |}
            /\ is_max_of t (end_ticks (map snd all_blocks)).
Proof.
  destruct (no_signal_t_stop_max (map snd all_blocks)) as (t & E & M).
  exists t. split; [|exact M]. unfold segment. simpl. now rewrite E.
Qed.

Lemma all_gaps_none info tf (chans : list (Z * (chan_info * list data_block))) :
  forallb (fun c => negb (qualifies (fst (snd c)) (snd (snd c)))) chans = true ->
  all_gaps info tf chans = inr [].
Proof.
  induction chans as [|[c [ci bl]] chans IH]; intros H; [reflexivity|].
  simpl in H. apply andb_true_iff in H as [Hq H].
  cbn [all_gaps]. rewrite (IH H).
  unfold channel_gaps. unfold qualifies in Hq. cbn [fst snd] in Hq.
  destruct (kind_in ci [1; 9]); [|reflexivity].
  simpl in Hq. destruct (0 <? Py.sum (map size bl)); [discriminate|reflexivity].
Qed.

Lemma forallb_enumerate {A} (p : A -> bool) (l : list A) :
  forallb p l = true -> forallb (fun c => p (snd c)) (Py.enumerate l) = true.
Proof.
  intros H. apply forallb_forall. intros [i x] Hin.
  apply in_enumerate_snd in Hin. simpl.
  now apply (proj1 (forallb_forall p l) H).
Qed.

(** ** The phases of a successful [_parse_header] *)

Lemma parse_header_inv (cfg : config) (f : smr_file) (r : Spike2RawIO) :
  _parse_header cfg f = inr r ->
  exists types index gaps sg tc gr,
    let info := fix_info (file_info f) in
    let diskblock := if system_id info =? 9 then DISKBLOCK else 1 in
    let all_blocks := Py.enumerate index in
    let all_blocks' := final_all_data_blocks all_blocks (seg_channels sg) in
    let by_seg := final_by_seg all_blocks (seg_channels sg) in
    mapM (finish_channel info (file_bytes f) diskblock) (file_channels f)
      = inr types /\
    block_index_of f = inr index /\
    all_gaps info (time_factor_of info)
             (Py.enumerate (combine (file_channels f) index)) = inr gaps /\
    segment all_blocks gaps = inr sg /\
    typed_channels_of cfg info (file_bytes f) (map fst (seg_channels sg))
      (Py.enumerate (combine (file_channels f) (map snd all_blocks'))) = inr tc /\
    group_signals cfg all_blocks' by_seg (seg_nb_segment sg) (tc_signal tc)
      = inr gr /\
    r = {| options := cfg;
           _global_info := info;
           _time_factor := time_factor_of info;
           _channel_infos := file_channels f;
           _channel_types := types;
           _memmap := file_bytes f;
           _all_data_blocks := all_blocks';
           _by_seg_data_blocks := by_seg;
           _sig_t_starts := map (fun cs => (fst cs, t_starts (snd cs))) (seg_channels sg);
           _sig_t_stops := map (fun cs => (fst cs, t_stops (snd cs))) (seg_channels sg);
           _seg_t_starts := seg_starts sg;
           _seg_t_stops := seg_stops sg;
           internal_unit_ids := tc_unit_ids tc;
           _sig_dtypes := gr_dtypes gr;
           nb_segment := seg_nb_segment sg;
           signal_streams := gr_streams gr;
           signal_channels := gr_channels gr;
           spike_channels := tc_spike tc;
           event_channels := tc_event tc |}.
Proof.
  unfold _parse_header. intros H.
  inv_bind H. inv_bind H. inv_bind H. inv_bind H. inv_bind H. inv_bind H.
  inv_ret H.
  exists x, x0, x1, x2, x3, x4. cbv zeta. repeat split; auto.
Qed.

Lemma no_signal_gaps (f : smr_file) (index : list (list data_block)) info tf :
  no_signal f index = true ->
  all_gaps info tf (Py.enumerate (combine (file_channels f) index)) = inr [].
Proof.
  intros H. apply all_gaps_none.
  apply (forallb_enumerate (fun cb => negb (qualifies (fst cb) (snd cb)))).
  exact H.
Qed.

(** C7.  When no signal channel takes part in gap detection (no channel
    of kind 1 or 9 has a positive total sample count), a completed parse has
    exactly one segment; it starts at tick 0 and stops at the greatest end
    tick among the channels that have a block, of any kind. *)
Theorem no_signal_single_segment (cfg : config) (f : smr_file)
  (index : list (list data_block)) (r : Spike2RawIO) :
  block_index_of f = inr index ->
  no_signal f index = true ->
  _parse_header cfg f = inr r ->
  nb_segment r = 1 /\
  _seg_t_starts r = [0] /\
  exists t_stop, _seg_t_stops r = [t_stop] /\ is_max_of t_stop (end_ticks index).
Proof.
  intros Hidx Hno H.
  apply parse_header_inv in H
    as (types & index' & gaps & sg & tc & gr & _ & Hidx' & Hg & Hs & _ & _ & ->).
  rewrite Hidx in Hidx'. injection Hidx' as <-.
  rewrite (no_signal_gaps f index _ _ Hno) in Hg. injection Hg as <-.
  destruct (segment_without_signal (Py.enumerate index)) as (t & E & M).
  rewrite E in Hs. injection Hs as <-. simpl.
  rewrite map_snd_enumerate in M. eauto.
Qed.

(** The event-only file: the event channel ends at tick 45. *)
Lemma no_signal_single_segment_witness :
  exists index r,
    block_index_of Scenario.events_only = inr index /\
    _parse_header default_config Scenario.events_only = inr r /\
    end_ticks index = [45] /\
    (nb_segment r = 1 /\ _seg_t_starts r = [0] /\
     exists t_stop, _seg_t_stops r = [t_stop] /\
                    is_max_of t_stop (end_ticks index)).
Proof.
  eexists. eexists.
  split; [vm_compute; reflexivity|].
  split; [vm_compute; reflexivity|].
  split; [vm_compute; reflexivity|].
  eapply (@no_signal_single_segment default_config Scenario.events_only);
    vm_compute; reflexivity.
Defined.

(** ** A file without any data block *)













(** ** Stream size and start time *)

Lemma index_0_cons {A} (x : A) (l : list A) : Py.index (x :: l) 0 = inr x.
Proof.
  unfold Py.index. rewrite len_cons. pose proof (len_nonneg l).
  replace (0 <? 0) with false by reflexivity.
  replace ((0 <=? 0) && (0 <? 1 + Py.len l)) with true
    by (symmetry; apply andb_true_iff; split; lia).
  reflexivity.
Qed.





(** ** Counting and extracting spikes and events *)

Lemma cmp_mask_length op ts lim m :
  cmp_mask op ts lim = inr m -> length m = length ts.
Proof.
  unfold cmp_mask. destruct lim as [l|].
  - intros [= <-]. apply length_map.
  - destruct ts; [intros [= <-]; reflexivity | discriminate].
Qed.

Lemma keep_mask_length dt raw ts lim0 lim1 mf keep :
  keep_mask dt raw ts lim0 lim1 mf = inr keep ->
  (length keep <= length ts)%nat.
Proof.
  unfold keep_mask. intros H. inv_bind H. inv_bind H.
  apply cmp_mask_length in E, E0.
  destruct mf as [f|].
  - inv_bind H. inv_ret H. subst keep.
    rewrite length_map, length_combine, length_map, length_combine. lia.
  - inv_ret H. subst keep. rewrite length_map, length_combine. lia.
Qed.

Lemma select_length {A} (keep : list bool) (l : list A) :
  (length keep <= length l)%nat ->
  Py.len (select keep l) = Py.len (filter id keep).
Proof.
  unfold select, Py.len. revert l.
  induction keep as [|k keep IH]; intros l H; [reflexivity|].
  destruct l as [|x l]; simpl in H; [lia|].
  specialize (IH l ltac:(lia)). simpl. destruct k; simpl; lia.
Qed.

Lemma len_concat_snoc {A} (ls : list (list A)) (l : list A) :
  Py.len (concat (ls ++ [l])) = Py.len (concat ls) + Py.len l.
Proof. rewrite concat_app. simpl. rewrite app_nil_r. apply len_app. Qed.

(** Whatever the extraction loop returns, the counting loop returns its
    length. *)
Lemma timestamp_loop_count mm dt lim0 lim1 other mf blocks :
  forall tss ovs nb tss' ovs',
    timestamp_loop mm dt lim0 lim1 other mf blocks tss ovs = inr (tss', ovs') ->
    count_loop mm dt lim0 lim1 mf blocks nb
      = inr (nb + Py.len (concat tss') - Py.len (concat tss)).
Proof.
  induction blocks as [|b blocks IH]; intros tss ovs nb tss' ovs' H.
  - simpl in H. inv_ret H. subst. simpl. unfold ret. f_equal. lia.
  - cbn [timestamp_loop] in H.
    inv_bind H. inv_bind H. inv_bind H. inv_bind H. inv_bind H.
    cbn [count_loop]. step E. step E0. step E1. step E3.
    assert (Hlen : Py.len (select x1 x0) = Py.len (filter id x1))
      by (apply select_length; eapply keep_mask_length; eauto).
    destruct x3.
    + inv_ret H. subst. unfold ret. f_equal.
      rewrite len_concat_snoc. lia.
    + rewrite (IH _ _ _ _ _ H). f_equal. rewrite len_concat_snoc. lia.
Qed.

(** Whenever the counting loop returns, the extraction loop without a
    secondary field returns as many timestamps. *)
Lemma count_loop_timestamp mm dt lim0 lim1 mf blocks :
  forall tss ovs nb n,
    count_loop mm dt lim0 lim1 mf blocks nb = inr n ->
    exists tss',
      timestamp_loop mm dt lim0 lim1 None mf blocks tss ovs = inr (tss', ovs)
      /\ n = nb + Py.len (concat tss') - Py.len (concat tss).
Proof.
  induction blocks as [|b blocks IH]; intros tss ovs nb n H.
  - simpl in H. inv_ret H. subst. exists tss. split; [reflexivity|lia].
  - cbn [count_loop] in H.
    inv_bind H. inv_bind H. inv_bind H. inv_bind H.
    cbn [timestamp_loop]. step E. step E0. step E1. cbn [ret bind]. step E2.
    assert (Hlen : Py.len (select x1 x0) = Py.len (filter id x1))
      by (apply select_length; eapply keep_mask_length; eauto).
    destruct x2.
    + inv_ret H. subst. eexists. split; [reflexivity|].
      rewrite len_concat_snoc. lia.
    + destruct (IH (tss ++ [select x1 x0]) ovs _ _ H) as (tss' & -> & ->).
      eexists. split; [reflexivity|]. rewrite len_concat_snoc. lia.
Qed.

Lemma in_combine_band (a b : list bool) {A} (l : list A) (x : A) :
  In (true, x) (combine (map band (combine a b)) l) ->
  In (true, x) (combine a l).
Proof.
  revert b l. induction a as [|p a IH]; intros [|q b] [|y l] H;
    simpl in *; try contradiction.
  destruct H as [H | H].
  - injection H as Hb ->. unfold band in Hb. simpl in Hb.
    apply andb_true_iff in Hb as [-> _]. now left.
  - right. eapply IH; eauto.
Qed.

Lemma in_combine_window (l0 l1 : Z) (ts : list Z) (t : Z) :
  In (true, t)
     (combine (map band (combine (map (fun t => Z.geb t l0) ts)
                                 (map (fun t => Z.leb t l1) ts))) ts) ->
  l0 <= t <= l1.
Proof.
  induction ts as [|u ts IH]; simpl; [contradiction|].
  intros [H | H]; [|auto].
  injection H as Hb ->. unfold band in Hb. simpl in Hb.
  apply andb_true_iff in Hb as [H0 H1].
  apply Z.geb_le in H0. apply Z.leb_le in H1. lia.
Qed.

Lemma keep_mask_window dt raw ts lim0 lim1 mf keep t :
  keep_mask dt raw ts lim0 lim1 mf = inr keep ->
  In t (select keep ts) -> in_window lim0 lim1 t.
Proof.
  unfold keep_mask. intros H Hin. inv_bind H. inv_bind H.
  assert (Hk : In (true, t) (combine (map band (combine x x0)) ts)).
  { unfold select in Hin. apply in_map_iff in Hin as ([k t'] & <- & Hin).
    apply filter_In in Hin as [Hin Hk]. simpl in Hk. subst k. simpl.
    destruct mf as [f|].
    - inv_bind H. inv_ret H. subst keep.
      apply (in_combine_band _ _ _ _ Hin).
    - inv_ret H. subst keep. exact Hin. }
  unfold cmp_mask in E, E0.
  destruct lim0 as [l0|], lim1 as [l1|].
  - inv_ret E. inv_ret E0. subst. exists l0, l1.
    split; [reflexivity|]. split; [reflexivity|].
    eapply in_combine_window; eauto.
  - destruct ts; [rewrite combine_nil in Hk; contradiction | discriminate].
  - destruct ts; [rewrite combine_nil in Hk; contradiction | discriminate].
  - destruct ts; [rewrite combine_nil in Hk; contradiction | discriminate].
Qed.

Lemma timestamp_loop_window mm dt lim0 lim1 other mf blocks :
  forall tss ovs tss' ovs',
    timestamp_loop mm dt lim0 lim1 other mf blocks tss ovs = inr (tss', ovs') ->
    Forall (in_window lim0 lim1) (concat tss) ->
    Forall (in_window lim0 lim1) (concat tss').
Proof.
  induction blocks as [|b blocks IH]; intros tss ovs tss' ovs' H F.
  - simpl in H. inv_ret H. now subst.
  - cbn [timestamp_loop] in H.
    inv_bind H. inv_bind H. inv_bind H. inv_bind H. inv_bind H.
    assert (F' : Forall (in_window lim0 lim1) (concat (tss ++ [select x1 x0]))).
    { rewrite concat_app. simpl. rewrite app_nil_r. apply Forall_app. split; auto.
      apply Forall_forall. intros t Ht. eapply keep_mask_window; eauto. }
    destruct x3.
    + inv_ret H. now subst.
    + eapply IH; eauto.
Qed.

Lemma extraction_gives_count (r : Spike2RawIO) (seg_index chan_id : Z)
  (t_start t_stop : option float) (marker_filter : option unit_id)
  (lim0 lim1 : option Z) (other : option string) (ts : list Z)
  (ov : option (list (list byte))) :
  time_slice_limits r seg_index t_start t_stop = inr (lim0, lim1) ->
  _get_internal_timestamp_ r seg_index chan_id t_start t_stop other
    marker_filter = inr (ts, ov) ->
  _count_in_time_slice r seg_index chan_id lim0 lim1 marker_filter
    = inr (Py.len ts)
  /\ Forall (in_window lim0 lim1) ts.
Proof.
  intros Hlim H. unfold _get_internal_timestamp_ in H.
  inv_bind H. inv_bind H. inv_bind H. rewrite Hlim in H. cbn [bind] in H.
  inv_bind H. destruct x2 as [tss ovs].
  assert (Hts : ts = concat tss).
  { destruct other as [name|]; [destruct existsb; [|discriminate]|];
      inv_ret H; congruence. }
  subst ts. split.
  - unfold _count_in_time_slice. step E0. step E. step E1.
    rewrite (timestamp_loop_count _ _ _ _ _ _ _ _ _ 0 E2).
    f_equal; try (unfold Py.len; simpl; lia).
  - eapply timestamp_loop_window; eauto.
Qed.

Lemma count_gives_extraction (r : Spike2RawIO) (seg_index chan_id : Z)
  (t_start t_stop : option float) (marker_filter : option unit_id)
  (lim0 lim1 : option Z) (n : Z) :
  time_slice_limits r seg_index t_start t_stop = inr (lim0, lim1) ->
  _count_in_time_slice r seg_index chan_id lim0 lim1 marker_filter = inr n ->
  exists ts,
    _get_internal_timestamp_ r seg_index chan_id t_start t_stop None
      marker_filter = inr (ts, None)
    /\ Py.len ts = n.
Proof.
  intros Hlim H. unfold _count_in_time_slice in H.
  inv_bind H. inv_bind H. inv_bind H.
  destruct (count_loop_timestamp _ _ _ _ _ _ [] [] _ H) as (tss & Ht & ->).
  unfold _get_internal_timestamp_. step E0. step E. step E1. step Hlim.
  step Ht. eexists. split; [reflexivity|]. unfold Py.len. simpl. lia.
Qed.

Lemma extraction_has_limits (r : Spike2RawIO) (seg_index chan_id : Z)
  (t_start t_stop : option float) (other : option string)
  (marker_filter : option unit_id) p :
  _get_internal_timestamp_ r seg_index chan_id t_start t_stop other
    marker_filter = inr p ->
  exists lim0 lim1,
    time_slice_limits r seg_index t_start t_stop = inr (lim0, lim1).
Proof.
  unfold _get_internal_timestamp_. intros H.
  apply bind_inr in H as (ci & _ & H).
  apply bind_inr in H as (bl & _ & H).
  apply bind_inr in H as (dt & _ & H).
  apply bind_inr in H as ([lim0 lim1] & E & _). eauto.
Qed.

Lemma segment_limits (r : Spike2RawIO) (seg_index : Z) (lim0 lim1 : option Z) :
  time_slice_limits r seg_index None None = inr (lim0, lim1) <->
  exists l0, lim0 = Some l0
             /\ Py.index (_seg_t_starts r) seg_index = inr l0
             /\ Py.index (_seg_t_stops r) seg_index = inr lim1.
Proof.
  unfold time_slice_limits. split.
  - intros H.
    apply bind_inr in H as (a & Ea & H).
    apply bind_inr in H as (b & Eb & H).
    apply bind_inr in Ea as (l0 & E0 & Ea).
    inv_ret Ea. unfold ret in H. injection H as <- <-. subst. eauto.
  - intros (l0 & -> & E0 & E1). step E0. step E1. reflexivity.
Qed.

(** For a spike unit and a whole segment: the spike count is the length
    of the timestamps of the unit. *)
Lemma spike_count_is_length (r : Spike2RawIO)
  (block_index seg_index unit_index : Z) :
  (forall ts, _get_spike_timestamps r block_index seg_index unit_index None None
                = inr ts ->
              _spike_count r block_index seg_index unit_index = inr (Py.len ts)) /\
  (forall n, _spike_count r block_index seg_index unit_index = inr n ->
             exists ts,
               _get_spike_timestamps r block_index seg_index unit_index None None
                 = inr ts /\ Py.len ts = n).
Proof.
  unfold _spike_count, _get_spike_timestamps. split.
  - intros ts H.
    apply bind_inr in H as ([chan_id u] & Eu & H).
    apply bind_inr in H as ([ts' ov] & Ex & H).
    inv_ret H. simpl in H. subst ts'.
    destruct (extraction_has_limits _ _ _ _ _ _ _ Ex) as (lim0 & lim1 & L).
    pose proof (proj1 (segment_limits r seg_index lim0 lim1) L)
      as (l0 & -> & L0 & L1).
    step Eu. step L0. step L1.
    eapply extraction_gives_count; eauto.
  - intros n H.
    apply bind_inr in H as ([chan_id u] & Eu & H).
    apply bind_inr in H as (l0 & L0 & H).
    apply bind_inr in H as (l1 & L1 & H).
    step Eu.
    assert (L : time_slice_limits r seg_index None None = inr (Some l0, l1))
      by (apply segment_limits; eauto).
    destruct (@count_gives_extraction r seg_index chan_id None None _ _ _ n L H)
      as (ts & -> & Hn).
    cbn [bind]. eauto.
Qed.



(** ** Indexing, [enumerate] and dicts keyed by channel *)

Lemma nth_error_Some_lt {A} (l : list A) (n : nat) (x : A) :
  nth_error l n = Some x -> (n < length l)%nat.
Proof. intros H. apply nth_error_Some. congruence. Qed.

Lemma index_nonneg_inr {A} (l : list A) (k : Z) (x : A) :
  0 <= k -> (Py.index l k = inr x <-> nth_error l (Z.to_nat k) = Some x).
Proof.
  intros Hk. unfold Py.index.
  replace (k <? 0) with false by (symmetry; apply Z.ltb_ge; lia).
  replace (0 <=? k) with true by (symmetry; apply Z.leb_le; lia).
  cbn [andb]. destruct (Z.ltb_spec k (Py.len l)) as [Hlt | Hge].
  - unfold ret, raise.
    destruct (nth_error l (Z.to_nat k)) eqn:E; split; intros H;
      try discriminate; congruence.
  - split; [discriminate|]. intros H.
    apply nth_error_Some_lt in H. unfold Py.len in Hge. lia.
Qed.

Lemma index_inr_bounds {A} (l : list A) (k : Z) (x : A) :
  Py.index l k = inr x -> - Py.len l <= k < Py.len l.
Proof.
  unfold Py.index. destruct (Z.ltb_spec k 0);
    destruct (andb _ _) eqn:E; try discriminate;
    apply andb_true_iff in E as [E1 E2]; lia.
Qed.

Lemma lookup_enumerate_from {A} (l : list A) (s : nat) (k : Z) :
  Py.lookup (combine (map Z.of_nat (seq s (length l))) l) k =
  if Z.of_nat s <=? k then nth_error l (Z.to_nat k - s) else None.
Proof.
  revert s. induction l as [|a l IH]; intros s.
  - simpl. destruct (_ <=? _); [now destruct (_ - _)%nat | reflexivity].
  - cbn [length seq map combine Py.lookup]. rewrite IH.
    destruct (Z.eqb_spec (Z.of_nat s) k) as [<- | Hne].
    + replace (Z.of_nat s <=? Z.of_nat s) with true
        by (symmetry; apply Z.leb_le; lia).
      now replace (Z.to_nat (Z.of_nat s) - s)%nat with 0%nat by lia.
    + destruct (Z.leb_spec (Z.of_nat (S s)) k), (Z.leb_spec (Z.of_nat s) k);
        try lia; try reflexivity.
      replace (Z.to_nat k - s)%nat with (S (Z.to_nat k - S s)) by lia.
      reflexivity.
Qed.

Lemma lookup_enumerate {A} (l : list A) (k : Z) :
  Py.lookup (Py.enumerate l) k =
  if 0 <=? k then nth_error l (Z.to_nat k) else None.
Proof.
  unfold Py.enumerate, Py.range, Py.len. rewrite Nat2Z.id.
  rewrite lookup_enumerate_from. simpl Z.of_nat.
  now rewrite Nat.sub_0_r.
Qed.

Lemma getitem_enumerate {A} (l : list A) (k : Z) (x : A) :
  Py.getitem (Py.enumerate l) k = inr x <->
  0 <= k /\ nth_error l (Z.to_nat k) = Some x.
Proof.
  unfold Py.getitem. rewrite lookup_enumerate.
  destruct (Z.leb_spec 0 k).
  - unfold ret, raise. destruct (nth_error l (Z.to_nat k)); split.
    + intros [= ->]. auto.
    + intros [_ [= ->]]. reflexivity.
    + discriminate.
    + intros [_ [=]].
  - split; [discriminate | lia].
Qed.

Lemma lookup_map_values {A B} (g : Z * A -> B) (d : list (Z * A)) (k : Z) :
  Py.lookup (map (fun cb => (fst cb, g cb)) d) k =
  option_map (fun v => g (k, v)) (Py.lookup d k).
Proof.
  induction d as [|[c v] d IH]; simpl; [reflexivity|].
  destruct (Z.eqb_spec c k) as [-> | _]; [reflexivity | apply IH].
Qed.

Lemma nth_error_combine {A B} (a : list A) (b : list B) (n : nat) x y :
  nth_error a n = Some x -> nth_error b n = Some y ->
  nth_error (combine a b) n = Some (x, y).
Proof.
  revert a b. induction n as [|n IH]; intros [|x' a] [|y' b]; simpl;
    try discriminate.
  - intros [= ->] [= ->]. reflexivity.
  - apply IH.
Qed.

Lemma in_enumerate {A} (l : list A) (k : Z) (x : A) :
  0 <= k -> nth_error l (Z.to_nat k) = Some x -> In (k, x) (Py.enumerate l).
Proof.
  intros Hk H. unfold Py.enumerate.
  pose proof (nth_error_Some_lt _ _ H) as Hlt.
  assert (Hr : nth_error (Py.range (Py.len l)) (Z.to_nat k) = Some k).
  { unfold Py.range, Py.len. rewrite Nat2Z.id.
    rewrite nth_error_map, nth_error_seq.
    destruct (Nat.ltb_spec (Z.to_nat k) (length l)); [|lia].
    simpl. f_equal. lia. }
  eapply nth_error_In. apply nth_error_combine; eauto.
Qed.

Lemma NoDup_range (n : Z) : NoDup (Py.range n).
Proof.
  unfold Py.range. apply Injective_map_NoDup.
  - intros a b. apply Nat2Z.inj.
  - apply seq_NoDup.
Qed.

Lemma NoDup_keys_enumerate {A} (l : list A) : NoDup (map fst (Py.enumerate l)).
Proof. rewrite map_fst_enumerate. apply NoDup_range. Qed.

(** ** Sets and sorting of unit ids *)

Lemma set_add_In (x : Z) (s : list Z) (v : Z) :
  In v (Py.set_add x s) <-> v = x \/ In v s.
Proof.
  unfold Py.set_add. destruct (existsb (Z.eqb x) s) eqn:E.
  - split; [auto|]. intros [-> | H]; [|exact H].
    apply existsb_exists in E as (y & Hy & Exy). apply Z.eqb_eq in Exy. now subst.
  - rewrite in_app_iff. simpl. intuition.
Qed.

Lemma set_add_NoDup (x : Z) (s : list Z) : NoDup s -> NoDup (Py.set_add x s).
Proof.
  intros H. unfold Py.set_add. destruct (existsb (Z.eqb x) s) eqn:E; [exact H|].
  apply NoDup_app; [exact H | repeat constructor; auto |].
  intros v Hv [<- | []].
  assert (existsb (Z.eqb x) s = true); [|congruence].
  apply existsb_exists. exists x. split; [exact Hv | apply Z.eqb_refl].
Qed.

Lemma set_update_In (xs s : list Z) (v : Z) :
  In v (Py.set_update s xs) <-> In v s \/ In v xs.
Proof.
  unfold Py.set_update. revert s. induction xs as [|x xs IH]; intros s; simpl.
  - intuition.
  - rewrite IH, set_add_In. intuition.
Qed.

Lemma set_update_NoDup (xs s : list Z) : NoDup s -> NoDup (Py.set_update s xs).
Proof.
  unfold Py.set_update. revert s. induction xs as [|x xs IH]; intros s H; simpl.
  - exact H.
  - apply IH. now apply set_add_NoDup.
Qed.

Lemma insert_sorted_perm (x : Z) (l : list Z) :
  Permutation (Py.insert_sorted x l) (x :: l).
Proof.
  induction l as [|y l IH]; simpl; [reflexivity|].
  destruct (x <=? y); [reflexivity|].
  rewrite IH. apply perm_swap.
Qed.

Lemma sorted_perm (l : list Z) : Permutation (Py.sorted l) l.
Proof.
  unfold Py.sorted. induction l as [|x l IH]; simpl; [reflexivity|].
  rewrite insert_sorted_perm. now constructor.
Qed.

Lemma insert_sorted_sorted (x : Z) (l : list Z) :
  StronglySorted Z.le l -> StronglySorted Z.le (Py.insert_sorted x l).
Proof.
  induction l as [|y l IH]; intros H; simpl.
  - repeat constructor.
  - inversion H as [|? ? Hs Hall]; subst.
    destruct (Z.leb_spec x y).
    + constructor; [exact H|]. constructor; [lia|].
      eapply Forall_impl; [|exact Hall]. simpl. intros; lia.
    + constructor; [auto|].
      eapply Permutation_Forall; [symmetry; apply insert_sorted_perm|].
      constructor; [lia | exact Hall].
Qed.

Lemma sorted_sorted (l : list Z) : StronglySorted Z.le (Py.sorted l).
Proof.
  unfold Py.sorted. induction l as [|x l IH]; simpl; [constructor|].
  now apply insert_sorted_sorted.
Qed.

Lemma sorted_strict (l : list Z) :
  NoDup l -> StronglySorted Z.le l -> StronglySorted Z.lt l.
Proof.
  induction l as [|x l IH]; intros Hn Hs; [constructor|].
  inversion Hn as [|? ? Hnot Hn']; inversion Hs as [|? ? Hs' Hall]; subst.
  constructor; [auto|].
  apply Forall_forall. intros y Hy.
  pose proof (proj1 (Forall_forall _ _) Hall y Hy).
  assert (x <> y) by (intros ->; contradiction). lia.
Qed.

Lemma strictly_sorted_unique (l1 l2 : list Z) :
  StronglySorted Z.lt l1 -> StronglySorted Z.lt l2 ->
  (forall v, In v l1 <-> In v l2) -> l1 = l2.
Proof.
  revert l2. induction l1 as [|x l1 IH]; intros l2 H1 H2 Hin.
  - destruct l2 as [|y l2]; [reflexivity|].
    exfalso. apply (proj2 (Hin y)). now left.
  - destruct l2 as [|y l2]; [exfalso; apply (proj1 (Hin x)); now left|].
    inversion H1 as [|? ? Hs1 Hall1]; inversion H2 as [|? ? Hs2 Hall2]; subst.
    pose proof (proj1 (Forall_forall _ _) Hall1) as F1.
    pose proof (proj1 (Forall_forall _ _) Hall2) as F2.
    assert (x = y).
    { destruct (proj1 (Hin x) (or_introl eq_refl)) as [-> | Hx]; [reflexivity|].
      destruct (proj2 (Hin y) (or_introl eq_refl)) as [-> | Hy]; [reflexivity|].
      specialize (F1 y Hy). specialize (F2 x Hx). lia. }
    subst y. f_equal. apply IH; auto.
    intros v. split; intros Hv.
    + destruct (proj1 (Hin v) (or_intror Hv)) as [<- | ?]; [|assumption].
      specialize (F1 x Hv). lia.
    + destruct (proj2 (Hin v) (or_intror Hv)) as [<- | ?]; [|assumption].
      specialize (F2 x Hv). lia.
Qed.

Lemma np_unique_In (l : list Z) (v : Z) : In v (np_unique l) <-> In v l.
Proof.
  unfold np_unique. split; intros H.
  - apply (Permutation_in _ (sorted_perm _)) in H.
    apply set_update_In in H as [[] | H]. exact H.
  - apply (Permutation_in _ (Permutation_sym (sorted_perm _))).
    apply set_update_In. now right.
Qed.

(** ** The units of a waveform channel *)

Lemma int_column_inr dt name off raw l :
  int_column dt name off raw = inr l ->
  l = map (fun rec => field_i4 rec off) raw.
Proof.
  unfold int_column. destruct existsb.
  - intros H. inv_ret H. now subst.
  - destruct (fields dt); discriminate.
Qed.

Lemma block_marks_inr mm dt bl marks :
  block_marks mm dt bl = inr marks ->
  exists raw ts m,
    read_block mm dt bl = inr raw /\ tick_column dt raw = inr ts /\
    marker_column dt raw = inr m /\ marks = combine ts m /\
    length ts = length raw /\ length m = length raw.
Proof.
  unfold block_marks. intros H.
  apply bind_inr in H as (raw & Er & H).
  apply bind_inr in H as (ts & Et & H).
  apply bind_inr in H as (m & Em & H). inv_ret H.
  exists raw, ts, m. repeat split; auto.
  - apply int_column_inr in Et. subst ts. apply length_map.
  - apply int_column_inr in Em. subst m. apply length_map.
Qed.

Lemma scan_fold_units mm dt (bls : list data_block) :
  forall acc u marks,
    foldM (fun bl unit_ids =>
             raw_data <- read_block mm dt bl ;;
             m <- marker_column dt raw_data ;;
             let marker := map (fun x => Z.land x 255) m in
             ret (Py.set_update unit_ids (np_unique marker)))
          bls acc = inr u ->
    mapM (block_marks mm dt) bls = inr marks ->
    NoDup acc ->
    NoDup u /\
    forall v, In v u <->
              In v acc \/ In v (map (fun tm => low_byte (snd tm)) (concat marks)).
Proof.
  induction bls as [|bl bls IH]; intros acc u marks H Hm Hn.
  - simpl in H, Hm. inv_ret H. inv_ret Hm. subst. simpl. intuition.
  - cbn [foldM] in H. cbn [mapM] in Hm.
    apply bind_inr in H as (acc' & Eb & H).
    apply bind_inr in Hm as (mk & Ek & Hm).
    apply bind_inr in Hm as (marks' & Ems & Hm). inv_ret Hm. subst marks.
    apply bind_inr in Eb as (raw & Er & Eb).
    apply bind_inr in Eb as (m & Emk & Eb). inv_ret Eb.
    apply block_marks_inr in Ek
      as (raw' & ts & m' & Er' & Et & Em' & -> & Lt & Lm).
    rewrite Er in Er'. injection Er' as <-.
    rewrite Emk in Em'. injection Em' as <-.
    destruct (IH acc' u marks' H Ems) as [Hnu Hin].
    { subst acc'. now apply set_update_NoDup. }
    split; [exact Hnu|]. intros v. rewrite Hin. subst acc'.
    rewrite set_update_In, np_unique_In.
    cbn [concat]. rewrite map_app, in_app_iff.
    rewrite <- (map_map snd low_byte (combine ts m)).
    rewrite map_snd_combine_le by lia.
    unfold low_byte. intuition.
Qed.

(** Lines 281-290: the units of a channel are the distinct low bytes of
    its markers, in increasing order. *)
Lemma scan_unit_ids_spec mm dt bls ids marks :
  scan_unit_ids mm dt bls = inr ids ->
  mapM (block_marks mm dt) bls = inr marks ->
  StronglySorted Z.lt ids /\
  forall v, In v ids <->
            In v (map (fun tm => low_byte (snd tm)) (concat marks)).
Proof.
  unfold scan_unit_ids. intros H Hm.
  apply bind_inr in H as (u & Eu & H). inv_ret H. subst ids.
  destruct (@scan_fold_units mm dt bls [] u marks Eu Hm (NoDup_nil _))
    as [Hn Hin].
  split.
  - apply sorted_strict; [|apply sorted_sorted].
    eapply Permutation_NoDup; [symmetry; apply sorted_perm | exact Hn].
  - intros v. split; intros H.
    + apply (Permutation_in _ (sorted_perm u)) in H.
      apply Hin in H as [[] | H]. exact H.
    + apply (Permutation_in _ (Permutation_sym (sorted_perm u))).
      apply Hin. now right.
Qed.

Lemma of_chan_app chan_id us vs :
  of_chan chan_id (us ++ vs) = of_chan chan_id us ++ of_chan chan_id vs.
Proof. apply filter_app. Qed.

Lemma of_chan_other chan_id c (ids : list unit_id) :
  c <> chan_id -> of_chan chan_id (map (fun u => (c, u)) ids) = [].
Proof.
  intros H. induction ids as [|u ids IH]; simpl; [reflexivity|].
  destruct (Z.eqb_spec c chan_id); [contradiction | exact IH].
Qed.

Lemma of_chan_same chan_id (ids : list unit_id) :
  of_chan chan_id (map (fun u => (chan_id, u)) ids)
  = map (fun u => (chan_id, u)) ids.
Proof.
  induction ids as [|u ids IH]; simpl; [reflexivity|].
  rewrite Z.eqb_refl. f_equal. exact IH.
Qed.

Lemma waveform_kind ci :
  kind_in ci [6; 7] = true ->
  kind_in ci [1; 9] = false /\ kind_in ci [2; 3; 4; 5; 8] = false.
Proof.
  unfold kind_in. simpl. rewrite !orb_false_r. intros H.
  apply orb_true_iff in H as [H | H]; apply Z.eqb_eq in H; rewrite H; auto.
Qed.

(** What the typed-channel loop appends to [internal_unit_ids] for one
    channel. *)
Lemma typed_step_units cfg info mm part c ci bl acc acc' :
  typed_channel_step cfg info mm part (c, (ci, bl)) acc = inr acc' ->
  exists ids : list unit_id,
    tc_unit_ids acc' = tc_unit_ids acc ++ map (fun u => (c, u)) ids /\
    (kind_in ci [6; 7] = true -> ced_units cfg = true ->
     exists dt vs, get_channel_dtype ci = inr dt /\
                   scan_unit_ids mm dt bl = inr vs /\ ids = map Marker vs).
Proof.
  unfold typed_channel_step. cbn [fst snd]. intros H.
  apply bind_inr in H as (sr & _ & H).
  destruct (kind_in ci [1; 9]) eqn:K19.
  { exists []. split.
    - destruct (negb _); [|destruct (kind ci =? 1)]; inv_ret H; subst;
        simpl; now rewrite app_nil_r.
    - intros K. apply waveform_kind in K as [K _]. congruence. }
  destruct (kind_in ci [2; 3; 4; 5; 8]) eqn:Kev.
  { exists []. split.
    - inv_ret H. subst. simpl. now rewrite app_nil_r.
    - intros K. apply waveform_kind in K as [_ K]. congruence. }
  destruct (kind_in ci [6; 7]) eqn:Kw.
  2:{ exists []. split; [|discriminate].
      inv_ret H. subst. simpl. now rewrite app_nil_r. }
  destruct (kind ci =? 6).
  all: apply bind_inr in H as (ids & Eids & H); inv_ret H; subst acc';
    exists ids; (split; [reflexivity|]); intros _ Hced; rewrite Hced in Eids;
    apply bind_inr in Eids as (dt & Edt & Eids);
    apply bind_inr in Eids as (vs & Evs & Eids); inv_ret Eids; eauto.
Qed.

Lemma typed_fold_without cfg info mm part chan_id
  (chans : list (Z * (chan_info * list data_block))) :
  forall acc tc,
    foldM (typed_channel_step cfg info mm part) chans acc = inr tc ->
    ~ In chan_id (map fst chans) ->
    of_chan chan_id (tc_unit_ids tc) = of_chan chan_id (tc_unit_ids acc).
Proof.
  induction chans as [|[c [ci bl]] chans IH]; intros acc tc H Hnot.
  - simpl in H. inv_ret H. now subst.
  - cbn [foldM] in H. apply bind_inr in H as (acc' & Es & H).
    rewrite (IH _ _ H) by (intros Hin; apply Hnot; now right).
    destruct (@typed_step_units _ _ _ _ _ _ _ _ _ Es) as (ids & -> & _).
    rewrite of_chan_app, of_chan_other, app_nil_r; [reflexivity|].
    intros ->. apply Hnot. now left.
Qed.

Lemma typed_fold_units cfg info mm part chan_id ci bl
  (chans : list (Z * (chan_info * list data_block))) :
  kind_in ci [6; 7] = true -> ced_units cfg = true ->
  forall acc tc,
    foldM (typed_channel_step cfg info mm part) chans acc = inr tc ->
    NoDup (map fst chans) ->
    In (chan_id, (ci, bl)) chans ->
    exists dt vs,
      get_channel_dtype ci = inr dt /\ scan_unit_ids mm dt bl = inr vs /\
      of_chan chan_id (tc_unit_ids tc)
      = of_chan chan_id (tc_unit_ids acc)
        ++ map (fun u => (chan_id, u)) (map Marker vs).
Proof.
  intros Kw Hced.
  induction chans as [|[c [ci' bl']] chans IH]; intros acc tc H Hnd Hin.
  - contradiction.
  - cbn [foldM] in H. apply bind_inr in H as (acc' & Es & H).
    cbn [map fst] in Hnd. inversion Hnd as [|? ? Hnot Hnd']; subst.
    destruct (@typed_step_units _ _ _ _ _ _ _ _ _ Es) as (ids & Eacc & Hw).
    destruct Hin as [Heq | Hin].
    + injection Heq as -> -> ->.
      destruct (Hw Kw Hced) as (dt & vs & Edt & Evs & ->).
      exists dt, vs. repeat split; auto.
      rewrite (@typed_fold_without _ _ _ _ _ _ _ _ H Hnot), Eacc.
      now rewrite of_chan_app, of_chan_same.
    + destruct (IH _ _ H Hnd' Hin) as (dt & vs & Edt & Evs & ->).
      exists dt, vs. repeat split; auto. f_equal.
      rewrite Eacc, of_chan_app, of_chan_other, app_nil_r; [reflexivity|].
      intros ->. apply Hnot.
      apply (in_map fst) in Hin. exact Hin.
Qed.

Lemma combine_fst_snd {A B} (d : list (A * B)) :
  combine (map fst d) (map snd d) = d.
Proof. induction d as [|[a b] d IH]; simpl; [reflexivity | now rewrite IH]. Qed.

(** A dict whose keys are [0 .. n-1] in order is indexed by position. *)
Lemma lookup_range_keys {A} (d : list (Z * A)) (k : Z) (v : A) :
  map fst d = Py.range (Py.len d) ->
  Py.lookup d k = Some v ->
  0 <= k /\ nth_error (map snd d) (Z.to_nat k) = Some v.
Proof.
  intros Hk H. rewrite <- (combine_fst_snd d) in H. rewrite Hk in H.
  replace (Py.len d) with (Py.len (map snd d)) in H by apply len_map.
  change (Py.lookup (Py.enumerate (map snd d)) k = Some v) in H.
  rewrite lookup_enumerate in H.
  destruct (Z.leb_spec 0 k); [auto | discriminate].
Qed.

Lemma final_all_keys index chans :
  map fst (final_all_data_blocks (Py.enumerate index) chans)
  = Py.range (Py.len (final_all_data_blocks (Py.enumerate index) chans)).
Proof.
  unfold final_all_data_blocks. rewrite map_map. cbn [fst].
  rewrite len_map, map_fst_enumerate. f_equal.
  unfold Py.len, Py.enumerate. rewrite length_combine, range_len_length. lia.
Qed.

Lemma getitem_inr {A} (d : list (Z * A)) (k : Z) (v : A) :
  Py.getitem d k = inr v <-> Py.lookup d k = Some v.
Proof.
  unfold Py.getitem, ret, raise. destruct (Py.lookup d k); split;
    intros H; try discriminate; congruence.
Qed.

Lemma in_last {A} (x : A) (l : list A) : In (last l x) (x :: l).
Proof.
  eapply nth_error_In. apply nth_error_last.
Qed.

(** On a block whose ticks all lie in the window, the mask of one marker
    byte keeps the records carrying it. *)
Lemma keep_count (l0 l1 v : Z) (ts m : list Z) :
  length ts = length m ->
  Forall (fun t => l0 <= t <= l1) ts ->
  Py.len (filter id
    (map (fun p : bool * bool => fst p && snd p) (combine
       (map (fun p : bool * bool => fst p && snd p)
            (combine (map (fun t => Z.geb t l0) ts)
                     (map (fun t => Z.leb t l1) ts)))
       (map (marker_matches (Marker v)) m))))
  = Z.of_nat (count_occ Z.eq_dec (map low_byte m) v).
Proof.
  revert m. induction ts as [|t ts IH]; intros [|x m] Hlen HF;
    simpl in Hlen; try discriminate; [reflexivity|].
  inversion HF as [|? ? Ht HF']; subst.
  specialize (IH m ltac:(lia) HF').
  cbn [map combine fst snd].
  replace (Z.geb t l0) with true by (symmetry; apply Z.geb_le; lia).
  replace (Z.leb t l1) with true by (symmetry; apply Z.leb_le; lia).
  cbn [andb marker_matches count_occ]. fold (low_byte x).
  destruct (Z.eq_dec (low_byte x) v) as [-> | Hne].
  - rewrite Z.eqb_refl. cbn [filter id]. rewrite len_cons, IH. lia.
  - replace (low_byte x =? v) with false by (symmetry; apply Z.eqb_neq; auto).
    cbn [filter id]. exact IH.
Qed.

Lemma Forall_fst_combine {A B} (P : A -> Prop) (a : list A) (b : list B) :
  length a = length b ->
  Forall (fun p => P (fst p)) (combine a b) -> Forall P a.
Proof.
  revert b. induction a as [|x a IH]; intros [|y b] Hlen H; simpl in *;
    try discriminate; constructor; inversion H; subst; eauto.
Qed.

(** When every block holds a record and every tick lies in the window,
    the counting loop visits all blocks and counts the records carrying the
    marker byte. *)
Lemma count_loop_in_window mm dt (l0 l1 v : Z) (bls : list data_block) :
  forall marks nb,
    mapM (block_marks mm dt) bls = inr marks ->
    Forall (fun blk => blk <> [] /\ Forall (fun tm => l0 <= fst tm <= l1) blk)
           marks ->
    count_loop mm dt (Some l0) (Some l1) (Some (Marker v)) bls nb
    = inr (nb + Z.of_nat (count_occ Z.eq_dec
                            (map (fun tm => low_byte (snd tm)) (concat marks)) v)).
Proof.
  induction bls as [|bl bls IH]; intros marks nb Hm HF.
  - simpl in Hm. inv_ret Hm. subst. simpl. unfold ret. f_equal. lia.
  - cbn [mapM] in Hm.
    apply bind_inr in Hm as (mk & Ek & Hm).
    apply bind_inr in Hm as (marks' & Ems & Hm). inv_ret Hm. subst marks.
    inversion HF as [|? ? [Hne Hwin] HF']; subst.
    apply block_marks_inr in Ek as (raw & ts & m & Er & Et & Em & -> & Lt & Lm).
    assert (Hts : Forall (fun t => l0 <= t <= l1) ts)
      by (apply (Forall_fst_combine (fun t => l0 <= t <= l1) ts m);
          [lia | exact Hwin]).
    cbn [count_loop]. step Er. step Et.
    unfold keep_mask, cmp_mask. cbn [bind ret]. step Em. cbn [bind ret].
    assert (Hstop : past_limit ts (Some l1) = inr false).
    { unfold past_limit. destruct ts as [|t ts']; [destruct m; contradiction|].
      rewrite index_last. cbn [bind]. unfold ret. f_equal.
      apply Z.ltb_ge.
      apply (proj1 (Forall_forall _ _) Hts). apply in_last. }
    step Hstop.
    rewrite keep_count by (auto; lia).
    rewrite (IH _ _ Ems HF'). f_equal.
    cbn [concat]. rewrite map_app, count_occ_app.
    rewrite <- (map_map snd low_byte (combine ts m)).
    rewrite map_snd_combine_le by lia. lia.
Qed.

(** C6.  With unit discrimination enabled, a waveform channel (kind 6 or
    7) whose blocks hold markers with low bytes 0, 1, 1 and 2, in any order
    and however spread over the blocks, gets exactly the three units 0, 1
    and 2, in this order; and over a segment whose tick range holds every
    spike of the channel (no block being empty), the spike count of unit 1
    is 2. *)
Theorem four_markers_three_units (cfg : config) (f : smr_file)
  (r : Spike2RawIO) (chan_id : Z) (ci : chan_info)
  (marks : list (list (Z * Z))) :
  _parse_header cfg f = inr r ->
  ced_units cfg = true ->
  Py.index (file_channels f) chan_id = inr ci ->
  kind_in ci [6; 7] = true ->
  channel_marks r chan_id = inr marks ->
  Permutation (map (fun tm => low_byte (snd tm)) (concat marks)) [0; 1; 1; 2] ->
  units_of_channel r chan_id = [Marker 0; Marker 1; Marker 2] /\
  forall block_index seg_index unit_index l0 l1,
    unit_of r unit_index = inr (chan_id, Marker 1) ->
    Py.index (_seg_t_starts r) seg_index = inr l0 ->
    Py.index (_seg_t_stops r) seg_index = inr (Some l1) ->
    Forall (fun blk => blk <> [] /\ Forall (fun tm => l0 <= fst tm <= l1) blk)
           marks ->
    _spike_count r block_index seg_index unit_index = inr 2.
Proof.
  intros Hparse Hced Hci Kw Hmarks Hperm.
  apply parse_header_inv in Hparse
    as (types & index & gaps & sg & tc & gr & _ & _ & _ & _ & Htc & _ & ->).
  unfold channel_marks in Hmarks. cbn [_all_data_blocks _channel_infos _memmap] in Hmarks.
  apply bind_inr in Hmarks as (bl & Ebl & Hmarks).
  apply bind_inr in Hmarks as (ci' & Eci & Hmarks).
  rewrite Hci in Eci. injection Eci as <-.
  apply bind_inr in Hmarks as (dt & Edt & Hmarks).
  pose proof Ebl as Ebl'. apply getitem_inr in Ebl'.
  apply lookup_range_keys in Ebl' as [Hk Hbl]; [|apply final_all_keys].
  pose proof Hci as Hci'. apply index_nonneg_inr in Hci'; [|exact Hk].
  unfold typed_channels_of in Htc.
  destruct (@typed_fold_units cfg (fix_info (file_info f)) (file_bytes f)
              (map fst (seg_channels sg)) chan_id ci bl _ Kw Hced _ _ Htc)
    as (dt' & vs & Edt' & Evs & Hunits).
  { apply NoDup_keys_enumerate. }
  { apply in_enumerate; [exact Hk|]. now apply nth_error_combine. }
  rewrite Edt in Edt'. injection Edt' as <-.
  destruct (@scan_unit_ids_spec _ _ _ _ _ Evs Hmarks) as [Hsorted Hin].
  assert (Hvs : vs = [0; 1; 2]).
  { apply strictly_sorted_unique; [exact Hsorted | |].
    - repeat constructor; lia.
    - intros v. rewrite Hin. split; intros H.
      + apply (Permutation_in _ Hperm) in H. simpl in *. intuition.
      + apply (Permutation_in _ (Permutation_sym Hperm)). simpl in *. intuition. }
  subst vs. split.
  - unfold units_of_channel. cbn [internal_unit_ids]. fold (of_chan chan_id (tc_unit_ids tc)).
    rewrite Hunits. reflexivity.
  - intros block_index seg_index unit_index l0 l1 Hu L0 L1 HF.
    unfold _spike_count. step Hu. cbn [options]. rewrite Hced.
    step L0. step L1.
    unfold _count_in_time_slice. cbn [_all_data_blocks _channel_infos _memmap].
    step Ebl. step Hci. step Edt.
    rewrite (@count_loop_in_window _ _ l0 l1 1 _ marks 0 Hmarks HF).
    f_equal.
    rewrite (proj1 (Permutation_count_occ Z.eq_dec _ _) Hperm 1). reflexivity.
Qed.

(** The two-block waveform channel of [Scenario.four_spikes]: markers 0
    and 257, then 513 and 2; unit index 1 is unit 1 of the channel. *)
Lemma four_markers_three_units_witness :
  exists r,
    _parse_header default_config Scenario.four_spikes = inr r /\
    units_of_channel r 0 = [Marker 0; Marker 1; Marker 2] /\
    _spike_count r 0 0 1 = inr 2.
Proof.
  eexists. split; [vm_compute; reflexivity|].
  match goal with
  | |- units_of_channel ?r _ = _ /\ _ =>
      destruct (@four_markers_three_units default_config Scenario.four_spikes r 0
                  (Fixture.channel 6 652 2 4 10 "w")
                  [[(10, 0); (20, 257)]; [(30, 513); (40, 2)]])
        as [Hu Hc]
  end.
  - vm_compute. reflexivity.
  - reflexivity.
  - vm_compute. reflexivity.
  - reflexivity.
  - vm_compute. reflexivity.
  - vm_compute. apply Permutation_refl.
  - split; [exact Hu|].
    apply (Hc 0 0 1 0 40).
    + vm_compute. reflexivity.
    + vm_compute. reflexivity.
    + vm_compute. reflexivity.
    + repeat constructor; try discriminate; simpl; lia.
Defined.

(** ** Segment views of a channel's block index *)

Lemma chained_snoc a vs b c :
  chained a vs b -> b <= c -> chained a (vs ++ [(b, c)]) c.
Proof.
  revert a. induction vs as [|v vs IH]; intros a H Hc; simpl in *.
  - subst. auto.
  - destruct H as (H1 & H2 & H3). auto.
Qed.

Lemma chained_le a vs b : chained a vs b -> a <= b.
Proof.
  revert a. induction vs as [|v vs IH]; intros a H; simpl in *; [lia|].
  destruct H as (H1 & H2 & H3). specialize (IH _ H3). lia.
Qed.

Lemma view_of_eq {A} (l : list A) (a b : Z) :
  Py.view_of l (a, b) = firstn (Z.to_nat (b - a)) (skipn (Z.to_nat a) l).
Proof. reflexivity. Qed.

Lemma firstn_plus {A} (n m : nat) (l : list A) :
  firstn (n + m) l = firstn n l ++ firstn m (skipn n l).
Proof.
  revert l. induction n as [|n IH]; intros l; [reflexivity|].
  destruct l as [|x l]; simpl; [now rewrite firstn_nil|]. now rewrite IH.
Qed.

Lemma view_of_app {A} (l : list A) (a b c : Z) :
  0 <= a <= b -> b <= c ->
  Py.view_of l (a, b) ++ Py.view_of l (b, c) = Py.view_of l (a, c).
Proof.
  intros Hab Hbc. rewrite !view_of_eq.
  replace (Z.to_nat (c - a)) with (Z.to_nat (b - a) + Z.to_nat (c - b))%nat by lia.
  rewrite firstn_plus, skipn_skipn.
  now replace (Z.to_nat (b - a) + Z.to_nat a)%nat with (Z.to_nat b) by lia.
Qed.

Lemma view_of_empty {A} (l : list A) (a : Z) : Py.view_of l (a, a) = [].
Proof. rewrite view_of_eq. now replace (Z.to_nat (a - a)) with 0%nat by lia. Qed.

Lemma view_of_all {A} (l : list A) : Py.view_of l (0, Py.len l) = l.
Proof.
  rewrite view_of_eq. simpl skipn. unfold Py.len.
  replace (Z.to_nat (Z.of_nat (length l) - 0)) with (length l) by lia.
  apply firstn_all.
Qed.

(** Views that follow one another from 0 to the end rebuild the list. *)
Lemma chained_concat {A} (l : list A) (vs : list (Z * Z)) (a b : Z) :
  0 <= a -> chained a vs b ->
  concat (map (Py.view_of l) vs) = Py.view_of l (a, b).
Proof.
  revert a. induction vs as [|[x y] vs IH]; intros a Ha H; simpl in *.
  - subst. now rewrite view_of_empty.
  - destruct H as (-> & Hy & H). rewrite (IH y) by (auto; lia).
    apply view_of_app; [lia|]. now apply chained_le in H.
Qed.

Lemma length_slice_to_last {A} (l : list A) :
  length (Py.slice_to l (-1)) = (length l - 1)%nat.
Proof.
  unfold Py.slice_to, Py.slice, Py.slice_bounds, Py.norm_bound, Py.view_of.
  cbn [fst snd]. unfold Py.len.
  replace (0 <? 0) with false by reflexivity.
  replace (-1 <? 0) with true by reflexivity.
  rewrite length_firstn, length_skipn. lia.
Qed.

Lemma length_cumsum_from acc l : length (Py.cumsum_from acc l) = length l.
Proof. revert acc. induction l; intros; simpl; auto. Qed.

Lemma map_combine_fst {A B C} (f : A -> C) (g : A * B -> A) (a : list A)
  (b : list B) :
  (forall p, f (g p) = f (fst p)) -> length a = length b ->
  map (fun p => f (g p)) (combine a b) = map f a.
Proof.
  intros Hg. revert b. induction a as [|x a IH]; intros [|y b] H;
    simpl in *; try discriminate; [reflexivity|].
  rewrite Hg. simpl. f_equal. apply IH. lia.
Qed.

Lemma recompute_cumsum_entries (seg : list data_block) :
  map chain_entry (recompute_cumsum seg) = map chain_entry seg.
Proof.
  unfold recompute_cumsum. destruct seg as [|b rest]; [reflexivity|].
  cbn [map]. f_equal.
  rewrite map_map.
  apply (map_combine_fst chain_entry (fun bc => set_cumsum (fst bc) (snd bc))).
  - intros [x c]. reflexivity.
  - unfold Py.cumsum. rewrite length_cumsum_from, length_slice_to_last.
    simpl. rewrite length_map. lia.
Qed.

Lemma split3 {A} (l : list A) (a b : nat) :
  (a <= b)%nat ->
  firstn a l ++ firstn (b - a) (skipn a l) ++ skipn b l = l.
Proof.
  intros H. rewrite <- (firstn_skipn a l) at 4. f_equal.
  rewrite <- (firstn_skipn (b - a) (skipn a l)) at 2. f_equal.
  rewrite skipn_skipn. f_equal. lia.
Qed.

Lemma write_cumsum_entries (st : list data_block) (a b : Z) :
  0 <= a <= b ->
  map chain_entry (write_cumsum st (a, b)) = map chain_entry st.
Proof.
  intros H. unfold write_cumsum. cbn [fst snd].
  rewrite !map_app, recompute_cumsum_entries, <- !map_app.
  f_equal. rewrite view_of_eq.
  replace (Z.to_nat (b - a)) with (Z.to_nat b - Z.to_nat a)%nat by lia.
  apply split3. lia.
Qed.

Lemma write_cumsum_length (st : list data_block) (a b : Z) :
  0 <= a <= b -> length (write_cumsum st (a, b)) = length st.
Proof.
  intros H. rewrite <- (length_map chain_entry), write_cumsum_entries by lia.
  apply length_map.
Qed.

Lemma length_recompute (seg : list data_block) :
  length (recompute_cumsum seg) = length seg.
Proof.
  rewrite <- (length_map chain_entry), recompute_cumsum_entries.
  apply length_map.
Qed.

(** The three parts of the index around a written view. *)
Lemma write_cumsum_parts (st : list data_block) (a b : Z) :
  0 <= a <= b -> b <= Py.len st ->
  firstn (Z.to_nat a) (write_cumsum st (a, b)) = firstn (Z.to_nat a) st /\
  Py.view_of (write_cumsum st (a, b)) (a, b)
    = recompute_cumsum (Py.view_of st (a, b)) /\
  skipn (Z.to_nat b) (write_cumsum st (a, b)) = skipn (Z.to_nat b) st.
Proof.
  intros Hab Hb. unfold Py.len in Hb.
  assert (L1 : length (firstn (Z.to_nat a) st) = Z.to_nat a)
    by (rewrite length_firstn; lia).
  assert (L2 : length (recompute_cumsum (Py.view_of st (a, b)))
               = Z.to_nat (b - a)).
  { rewrite length_recompute, view_of_eq, length_firstn, length_skipn. lia. }
  unfold write_cumsum. cbn [fst snd].
  set (l1 := firstn (Z.to_nat a) st) in *.
  set (l2 := recompute_cumsum (Py.view_of st (a, b))) in *.
  set (l3 := skipn (Z.to_nat b) st).
  repeat split.
  - rewrite firstn_app, L1, Nat.sub_diag. simpl. rewrite app_nil_r.
    rewrite <- L1 at 1. apply firstn_all.
  - rewrite view_of_eq, skipn_app, L1, Nat.sub_diag. simpl skipn.
    rewrite <- L1 at 1. rewrite skipn_all. simpl.
    rewrite firstn_app, L2, Nat.sub_diag. simpl. rewrite app_nil_r.
    rewrite <- L2 at 1. apply firstn_all.
  - rewrite app_assoc, skipn_app.
    assert (L12 : length (l1 ++ l2) = Z.to_nat b) by (rewrite length_app; lia).
    rewrite L12, Nat.sub_diag. simpl skipn at 2.
    rewrite <- L12 at 1. rewrite skipn_all. reflexivity.
Qed.

Lemma view_of_firstn {A} (l : list A) (x y a : Z) :
  0 <= x <= y -> y <= a ->
  Py.view_of l (x, y) = Py.view_of (firstn (Z.to_nat a) l) (x, y).
Proof.
  intros Hxy Hya. rewrite !view_of_eq.
  rewrite skipn_firstn_comm, firstn_firstn. f_equal. lia.
Qed.

Lemma view_write_before (st : list data_block) (x y a b : Z) :
  0 <= x <= y -> y <= a -> a <= b -> b <= Py.len st ->
  Py.view_of (write_cumsum st (a, b)) (x, y) = Py.view_of st (x, y).
Proof.
  intros Hxy Hya Hab Hb.
  rewrite (@view_of_firstn _ (write_cumsum st (a, b)) x y a) by lia.
  rewrite (@view_of_firstn _ st x y a) by lia.
  f_equal. apply write_cumsum_parts; lia.
Qed.

Unset Implicit Arguments.

Lemma slice_to_last {A} (l : list A) :
  Py.slice_to l (-1) = firstn (length l - 1) l.
Proof.
  unfold Py.slice_to, Py.slice, Py.slice_bounds, Py.norm_bound, Py.view_of.
  cbn [fst snd]. unfold Py.len.
  replace (0 <? 0) with false by reflexivity.
  replace (-1 <? 0) with true by reflexivity.
  replace (Z.to_nat (Z.min 0 (Z.of_nat (length l)))) with 0%nat by lia.
  simpl skipn. f_equal. lia.
Qed.

Lemma cumsum_from_offsets (acc x : Z) (l : list Z) :
  Py.cumsum_from acc (firstn (length l) (x :: l)) = offsets_from (acc + x) l.
Proof.
  revert acc x. induction l as [|y l IH]; intros acc x; [reflexivity|].
  cbn [length firstn Py.cumsum_from offsets_from]. f_equal.
  apply (IH (acc + x) y).
Qed.

Lemma map_combine_snd {A B C} (f : A * B -> C) (a : list A) (b : list B) :
  (forall p, f p = f p) -> length a = length b ->
  forall g : B -> C, (forall x y, f (x, y) = g y) ->
  map f (combine a b) = map g b.
Proof.
  intros _. revert b. induction a as [|x a IH]; intros [|y b] H g Hg;
    simpl in *; try discriminate; [reflexivity|].
  rewrite Hg. f_equal. apply IH; auto.
Qed.

Lemma cumsum_slice_offsets (x : Z) (l : list Z) :
  Py.cumsum (Py.slice_to (x :: l) (-1)) = offsets_from x l.
Proof.
  rewrite slice_to_last. cbn [length].
  replace (S (length l) - 1)%nat with (length l) by lia.
  unfold Py.cumsum. rewrite cumsum_from_offsets. reflexivity.
Qed.

(** After line 216 the cumsum column of a segment whose first entry is 0
    counts the items before each block. *)
Lemma recompute_cumsum_wf (seg : list data_block) :
  match seg with [] => True | b :: _ => cumsum b = 0 end ->
  wf_cumsum (recompute_cumsum seg).
Proof.
  unfold wf_cumsum. intros H.
  assert (Hs : map size (recompute_cumsum seg) = map size seg).
  { pose proof (recompute_cumsum_entries seg) as E.
    apply (f_equal (map (fun e => snd (fst (fst e))))) in E.
    rewrite !map_map in E. exact E. }
  rewrite Hs. unfold recompute_cumsum. destruct seg as [|b rest]; [reflexivity|].
  cbn [map offsets_from]. rewrite H. f_equal.
  rewrite map_map.
  rewrite (map_combine_snd (fun x => cumsum (set_cumsum (fst x) (snd x))) rest
             _ (fun _ => eq_refl) ) with (g := fun c => c).
  - rewrite map_id. cbn [map]. rewrite cumsum_slice_offsets.
    now rewrite Z.add_0_l.
  - unfold Py.cumsum. rewrite length_cumsum_from, length_slice_to_last.
    cbn [map length]. rewrite length_map. lia.
  - reflexivity.
Qed.

Lemma in_firstn {A} (n : nat) (l : list A) (x : A) :
  In x (firstn n l) -> In x l.
Proof.
  intros H. rewrite <- (firstn_skipn n l). apply in_or_app. now left.
Qed.

Lemma sorted_nth_lt (l : list Z) (i k : nat) (x y : Z) :
  StronglySorted Z.lt l -> (i < k)%nat ->
  nth_error l i = Some x -> nth_error l k = Some y -> x < y.
Proof.
  intros Hs. revert i k. induction Hs as [|a l Hs IH Hall]; intros i k Hik Hi Hk.
  - destruct i; discriminate.
  - destruct k as [|k]; [lia|]. simpl in Hk. destruct i as [|i].
    + simpl in Hi. injection Hi as <-.
      apply (proj1 (Forall_forall _ _) Hall). eapply nth_error_In; eauto.
    + simpl in Hi. apply (IH i k); [lia | exact Hi | exact Hk].
Qed.

Lemma slice_bounds_id (n a b : Z) :
  0 <= a <= b -> b <= n -> Py.slice_bounds n a b = (a, b).
Proof.
  intros Hab Hb. unfold Py.slice_bounds, Py.norm_bound.
  replace (a <? 0) with false by (symmetry; apply Z.ltb_ge; lia).
  replace (b <? 0) with false by (symmetry; apply Z.ltb_ge; lia).
  f_equal; lia.
Qed.

Lemma chained_bounds a vs b :
  chained a vs b -> Forall (fun v => a <= fst v <= snd v /\ snd v <= b) vs.
Proof.
  revert a. induction vs as [|v vs IH]; intros a H; [constructor|].
  simpl in H. destruct H as (H1 & H2 & H3).
  pose proof (chained_le _ _ _ H3).
  constructor; [lia|].
  eapply Forall_impl; [|apply (IH _ H3)]. simpl. intros; lia.
Qed.

Lemma len_store_inv bl gaps nb j s :
  seg_inv bl gaps nb j s -> Py.len (store s) = Py.len bl.
Proof.
  intros (H & _). unfold Py.len. f_equal.
  rewrite <- (length_map chain_entry (store s)), H. apply length_map.
Qed.

Lemma segment_step_inv bl gaps nb j s s' :
  Forall (fun g => 0 <= g) gaps -> StronglySorted Z.lt gaps ->
  0 <= j < nb ->
  seg_inv bl gaps nb j s ->
  segment_step nb gaps j s = inr s' ->
  seg_inv bl gaps nb (j + 1) s'.
Proof.
  intros Hpos Hsorted Hj Hinv H.
  pose proof (len_store_inv _ _ _ _ _ Hinv) as Hlen.
  destruct Hinv
    as (Hentries & Hviews & e & Hch & He & He0 & Hegap & _ & Hwf & Hzero & Hfull).
  unfold segment_step in H.
  apply bind_inr in H as (fisrt_bl & Efirst & H).
  apply bind_inr in H as (b0 & Eb0 & H).
  apply bind_inr in H as (last_bl & Elast & H).
  apply bind_inr in H as (b1 & Eb1 & H).
  inv_ret H. subst s'. cbn [store views].
  (* the segment starts where the previous one ended *)
  assert (Hfirst : fisrt_bl = e).
  { destruct (Z.eqb_spec j 0) as [-> | Hne].
    - inv_ret Efirst. rewrite He0; auto.
    - apply bind_inr in Efirst as (g & Eg & Efirst). inv_ret Efirst.
      rewrite Hegap in Eg by lia. injection Eg as <-. lia. }
  subst fisrt_bl.
  apply index_inr_bounds in Eb0 as Hb0. apply index_inr_bounds in Eb1 as Hb1.
  rewrite Hlen in *.
  (* and ends after [last_bl], not before its start *)
  assert (Hlast : e < last_bl + 1 /\ last_bl + 1 <= Py.len bl).
  { destruct (Z.ltb_spec j (nb - 1)) as [Hlt | Hge].
    - pose proof Elast as Eg'.
      apply index_nonneg_inr in Eg'; [|lia].
      assert (0 <= last_bl)
        by (apply (proj1 (Forall_forall _ _) Hpos); eapply nth_error_In; eauto).
      split; [|lia].
      destruct (Z.eqb_spec j 0) as [-> | Hne]; [rewrite He0; auto; lia|].
      pose proof (Hegap ltac:(lia) ltac:(lia)) as Eg.
      apply index_nonneg_inr in Eg; [|lia].
      pose proof (sorted_nth_lt gaps (Z.to_nat (j - 1)) (Z.to_nat j)
                    (e - 1) last_bl Hsorted ltac:(lia) Eg Eg'). lia.
    - inv_ret Elast. subst last_bl. lia. }
  rewrite slice_bounds_id by lia.
  destruct (@write_cumsum_parts (store s) e (last_bl + 1) ltac:(lia)
              ltac:(rewrite Hlen; lia)) as (P1 & P2 & P3).
  unfold seg_inv. cbn [store views].
  split; [rewrite write_cumsum_entries by lia; exact Hentries|].
  split; [rewrite len_app, Hviews; reflexivity|].
  exists (last_bl + 1).
  split; [apply chained_snoc; [exact Hch|lia]|].
  split; [lia|].
  split; [intros; lia|].
  split.
  { intros _ Hlt. replace (j + 1 - 1) with j by lia.
    replace (last_bl + 1 - 1) with last_bl by lia.
    destruct (Z.ltb_spec j (nb - 1)); [exact Elast | lia]. }
  split.
  { intros _ Heq. destruct (Z.ltb_spec j (nb - 1)); [lia|].
    inv_ret Elast. subst last_bl. lia. }
  split; [|split].
  - apply Forall_app. split.
    + pose proof (chained_bounds _ _ _ Hch) as Hb.
      apply Forall_forall. intros [x y] Hin.
      pose proof (proj1 (Forall_forall _ _) Hb _ Hin) as Hxy.
      pose proof (proj1 (Forall_forall _ _) Hwf _ Hin) as Hw.
      cbn [fst snd] in *.
      rewrite view_write_before; [exact Hw | lia | lia | lia | rewrite Hlen; lia].
    + constructor; [|constructor]. rewrite P2.
      apply recompute_cumsum_wf. rewrite view_of_eq.
      destruct (firstn (Z.to_nat (last_bl + 1 - e))
                  (skipn (Z.to_nat e) (store s))) as [|b rest] eqn:Ef;
        [exact I|].
      assert (Hin : In b (skipn (Z.to_nat e) (store s))).
      { apply (in_firstn (Z.to_nat (last_bl + 1 - e))). rewrite Ef. now left. }
      apply (proj1 (Forall_forall _ _) Hzero _ Hin).
  - rewrite P3.
    replace (Z.to_nat (last_bl + 1))
      with (Z.to_nat (last_bl + 1 - e) + Z.to_nat e)%nat by lia.
    rewrite <- skipn_skipn.
    apply Forall_forall. intros b Hin.
    apply (proj1 (Forall_forall _ _) Hzero).
    rewrite <- (firstn_skipn (Z.to_nat (last_bl + 1 - e))
                  (skipn (Z.to_nat e) (store s))).
    apply in_or_app. now right.
  - apply Forall_app. split; [exact Hfull|].
    constructor; [cbn [fst snd]; lia | constructor].
Qed.

Lemma segment_fold_inv bl gaps nb :
  Forall (fun g => 0 <= g) gaps -> StronglySorted Z.lt gaps ->
  forall (n j : nat) (s s' : chan_segments),
    Z.of_nat j + Z.of_nat n = nb ->
    seg_inv bl gaps nb (Z.of_nat j) s ->
    foldM (segment_step nb gaps) (map Z.of_nat (seq j n)) s = inr s' ->
    seg_inv bl gaps nb nb s'.
Proof.
  intros Hpos Hsorted. induction n as [|n IH]; intros j s s' Hn Hinv H.
  - simpl in H. inv_ret H. subst s'.
    replace (Z.of_nat j) with nb in Hinv by lia. exact Hinv.
  - cbn [seq map foldM] in H. apply bind_inr in H as (s1 & Es & H).
    apply (IH (S j) s1 s'); [lia | | exact H].
    replace (Z.of_nat (S j)) with (Z.of_nat j + 1) by lia.
    eapply segment_step_inv; eauto. lia.
Qed.

(** Lines 196-217 for one channel whose index still has a zero cumsum
    column: the views follow one another over the whole index, one per
    segment, and each has a consistent cumsum column. *)
Lemma segment_channel_spec bl gaps nb s :
  Forall (fun g => 0 <= g) gaps -> StronglySorted Z.lt gaps ->
  0 < nb ->
  Forall (fun b => cumsum b = 0) bl ->
  segment_channel nb bl gaps = inr s ->
  seg_inv bl gaps nb nb s.
Proof.
  intros Hpos Hsorted Hnb Hzero H. unfold segment_channel, Py.range in H.
  apply (segment_fold_inv bl gaps nb Hpos Hsorted (Z.to_nat nb) 0
           {| store := bl; t_starts := []; t_stops := []; views := [] |} s);
    [lia | | exact H].
  unfold seg_inv. cbn [store views].
  split; [reflexivity|]. split; [reflexivity|].
  exists 0. simpl. pose proof (len_nonneg bl).
  repeat split; auto; try lia.
Qed.

(** *** The detected gaps are increasing block indices *)

Lemma range_sorted_from (a n : nat) :
  StronglySorted Z.lt (map Z.of_nat (seq a n)).
Proof.
  revert a. induction n as [|n IH]; intros a; simpl; constructor; [apply IH|].
  apply Forall_forall. intros x Hx.
  apply in_map_iff in Hx as (k & <- & Hk). apply in_seq in Hk. lia.
Qed.

Lemma filter_keys_sorted {A} (p : Z * A -> bool) (l : list (Z * A)) :
  StronglySorted Z.lt (map fst l) ->
  StronglySorted Z.lt (map fst (filter p l)).
Proof.
  induction l as [|[k v] l IH]; intros H; simpl; [constructor|].
  inversion H as [|? ? Hs Hall]; subst.
  destruct (p (k, v)); [|auto].
  simpl. constructor; [auto|].
  apply Forall_forall. intros x Hx.
  apply in_map_iff in Hx as ([k' v'] & <- & Hin).
  apply filter_In in Hin as [Hin _].
  apply (proj1 (Forall_forall _ _) Hall). now apply (in_map fst) in Hin.
Qed.

Lemma nonzero_sorted (mask : list bool) :
  StronglySorted Z.lt (Py.nonzero mask) /\ Forall (fun g => 0 <= g) (Py.nonzero mask).
Proof.
  unfold Py.nonzero. split.
  - apply filter_keys_sorted. rewrite map_fst_enumerate.
    apply range_sorted_from.
  - apply Forall_forall. intros g Hg.
    apply in_map_iff in Hg as ([k v] & <- & Hin).
    apply filter_In in Hin as [Hin _]. apply (in_map fst) in Hin.
    rewrite map_fst_enumerate in Hin. unfold Py.range in Hin.
    apply in_map_iff in Hin as (n & <- & _). simpl. lia.
Qed.

Lemma detect_gaps_sorted interval bl :
  StronglySorted Z.lt (detect_gaps interval bl) /\
  Forall (fun g => 0 <= g) (detect_gaps interval bl).
Proof. apply nonzero_sorted. Qed.

(** *** The block index starts with a zero cumsum column *)

Lemma read_chain_zero mm d n ind bl :
  read_chain mm d n ind = inr bl -> Forall (fun b => cumsum b = 0) bl.
Proof.
  revert ind bl. induction n as [|n IH]; intros ind bl H; simpl in H.
  - inv_ret H. subst. constructor.
  - apply bind_inr in H as (recs & _ & H).
    apply bind_inr in H as (bi & _ & H).
    apply bind_inr in H as (rest & Er & H). inv_ret H. subst.
    constructor; [reflexivity | eauto].
Qed.

Lemma build_index_zero mm d ci bl :
  build_index mm d ci = inr bl -> Forall (fun b => cumsum b = 0) bl.
Proof.
  unfold build_index. intros H. apply bind_inr in H as (l & El & H).
  inv_ret H. subst. apply read_chain_zero in El.
  apply Forall_map. eapply Forall_impl; [|exact El]. auto.
Qed.

Lemma build_all_index_zero mm d chans index :
  build_all_index mm d chans = inr index ->
  Forall (Forall (fun b => cumsum b = 0)) index.
Proof.
  unfold build_all_index. intros H. apply mapM_inr in H.
  induction H as [|ci bl chans index H _ IH]; constructor; auto.
  eapply build_index_zero; eauto.
Qed.

(** *** From the per-channel loops to the reader *)

Lemma all_gaps_in info tf chans gaps c g :
  all_gaps info tf chans = inr gaps -> In (c, g) gaps ->
  exists ci bl interval, In (c, (ci, bl)) chans /\ g = detect_gaps interval bl.
Proof.
  revert gaps. induction chans as [|[c' [ci bl]] chans IH]; intros gaps H Hin.
  - simpl in H. inv_ret H. subst. contradiction.
  - cbn [all_gaps] in H.
    apply bind_inr in H as (og & Eg & H).
    apply bind_inr in H as (gs & Egs & H). inv_ret H. subst gaps.
    assert (Hrest : In (c, g) gs -> exists ci0 bl0 interval,
                      In (c, (ci0, bl0)) ((c', (ci, bl)) :: chans)
                      /\ g = detect_gaps interval bl0).
    { intros Hg. destruct (IH gs Egs Hg) as (ci0 & bl0 & i0 & Hi & ->).
      exists ci0, bl0, i0. split; [now right | reflexivity]. }
    destruct og as [g'|]; [|auto].
    destruct Hin as [Heq | Hin]; [|auto].
    injection Heq as -> ->.
    unfold channel_gaps in Eg.
    destruct (kind_in ci [1; 9]); [|discriminate].
    destruct (0 <? _); [|discriminate].
    apply bind_inr in Eg as (interval & _ & Eg). inv_ret Eg. subst g.
    exists ci, bl, interval. split; [now left | reflexivity].
Qed.

Lemma all_gaps_keys info tf chans gaps :
  all_gaps info tf chans = inr gaps ->
  (forall c, In c (map fst gaps) -> In c (map fst chans)) /\
  (NoDup (map fst chans) -> NoDup (map fst gaps)).
Proof.
  revert gaps. induction chans as [|[c' [ci bl]] chans IH]; intros gaps H.
  - simpl in H. inv_ret H. subst. split; auto.
  - cbn [all_gaps] in H.
    apply bind_inr in H as (og & Eg & H).
    apply bind_inr in H as (gs & Egs & H). inv_ret H. subst gaps.
    destruct (IH gs Egs) as [Hsub Hnd].
    destruct og as [g'|]; cbn [map fst].
    + split.
      * intros c [-> | Hc]; [now left | right; auto].
      * intros Hn. inversion Hn as [|? ? Hnot Hn']; subst.
        constructor; [|auto]. intros Hc. apply Hnot. auto.
    + split.
      * intros c Hc. right. auto.
      * intros Hn. inversion Hn; subst. auto.
Qed.

Lemma segment_channels_spec nb all_blocks gaps chs :
  segment_channels nb all_blocks gaps = inr chs ->
  map fst chs = map fst gaps /\
  forall c s, In (c, s) chs ->
    exists g bl, In (c, g) gaps /\ Py.getitem all_blocks c = inr bl /\
                 segment_channel nb bl g = inr s.
Proof.
  revert chs. induction gaps as [|[c' g'] gaps IH]; intros chs H.
  - simpl in H. inv_ret H. subst. split; [reflexivity | contradiction].
  - cbn [segment_channels] in H.
    apply bind_inr in H as (bl & Ebl & H).
    apply bind_inr in H as (s' & Es & H).
    apply bind_inr in H as (ss & Ess & H). inv_ret H. subst chs.
    destruct (IH ss Ess) as [Hk Hin]. split.
    + simpl. now rewrite Hk.
    + intros c s [Heq | Hc].
      * injection Heq as -> ->. exists g', bl. repeat split; auto. now left.
      * destruct (Hin c s Hc) as (g & bl0 & Hg & Hb & Hs).
        exists g, bl0. repeat split; auto. now right.
Qed.

Lemma lookup_in_nodup {A} (d : list (Z * A)) (k : Z) (v : A) :
  NoDup (map fst d) -> In (k, v) d -> Py.lookup d k = Some v.
Proof.
  induction d as [|[k' v'] d IH]; intros Hn Hin; [contradiction|].
  simpl in *. inversion Hn as [|? ? Hnot Hn']; subst.
  destruct Hin as [Heq | Hin].
  - injection Heq as -> ->. now rewrite Z.eqb_refl.
  - destruct (Z.eqb_spec k' k) as [-> | _]; [|auto].
    exfalso. apply Hnot. now apply (in_map fst) in Hin.
Qed.

Lemma in_keys {A} (d : list (Z * A)) (k : Z) :
  In k (map fst d) -> exists v, In (k, v) d.
Proof.
  intros H. apply in_map_iff in H as ([k' v] & <- & Hin). eauto.
Qed.

Lemma in_enumerate_inv {A} (l : list A) (k : Z) (x : A) :
  In (k, x) (Py.enumerate l) -> 0 <= k /\ nth_error l (Z.to_nat k) = Some x.
Proof.
  intros H. apply (lookup_in_nodup _ _ _ (NoDup_keys_enumerate l)) in H.
  rewrite lookup_enumerate in H.
  destruct (Z.leb_spec 0 k); [auto | discriminate].
Qed.

Lemma nth_error_combine_inv {A B} (a : list A) (b : list B) (n : nat) x y :
  nth_error (combine a b) n = Some (x, y) ->
  nth_error a n = Some x /\ nth_error b n = Some y.
Proof.
  revert a b. induction n as [|n IH]; intros [|x' a] [|y' b] H; simpl in *;
    try discriminate.
  - injection H as -> ->. auto.
  - auto.
Qed.

(** Lines 190-217 when some channel takes part in segmentation. *)
Lemma segment_with_signal all_blocks gaps sg :
  segment all_blocks gaps = inr sg ->
  seg_channels sg <> [] ->
  0 < seg_nb_segment sg /\
  segment_channels (seg_nb_segment sg) all_blocks gaps = inr (seg_channels sg).
Proof.
  unfold segment. intros H Hne.
  destruct (Py.len gaps =? 0).
  - apply bind_inr in H as (t & _ & H). inv_ret H. subst sg. now elim Hne.
  - apply bind_inr in H as (differ & Ed & H).
    apply pauses_differ_false in Ed. subst differ.
    apply bind_inr in H as (nb & Enb & H).
    apply bind_inr in H as (chs & Echs & H).
    apply bind_inr in H as (bounds & _ & H). inv_ret H. subst sg.
    cbn [seg_nb_segment seg_channels]. split; [|exact Echs].
    apply index_nonneg_inr in Enb; [|lia].
    apply nth_error_In in Enb. apply in_map_iff in Enb as (g & <- & _).
    pose proof (len_nonneg (snd g)). lia.
Qed.

(** What [_parse_header] leaves for a channel that takes part in
    segmentation: its index [original] as built from the chain, and the
    result [s] of its segment loop, aliased by the reader's two dicts. *)
Lemma participating_channel cfg f r chan_id :
  _parse_header cfg f = inr r ->
  In chan_id (map fst (_sig_t_starts r)) ->
  exists index original s gaps,
    block_index_of f = inr index /\
    0 <= chan_id /\
    nth_error index (Z.to_nat chan_id) = Some original /\
    Py.getitem (_all_data_blocks r) chan_id = inr (store s) /\
    Py.getitem (_by_seg_data_blocks r) chan_id = inr (views s) /\
    0 < nb_segment r /\
    seg_inv original gaps (nb_segment r) (nb_segment r) s.
Proof.
  intros Hparse Hin.
  apply parse_header_inv in Hparse
    as (types & index & gaps & sg & tc & gr & _ & Hidx & Hgaps & Hseg & _ & _ & ->).
  cbn [_sig_t_starts _all_data_blocks _by_seg_data_blocks nb_segment] in *.
  rewrite map_map in Hin. cbn [fst] in Hin.
  destruct (segment_with_signal _ _ _ Hseg) as [Hnb Hchs].
  { intros E. rewrite E in Hin. contradiction. }
  destruct (in_keys _ _ Hin) as (s & Hs).
  destruct (segment_channels_spec _ _ _ _ Hchs) as [Hkeys Hspec].
  destruct (Hspec _ _ Hs) as (g & bl & Hg & Hbl & Hsegc).
  destruct (all_gaps_in _ _ _ _ _ _ Hgaps Hg) as (ci & bl' & interval & Hc & ->).
  apply getitem_enumerate in Hbl as [Hk Hbl].
  apply in_enumerate_inv in Hc as [_ Hc].
  apply nth_error_combine_inv in Hc as [_ Hc].
  rewrite Hbl in Hc. injection Hc as <-.
  assert (Hnd : NoDup (map fst (seg_channels sg))).
  { rewrite Hkeys. apply (proj2 (all_gaps_keys _ _ _ _ Hgaps)).
    apply NoDup_keys_enumerate. }
  pose proof (lookup_in_nodup _ _ _ Hnd Hs) as Hlk.
  assert (Hlookup : Py.lookup (Py.enumerate index) chan_id = Some bl).
  { rewrite lookup_enumerate.
    destruct (Z.leb_spec 0 chan_id); [exact Hbl | lia]. }
  exists index, bl, s, (detect_gaps interval bl).
  split; [exact Hidx|]. split; [exact Hk|]. split; [exact Hbl|].
  split.
  { unfold Py.getitem, final_all_data_blocks.
    rewrite lookup_map_values, Hlookup. cbn [option_map fst]. now rewrite Hlk. }
  split.
  { unfold Py.getitem, final_by_seg.
    rewrite lookup_map_values, Hlookup. cbn [option_map fst]. now rewrite Hlk. }
  split; [exact Hnb|].
  destruct (detect_gaps_sorted interval bl) as [Hsorted Hpos].
  apply segment_channel_spec; auto.
  unfold block_index_of in Hidx. apply build_all_index_zero in Hidx.
  apply (proj1 (Forall_forall _ _) Hidx). eapply nth_error_In; eauto.
Qed.

Lemma index_app_middle {A} (pre : list A) (x : A) (l : list A) :
  Py.index (pre ++ x :: l) (Z.of_nat (length pre)) = inr x.
Proof.
  apply index_nonneg_inr; [lia|]. rewrite Nat2Z.id.
  rewrite nth_error_app2 by lia. now rewrite Nat.sub_diag.
Qed.

Lemma mapM_index_from {A B} (f : A -> B) (l pre : list A) :
  mapM (fun i => v <- Py.index (pre ++ l) i ;; ret (f v))
       (map Z.of_nat (seq (length pre) (length l)))
  = inr (map f l).
Proof.
  revert pre. induction l as [|x l IH]; intros pre; [reflexivity|].
  cbn [length seq map mapM]. rewrite index_app_middle. cbn [bind ret].
  specialize (IH (pre ++ [x])).
  rewrite <- app_assoc, length_app in IH. simpl in IH.
  rewrite Nat.add_1_r in IH. rewrite IH. reflexivity.
Qed.

Lemma mapM_index_range {A B} (f : A -> B) (l : list A) :
  mapM (fun i => v <- Py.index l i ;; ret (f v)) (Py.range (Py.len l))
  = inr (map f l).
Proof.
  unfold Py.range, Py.len. rewrite Nat2Z.id. apply (mapM_index_from f l []).
Qed.

Lemma mapM_ext {A B} (f g : A -> result B) (xs : list A) :
  (forall x, f x = g x) -> mapM f xs = mapM g xs.
Proof.
  intros H. induction xs as [|x xs IH]; simpl; [reflexivity|].
  now rewrite H, IH.
Qed.

(** C5.  For every channel that takes part in segmentation, the block
    lists of segments 0 .. nb_segment-1 are views of the channel's index
    that follow one another from its first entry to its last; concatenated
    in segment order they are the whole index, which holds the blocks of
    the chain in chain order (position, size, start and end tick of each
    block as read from the file). *)
Theorem segments_partition_chain (cfg : config) (f : smr_file)
  (r : Spike2RawIO) (chan_id : Z) :
  _parse_header cfg f = inr r ->
  In chan_id (map fst (_sig_t_starts r)) ->
  exists index original data_blocks bounds segs,
    block_index_of f = inr index /\
    Py.index index chan_id = inr original /\
    Py.getitem (_all_data_blocks r) chan_id = inr data_blocks /\
    map chain_entry data_blocks = map chain_entry original /\
    Py.getitem (_by_seg_data_blocks r) chan_id = inr bounds /\
    Py.len bounds = nb_segment r /\
    chained 0 bounds (Py.len data_blocks) /\
    segments_of r chan_id = inr segs /\
    segs = map (Py.view_of data_blocks) bounds /\
    concat segs = data_blocks.
Proof.
  intros Hparse Hin.
  destruct (participating_channel _ _ _ _ Hparse Hin)
    as (index & original & s & gaps & Hidx & Hk & Horig & Hall & Hby & Hnb & Hinv).
  pose proof (len_store_inv _ _ _ _ _ Hinv) as Hlen.
  destruct Hinv as (Hentries & Hviews & e & Hch & He & _ & _ & Hend & _).
  rewrite (Hend Hnb eq_refl) in Hch. rewrite <- Hlen in Hch.
  exists index, original, (store s), (views s), (map (Py.view_of (store s)) (views s)).
  split; [exact Hidx|].
  split; [apply index_nonneg_inr; auto|].
  split; [exact Hall|]. split; [exact Hentries|].
  split; [exact Hby|]. split; [exact Hviews|]. split; [exact Hch|].
  split.
  { unfold segments_of. rewrite <- Hviews.
    rewrite <- (mapM_index_range (Py.view_of (store s)) (views s)).
    apply mapM_ext. intros seg. unfold by_seg_data_blocks.
    rewrite Hby, Hall. cbn [bind]. destruct (Py.index (views s) seg); reflexivity. }
  split; [reflexivity|].
  rewrite (@chained_concat _ (store s) (views s) 0 (Py.len (store s)));
    [apply view_of_all | lia | exact Hch].
Qed.

Lemma segments_partition_chain_witness :
  exists r,
    _parse_header default_config two_segments = inr r /\
    nb_segment r = 2 /\
    Py.getitem (_by_seg_data_blocks r) 0 = inr [(0, 2); (2, 3)] /\
    exists index original data_blocks bounds segs,
      block_index_of two_segments = inr index /\
      Py.index index 0 = inr original /\
      Py.getitem (_all_data_blocks r) 0 = inr data_blocks /\
      map chain_entry data_blocks = map chain_entry original /\
      Py.getitem (_by_seg_data_blocks r) 0 = inr bounds /\
      Py.len bounds = nb_segment r /\
      chained 0 bounds (Py.len data_blocks) /\
      segments_of r 0 = inr segs /\
      segs = map (Py.view_of data_blocks) bounds /\
      concat segs = data_blocks.
Proof.
  eexists. split; [vm_compute; reflexivity|].
  split; [reflexivity|]. split; [reflexivity|].
  eapply (segments_partition_chain default_config two_segments).
  - vm_compute. reflexivity.
  - vm_compute. left. reflexivity.
Defined.

(** ** The chunked signal reader *)

(** *** Bisection on a sorted cumsum column *)

Lemma bisect_right_spec (a : list Z) (v : Z) :
  nondecreasing a ->
  forall (fuel : nat) (lo hi : Z),
    0 <= lo <= hi -> hi <= Py.len a -> hi - lo <= Z.of_nat fuel ->
    (forall i, 0 <= i < lo -> nth (Z.to_nat i) a 0 <= v) ->
    (forall i, hi <= i < Py.len a -> v < nth (Z.to_nat i) a 0) ->
    lo <= Py.bisect_right fuel a v lo hi <= hi /\
    (forall i, 0 <= i < Py.bisect_right fuel a v lo hi ->
               nth (Z.to_nat i) a 0 <= v) /\
    (forall i, Py.bisect_right fuel a v lo hi <= i < Py.len a ->
               v < nth (Z.to_nat i) a 0).
Proof.
  intros Hsorted. unfold Py.len.
  induction fuel as [|fuel IH]; intros lo hi Hlo Hhi Hfuel Hbelow Habove.
  - simpl. assert (lo = hi) by lia. subst hi. repeat split; auto; lia.
  - cbn [Py.bisect_right]. destruct (Z.ltb_spec lo hi) as [Hlt | Hge].
    2:{ assert (lo = hi) by lia. subst hi. repeat split; auto; lia. }
    set (mid := lo + (hi - lo) / 2).
    assert (Hmid : lo <= mid < hi).
    { unfold mid. pose proof (Z.div_pos (hi - lo) 2 ltac:(lia) ltac:(lia)).
      pose proof (Z.div_lt_upper_bound (hi - lo) 2 (hi - lo) ltac:(lia) ltac:(lia)).
      lia. }
    destruct (Z.ltb_spec v (nth (Z.to_nat mid) a 0)) as [Hv | Hv].
    + destruct (IH lo mid) as (R1 & R2 & R3); try lia; auto.
      { intros i Hi. destruct (Z.ltb_spec i hi); [|apply Habove; lia].
        pose proof (Hsorted (Z.to_nat mid) (Z.to_nat i) ltac:(lia)). lia. }
      repeat split; auto; lia.
    + destruct (IH (mid + 1) hi) as (R1 & R2 & R3); try lia; auto.
      { intros i Hi. destruct (Z.ltb_spec i lo); [apply Hbelow; lia|].
        pose proof (Hsorted (Z.to_nat i) (Z.to_nat mid) ltac:(lia)). lia. }
      repeat split; auto; lia.
Qed.

(** On a sorted array [searchsorted] with [side="right"] is the number of
    entries not above [v]: they are the entries before the result. *)
Lemma searchsorted_right_spec (a : list Z) (v : Z) :
  nondecreasing a ->
  0 <= Py.searchsorted_right a v <= Py.len a /\
  (forall i, 0 <= i < Py.searchsorted_right a v -> nth (Z.to_nat i) a 0 <= v) /\
  (forall i, Py.searchsorted_right a v <= i < Py.len a ->
             v < nth (Z.to_nat i) a 0).
Proof.
  intros Hs. unfold Py.searchsorted_right.
  apply (bisect_right_spec a v Hs (length a) 0 (Py.len a)); unfold Py.len; lia.
Qed.

(** *** Offsets of the blocks of a segment *)

Lemma nth_offsets_from (sizes : list Z) (acc : Z) (i : nat) :
  (i < length sizes)%nat ->
  nth i (offsets_from acc sizes) 0 = acc + Py.sum (firstn i sizes).
Proof.
  revert acc i. induction sizes as [|x l IH]; intros acc i Hi; simpl in Hi; [lia|].
  destruct i as [|i]; simpl; [lia|].
  rewrite IH by lia. unfold Py.sum. lia.
Qed.

Lemma length_offsets_from (sizes : list Z) (acc : Z) :
  length (offsets_from acc sizes) = length sizes.
Proof. revert acc. induction sizes; intros; simpl; auto. Qed.

Lemma sum_firstn_le (sizes : list Z) (i j : nat) :
  Forall (fun x => 0 <= x) sizes -> (i <= j)%nat ->
  Py.sum (firstn i sizes) <= Py.sum (firstn j sizes).
Proof.
  intros Hpos. revert i j. induction Hpos as [|x l Hx Hl IH]; intros i j Hij.
  - now rewrite !firstn_nil.
  - destruct i as [|i], j as [|j]; simpl; try lia.
    + assert (0 <= Py.sum (firstn j l)); [|lia].
      specialize (IH 0%nat j ltac:(lia)). simpl in IH. exact IH.
    + specialize (IH i j ltac:(lia)). lia.
Qed.

Lemma offsets_nondecreasing (sizes : list Z) :
  Forall (fun x => 0 <= x) sizes -> nondecreasing (offsets_from 0 sizes).
Proof.
  intros Hpos i j Hij. rewrite length_offsets_from in Hij.
  rewrite !nth_offsets_from by lia.
  pose proof (sum_firstn_le sizes i j Hpos ltac:(lia)). lia.
Qed.

(** *** Views of views *)

Lemma view_of_view {A} (l : list A) (o o' x y : Z) :
  0 <= o -> 0 <= x -> y <= o' - o ->
  Py.view_of (Py.view_of l (o, o')) (x, y) = Py.view_of l (o + x, o + y).
Proof.
  intros Ho Hx Hy. rewrite !view_of_eq.
  rewrite skipn_firstn_comm, firstn_firstn, skipn_skipn.
  f_equal; [lia | f_equal; lia].
Qed.

Lemma view_of_clamp {A} (l : list A) (a b : Z) :
  Py.view_of l (a, b) = Py.view_of l (a, Z.min b (Py.len l)).
Proof.
  rewrite !view_of_eq. unfold Py.len.
  destruct (Z.le_gt_cases b (Z.of_nat (length l))) as [H | H].
  - now rewrite Z.min_l by lia.
  - rewrite Z.min_r by lia.
    rewrite !firstn_all2; [reflexivity | |]; rewrite length_skipn; lia.
Qed.

Lemma len_view_of {A} (l : list A) (a b : Z) :
  0 <= a -> Py.len (Py.view_of l (a, b)) = Z.max 0 (Z.min b (Py.len l) - a).
Proof.
  intros Ha. rewrite view_of_eq. unfold Py.len.
  rewrite length_firstn, length_skipn. lia.
Qed.

Lemma len_view_of_le {A} (l : list A) (a b : Z) :
  a <= b -> Py.len (Py.view_of l (a, b)) <= b - a.
Proof.
  intros H. rewrite view_of_eq. unfold Py.len. rewrite length_firstn. lia.
Qed.

Lemma view_of_reversed {A} (l : list A) (a b : Z) :
  b <= a -> Py.view_of l (a, b) = [].
Proof.
  intros H. rewrite view_of_eq. now replace (Z.to_nat (b - a)) with 0%nat by lia.
Qed.

(** [d[:-border]] and [d[border:]] as views. *)
Lemma slice_to_neg {A} (d : list A) (border : Z) :
  0 < border <= Py.len d ->
  Py.slice_to d (- border) = Py.view_of d (0, Py.len d - border).
Proof.
  intros H. unfold Py.slice_to, Py.slice, Py.slice_bounds, Py.norm_bound.
  replace (0 <? 0) with false by reflexivity.
  replace (- border <? 0) with true by (symmetry; apply Z.ltb_lt; lia).
  f_equal. f_equal; lia.
Qed.

Lemma slice_from_nonneg {A} (d : list A) (x : Z) :
  0 <= x -> Py.slice_from d x = Py.view_of d (x, Py.len d).
Proof.
  intros H. unfold Py.slice_from, Py.slice, Py.slice_bounds, Py.norm_bound.
  replace (x <? 0) with false by (symmetry; apply Z.ltb_ge; lia).
  replace (Py.len d <? 0) with false
    by (symmetry; apply Z.ltb_ge; apply len_nonneg).
  rewrite Z.min_id.
  destruct (Z.le_gt_cases x (Py.len d)).
  - f_equal. f_equal; lia.
  - rewrite Z.min_r, Z.max_id by lia.
    rewrite view_of_empty, view_of_reversed; [reflexivity | lia].
Qed.

(** The samples of block [i] inside the concatenation of all blocks. *)
Lemma view_of_concat_nth {A} (ls : list (list A)) (i : nat) (d : list A) :
  nth_error ls i = Some d ->
  Py.view_of (concat ls)
    (Py.len (concat (firstn i ls)), Py.len (concat (firstn i ls)) + Py.len d)
  = d.
Proof.
  intros H. apply nth_error_split in H as (l1 & l2 & -> & <-).
  rewrite firstn_app, Nat.sub_diag, firstn_all. simpl firstn. rewrite app_nil_r.
  rewrite concat_app. cbn [concat]. rewrite view_of_eq. unfold Py.len.
  rewrite Nat2Z.id.
  rewrite skipn_app, skipn_all, Nat.sub_diag. simpl skipn. cbn [app].
  replace (Z.to_nat (Z.of_nat (length (concat l1)) + Z.of_nat (length d)
                     - Z.of_nat (length (concat l1)))) with (length d) by lia.
  rewrite firstn_app, Nat.sub_diag, firstn_all. simpl. now rewrite app_nil_r.
Qed.

Lemma len_repeat {A} (x : A) (n : nat) : Py.len (repeat x n) = Z.of_nat n.
Proof. unfold Py.len. now rewrite repeat_length. Qed.

Lemma range2_cons (a b : Z) :
  a < b -> Py.range2 a b = a :: Py.range2 (a + 1) b.
Proof.
  intros H. unfold Py.range2.
  replace (Z.to_nat (b - a)) with (S (Z.to_nat (b - (a + 1)))) by lia.
  cbn [seq map]. f_equal; [lia|].
  rewrite <- seq_shift, map_map. apply map_ext. intros k. lia.
Qed.

Lemma range2_nil (a b : Z) : b <= a -> Py.range2 a b = [].
Proof.
  intros H. unfold Py.range2. now replace (Z.to_nat (b - a)) with 0%nat by lia.
Qed.

(** *** One column of the chunk *)

Lemma sum_app (l1 l2 : list Z) : Py.sum (l1 ++ l2) = Py.sum l1 + Py.sum l2.
Proof. unfold Py.sum. induction l1; simpl; lia. Qed.

Lemma firstn_succ_nth {A} (l : list A) (i : nat) (x : A) :
  nth_error l i = Some x -> firstn (S i) l = firstn i l ++ [x].
Proof.
  revert i. induction l as [|y l IH]; intros [|i] H; simpl in *; try discriminate.
  - now injection H as ->.
  - f_equal. now apply IH.
Qed.

Lemma block_offset_succ (blocks : list data_block) (i : nat) (b : data_block) :
  nth_error blocks i = Some b ->
  block_offset blocks (S i) = block_offset blocks i + size b.
Proof.
  intros H. unfold block_offset.
  rewrite (firstn_succ_nth (map size blocks) i (size b))
    by (rewrite nth_error_map, H; reflexivity).
  rewrite sum_app. unfold Py.sum. simpl. lia.
Qed.

Lemma block_offset_len mm dt (blocks : list data_block) (datas : list (list sample)) :
  Forall2 (payload_of mm dt) blocks datas ->
  forall i, block_offset blocks i = Py.len (concat (firstn i datas)).
Proof.
  unfold block_offset.
  induction 1 as [|b d blocks datas [_ Hd] _ IH]; intros [|i]; try reflexivity.
  cbn [map firstn concat]. rewrite len_app, <- IH, Hd. reflexivity.
Qed.

Lemma block_offset_nonneg mm dt blocks datas i :
  Forall2 (payload_of mm dt) blocks datas -> 0 <= block_offset blocks i.
Proof.
  intros H. rewrite (block_offset_len mm dt blocks datas H). apply len_nonneg.
Qed.

Lemma block_offset_total mm dt blocks datas :
  Forall2 (payload_of mm dt) blocks datas ->
  block_offset blocks (length blocks) = Py.len (concat datas).
Proof.
  intros H. rewrite (block_offset_len mm dt blocks datas H).
  rewrite (Forall2_length H), firstn_all. reflexivity.
Qed.

Lemma Forall2_nth_error {A B} (R : A -> B -> Prop) (l : list A) (l' : list B)
  (i : nat) (x : A) :
  Forall2 R l l' -> nth_error l i = Some x ->
  exists y, nth_error l' i = Some y /\ R x y.
Proof.
  intros H. revert i. induction H as [|a b l l' Hab _ IH]; intros [|i] Hi;
    simpl in *; try discriminate.
  - injection Hi as <-. eauto.
  - auto.
Qed.

(** Block [i] of a segment: its cumsum is its offset, and its payload is
    the part of the segment's samples between its offset and the next. *)
Lemma block_at mm dt blocks datas (i : nat) :
  wf_cumsum blocks ->
  Forall2 (payload_of mm dt) blocks datas ->
  (i < length blocks)%nat ->
  exists b d,
    nth_error blocks i = Some b /\
    read_block mm dt b = inr d /\
    cumsum b = block_offset blocks i /\
    Py.len d = block_offset blocks (S i) - block_offset blocks i /\
    d = Py.view_of (concat datas)
          (block_offset blocks i, block_offset blocks (S i)).
Proof.
  intros Hwf Hread Hi.
  destruct (nth_error blocks i) as [b|] eqn:Eb;
    [|apply nth_error_None in Eb; lia].
  destruct (Forall2_nth_error _ _ _ _ _ Hread Eb) as (d & Ed & Hrd & Hlen).
  exists b, d. split; [reflexivity|]. split; [exact Hrd|].
  pose proof (block_offset_succ blocks i b Eb) as Hs.
  split.
  { transitivity (nth i (map cumsum blocks) 0).
    - symmetry. apply nth_error_nth. now rewrite nth_error_map, Eb.
    - rewrite Hwf, nth_offsets_from by (rewrite length_map; exact Hi).
      unfold block_offset. lia. }
  split; [lia|].
  rewrite Hs, <- Hlen, (block_offset_len mm dt blocks datas Hread).
  symmetry. now apply view_of_concat_nth.
Qed.

Lemma payload_sizes mm dt blocks datas :
  Forall2 (payload_of mm dt) blocks datas ->
  Forall (fun x => 0 <= x) (map size blocks).
Proof.
  induction 1 as [|b d blocks datas [_ Hd] _ IH]; simpl; constructor; auto.
  rewrite <- Hd. apply len_nonneg.
Qed.

Lemma block_offset_le mm dt blocks datas (i j : nat) :
  Forall2 (payload_of mm dt) blocks datas -> (i <= j)%nat ->
  block_offset blocks i <= block_offset blocks j.
Proof.
  intros H Hij. apply sum_firstn_le; [|exact Hij].
  exact (payload_sizes mm dt blocks datas H).
Qed.

(** The trimming of lines 449-456 on block [i] of the blocks [p .. q] that
    meet the chunk [a, b): what is left of the block is the part of the
    segment's samples between two cuts. *)
Lemma trim_piece (flat d : list sample) (a b o o' p q i : Z) :
  d = Py.view_of flat (o, o') -> Py.len d = o' - o ->
  0 <= o -> 0 <= a <= b ->
  (i = p -> o <= a) -> (i <> p -> a <= o) ->
  o <= b -> (i <> q -> o' <= b) ->
  (if i =? p
   then Py.slice_from
          (if i =? q + 1 - 1 then
             if 0 <? Py.len d - (b - o)
             then Py.slice_to d (- (Py.len d - (b - o))) else d
           else d) (a - o)
   else if i =? q + 1 - 1 then
          if 0 <? Py.len d - (b - o)
          then Py.slice_to d (- (Py.len d - (b - o))) else d
        else d)
  = Py.view_of flat (Z.max a (Z.min b o), Z.max a (Z.min b o')).
Proof.
  intros Hd Hlen Ho Hab Hp Hnp Hob Hnq.
  pose proof (len_nonneg d) as Hd0.
  (* the right trim *)
  assert (E1 : (if i =? q + 1 - 1 then
                  if 0 <? Py.len d - (b - o)
                  then Py.slice_to d (- (Py.len d - (b - o))) else d
                else d) = Py.view_of d (0, Z.min b o' - o)).
  { assert (Hall : o' <= b -> d = Py.view_of d (0, Z.min b o' - o)).
    { intros H. rewrite Z.min_r by lia. rewrite <- Hlen.
      symmetry. apply view_of_all. }
    destruct (Z.eqb_spec i (q + 1 - 1)) as [Hq | Hq]; [|apply Hall, Hnq; lia].
    destruct (Z.ltb_spec 0 (Py.len d - (b - o))) as [Hb | Hb]; [|apply Hall; lia].
    rewrite slice_to_neg by lia. f_equal. f_equal. lia. }
  rewrite E1. clear E1.
  (* the left trim *)
  assert (E2 : (if i =? p then Py.slice_from (Py.view_of d (0, Z.min b o' - o)) (a - o)
                else Py.view_of d (0, Z.min b o' - o))
               = Py.view_of d (Z.max a o - o, Z.min b o' - o)).
  { destruct (Z.eqb_spec i p) as [Ep | Ep].
    - specialize (Hp Ep). rewrite slice_from_nonneg by lia.
      rewrite len_view_of by lia.
      replace (Z.max 0 (Z.min (Z.min b o' - o) (Py.len d) - 0))
        with (Z.min b o' - o) by lia.
      rewrite view_of_view by lia. f_equal. f_equal; lia.
    - specialize (Hnp Ep). f_equal. f_equal. lia. }
  rewrite E2. clear E2.
  rewrite Hd, view_of_view by lia.
  replace (o + (Z.max a o - o)) with (Z.max a (Z.min b o)) by lia.
  replace (o + (Z.min b o' - o)) with (Z.min b o') by lia.
  destruct (Z.le_gt_cases a (Z.min b o')) as [H | H].
  - now rewrite (Z.max_r a (Z.min b o')) by lia.
  - rewrite !view_of_reversed; [reflexivity | lia | lia].
Qed.

Lemma skipn_repeat {A} (x : A) (k n : nat) :
  skipn k (repeat x n) = repeat x (n - k).
Proof.
  revert k. induction n as [|n IH]; intros [|k]; simpl; auto.
Qed.

(** Writing the next piece into a column that holds [w] and zeros. *)
Lemma assign_rows_fill (z : sample) (w piece : list sample) (n : Z) :
  Py.len w + Py.len piece <= n ->
  assign_rows (w ++ repeat z (Z.to_nat (n - Py.len w))) (Py.len w) piece
  = inr ((w ++ piece)
         ++ repeat z (Z.to_nat (n - Py.len (w ++ piece)))).
Proof.
  intros Hn. pose proof (len_nonneg w). pose proof (len_nonneg piece).
  unfold assign_rows.
  rewrite slice_bounds_id;
    [| lia | rewrite len_app, len_repeat; lia].
  cbn [fst snd].
  replace (Py.len piece + Py.len w - Py.len w =? Py.len piece) with true
    by (symmetry; apply Z.eqb_eq; lia).
  unfold ret. f_equal. rewrite <- app_assoc. unfold Py.len.
  rewrite Nat2Z.id, firstn_app, firstn_all, Nat.sub_diag. simpl firstn.
  rewrite app_nil_r. f_equal. f_equal.
  rewrite skipn_app, skipn_all2 by lia. cbn [app].
  rewrite skipn_repeat. f_equal. rewrite length_app. lia.
Qed.

Lemma cut_bounds blocks a b i : a <= b -> a <= cut blocks a b i <= b.
Proof. unfold cut. lia. Qed.

Lemma cut_le mm dt blocks datas a b i :
  Forall2 (payload_of mm dt) blocks datas -> 0 <= i ->
  cut blocks a b i <= cut blocks a b (i + 1).
Proof.
  intros H Hi. unfold cut.
  pose proof (block_offset_le mm dt blocks datas (Z.to_nat i) (Z.to_nat (i + 1))
                H ltac:(lia)).
  lia.
Qed.

(** One turn of the loop of line 445 on block [i] of [p .. q]. *)
Lemma chunk_step_spec mm dt blocks datas (a b p q i : Z) :
  wf_cumsum blocks -> Forall2 (payload_of mm dt) blocks datas ->
  0 <= a <= b -> 0 <= p <= i -> i <= q -> q < Py.len blocks ->
  block_offset blocks (Z.to_nat p) <= a ->
  (forall j, p < j <= q -> a <= block_offset blocks (Z.to_nat j)) ->
  (forall j, p <= j <= q -> block_offset blocks (Z.to_nat j) <= b) ->
  chunk_step mm dt blocks a b p (q + 1) i
    (column_upto dt (concat datas) blocks a b i)
  = inr (column_upto dt (concat datas) blocks a b (i + 1)).
Proof.
  intros Hwf Hread Hab Hp Hiq Hq Hlow Hmid Hhigh.
  destruct (block_at mm dt blocks datas (Z.to_nat i) Hwf Hread)
    as (b0 & d & Eb & Hrd & Hcum & Hlen & Hd); [unfold Py.len in Hq; lia|].
  pose proof (block_offset_nonneg mm dt blocks datas (Z.to_nat i) Hread) as Ho.
  unfold chunk_step.
  rewrite (proj2 (@index_nonneg_inr _ blocks i b0 ltac:(lia)) Eb). cbn [bind].
  rewrite Hrd. cbn [bind]. cbv zeta. rewrite Hcum.
  assert (HS : S (Z.to_nat i) = Z.to_nat (i + 1)) by lia.
  rewrite HS in Hlen, Hd. clear HS.
  rewrite (trim_piece (concat datas) d a b
             (block_offset blocks (Z.to_nat i))
             (block_offset blocks (Z.to_nat (i + 1))) p q i Hd Hlen Ho Hab).
  2:{ intros ->. exact Hlow. }
  2:{ intros Hne. apply Hmid. lia. }
  2:{ apply Hhigh. lia. }
  2:{ intros Hne. apply Hhigh. lia. }
  fold (cut blocks a b i). fold (cut blocks a b (i + 1)).
  pose proof (cut_bounds blocks a b i ltac:(lia)) as Hc.
  pose proof (cut_bounds blocks a b (i + 1) ltac:(lia)) as Hc'.
  pose proof (cut_le mm dt blocks datas a b i Hread ltac:(lia)) as Hcc.
  unfold column_upto. cbn [fst snd].
  pose proof (@view_of_app _ (concat datas) a (cut blocks a b i)
                (cut blocks a b (i + 1)) ltac:(lia) ltac:(lia)) as Happ.
  pose proof (len_view_of_le (concat datas) a (cut blocks a b (i + 1))
                ltac:(lia)) as Hle.
  rewrite <- Happ in Hle. rewrite len_app in Hle.
  rewrite assign_rows_fill by lia. cbn [bind]. unfold ret.
  rewrite <- Happ, !len_app. f_equal. f_equal. lia.
Qed.

Lemma chunk_fold mm dt blocks datas (a b p q : Z) :
  wf_cumsum blocks -> Forall2 (payload_of mm dt) blocks datas ->
  0 <= a <= b -> 0 <= p -> q < Py.len blocks ->
  block_offset blocks (Z.to_nat p) <= a ->
  (forall j, p < j <= q -> a <= block_offset blocks (Z.to_nat j)) ->
  (forall j, p <= j <= q -> block_offset blocks (Z.to_nat j) <= b) ->
  forall (m : nat) (i : Z),
    p <= i -> i + Z.of_nat m = q + 1 ->
    foldM (chunk_step mm dt blocks a b p (q + 1)) (Py.range2 i (q + 1))
          (column_upto dt (concat datas) blocks a b i)
    = inr (column_upto dt (concat datas) blocks a b (q + 1)).
Proof.
  intros Hwf Hread Hab Hp Hq Hlow Hmid Hhigh.
  induction m as [|m IH]; intros i Hi Hm.
  - rewrite range2_nil by lia. replace i with (q + 1) by lia. reflexivity.
  - rewrite range2_cons by lia. cbn [foldM].
    rewrite (chunk_step_spec mm dt blocks datas a b p q i); auto; try lia.
    cbn [bind]. apply IH; lia.
Qed.

(** Lines 439-460 for one channel of a segment: the column holds the
    samples [a .. b) of the segment, and zeros past the segment's end. *)
Lemma chunk_column_spec mm dt blocks datas (a b : Z) :
  blocks <> [] -> wf_cumsum blocks ->
  Forall2 (payload_of mm dt) blocks datas ->
  0 <= a <= b ->
  chunk_column mm dt blocks a b =
  inr (Py.view_of (concat datas) (a, b)
       ++ repeat (zero_sample dt)
            (Z.to_nat (b - a - Py.len (Py.view_of (concat datas) (a, b))))).
Proof.
  intros Hne Hwf Hread Hab.
  assert (Hlen : 0 < Py.len blocks).
  { destruct blocks; [contradiction|]. unfold Py.len. simpl. lia. }
  assert (Hcl : Py.len (map cumsum blocks) = Py.len blocks)
    by (unfold Py.len; now rewrite length_map).
  assert (Hnd : nondecreasing (map cumsum blocks)).
  { rewrite Hwf. apply offsets_nondecreasing.
    exact (payload_sizes mm dt blocks datas Hread). }
  assert (Hnth : forall j, 0 <= j < Py.len blocks ->
                   nth (Z.to_nat j) (map cumsum blocks) 0
                   = block_offset blocks (Z.to_nat j)).
  { intros j Hj. rewrite Hwf, nth_offsets_from; [reflexivity|].
    rewrite length_map. unfold Py.len in Hj. lia. }
  destruct (searchsorted_right_spec (map cumsum blocks) a Hnd) as (A1 & A2 & A3).
  destruct (searchsorted_right_spec (map cumsum blocks) b Hnd) as (B1 & B2 & B3).
  rewrite Hcl in *.
  assert (Ha1 : 1 <= Py.searchsorted_right (map cumsum blocks) a).
  { destruct (Z.le_gt_cases 1 (Py.searchsorted_right (map cumsum blocks) a));
      [assumption|].
    specialize (A3 0 ltac:(lia)). rewrite Hnth in A3 by lia.
    change (block_offset blocks (Z.to_nat 0)) with 0 in A3. lia. }
  assert (Hab' : Py.searchsorted_right (map cumsum blocks) a
                 <= Py.searchsorted_right (map cumsum blocks) b).
  { destruct (Z.le_gt_cases (Py.searchsorted_right (map cumsum blocks) a)
                (Py.searchsorted_right (map cumsum blocks) b)); [assumption|].
    specialize (A2 (Py.searchsorted_right (map cumsum blocks) b) ltac:(lia)).
    specialize (B3 (Py.searchsorted_right (map cumsum blocks) b) ltac:(lia)).
    lia. }
  unfold chunk_column. cbv zeta.
  set (p := Py.searchsorted_right (map cumsum blocks) a - 1).
  set (q := Py.searchsorted_right (map cumsum blocks) b - 1).
  replace (Py.searchsorted_right (map cumsum blocks) b) with (q + 1)
    in * by (unfold q; lia).
  replace (Py.searchsorted_right (map cumsum blocks) a) with (p + 1)
    in * by (unfold p; lia).
  assert (Hlow : block_offset blocks (Z.to_nat p) <= a).
  { rewrite <- Hnth by lia. apply A2. lia. }
  assert (Hmid : forall j, p < j <= q -> a <= block_offset blocks (Z.to_nat j)).
  { intros j Hj. rewrite <- Hnth by lia. apply Z.lt_le_incl, A3. lia. }
  assert (Hhigh : forall j, p <= j <= q -> block_offset blocks (Z.to_nat j) <= b).
  { intros j Hj. rewrite <- Hnth by lia. apply B2. lia. }
  (* the column before the first block *)
  assert (Hinit : (0, repeat (zero_sample dt) (Z.to_nat (b - a)))
                  = column_upto dt (concat datas) blocks a b p).
  { unfold column_upto, cut. cbv zeta.
    replace (Z.max a (Z.min b (block_offset blocks (Z.to_nat p)))) with a by lia.
    rewrite view_of_empty. cbn [app]. f_equal.
    now rewrite Z.sub_0_r. }
  rewrite Hinit.
  rewrite (chunk_fold mm dt blocks datas a b p q Hwf Hread Hab ltac:(lia)
             ltac:(lia) Hlow Hmid Hhigh (Z.to_nat (q + 1 - p)) p) by lia.
  cbn [bind]. unfold ret, column_upto. cbv zeta. cbn [snd]. f_equal.
  (* and after the last one *)
  assert (Hend : Py.view_of (concat datas) (a, cut blocks a b (q + 1))
                 = Py.view_of (concat datas) (a, b)).
  { unfold cut. destruct (Z.ltb_spec (q + 1) (Py.len blocks)) as [Hlt | Hge].
    - specialize (B3 (q + 1) ltac:(lia)). rewrite Hnth in B3 by lia.
      f_equal. f_equal. lia.
    - replace (Z.to_nat (q + 1)) with (length blocks)
        by (unfold Py.len in *; lia).
      rewrite (block_offset_total mm dt blocks datas Hread).
      rewrite (view_of_clamp (concat datas) a b).
      destruct (Z.le_gt_cases a (Z.min b (Py.len (concat datas)))).
      + now rewrite Z.max_r by lia.
      + rewrite !view_of_reversed; [reflexivity | lia | lia]. }
  now rewrite Hend.
Qed.

(** A column over [0, n) is the column over [0, k) followed by the one
    over [k, n). *)
Lemma column_additive (z : sample) (flat : list sample) (k n : Z) :
  0 <= k <= n ->
  Py.view_of flat (0, n)
    ++ repeat z (Z.to_nat (n - 0 - Py.len (Py.view_of flat (0, n))))
  = (Py.view_of flat (0, k)
       ++ repeat z (Z.to_nat (k - 0 - Py.len (Py.view_of flat (0, k)))))
    ++ (Py.view_of flat (k, n)
       ++ repeat z (Z.to_nat (n - k - Py.len (Py.view_of flat (k, n))))).
Proof.
  intros Hk. pose proof (len_nonneg flat) as Hf.
  rewrite !len_view_of by lia.
  destruct (Z.le_gt_cases k (Py.len flat)) as [Hle | Hgt].
  - replace (Z.to_nat (k - 0 - Z.max 0 (Z.min k (Py.len flat) - 0))) with 0%nat
      by lia.
    cbn [repeat]. rewrite app_nil_r, app_assoc.
    rewrite (@view_of_app _ flat 0 k n) by lia.
    f_equal. f_equal. lia.
  - rewrite (view_of_clamp flat k n), (view_of_reversed flat k) by lia.
    rewrite (view_of_clamp flat 0 n), (view_of_clamp flat 0 k).
    rewrite !Z.min_r by lia.
    cbn [app]. rewrite <- app_assoc, <- repeat_app. f_equal. f_equal. lia.
Qed.

(** *** The whole matrix *)

Lemma complete_payloads mm dt (blocks : list data_block) :
  forallb (block_complete mm dt) blocks = true ->
  exists datas, Forall2 (payload_of mm dt) blocks datas.
Proof.
  induction blocks as [|b blocks IH]; intros H; [exists []; constructor|].
  cbn [forallb] in H. apply andb_true_iff in H as [Hb H].
  destruct (IH H) as (datas & Hd).
  unfold block_complete in Hb.
  destruct (read_block mm dt b) as [|d] eqn:E; [discriminate|].
  exists (d :: datas). constructor; [|exact Hd].
  split; [exact E | now apply Z.eqb_eq].
Qed.

Lemma index_inr_In {A} (l : list A) (k : Z) (x : A) :
  Py.index l k = inr x -> In x l.
Proof.
  unfold Py.index. cbv zeta.
  destruct (andb _ _); [|discriminate].
  destruct (nth_error l _) eqn:E; [|discriminate].
  unfold ret. intros [= <-]. eapply nth_error_In; eauto.
Qed.

Lemma lookup_Some_in {A} (d : list (Z * A)) (k : Z) (v : A) :
  Py.lookup d k = Some v -> In k (map fst d).
Proof.
  induction d as [|[k' v'] d IH]; simpl; [discriminate|].
  destruct (Z.eqb_spec k' k); auto.
Qed.

(** The block list the chunk reader gets for a channel and a segment is
    never empty, and its cumsum column counts the samples before each
    block. *)
Lemma segment_blocks cfg f r (chan_id seg_index : Z) (blocks : list data_block) :
  _parse_header cfg f = inr r ->
  by_seg_data_blocks (_all_data_blocks r) (_by_seg_data_blocks r)
    chan_id seg_index = inr blocks ->
  blocks <> [] /\ wf_cumsum blocks.
Proof.
  intros Hparse Hby.
  assert (Hin : In chan_id (map fst (_sig_t_starts r))).
  { pose proof Hparse as Hp.
    apply parse_header_inv in Hp
      as (types & index & gaps & sg & tc & gr & _ & _ & _ & _ & _ & _ & ->).
    cbn [_sig_t_starts _all_data_blocks _by_seg_data_blocks] in *.
    rewrite map_map. cbn [fst].
    unfold by_seg_data_blocks in Hby.
    apply bind_inr in Hby as (vs & Evs & Hby).
    apply bind_inr in Hby as (v & Ev & _).
    apply getitem_inr in Evs. unfold final_by_seg in Evs.
    rewrite lookup_map_values in Evs.
    destruct (Py.lookup (Py.enumerate index) chan_id); [|discriminate].
    cbn [option_map fst] in Evs.
    destruct (Py.lookup (seg_channels sg) chan_id) as [s|] eqn:Es.
    - eapply lookup_Some_in; eauto.
    - injection Evs as <-. apply index_inr_In in Ev. contradiction. }
  destruct (participating_channel _ _ _ _ Hparse Hin)
    as (index & original & s & gaps & _ & _ & _ & Hall & Hviews & _ & Hinv).
  pose proof (len_store_inv _ _ _ _ _ Hinv) as Hlen.
  destruct Hinv as (_ & _ & e & Hch & He & _ & _ & _ & Hwf & _ & Hfull).
  unfold by_seg_data_blocks in Hby. rewrite Hviews, Hall in Hby.
  cbn [bind] in Hby.
  destruct (Py.index (views s) seg_index) as [|v] eqn:Ev; [discriminate|].
  cbn [bind] in Hby. unfold ret in Hby. injection Hby as <-.
  apply index_inr_In in Ev.
  split; [|exact (proj1 (Forall_forall _ _) Hwf _ Ev)].
  pose proof (proj1 (Forall_forall _ _) Hfull _ Ev) as Hlt.
  pose proof (proj1 (Forall_forall _ _) (chained_bounds _ _ _ Hch) _ Ev) as Hb.
  cbv beta in Hlt, Hb. intros E.
  apply (f_equal (@length data_block)) in E.
  destruct v as [x y]. cbn [fst snd] in *.
  rewrite view_of_eq, length_firstn, length_skipn in E.
  unfold Py.len in *. simpl in E. lia.
Qed.

(** The columns of a chunk, channel by channel. *)
Lemma chunk_columns cfg f r dt (seg_index : Z) (chans : list Z) :
  _parse_header cfg f = inr r ->
  payloads_complete r dt seg_index chans = true ->
  exists flats : list (list sample),
    Py.len flats = Py.len chans /\
    forall a b, 0 <= a <= b ->
      mapM (fun chan_id =>
              data_blocks <- by_seg_data_blocks (_all_data_blocks r)
                               (_by_seg_data_blocks r) chan_id seg_index ;;
              chunk_column (_memmap r) dt data_blocks a b) chans
      = inr (map (column_of dt a b) flats).
Proof.
  intros Hparse. induction chans as [|c chans IH]; intros H.
  - exists []. split; [reflexivity|]. reflexivity.
  - cbn [payloads_complete forallb] in H. apply andb_true_iff in H as [Hc H].
    destruct (IH H) as (flats & Hlen & Hcols).
    destruct (by_seg_data_blocks _ _ c seg_index) as [|blocks] eqn:Eb;
      [discriminate|].
    destruct (segment_blocks _ _ _ _ _ _ Hparse Eb) as [Hne Hwf].
    destruct (complete_payloads _ _ _ Hc) as (datas & Hd).
    exists (concat datas :: flats).
    split; [unfold Py.len in *; simpl; lia|].
    intros a b Hab. cbn [mapM map]. rewrite Eb. cbn [bind].
    rewrite (chunk_column_spec _ dt blocks datas a b Hne Hwf Hd Hab).
    cbn [bind]. rewrite (Hcols a b Hab). reflexivity.
Qed.

Lemma len_column_of dt (a b : Z) (flat : list sample) :
  a <= b -> Py.len (column_of dt a b flat) = b - a.
Proof.
  intros Hab. unfold column_of. rewrite len_app, len_repeat.
  pose proof (len_view_of_le flat a b Hab).
  pose proof (len_nonneg (Py.view_of flat (a, b))). lia.
Qed.

Lemma dense_columns dt (a b : Z) (flats : list (list sample)) (cols : Z) :
  a <= b -> Py.len flats = cols ->
  dense (b - a) cols
    {| nrows := b - a; columns := map (column_of dt a b) flats |}.
Proof.
  intros Hab Hlen. unfold dense. cbn [nrows columns].
  split; [reflexivity|]. split.
  - unfold Py.len in *. now rewrite length_map.
  - apply Forall_forall. intros c Hc.
    apply in_map_iff in Hc as (flat & <- & _). now apply len_column_of.
Qed.

Lemma vconcat_columns dt (k n : Z) (flats : list (list sample)) :
  0 <= k <= n ->
  {| nrows := n - 0; columns := map (column_of dt 0 n) flats |}
  = vconcat {| nrows := k - 0; columns := map (column_of dt 0 k) flats |}
            {| nrows := n - k; columns := map (column_of dt k n) flats |}.
Proof.
  intros Hk. unfold vconcat. cbn [nrows columns]. f_equal; [lia|].
  induction flats as [|flat flats IH]; [reflexivity|].
  cbn [map combine fst snd]. rewrite <- IH. f_equal.
  unfold column_of. now apply column_additive.
Qed.

(** C3.  The chunked signal read is range-additive.  Take a parsed file,
    a segment, a stream with its sample type [dt], and the channels
    [chans] a read of the stream selects, every block of which holds in
    the file as many samples as its header says.  Then for 0 <= k <= n
    (in particular for n within the segment's signal size) the reads of
    the sample ranges [0, n), [0, k) and [k, n) all return a matrix, the
    first is the second stacked on the third, and each is dense, of shape
    (i_stop - i_start) x channel count. *)
Theorem chunk_read_is_range_additive (cfg : config) (f : smr_file)
  (r : Spike2RawIO) (block_index seg_index stream_index : Z)
  (channel_indexes : option (list Z)) (stream_id : Z) (members : list Z)
  (dt : np_dtype) (chans : list Z) (k n : Z) :
  _parse_header cfg f = inr r ->
  stream_chan_ids r stream_index = inr (stream_id, members) ->
  Py.getitem (_sig_dtypes r) stream_id = inr dt ->
  match channel_indexes with
  | Some idx => mapM (Py.index members) idx
  | None => ret members
  end = inr chans ->
  payloads_complete r dt seg_index chans = true ->
  0 <= k <= n ->
  exists whole head tail,
    _get_analogsignal_chunk r block_index seg_index (Some 0) (Some n)
      stream_index channel_indexes = inr whole /\
    _get_analogsignal_chunk r block_index seg_index (Some 0) (Some k)
      stream_index channel_indexes = inr head /\
    _get_analogsignal_chunk r block_index seg_index (Some k) (Some n)
      stream_index channel_indexes = inr tail /\
    whole = vconcat head tail /\
    dense (n - 0) (Py.len chans) whole /\
    dense (k - 0) (Py.len chans) head /\
    dense (n - k) (Py.len chans) tail.
Proof.
  intros Hparse Hstream Hdt Hsel Hfull Hk.
  destruct (chunk_columns cfg f r dt seg_index chans Hparse Hfull)
    as (flats & Hlen & Hcols).
  assert (Hread : forall a b, 0 <= a <= b ->
            _get_analogsignal_chunk r block_index seg_index (Some a) (Some b)
              stream_index channel_indexes
            = inr {| nrows := b - a; columns := map (column_of dt a b) flats |}).
  { intros a b Hab. unfold _get_analogsignal_chunk. cbn [bind ret].
    rewrite Hstream. cbn [bind]. rewrite Hdt. cbn [bind].
    rewrite Hsel. cbn [bind].
    replace (b - a <? 0) with false by (symmetry; apply Z.ltb_ge; lia).
    rewrite (Hcols a b Hab). reflexivity. }
  exists {| nrows := n - 0; columns := map (column_of dt 0 n) flats |},
         {| nrows := k - 0; columns := map (column_of dt 0 k) flats |},
         {| nrows := n - k; columns := map (column_of dt k n) flats |}.
  split; [apply Hread; lia|]. split; [apply Hread; lia|].
  split; [apply Hread; lia|].
  split; [apply vconcat_columns; exact Hk|].
  split; [apply dense_columns; [lia | exact Hlen]|].
  split; apply dense_columns; try lia; exact Hlen.
Qed.

Lemma chunk_read_is_range_additive_witness :
  exists r,
    _parse_header default_config two_segments = inr r /\
    exists whole head tail,
      _get_analogsignal_chunk r 0 0 (Some 0) (Some 16) 0 None = inr whole /\
      _get_analogsignal_chunk r 0 0 (Some 0) (Some 12) 0 None = inr head /\
      _get_analogsignal_chunk r 0 0 (Some 12) (Some 16) 0 None = inr tail /\
      whole = vconcat head tail /\
      dense (16 - 0) (Py.len [0]) whole /\
      dense (12 - 0) (Py.len [0]) head /\
      dense (16 - 12) (Py.len [0]) tail.
Proof.
  eexists. split; [vm_compute; reflexivity|].
  refine (chunk_read_is_range_additive default_config two_segments _
            0 0 0 None 0 [0] int16_dtype [0] 12 16 _ _ _ _ _ _);
    try (vm_compute; reflexivity).
  lia.
Defined.

(** ** Segments of a parsed file *)

Lemma index_in_range {A} (l : list A) (k : Z) :
  - Py.len l <= k < Py.len l -> exists x, Py.index l k = inr x.
Proof.
  intros Hk. unfold Py.index. cbv zeta.
  set (j := if k <? 0 then k + Py.len l else k).
  assert (Hj : 0 <= j < Py.len l).
  { unfold j. destruct (Z.ltb_spec k 0); lia. }
  replace ((0 <=? j) && (j <? Py.len l)) with true
    by (symmetry; apply andb_true_iff; split;
        [apply Z.leb_le | apply Z.ltb_lt]; lia).
  destruct (nth_error l (Z.to_nat j)) as [x|] eqn:E; [eauto|].
  apply nth_error_None in E. unfold Py.len in Hj. lia.
Qed.

Lemma index_out_of_range {A} (l : list A) (k : Z) :
  k < - Py.len l \/ Py.len l <= k -> Py.index l k = inl IndexError.
Proof.
  intros Hk. destruct (Py.index l k) as [e|x] eqn:E.
  - unfold Py.index in E. cbv zeta in E.
    destruct (andb _ _); [|now injection E as <-].
    destruct (nth_error l _); [discriminate | now injection E as <-].
  - apply index_inr_bounds in E. lia.
Qed.

Lemma length_mapM {A B} (f : A -> result B) (xs : list A) (ys : list B) :
  mapM f xs = inr ys -> length ys = length xs.
Proof. intros H. apply mapM_inr in H. symmetry. exact (Forall2_length H). Qed.

(** What lines 172-226 leave: at least one segment, and one start and one
    stop tick per segment; the stop ticks are all known as soon as a signal
    channel takes part. *)
Lemma segment_shape all_blocks gaps sg :
  segment all_blocks gaps = inr sg ->
  1 <= seg_nb_segment sg /\
  Py.len (seg_starts sg) = seg_nb_segment sg /\
  Py.len (seg_stops sg) = seg_nb_segment sg /\
  (seg_channels sg <> [] -> Forall (fun t => t <> None) (seg_stops sg)).
Proof.
  unfold segment. destruct (Py.len gaps =? 0) eqn:Eg; intros H.
  - apply bind_inr in H as (t & _ & H). unfold ret in H. injection H as <-.
    cbn. repeat split; try lia. intros C. now contradiction C.
  - apply bind_inr in H as (differ & Ed & H).
    apply pauses_differ_false in Ed. subst differ.
    apply bind_inr in H as (nb & Enb & H).
    apply bind_inr in H as (chans & _ & H).
    apply bind_inr in H as (bounds & Eb & H).
    unfold ret in H. injection H as <-. cbn.
    assert (Hnb : 1 <= nb).
    { apply index_inr_In in Enb. apply in_map_iff in Enb as (g & <- & _).
      pose proof (len_nonneg (snd g)). lia. }
    apply length_mapM in Eb. rewrite length_range in Eb.
    unfold Py.len. rewrite !length_map, Eb.
    repeat split; try lia.
    intros _. apply Forall_forall. intros t Ht.
    apply in_map_iff in Ht as (b & <- & _). discriminate.
Qed.

(** The segment-start query returns exactly for the segment indices Python
    accepts, [-nb_segment <= seg_index < nb_segment], and raises
    [IndexError] for every other. *)
Theorem segment_start_defined_in_range (cfg : config) (f : smr_file)
  (r : Spike2RawIO) :
  _parse_header cfg f = inr r ->
  1 <= nb_segment r /\
  forall block_index seg_index,
    (- nb_segment r <= seg_index < nb_segment r ->
     exists t, _segment_t_start r block_index seg_index = inr t) /\
    (seg_index < - nb_segment r \/ nb_segment r <= seg_index ->
     _segment_t_start r block_index seg_index = inl IndexError).
Proof.
  intros Hparse.
  apply parse_header_inv in Hparse
    as (types & index & gaps & sg & tc & gr & _ & _ & _ & Hseg & _ & _ & ->).
  destruct (segment_shape _ _ _ Hseg) as (Hnb & Hstarts & _ & _).
  cbn [nb_segment]. split; [exact Hnb|].
  intros block_index seg_index. unfold _segment_t_start. cbn [_seg_t_starts].
  rewrite <- Hstarts. split; intros Hk.
  - destruct (index_in_range (seg_starts sg) seg_index Hk) as (t & ->).
    cbn [bind]. eauto.
  - now rewrite (index_out_of_range (seg_starts sg) seg_index Hk).
Qed.

Lemma segment_start_defined_in_range_witness :
  exists r,
    _parse_header default_config two_segments = inr r /\
    nb_segment r = 2 /\
    (exists t, _segment_t_start r 0 (-2) = inr t) /\
    _segment_t_start r 0 2 = inl IndexError.
Proof.
  eexists. split; [vm_compute; reflexivity|].
  split; [reflexivity|].
  pose proof (segment_start_defined_in_range default_config two_segments _
                ltac:(vm_compute; reflexivity)) as [_ H].
  split.
  - apply (proj1 (H 0 (-2))). vm_compute. split; [discriminate | reflexivity].
  - apply (proj2 (H 0 2)). right. vm_compute. discriminate.
Defined.

(** As soon as a signal channel takes part in segmentation, the stop tick
    of every segment is known and the segment-stop query returns. *)
Theorem segment_stop_defined_with_signal (cfg : config) (f : smr_file)
  (r : Spike2RawIO) (block_index seg_index : Z) :
  _parse_header cfg f = inr r ->
  _sig_t_starts r <> [] ->
  - nb_segment r <= seg_index < nb_segment r ->
  exists t, _segment_t_stop r block_index seg_index = inr t.
Proof.
  intros Hparse Hsig Hk.
  apply parse_header_inv in Hparse
    as (types & index & gaps & sg & tc & gr & _ & _ & _ & Hseg & _ & _ & ->).
  cbn [nb_segment _sig_t_starts] in *.
  destruct (segment_shape _ _ _ Hseg) as (_ & _ & Hstops & Hsome).
  unfold _segment_t_stop. cbn [_seg_t_stops].
  rewrite <- Hstops in Hk.
  destruct (index_in_range (seg_stops sg) seg_index Hk) as (t & Et).
  rewrite Et. cbn [bind].
  assert (Hne : seg_channels sg <> []).
  { intros E. apply Hsig. now rewrite E. }
  apply index_inr_In in Et.
  pose proof (proj1 (Forall_forall _ _) (Hsome Hne) _ Et) as Ht.
  destruct t as [t|]; [eauto | contradiction].
Qed.

Lemma segment_stop_defined_with_signal_witness :
  exists r,
    _parse_header default_config two_segments = inr r /\
    exists t, _segment_t_stop r 0 1 = inr t.
Proof.
  eexists. split; [vm_compute; reflexivity|].
  apply (segment_stop_defined_with_signal default_config two_segments _ 0 1).
  - vm_compute. reflexivity.
  - vm_compute. discriminate.
  - vm_compute. split; [discriminate | reflexivity].
Defined.

(** ** Start and stop ticks of the segments of a channel *)

Lemma nth_error_chain_entry (st bl : list data_block) (n : nat) (b : data_block) :
  map chain_entry st = map chain_entry bl ->
  nth_error st n = Some b ->
  exists b', nth_error bl n = Some b' /\ chain_entry b' = chain_entry b.
Proof.
  intros H Hn.
  assert (E : nth_error (map chain_entry bl) n = Some (chain_entry b))
    by (rewrite <- H, nth_error_map, Hn; reflexivity).
  rewrite nth_error_map in E.
  destruct (nth_error bl n) as [b'|]; [|discriminate].
  exists b'. split; [reflexivity|]. cbn [option_map] in E. congruence.
Qed.

Lemma chain_entry_times (b b' : data_block) :
  chain_entry b' = chain_entry b ->
  start_time b' = start_time b /\ end_time b' = end_time b /\ size b' = size b.
Proof. unfold chain_entry. intros [= _ H1 H2 H3]. auto. Qed.

Lemma Forall2_snoc {A B} (R : A -> B -> Prop) l l' x y :
  Forall2 R l l' -> R x y -> Forall2 R (l ++ [x]) (l' ++ [y]).
Proof. intros H Hxy. apply Forall2_app; [exact H | constructor; auto]. Qed.

Lemma segment_step_times bl gaps nb j s s' :
  Forall (fun g => 0 <= g) gaps ->
  seg_inv bl gaps nb j s ->
  seg_inv bl gaps nb (j + 1) s' ->
  times_inv bl s ->
  segment_step nb gaps j s = inr s' ->
  times_inv bl s'.
Proof.
  intros Hpos Hinv Hinv' [Hs Ht] H.
  pose proof (len_store_inv _ _ _ _ _ Hinv) as Hlen.
  destruct Hinv as (Hentries & _).
  destruct Hinv' as (_ & _ & e' & _ & _ & _ & _ & _ & _ & _ & Hfull).
  unfold segment_step in H.
  apply bind_inr in H as (fisrt_bl & Efirst & H).
  apply bind_inr in H as (b0 & Eb0 & H).
  apply bind_inr in H as (last_bl & Elast & H).
  apply bind_inr in H as (b1 & Eb1 & H).
  unfold ret in H. injection H as <-. cbn [views t_starts t_stops] in *.
  assert (Hf0 : 0 <= fisrt_bl).
  { destruct (j =? 0) eqn:Ej.
    - unfold ret in Efirst. injection Efirst as <-. lia.
    - apply bind_inr in Efirst as (g & Eg & Efirst).
      unfold ret in Efirst. injection Efirst as <-.
      apply index_inr_In in Eg.
      pose proof (proj1 (Forall_forall _ _) Hpos _ Eg) as Hg.
      cbv beta in Hg. lia. }
  apply index_inr_bounds in Eb0 as Hb0.
  apply index_inr_bounds in Eb1 as Hb1.
  assert (Hl0 : 0 <= last_bl).
  { destruct (j <? nb - 1).
    - apply index_inr_In in Elast.
      exact (proj1 (Forall_forall _ _) Hpos _ Elast).
    - unfold ret in Elast. injection Elast as <-. lia. }
  apply Forall_app in Hfull as [_ Hv]. inversion Hv as [|? ? Hlt _]; subst.
  unfold Py.slice_bounds, Py.norm_bound in Hlt |- *. cbn [fst snd] in Hlt |- *.
  replace (fisrt_bl <? 0) with false in * by (symmetry; apply Z.ltb_ge; lia).
  replace (last_bl + 1 <? 0) with false in * by (symmetry; apply Z.ltb_ge; lia).
  apply (proj1 (@index_nonneg_inr _ _ _ _ Hf0)) in Eb0.
  apply (proj1 (@index_nonneg_inr _ _ _ _ Hl0)) in Eb1.
  destruct (nth_error_chain_entry _ _ _ _ Hentries Eb0) as (c0 & Ec0 & Hc0).
  destruct (nth_error_chain_entry _ _ _ _ Hentries Eb1) as (c1 & Ec1 & Hc1).
  apply chain_entry_times in Hc0 as (Hc0 & _).
  apply chain_entry_times in Hc1 as (_ & Hc1 & _).
  split; apply Forall2_snoc; auto; cbn [fst snd].
  - exists c0. split; [|exact Hc0].
    now replace (Z.min fisrt_bl (Py.len (store s))) with fisrt_bl by lia.
  - exists c1. split; [|exact Hc1].
    replace (Z.max (Z.min fisrt_bl (Py.len (store s)))
                   (Z.min (last_bl + 1) (Py.len (store s))) - 1)
      with last_bl by lia.
    exact Ec1.
Qed.

Lemma segment_fold_times bl gaps nb :
  Forall (fun g => 0 <= g) gaps -> StronglySorted Z.lt gaps ->
  forall (n j : nat) (s s' : chan_segments),
    Z.of_nat j + Z.of_nat n = nb ->
    seg_inv bl gaps nb (Z.of_nat j) s ->
    times_inv bl s ->
    foldM (segment_step nb gaps) (map Z.of_nat (seq j n)) s = inr s' ->
    times_inv bl s'.
Proof.
  intros Hpos Hsorted. induction n as [|n IH]; intros j s s' Hn Hinv Ht H.
  - simpl in H. unfold ret in H. now injection H as <-.
  - cbn [seq map foldM] in H. apply bind_inr in H as (s1 & Es & H).
    assert (Hinv1 : seg_inv bl gaps nb (Z.of_nat j + 1) s1)
      by (eapply segment_step_inv; eauto; lia).
    apply (IH (S j) s1 s'); [lia | | | exact H].
    + now replace (Z.of_nat (S j)) with (Z.of_nat j + 1) by lia.
    + apply (segment_step_times bl gaps nb (Z.of_nat j) s s1); auto.
Qed.

Lemma segment_channel_times bl gaps nb s :
  Forall (fun g => 0 <= g) gaps -> StronglySorted Z.lt gaps ->
  0 < nb ->
  Forall (fun b => cumsum b = 0) bl ->
  segment_channel nb bl gaps = inr s ->
  seg_inv bl gaps nb nb s /\ times_inv bl s.
Proof.
  intros Hpos Hsorted Hnb Hzero H.
  split; [now apply segment_channel_spec|].
  unfold segment_channel, Py.range in H.
  apply (segment_fold_times bl gaps nb Hpos Hsorted (Z.to_nat nb) 0
           {| store := bl; t_starts := []; t_stops := []; views := [] |} s);
    [lia | | | exact H].
  - unfold seg_inv. cbn [store views].
    split; [reflexivity|]. split; [reflexivity|].
    exists 0. simpl. pose proof (len_nonneg bl).
    repeat split; auto; try lia.
  - split; constructor.
Qed.

Lemma lookup_Some_In {A} (d : list (Z * A)) (k : Z) (v : A) :
  Py.lookup d k = Some v -> In (k, v) d.
Proof.
  induction d as [|[k' v'] d IH]; simpl; [discriminate|].
  destruct (Z.eqb_spec k' k) as [-> | _].
  - intros [= ->]. now left.
  - intros H. right. auto.
Qed.

(** What [_parse_header] leaves for a channel that takes part in
    segmentation, with its start and stop ticks. *)
Lemma participating_times cfg f r chan_id :
  _parse_header cfg f = inr r ->
  In chan_id (map fst (_sig_t_starts r)) ->
  exists index original s gaps,
    block_index_of f = inr index /\
    0 <= chan_id /\
    nth_error index (Z.to_nat chan_id) = Some original /\
    Py.getitem (_all_data_blocks r) chan_id = inr (store s) /\
    Py.getitem (_by_seg_data_blocks r) chan_id = inr (views s) /\
    Py.getitem (_sig_t_starts r) chan_id = inr (t_starts s) /\
    Py.getitem (_sig_t_stops r) chan_id = inr (t_stops s) /\
    0 < nb_segment r /\
    seg_inv original gaps (nb_segment r) (nb_segment r) s /\
    times_inv original s.
Proof.
  intros Hparse Hin.
  apply parse_header_inv in Hparse
    as (types & index & gaps & sg & tc & gr & _ & Hidx & Hgaps & Hseg & _ & _ & ->).
  cbn [_sig_t_starts _sig_t_stops _all_data_blocks _by_seg_data_blocks
       nb_segment] in *.
  rewrite map_map in Hin. cbn [fst] in Hin.
  destruct (segment_with_signal _ _ _ Hseg) as [Hnb Hchs].
  { intros E. rewrite E in Hin. contradiction. }
  destruct (in_keys _ _ Hin) as (s & Hs).
  destruct (segment_channels_spec _ _ _ _ Hchs) as [Hkeys Hspec].
  destruct (Hspec _ _ Hs) as (g & bl & Hg & Hbl & Hsegc).
  destruct (all_gaps_in _ _ _ _ _ _ Hgaps Hg) as (ci & bl' & interval & Hc & ->).
  apply getitem_enumerate in Hbl as [Hk Hbl].
  apply in_enumerate_inv in Hc as [_ Hc].
  apply nth_error_combine_inv in Hc as [_ Hc].
  rewrite Hbl in Hc. injection Hc as <-.
  assert (Hnd : NoDup (map fst (seg_channels sg))).
  { rewrite Hkeys. apply (proj2 (all_gaps_keys _ _ _ _ Hgaps)).
    apply NoDup_keys_enumerate. }
  pose proof (lookup_in_nodup _ _ _ Hnd Hs) as Hlk.
  assert (Hlookup : Py.lookup (Py.enumerate index) chan_id = Some bl).
  { rewrite lookup_enumerate.
    destruct (Z.leb_spec 0 chan_id); [exact Hbl | lia]. }
  exists index, bl, s, (detect_gaps interval bl).
  split; [exact Hidx|]. split; [exact Hk|]. split; [exact Hbl|].
  split.
  { unfold Py.getitem, final_all_data_blocks.
    rewrite lookup_map_values, Hlookup. cbn [option_map fst]. now rewrite Hlk. }
  split.
  { unfold Py.getitem, final_by_seg.
    rewrite lookup_map_values, Hlookup. cbn [option_map fst]. now rewrite Hlk. }
  split.
  { unfold Py.getitem. rewrite lookup_map_values, Hlk. reflexivity. }
  split.
  { unfold Py.getitem. rewrite lookup_map_values, Hlk. reflexivity. }
  split; [exact Hnb|].
  destruct (detect_gaps_sorted interval bl) as [Hsorted Hpos].
  apply segment_channel_times; auto.
  unfold block_index_of in Hidx. apply build_all_index_zero in Hidx.
  apply (proj1 (Forall_forall _ _) Hidx). eapply nth_error_In; eauto.
Qed.

Lemma getitem_in_keys {A} (d : list (Z * A)) (k : Z) (v : A) :
  Py.getitem d k = inr v -> In k (map fst d).
Proof. intros H. apply getitem_inr in H. eapply lookup_Some_in; eauto. Qed.

(** Corresponding entries of two lists of one length, by Python index. *)
Lemma Forall2_index {A B} (R : A -> B -> Prop) (l : list A) (l' : list B)
  (k : Z) (x : A) :
  Forall2 R l l' -> Py.index l k = inr x ->
  exists y, Py.index l' k = inr y /\ R x y.
Proof.
  intros H Hx. pose proof (Forall2_length H) as Hlen.
  unfold Py.index in *. cbv zeta in *. unfold Py.len in *. rewrite <- Hlen.
  destruct (andb _ _); [|discriminate].
  destruct (nth_error l _) as [x'|] eqn:E; [|discriminate].
  unfold ret in Hx. injection Hx as ->.
  destruct (Forall2_nth_error _ _ _ _ _ H E) as (y & -> & Hy). eauto.
Qed.

Lemma head_view_of {A} (l : list A) (a b : Z) (x : A) :
  0 <= a < b -> nth_error l (Z.to_nat a) = Some x ->
  exists rest, Py.view_of l (a, b) = x :: rest.
Proof.
  intros Hab Hx. rewrite view_of_eq.
  apply nth_error_split in Hx as (l1 & l2 & -> & Hl).
  rewrite skipn_app, <- Hl, skipn_all, Nat.sub_diag. cbn [skipn app].
  replace (Z.to_nat (b - a)) with (S (Z.to_nat (b - a) - 1)) by lia.
  cbn [firstn]. eauto.
Qed.

Lemma last_view_of {A} (l : list A) (a b : Z) (x y : A) (rest : list A) :
  0 <= a < b -> b <= Py.len l ->
  Py.view_of l (a, b) = y :: rest ->
  nth_error l (Z.to_nat (b - 1)) = Some x ->
  last rest y = x.
Proof.
  intros Hab Hb Hv Hx.
  assert (Hlen : length (y :: rest) = Z.to_nat (b - a)).
  { rewrite <- Hv, view_of_eq, length_firstn, length_skipn.
    unfold Py.len in Hb. lia. }
  assert (E : nth_error (y :: rest) (length rest) = Some x).
  { rewrite <- Hv, view_of_eq.
    rewrite nth_error_firstn.
    replace (length rest <? Z.to_nat (b - a))%nat with true
      by (symmetry; apply Nat.ltb_lt; simpl in Hlen; lia).
    rewrite nth_error_skipn.
    replace (Z.to_nat a + length rest)%nat with (Z.to_nat (b - 1))
      by (simpl in Hlen; lia).
    exact Hx. }
  rewrite nth_error_last in E. now injection E.
Qed.

Lemma by_seg_participating cfg f r (chan_id seg_index : Z)
  (blocks : list data_block) :
  _parse_header cfg f = inr r ->
  by_seg_data_blocks (_all_data_blocks r) (_by_seg_data_blocks r)
    chan_id seg_index = inr blocks ->
  In chan_id (map fst (_sig_t_starts r)).
Proof.
  intros Hparse Hby.
  apply parse_header_inv in Hparse
    as (types & index & gaps & sg & tc & gr & _ & _ & _ & _ & _ & _ & ->).
  cbn [_sig_t_starts _all_data_blocks _by_seg_data_blocks] in *.
  rewrite map_map. cbn [fst].
  unfold by_seg_data_blocks in Hby.
  apply bind_inr in Hby as (vs & Evs & Hby).
  apply bind_inr in Hby as (v & Ev & _).
  apply getitem_inr in Evs. unfold final_by_seg in Evs.
  rewrite lookup_map_values in Evs.
  destruct (Py.lookup (Py.enumerate index) chan_id); [|discriminate].
  cbn [option_map fst] in Evs.
  destruct (Py.lookup (seg_channels sg) chan_id) as [s|] eqn:Es.
  - eapply lookup_Some_in; eauto.
  - injection Evs as <-. apply index_inr_In in Ev. contradiction.
Qed.

(** The signal start and stop ticks kept for a channel and a segment are
    the start time of the first block and the end time of the last block
    of the block list of that segment. *)
Theorem signal_times_are_block_times (cfg : config) (f : smr_file)
  (r : Spike2RawIO) (chan_id seg_index : Z) (blocks : list data_block) :
  _parse_header cfg f = inr r ->
  by_seg_data_blocks (_all_data_blocks r) (_by_seg_data_blocks r)
    chan_id seg_index = inr blocks ->
  exists b0 rest starts stops,
    blocks = b0 :: rest /\
    Py.getitem (_sig_t_starts r) chan_id = inr starts /\
    Py.index starts seg_index = inr (start_time b0) /\
    Py.getitem (_sig_t_stops r) chan_id = inr stops /\
    Py.index stops seg_index = inr (end_time (last rest b0)).
Proof.
  intros Hparse Hby.
  pose proof (by_seg_participating _ _ _ _ _ _ Hparse Hby) as Hin.
  destruct (participating_times _ _ _ _ Hparse Hin)
    as (index & original & s & gaps & _ & _ & _ & Hall & Hviews & Hst & Hsp
        & _ & Hinv & Hts & Hte).
  pose proof (len_store_inv _ _ _ _ _ Hinv) as Hlen.
  destruct Hinv as (Hentries & _ & e & Hch & He & _ & _ & _ & _ & _ & Hfull).
  unfold by_seg_data_blocks in Hby. rewrite Hviews, Hall in Hby.
  cbn [bind] in Hby.
  destruct (Py.index (views s) seg_index) as [|v] eqn:Ev; [discriminate|].
  cbn [bind] in Hby. unfold ret in Hby. injection Hby as <-.
  destruct (Forall2_index _ _ _ _ _ Hts Ev) as (t0 & Et0 & c0 & Ec0 & <-).
  destruct (Forall2_index _ _ _ _ _ Hte Ev) as (t1 & Et1 & c1 & Ec1 & <-).
  apply index_inr_In in Ev.
  pose proof (proj1 (Forall_forall _ _) Hfull _ Ev) as Hlt.
  pose proof (proj1 (Forall_forall _ _) (chained_bounds _ _ _ Hch) _ Ev) as Hb.
  cbv beta in Hlt, Hb. destruct v as [x y]. cbn [fst snd] in *.
  destruct (nth_error_chain_entry _ _ _ _ (eq_sym Hentries) Ec0)
    as (b0 & Eb0 & Hb0).
  destruct (nth_error_chain_entry _ _ _ _ (eq_sym Hentries) Ec1)
    as (b1 & Eb1 & Hb1).
  apply chain_entry_times in Hb0 as (Hb0 & _).
  apply chain_entry_times in Hb1 as (_ & Hb1 & _).
  destruct (head_view_of (store s) x y b0 ltac:(lia) Eb0) as (rest & Hv).
  pose proof (last_view_of (store s) x y b1 b0 rest ltac:(lia) ltac:(lia)
                Hv Eb1) as Hlast.
  exists b0, rest, (t_starts s), (t_stops s).
  split; [exact Hv|]. split; [exact Hst|].
  split; [now rewrite Hb0|]. split; [exact Hsp|].
  now rewrite Hlast, Hb1.
Qed.

Lemma signal_times_are_block_times_witness :
  exists r,
    _parse_header default_config two_segments = inr r /\
    exists b0 rest starts stops,
      [{| pos := 744; size := 10; cumsum := 0;
          start_time := 460; end_time := 550 |}]
        = b0 :: rest /\
      Py.getitem (_sig_t_starts r) 0 = inr starts /\
      Py.index starts 1 = inr (start_time b0) /\
      Py.getitem (_sig_t_stops r) 0 = inr stops /\
      Py.index stops 1 = inr (end_time (last rest b0)).
Proof.
  eexists. split; [vm_compute; reflexivity|].
  apply (signal_times_are_block_times default_config two_segments _ 0 1).
  - vm_compute. reflexivity.
  - vm_compute. reflexivity.
Defined.

Lemma fold_min_le (l : list Z) (x : Z) :
  fold_left Z.min l x <= x /\ Forall (fun y => fold_left Z.min l x <= y) l.
Proof.
  revert x. induction l as [|y l IH]; intros x; simpl; [split; [lia | constructor]|].
  destruct (IH (Z.min x y)) as [H1 H2]. split; [lia|].
  constructor; [lia | exact H2].
Qed.

Lemma fold_max_ge (l : list Z) (x : Z) :
  x <= fold_left Z.max l x /\ Forall (fun y => y <= fold_left Z.max l x) l.
Proof.
  revert x. induction l as [|y l IH]; intros x; simpl; [split; [lia | constructor]|].
  destruct (IH (Z.max x y)) as [H1 H2]. split; [lia|].
  constructor; [lia | exact H2].
Qed.

Lemma py_min_le (l : list Z) (m : Z) :
  py_min l = inr m -> Forall (fun y => m <= y) l.
Proof.
  destruct l as [|x l]; [discriminate|]. unfold py_min, ret. intros [= <-].
  destruct (fold_min_le l x). constructor; auto.
Qed.

Lemma py_max_ge (l : list Z) (m : Z) :
  py_max l = inr m -> Forall (fun y => y <= m) l.
Proof.
  destruct l as [|x l]; [discriminate|]. unfold py_max, ret. intros [= <-].
  destruct (fold_max_ge l x). constructor; auto.
Qed.

(** A Python index and the position it stands for. *)
Lemma index_position {A} (l : list A) (k : Z) (x : A) :
  Py.index l k = inr x ->
  exists j : nat,
    (j < length l)%nat /\ nth_error l j = Some x /\
    Z.of_nat j = (if k <? 0 then k + Py.len l else k).
Proof.
  unfold Py.index. cbv zeta. intros H.
  destruct (andb _ _) eqn:E; [|discriminate].
  apply andb_true_iff in E as [E1 E2].
  apply Z.leb_le in E1. apply Z.ltb_lt in E2.
  destruct (nth_error l _) as [x'|] eqn:En; [|discriminate].
  unfold ret in H. injection H as ->.
  eexists. split; [|split; [exact En|]]; unfold Py.len in *; lia.
Qed.

Lemma index_of_position {A} (l : list A) (k : Z) (j : nat) (x : A) :
  nth_error l j = Some x ->
  Z.of_nat j = (if k <? 0 then k + Py.len l else k) ->
  Py.index l k = inr x.
Proof.
  intros Hx Hj. unfold Py.index. cbv zeta. rewrite <- Hj.
  pose proof (@nth_error_Some_lt _ _ _ _ Hx) as Hlt.
  replace ((0 <=? Z.of_nat j) && (Z.of_nat j <? Py.len l)) with true
    by (symmetry; apply andb_true_iff; split;
        [apply Z.leb_le | apply Z.ltb_lt]; unfold Py.len; lia).
  now rewrite Nat2Z.id, Hx.
Qed.

Lemma segment_bounds_spec all_blocks gaps sg :
  segment all_blocks gaps = inr sg ->
  seg_channels sg <> [] ->
  exists bounds,
    mapM (segment_bounds (seg_channels sg)) (Py.range (seg_nb_segment sg))
      = inr bounds /\
    seg_starts sg = map fst bounds /\
    seg_stops sg = map (fun b => Some (snd b)) bounds.
Proof.
  unfold segment. destruct (Py.len gaps =? 0); intros H Hne.
  - apply bind_inr in H as (t & _ & H). unfold ret in H. injection H as <-.
    now contradiction Hne.
  - apply bind_inr in H as (differ & Ed & H).
    apply pauses_differ_false in Ed. subst differ.
    apply bind_inr in H as (nb & _ & H).
    apply bind_inr in H as (chans & _ & H).
    apply bind_inr in H as (bounds & Eb & H).
    unfold ret in H. injection H as <-. cbn. eauto.
Qed.

Lemma nth_error_range (n : Z) (j : nat) :
  (j < Z.to_nat n)%nat -> nth_error (Py.range n) j = Some (Z.of_nat j).
Proof.
  intros H. unfold Py.range.
  rewrite nth_error_map, nth_error_seq.
  replace (j <? Z.to_nat n)%nat with true by (symmetry; apply Nat.ltb_lt; lia).
  reflexivity.
Qed.

Lemma times_lengths bl gaps nb s :
  seg_inv bl gaps nb nb s -> times_inv bl s ->
  Py.len (t_starts s) = nb /\ Py.len (t_stops s) = nb.
Proof.
  intros (_ & Hv & _) [H1 H2].
  apply Forall2_length in H1. apply Forall2_length in H2.
  unfold Py.len in *. split; lia.
Qed.

Lemma Forall2_In_l {A B} (R : A -> B -> Prop) (l : list A) (l' : list B)
  (x : A) :
  Forall2 R l l' -> In x l -> exists y, In y l' /\ R x y.
Proof.
  induction 1 as [|a b l l' Hab _ IH]; intros Hin; [contradiction|].
  destruct Hin as [<- | Hin].
  - exists b. split; [now left | exact Hab].
  - destruct (IH Hin) as (y & Hy & Hr). exists y. split; [now right | exact Hr].
Qed.

(** The start tick of a segment is not after the start of any signal
    channel in that segment, and its stop tick not before the channel's
    stop (lines 221-226). *)
Theorem segment_bounds_enclose_channels (cfg : config) (f : smr_file)
  (r : Spike2RawIO) (chan_id seg_index : Z) (starts stops : list Z)
  (c0 c1 : Z) :
  _parse_header cfg f = inr r ->
  Py.getitem (_sig_t_starts r) chan_id = inr starts ->
  Py.getitem (_sig_t_stops r) chan_id = inr stops ->
  Py.index starts seg_index = inr c0 ->
  Py.index stops seg_index = inr c1 ->
  exists t0 t1,
    Py.index (_seg_t_starts r) seg_index = inr t0 /\
    Py.index (_seg_t_stops r) seg_index = inr (Some t1) /\
    t0 <= c0 /\ c1 <= t1.
Proof.
  intros Hparse Hst Hsp Hc0 Hc1.
  pose proof (getitem_in_keys _ _ _ Hst) as Hin.
  destruct (participating_times _ _ _ _ Hparse Hin)
    as (index & original & s & gaps & _ & _ & _ & _ & _ & Hst' & Hsp'
        & Hnb & Hinv & Htimes).
  rewrite Hst in Hst'. injection Hst' as Es0.
  rewrite Hsp in Hsp'. injection Hsp' as Es1.
  destruct (times_lengths _ _ _ _ Hinv Htimes) as [Hl0 Hl1].
  rewrite <- Es0 in Hl0. rewrite <- Es1 in Hl1. clear Es0 Es1.
  apply parse_header_inv in Hparse
    as (types & index' & gaps' & sg & tc & gr & _ & _ & _ & Hseg & _ & _ & ->).
  cbn [_sig_t_starts _sig_t_stops _seg_t_starts _seg_t_stops nb_segment] in *.
  clear Hinv Htimes.
  apply getitem_inr in Hst. rewrite lookup_map_values in Hst.
  apply getitem_inr in Hsp. rewrite lookup_map_values in Hsp.
  destruct (Py.lookup (seg_channels sg) chan_id) as [s'|] eqn:E;
    [|discriminate].
  apply lookup_Some_In in E. cbn [option_map snd] in Hst, Hsp.
  injection Hst as Hst. injection Hsp as Hsp.
  destruct (segment_bounds_spec _ _ _ Hseg) as (bounds & Eb & -> & ->).
  { intros C. rewrite C in E. contradiction. }
  pose proof (length_mapM _ _ _ Eb) as Hlb. rewrite length_range in Hlb.
  apply mapM_inr in Eb.
  destruct (index_position _ _ _ Hc0) as (j & Hj & Ej & Hjk).
  destruct (index_position _ _ _ Hc1) as (j' & _ & Ej' & Hjk').
  rewrite Hl0 in Hjk. rewrite Hl1 in Hjk'.
  assert (j' = j) by lia. subst j'.
  assert (Hjn : (j < Z.to_nat (seg_nb_segment sg))%nat)
    by (unfold Py.len in Hl0; lia).
  destruct (Forall2_nth_error _ _ _ _ _ Eb (nth_error_range _ _ Hjn))
    as ([t0 t1] & Ebd & Hbd).
  unfold segment_bounds in Hbd.
  apply bind_inr in Hbd as (ss & Ess & Hbd).
  apply bind_inr in Hbd as (es & Ees & Hbd).
  apply bind_inr in Hbd as (m0 & Em0 & Hbd).
  apply bind_inr in Hbd as (m1 & Em1 & Hbd).
  unfold ret in Hbd. injection Hbd as -> ->.
  exists t0, t1.
  split.
  { apply (index_of_position _ _ j); [now rewrite nth_error_map, Ebd|].
    unfold Py.len in *. rewrite length_map, Hlb. rewrite Hjk. 
    replace (Z.of_nat (Z.to_nat (seg_nb_segment sg))) with (seg_nb_segment sg)
      by lia. reflexivity. }
  split.
  { apply (index_of_position _ _ j); [now rewrite nth_error_map, Ebd|].
    unfold Py.len in *. rewrite length_map, Hlb. rewrite Hjk.
    replace (Z.of_nat (Z.to_nat (seg_nb_segment sg))) with (seg_nb_segment sg)
      by lia. reflexivity. }
  apply mapM_inr in Ess. apply mapM_inr in Ees.
  destruct (Forall2_In_l _ _ _ _ Ess E) as (y0 & Hy0 & Ey0).
  destruct (Forall2_In_l _ _ _ _ Ees E) as (y1 & Hy1 & Ey1).
  cbn [snd] in Ey0, Ey1. rewrite Hst in Ey0. rewrite Hsp in Ey1.
  apply (index_nonneg_inr starts y0 (Nat2Z.is_nonneg j)) in Ey0.
  apply (index_nonneg_inr stops y1 (Nat2Z.is_nonneg j)) in Ey1.
  rewrite Nat2Z.id in Ey0, Ey1.
  rewrite Ej in Ey0. rewrite Ej' in Ey1.
  injection Ey0 as <-. injection Ey1 as <-.
  split.
  - exact (proj1 (Forall_forall _ _) (py_min_le _ _ Em0) _ Hy0).
  - exact (proj1 (Forall_forall _ _) (py_max_ge _ _ Em1) _ Hy1).
Qed.

Lemma segment_bounds_enclose_channels_witness :
  exists r,
    _parse_header default_config Scenario.pause_mismatch = inr r /\
    exists t0 t1,
      Py.index (_seg_t_starts r) 0 = inr t0 /\
      Py.index (_seg_t_stops r) 0 = inr (Some t1) /\
      t0 <= 0 /\ 190 <= t1.
Proof.
  eexists. split; [vm_compute; reflexivity|].
  apply (segment_bounds_enclose_channels default_config Scenario.pause_mismatch
           _ 0 0 [0] [190]); vm_compute; reflexivity.
Defined.

Lemma sum_concat_map {A} (g : A -> Z) (ls : list (list A)) :
  Py.sum (map (fun l => Py.sum (map g l)) ls) = Py.sum (map g (concat ls)).
Proof.
  induction ls as [|l ls IH]; [reflexivity|].
  cbn [map concat]. rewrite map_app, sum_app, <- IH. reflexivity.
Qed.

Lemma chain_entry_sizes (st bl : list data_block) :
  map chain_entry st = map chain_entry bl -> map size st = map size bl.
Proof.
  intros H.
  assert (E : forall l, map size l = map (fun c => snd (fst (fst c)))
                                         (map chain_entry l))
    by (intros l; rewrite map_map; reflexivity).
  now rewrite (E st), (E bl), H.
Qed.

(** Segmentation neither drops nor repeats a sample: the sizes of the
    segments of a channel add up to the items of all the blocks of its
    chain. *)
Theorem segment_sizes_add_up (cfg : config) (f : smr_file)
  (r : Spike2RawIO) (chan_id : Z) :
  _parse_header cfg f = inr r ->
  In chan_id (map fst (_sig_t_starts r)) ->
  exists index original sizes,
    block_index_of f = inr index /\
    Py.index index chan_id = inr original /\
    mapM (segment_size r chan_id) (Py.range (nb_segment r)) = inr sizes /\
    Py.sum sizes = Py.sum (map size original).
Proof.
  intros Hparse Hin.
  destruct (participating_channel _ _ _ _ Hparse Hin)
    as (index & original & s & gaps & Hidx & Hk & Horig & Hall & Hby & Hnb & Hinv).
  pose proof (len_store_inv _ _ _ _ _ Hinv) as Hlen.
  destruct Hinv as (Hentries & Hviews & e & Hch & He & _ & _ & Hend & _).
  rewrite (Hend Hnb eq_refl) in Hch. rewrite <- Hlen in Hch.
  exists index, original,
    (map (fun v => Py.sum (map size (Py.view_of (store s) v))) (views s)).
  split; [exact Hidx|].
  split; [apply index_nonneg_inr; auto|].
  split.
  - rewrite <- Hviews.
    rewrite <- (mapM_index_range
                  (fun v => Py.sum (map size (Py.view_of (store s) v)))
                  (views s)).
    apply mapM_ext. intros seg. unfold segment_size, by_seg_data_blocks.
    rewrite Hby, Hall. cbn [bind].
    destruct (Py.index (views s) seg); reflexivity.
  - rewrite <- (map_map (Py.view_of (store s))
                  (fun l => Py.sum (map size l))).
    rewrite sum_concat_map.
    rewrite (@chained_concat _ (store s) (views s) 0 (Py.len (store s)));
      [| lia | exact Hch].
    rewrite view_of_all. now rewrite (chain_entry_sizes _ _ Hentries).
Qed.

Lemma segment_sizes_add_up_witness :
  exists r,
    _parse_header default_config two_segments = inr r /\
    exists index original sizes,
      block_index_of two_segments = inr index /\
      Py.index index 0 = inr original /\
      mapM (segment_size r 0) (Py.range (nb_segment r)) = inr sizes /\
      Py.sum sizes = Py.sum (map size original).
Proof.
  eexists. split; [vm_compute; reflexivity|].
  apply (segment_sizes_add_up default_config two_segments).
  - vm_compute. reflexivity.
  - vm_compute. left. reflexivity.
Defined.

(** ** Typed channels of a parsed file *)

Lemma typed_step_spike_ids cfg info mm part chan acc acc' :
  typed_channel_step cfg info mm part chan acc = inr acc' ->
  map sp_id (tc_spike acc) = tc_unit_ids acc ->
  map sp_id (tc_spike acc') = tc_unit_ids acc'.
Proof.
  destruct chan as [c [ci bl]]. unfold typed_channel_step. cbn [fst snd].
  intros H Hacc. apply bind_inr in H as (rate & _ & H).
  destruct (kind_in ci [1; 9]).
  { destruct (negb _); [|destruct (kind ci =? 1)];
      unfold ret in H; injection H as <-; exact Hacc. }
  destruct (kind_in ci [2; 3; 4; 5; 8]).
  { unfold ret in H. injection H as <-. exact Hacc. }
  destruct (kind_in ci [6; 7]).
  2:{ unfold ret in H. injection H as <-. exact Hacc. }
  destruct (kind ci =? 6);
    apply bind_inr in H as (ids & _ & H);
    unfold ret in H; injection H as <-; cbn [tc_spike tc_unit_ids];
    rewrite map_app, Hacc, map_map; reflexivity.
Qed.

Lemma typed_fold_spike_ids cfg info mm part chans :
  forall acc tc,
    foldM (typed_channel_step cfg info mm part) chans acc = inr tc ->
    map sp_id (tc_spike acc) = tc_unit_ids acc ->
    map sp_id (tc_spike tc) = tc_unit_ids tc.
Proof.
  induction chans as [|c chans IH]; intros acc tc H Hacc.
  - simpl in H. unfold ret in H. now injection H as <-.
  - cbn [foldM] in H. apply bind_inr in H as (acc1 & E1 & H).
    apply (IH acc1 tc H). eapply typed_step_spike_ids; eauto.
Qed.

(** A unit index addresses a unit exactly when it addresses a spike
    channel of the header, and the id of that channel is made of the
    unit's channel and marker. *)
Theorem spike_channels_match_units (cfg : config) (f : smr_file)
  (r : Spike2RawIO) :
  _parse_header cfg f = inr r ->
  map sp_id (spike_channels r) = internal_unit_ids r /\
  forall unit_index u,
    unit_of r unit_index = inr u <->
    0 <= unit_index /\
    exists sp, Py.index (spike_channels r) unit_index = inr sp /\ sp_id sp = u.
Proof.
  intros Hparse.
  apply parse_header_inv in Hparse
    as (types & index & gaps & sg & tc & gr & _ & _ & _ & _ & Htc & _ & ->).
  cbn [spike_channels internal_unit_ids].
  assert (Hids : map sp_id (tc_spike tc) = tc_unit_ids tc).
  { eapply typed_fold_spike_ids; [exact Htc | reflexivity]. }
  split; [exact Hids|].
  intros unit_index u. unfold unit_of. cbn [internal_unit_ids].
  rewrite <- Hids. split.
  - destruct (andb _ _) eqn:E; [|discriminate].
    apply andb_true_iff in E as [E1 _]. apply Z.leb_le in E1.
    intros H. split; [exact E1|].
    apply (index_nonneg_inr (map sp_id (tc_spike tc)) u E1) in H.
    rewrite nth_error_map in H.
    destruct (nth_error (tc_spike tc) (Z.to_nat unit_index)) as [sp|] eqn:Esp;
      [|discriminate].
    injection H as <-. exists sp. split; [|reflexivity].
    now apply index_nonneg_inr.
  - intros (Hk & sp & Hsp & <-).
    pose proof (@index_inr_bounds _ _ _ _ Hsp) as Hb.
    replace ((0 <=? unit_index)
             && (unit_index <? Py.len (map sp_id (tc_spike tc)))) with true
      by (symmetry; apply andb_true_iff; split;
          [apply Z.leb_le | apply Z.ltb_lt]; rewrite ?len_map; lia).
    apply index_nonneg_inr; [exact Hk|].
    apply (index_nonneg_inr (tc_spike tc) sp Hk) in Hsp.
    now rewrite nth_error_map, Hsp.
Qed.

Lemma spike_channels_match_units_witness :
  exists r,
    _parse_header default_config Scenario.four_spikes = inr r /\
    map sp_id (spike_channels r) = internal_unit_ids r /\
    unit_of r 2 = inr (0, Marker 2).
Proof.
  eexists. split; [vm_compute; reflexivity|].
  destruct (spike_channels_match_units default_config Scenario.four_spikes _
              ltac:(vm_compute; reflexivity)) as [H1 H2].
  split; [exact H1|].
  apply (proj2 (H2 2 (0, Marker 2))).
  split; [lia|]. eexists. split; vm_compute; reflexivity.
Defined.

Lemma kind_signal_not_event ci :
  kind_in ci [1; 9] = true -> kind_in ci [2; 3; 4; 5; 8] = false.
Proof.
  unfold kind_in. cbn [existsb]. rewrite !orb_false_r.
  intros H. apply orb_true_iff in H as [H | H]; apply Z.eqb_eq in H;
    rewrite H; reflexivity.
Qed.

Lemma kind_event_not_signal ci :
  kind_in ci [2; 3; 4; 5; 8] = true -> kind_in ci [1; 9] = false.
Proof.
  intros H. destruct (kind_in ci [1; 9]) eqn:E; [|reflexivity].
  apply kind_signal_not_event in E. congruence.
Qed.

(** What one turn of the loop of line 234 adds to the event channels and
    to the signal channels. *)
Lemma typed_step_adds cfg info mm part c ci bl acc acc' :
  typed_channel_step cfg info mm part (c, (ci, bl)) acc = inr acc' ->
  map (fun e => (ev_id e, ev_name e)) (tc_event acc')
  = map (fun e => (ev_id e, ev_name e)) (tc_event acc)
    ++ (if kind_in ci [2; 3; 4; 5; 8] then [(c, title ci)] else []) /\
  map sc_id (tc_signal acc')
  = map sc_id (tc_signal acc)
    ++ (if kind_in ci [1; 9] && existsb (Z.eqb c) part then [c] else []).
Proof.
  unfold typed_channel_step. cbn [fst snd].
  intros H. apply bind_inr in H as (rate & _ & H).
  destruct (kind_in ci [1; 9]) eqn:Es.
  { rewrite (kind_signal_not_event ci Es). cbn [andb].
    destruct (existsb (Z.eqb c) part); cbn [negb] in H.
    - destruct (kind ci =? 1); unfold ret in H; injection H as <-;
        cbn [tc_event tc_signal]; rewrite map_app, app_nil_r; auto.
    - unfold ret in H. injection H as <-. now rewrite !app_nil_r. }
  cbn [andb]. rewrite app_nil_r.
  destruct (kind_in ci [2; 3; 4; 5; 8]).
  { unfold ret in H. injection H as <-. cbn [tc_event tc_signal].
    now rewrite map_app. }
  rewrite app_nil_r.
  destruct (kind_in ci [6; 7]).
  2:{ unfold ret in H. now injection H as <-. }
  destruct (kind ci =? 6);
    apply bind_inr in H as (ids & _ & H);
    unfold ret in H; injection H as <-; auto.
Qed.

Lemma typed_fold_adds cfg info mm part chans :
  forall acc tc,
    foldM (typed_channel_step cfg info mm part) chans acc = inr tc ->
    map (fun e => (ev_id e, ev_name e)) (tc_event tc)
    = map (fun e => (ev_id e, ev_name e)) (tc_event acc)
      ++ map (fun c => (fst c, title (fst (snd c))))
             (filter (fun c => kind_in (fst (snd c)) [2; 3; 4; 5; 8]) chans) /\
    map sc_id (tc_signal tc)
    = map sc_id (tc_signal acc)
      ++ map fst (filter (fun c => kind_in (fst (snd c)) [1; 9]
                                   && existsb (Z.eqb (fst c)) part) chans).
Proof.
  induction chans as [|[c [ci bl]] chans IH]; intros acc tc H.
  - simpl in H. unfold ret in H. injection H as <-.
    now rewrite !app_nil_r.
  - cbn [foldM] in H. apply bind_inr in H as (acc1 & E1 & H).
    destruct (typed_step_adds _ _ _ _ _ _ _ _ _ E1) as [He Hs].
    destruct (IH acc1 tc H) as [He' Hs'].
    rewrite He', Hs', He, Hs, <- !app_assoc. cbn [filter fst snd].
    split; f_equal.
    + destruct (kind_in ci [2; 3; 4; 5; 8]); reflexivity.
    + destruct (kind_in ci [1; 9] && existsb (Z.eqb c) part); reflexivity.
Qed.

Lemma enumerate_from {A} (l : list A) :
  Py.enumerate l = combine (map Z.of_nat (seq 0 (length l))) l.
Proof. unfold Py.enumerate, Py.range, Py.len. now rewrite Nat2Z.id. Qed.

(** Numbering a list of pairs numbers its first components alike. *)
Lemma filter_numbered_combine {A B} (p : Z -> A -> bool) (a : list A)
  (b : list B) :
  length a = length b ->
  forall s,
    map (fun c => (fst c, fst (snd c)))
        (filter (fun c => p (fst c) (fst (snd c)))
                (combine (map Z.of_nat (seq s (length (combine a b))))
                         (combine a b)))
    = filter (fun c => p (fst c) (snd c))
             (combine (map Z.of_nat (seq s (length a))) a).
Proof.
  revert b. induction a as [|x a IH]; intros [|y b] Hlen s;
    try discriminate; [reflexivity|].
  cbn [combine length seq map filter fst snd].
  injection Hlen as Hlen. specialize (IH b Hlen (S s)).
  destruct (p (Z.of_nat s) x); cbn [map fst snd]; now rewrite IH.
Qed.

Lemma filter_enumerate_combine {A B} (p : Z -> A -> bool) (a : list A)
  (b : list B) :
  length a = length b ->
  map (fun c => (fst c, fst (snd c)))
      (filter (fun c => p (fst c) (fst (snd c))) (Py.enumerate (combine a b)))
  = filter (fun c => p (fst c) (snd c)) (Py.enumerate a).
Proof.
  intros H. rewrite !enumerate_from. now apply filter_numbered_combine.
Qed.

Lemma length_final_all all_blocks chans :
  length (final_all_data_blocks all_blocks chans) = length all_blocks.
Proof. unfold final_all_data_blocks. apply length_map. Qed.

Lemma length_enumerate {A} (l : list A) : length (Py.enumerate l) = length l.
Proof.
  rewrite enumerate_from, length_combine, length_map, length_seq. lia.
Qed.

Lemma length_block_index f index :
  block_index_of f = inr index -> length index = length (file_channels f).
Proof. unfold block_index_of, build_all_index. apply length_mapM. Qed.

(** The event channels of the header are the channels of kind 2, 3, 4, 5
    or 8, in channel order, under their titles. *)
Theorem event_channels_are_event_kinds (cfg : config) (f : smr_file)
  (r : Spike2RawIO) :
  _parse_header cfg f = inr r ->
  map (fun e => (ev_id e, ev_name e)) (event_channels r)
  = map (fun c => (fst c, title (snd c)))
        (filter (fun c => kind_in (snd c) [2; 3; 4; 5; 8])
                (Py.enumerate (file_channels f))).
Proof.
  intros Hparse.
  apply parse_header_inv in Hparse
    as (types & index & gaps & sg & tc & gr & _ & Hidx & _ & _ & Htc & _ & ->).
  cbn [event_channels].
  destruct (typed_fold_adds _ _ _ _ _ _ _ Htc) as [He _].
  cbn [tc_event map app] in He. rewrite He.
  rewrite <- (filter_enumerate_combine
                (fun _ ci => kind_in ci [2; 3; 4; 5; 8]) (file_channels f)
                (map snd (final_all_data_blocks (Py.enumerate index)
                            (seg_channels sg)))).
  - now rewrite map_map.
  - rewrite length_map, length_final_all, length_enumerate.
    symmetry. now apply length_block_index.
Qed.

Lemma event_channels_are_event_kinds_witness :
  exists r,
    _parse_header default_config Scenario.events_only = inr r /\
    map (fun e => (ev_id e, ev_name e)) (event_channels r)
    = map (fun c => (fst c, title (snd c)))
          (filter (fun c => kind_in (snd c) [2; 3; 4; 5; 8])
                  (Py.enumerate (file_channels Scenario.events_only))).
Proof.
  eexists. split; [vm_compute; reflexivity|].
  apply (event_channels_are_event_kinds default_config Scenario.events_only).
  vm_compute. reflexivity.
Defined.

Lemma all_gaps_keys_exact info tf chans gaps :
  all_gaps info tf chans = inr gaps ->
  map fst gaps
  = map fst (filter (fun c => qualifies (fst (snd c)) (snd (snd c))) chans).
Proof.
  revert gaps. induction chans as [|[c [ci bl]] chans IH]; intros gaps H.
  - simpl in H. unfold ret in H. now injection H as <-.
  - cbn [all_gaps] in H. apply bind_inr in H as (g & Eg & H).
    apply bind_inr in H as (gs & Egs & H). unfold ret in H. injection H as <-.
    specialize (IH gs Egs). cbn [filter fst snd].
    unfold channel_gaps in Eg. unfold qualifies.
    destruct (kind_in ci [1; 9]); cbn [andb].
    + destruct (0 <? Py.sum (map size bl)).
      * apply bind_inr in Eg as (i & _ & Eg). unfold ret in Eg.
        injection Eg as <-. cbn [map fst]. now rewrite IH.
      * unfold ret in Eg. now injection Eg as <-.
    + unfold ret in Eg. now injection Eg as <-.
Qed.

Lemma segment_channels_keys nb all_blocks gaps chs :
  segment_channels nb all_blocks gaps = inr chs -> map fst chs = map fst gaps.
Proof. intros H. exact (proj1 (segment_channels_spec _ _ _ _ H)). Qed.

Lemma segment_keys all_blocks gaps sg :
  segment all_blocks gaps = inr sg -> map fst (seg_channels sg) = map fst gaps.
Proof.
  unfold segment. destruct (Py.len gaps =? 0) eqn:E; intros H.
  - apply bind_inr in H as (t & _ & H). unfold ret in H. injection H as <-.
    destruct gaps; [reflexivity|]. unfold Py.len in E. simpl in E.
    discriminate.
  - apply bind_inr in H as (differ & Ed & H).
    apply pauses_differ_false in Ed. subst differ.
    apply bind_inr in H as (nb & _ & H).
    apply bind_inr in H as (chans & Ec & H).
    apply bind_inr in H as (bounds & _ & H).
    unfold ret in H. injection H as <-. cbn [seg_channels].
    eapply segment_channels_keys; eauto.
Qed.

Lemma assign_stream_ids (l : list signal_channel) (idx : list Z) (sid : Z) :
  map sc_id (assign_stream l idx sid) = map sc_id l.
Proof.
  unfold assign_stream. rewrite map_map.
  rewrite <- (map_snd_enumerate l) at 2. rewrite map_map.
  apply map_ext. intros [i c]. cbn [fst snd].
  destruct (existsb _ _); reflexivity.
Qed.

Lemma group_fold_ids all_blocks by_seg nb chars l :
  forall g gr,
    foldM (group_step all_blocks by_seg nb chars) l g = inr gr ->
    map sc_id (gr_channels gr) = map sc_id (gr_channels g).
Proof.
  induction l as [|x l IH]; intros g gr H.
  - simpl in H. unfold ret in H. now injection H as <-.
  - cbn [foldM] in H. apply bind_inr in H as (g1 & E1 & H).
    rewrite (IH g1 gr H). unfold group_step in E1.
    apply bind_inr in E1 as (u & _ & E1). unfold ret in E1.
    injection E1 as <-. cbn [gr_channels]. apply assign_stream_ids.
Qed.

Lemma group_signals_ids cfg all_blocks by_seg nb scs gr :
  group_signals cfg all_blocks by_seg nb scs = inr gr ->
  map sc_id (gr_channels gr) = map sc_id scs.
Proof.
  unfold group_signals. destruct (0 <? Py.len scs).
  - destruct (try_signal_grouping cfg); intros H.
    + now rewrite (group_fold_ids _ _ _ _ _ _ _ H).
    + unfold ret in H. injection H as <-. cbn [gr_channels].
      rewrite map_map. rewrite <- (map_snd_enumerate scs) at 2.
      rewrite map_map. reflexivity.
  - unfold ret. now intros [= <-].
Qed.

Lemma enumerate_keys_sorted {A} (l : list A) :
  StronglySorted Z.lt (map fst (Py.enumerate l)).
Proof. rewrite map_fst_enumerate. unfold Py.range. apply range_sorted_from. Qed.

Lemma in_enumerate_combine {A B} (a : list A) (b : list B) (k : Z) x y :
  In (k, (x, y)) (Py.enumerate (combine a b)) -> In (k, x) (Py.enumerate a).
Proof.
  intros H. apply in_enumerate_inv in H as [Hk H].
  apply nth_error_combine_inv in H as [H _]. now apply in_enumerate.
Qed.

(** The ids the typed-channel loop keeps as signal channels are the
    channels that take part in segmentation. *)
Lemma signal_ids_participating (channels : list chan_info)
  (index : list (list data_block)) :
  map fst (filter (fun c => kind_in (snd c) [1; 9]
                            && existsb (Z.eqb (fst c))
                                 (map fst (filter (fun c' => qualifies (fst (snd c'))
                                                               (snd (snd c')))
                                             (Py.enumerate (combine channels index)))))
                  (Py.enumerate channels))
  = map fst (filter (fun c => qualifies (fst (snd c)) (snd (snd c)))
                    (Py.enumerate (combine channels index))).
Proof.
  apply strictly_sorted_unique.
  - apply filter_keys_sorted, enumerate_keys_sorted.
  - apply filter_keys_sorted, enumerate_keys_sorted.
  - intros v. split; intros H.
    + apply in_map_iff in H as ([k ci] & <- & H).
      apply filter_In in H as [_ H]. apply andb_true_iff in H as [_ H].
      apply existsb_exists in H as (k' & Hk' & E).
      cbn [fst] in *. apply Z.eqb_eq in E. now subst k'.
    + pose proof H as Hv.
      apply in_map_iff in H as ([k [ci bl]] & <- & H).
      apply filter_In in H as [Hin Hq]. cbn [fst snd] in *.
      apply in_map_iff. exists (k, ci). split; [reflexivity|].
      apply filter_In. split; [eapply in_enumerate_combine; eauto|].
      cbn [fst snd]. apply andb_true_iff. split.
      * unfold qualifies in Hq. now apply andb_true_iff in Hq as [Hq _].
      * apply existsb_exists. exists k. split; [exact Hv | apply Z.eqb_refl].
Qed.

(** The signal channels of the header are the channels of kind 1 or 9
    that hold at least one sample, in channel order; they are the channels
    that have per-segment data. *)
Theorem signal_channels_are_nonempty_signals (cfg : config) (f : smr_file)
  (r : Spike2RawIO) :
  _parse_header cfg f = inr r ->
  exists index,
    block_index_of f = inr index /\
    map sc_id (signal_channels r)
    = map fst (filter (fun c => qualifies (fst (snd c)) (snd (snd c)))
                      (Py.enumerate (combine (file_channels f) index))) /\
    map sc_id (signal_channels r) = map fst (_sig_t_starts r) /\
    map sc_id (signal_channels r) = map fst (_sig_t_stops r).
Proof.
  intros Hparse.
  apply parse_header_inv in Hparse
    as (types & index & gaps & sg & tc & gr & _ & Hidx & Hgaps & Hseg & Htc
        & Hgr & ->).
  cbn [signal_channels _sig_t_starts _sig_t_stops].
  exists index. split; [exact Hidx|].
  pose proof (segment_keys _ _ _ Hseg) as Hkeys.
  pose proof (all_gaps_keys_exact _ _ _ _ Hgaps) as Hg.
  assert (Hids : map sc_id (gr_channels gr)
                 = map fst (filter (fun c => qualifies (fst (snd c)) (snd (snd c)))
                                   (Py.enumerate (combine (file_channels f) index)))).
  { rewrite (group_signals_ids _ _ _ _ _ _ Hgr).
    destruct (typed_fold_adds _ _ _ _ _ _ _ Htc) as [_ Hs].
    cbn [tc_signal map app] in Hs. rewrite Hs, Hkeys, Hg.
    etransitivity; [|apply signal_ids_participating].
    rewrite <- (filter_enumerate_combine
                  (fun k ci => kind_in ci [1; 9]
                               && existsb (Z.eqb k)
                                    (map fst (filter (fun c' => qualifies (fst (snd c'))
                                                                  (snd (snd c')))
                                                (Py.enumerate (combine (file_channels f) index)))))
                  (file_channels f)
                  (map snd (final_all_data_blocks (Py.enumerate index)
                              (seg_channels sg)))).
    - now rewrite map_map.
    - rewrite length_map, length_final_all, length_enumerate.
      symmetry. now apply length_block_index. }
  split; [exact Hids|].
  rewrite !map_map. cbn [fst].
  change (map (fun x : Z * chan_segments => fst x) (seg_channels sg))
    with (map fst (seg_channels sg)).
  rewrite Hids, Hkeys, Hg. auto.
Qed.

Lemma signal_channels_are_nonempty_signals_witness :
  exists r,
    _parse_header default_config Scenario.size_mismatch = inr r /\
    exists index,
      block_index_of Scenario.size_mismatch = inr index /\
      map sc_id (signal_channels r)
      = map fst (filter (fun c => qualifies (fst (snd c)) (snd (snd c)))
                        (Py.enumerate (combine (file_channels Scenario.size_mismatch)
                                               index))) /\
      map sc_id (signal_channels r) = map fst (_sig_t_starts r) /\
      map sc_id (signal_channels r) = map fst (_sig_t_stops r).
Proof.
  eexists. split; [vm_compute; reflexivity|].
  apply (signal_channels_are_nonempty_signals default_config Scenario.size_mismatch).
  vm_compute. reflexivity.
Defined.

(** ** Streams of a parsed file *)

Lemma dtype_of_name_cases (name : string) :
  dtype_of_name name = int16_dtype \/ dtype_of_name name = float32_dtype.
Proof. unfold dtype_of_name. destruct (String.eqb name "int16"); auto. Qed.

(** The grouping loop of line 315 appends one stream and one dtype per
    characteristic, keyed by its number. *)
Lemma group_fold_keys all_blocks by_seg nb chars l :
  forall g gr,
    foldM (group_step all_blocks by_seg nb chars) l g = inr gr ->
    map st_id (gr_streams gr) = map st_id (gr_streams g) ++ map fst l /\
    map fst (gr_dtypes gr) = map fst (gr_dtypes g) ++ map fst l /\
    (Forall (fun d => snd d = int16_dtype \/ snd d = float32_dtype) (gr_dtypes g) ->
     Forall (fun d => snd d = int16_dtype \/ snd d = float32_dtype) (gr_dtypes gr)).
Proof.
  induction l as [|x l IH]; intros g gr H.
  - simpl in H. unfold ret in H. injection H as <-.
    now rewrite !app_nil_r.
  - cbn [foldM] in H. apply bind_inr in H as (g1 & E1 & H).
    destruct (IH g1 gr H) as (H1 & H2 & H3).
    unfold group_step in E1. apply bind_inr in E1 as (u & _ & E1).
    unfold ret in E1. injection E1 as <-.
    cbn [gr_streams gr_dtypes] in *.
    rewrite H1, H2, !map_app, <- !app_assoc. cbn [map app st_id fst].
    repeat split. intros Hg. apply H3. apply Forall_app. split; [exact Hg|].
    constructor; [|constructor]. cbn [snd]. apply dtype_of_name_cases.
Qed.

(** Lines 306-346: the streams are numbered by position, every stream has
    a dtype under its number, and that dtype is int16 or float32. *)
Lemma group_signals_keys cfg all_blocks by_seg nb scs gr :
  group_signals cfg all_blocks by_seg nb scs = inr gr ->
  map st_id (gr_streams gr) = Py.range (Py.len (gr_streams gr)) /\
  map fst (gr_dtypes gr) = map st_id (gr_streams gr) /\
  Forall (fun d => snd d = int16_dtype \/ snd d = float32_dtype) (gr_dtypes gr).
Proof.
  unfold group_signals. destruct (0 <? Py.len scs).
  - destruct (try_signal_grouping cfg); intros H.
    + destruct (group_fold_keys _ _ _ _ _ _ _ H) as (H1 & H2 & H3).
      cbn [gr_streams gr_dtypes map app] in *.
      split; [|split; [congruence | apply H3; constructor]].
      rewrite H1, map_fst_enumerate. f_equal.
      rewrite <- (len_map st_id), H1, len_map. unfold Py.len.
      now rewrite length_enumerate.
    + unfold ret in H. injection H as <-. cbn [gr_streams gr_dtypes].
      rewrite !map_map. cbn [st_id fst snd].
      change (map (fun x : Z * signal_channel => fst x) (Py.enumerate scs))
        with (map fst (Py.enumerate scs)).
      rewrite map_fst_enumerate. repeat split.
      * f_equal. unfold Py.len. now rewrite length_map, length_enumerate.
      * apply Forall_forall. intros d Hd.
        apply in_map_iff in Hd as (ic & <- & _). apply dtype_of_name_cases.
  - unfold ret. intros [= <-]. cbn. repeat split. constructor.
Qed.

(** The id of the stream at position [i] of the header is [i], and the
    dtypes are keyed by the same numbers. *)
Theorem stream_ids_are_positions (cfg : config) (f : smr_file)
  (r : Spike2RawIO) :
  _parse_header cfg f = inr r ->
  map st_id (signal_streams r) = Py.range (Py.len (signal_streams r)) /\
  map fst (_sig_dtypes r) = map st_id (signal_streams r).
Proof.
  intros Hparse.
  apply parse_header_inv in Hparse
    as (types & index & gaps & sg & tc & gr & _ & _ & _ & _ & _ & Hgr & ->).
  cbn [signal_streams _sig_dtypes].
  destruct (group_signals_keys _ _ _ _ _ _ Hgr) as (H1 & H2 & _). auto.
Qed.

Lemma stream_ids_are_positions_witness :
  exists r,
    _parse_header default_config Scenario.pause_mismatch = inr r /\
    map st_id (signal_streams r) = Py.range (Py.len (signal_streams r)) /\
    map fst (_sig_dtypes r) = map st_id (signal_streams r).
Proof.
  eexists. split; [vm_compute; reflexivity|].
  apply (stream_ids_are_positions default_config Scenario.pause_mismatch).
  vm_compute. reflexivity.
Defined.

Lemma nth_error_range_inv (n : Z) (j : nat) (x : Z) :
  nth_error (Py.range n) j = Some x -> x = Z.of_nat j.
Proof.
  unfold Py.range. rewrite nth_error_map, nth_error_seq.
  destruct (j <? Z.to_nat n)%nat; [|discriminate]. now intros [= <-].
Qed.

(** A stream index that addresses a stream gives the stream's number, and
    the dtype of that stream is on record: the chunk reader's lookup of
    [_sig_dtypes] cannot fail, and finds int16 or float32. *)
Theorem stream_dtype_is_on_record (cfg : config) (f : smr_file)
  (r : Spike2RawIO) (stream_index stream_id : Z) (members : list Z) :
  _parse_header cfg f = inr r ->
  stream_chan_ids r stream_index = inr (stream_id, members) ->
  stream_id = (if stream_index <? 0
               then stream_index + Py.len (signal_streams r)
               else stream_index) /\
  exists dt, Py.getitem (_sig_dtypes r) stream_id = inr dt /\
             (dt = int16_dtype \/ dt = float32_dtype).
Proof.
  intros Hparse Hs.
  apply parse_header_inv in Hparse
    as (types & index & gaps & sg & tc & gr & _ & _ & _ & _ & _ & Hgr & ->).
  unfold stream_chan_ids in Hs. cbn [signal_streams signal_channels _sig_dtypes] in *.
  destruct (group_signals_keys _ _ _ _ _ _ Hgr) as (H1 & H2 & H3).
  apply bind_inr in Hs as (s & Es & Hs). unfold ret in Hs.
  injection Hs as <- _.
  destruct (index_position _ _ _ Es) as (j & Hj & Ej & Hjk).
  assert (Hid : st_id s = Z.of_nat j).
  { apply (nth_error_range_inv (Py.len (gr_streams gr)) j).
    rewrite <- H1, nth_error_map, Ej. reflexivity. }
  split; [congruence|].
  assert (Hin : In (st_id s) (map fst (gr_dtypes gr))).
  { rewrite H2. apply in_map. eapply nth_error_In; eauto. }
  destruct (in_keys _ _ Hin) as (dt & Hdt).
  exists dt. split.
  - apply getitem_inr. apply lookup_in_nodup; [|exact Hdt].
    rewrite H2, H1. apply NoDup_range.
  - exact (proj1 (Forall_forall _ _) H3 _ Hdt).
Qed.

Lemma stream_dtype_is_on_record_witness :
  exists r,
    _parse_header default_config Scenario.size_mismatch = inr r /\
    0 = (if -1 <? 0 then -1 + Py.len (signal_streams r) else -1) /\
    exists dt, Py.getitem (_sig_dtypes r) 0 = inr dt /\
               (dt = int16_dtype \/ dt = float32_dtype).
Proof.
  eexists. split; [vm_compute; reflexivity|].
  apply (stream_dtype_is_on_record default_config Scenario.size_mismatch _
           (-1) 0 [0; 1]); vm_compute; reflexivity.
Defined.

Lemma typed_fold_stream_zero cfg info mm part chans :
  forall acc tc,
    foldM (typed_channel_step cfg info mm part) chans acc = inr tc ->
    Forall (fun c => sc_stream_id c = 0) (tc_signal acc) ->
    Forall (fun c => sc_stream_id c = 0) (tc_signal tc).
Proof.
  induction chans as [|[c [ci bl]] chans IH]; intros acc tc H Hacc.
  - simpl in H. unfold ret in H. now injection H as <-.
  - cbn [foldM] in H. apply bind_inr in H as (acc1 & E1 & H).
    apply (IH acc1 tc H). clear IH H.
    unfold typed_channel_step in E1. cbn [fst snd] in E1.
    apply bind_inr in E1 as (rate & _ & E1).
    destruct (kind_in ci [1; 9]).
    { destruct (negb _); [unfold ret in E1; now injection E1 as <-|].
      destruct (kind ci =? 1); unfold ret in E1; injection E1 as <-;
        cbn [tc_signal]; apply Forall_app;
        (split; [exact Hacc | constructor; [reflexivity | constructor]]). }
    destruct (kind_in ci [2; 3; 4; 5; 8]).
    { unfold ret in E1. now injection E1 as <-. }
    destruct (kind_in ci [6; 7]).
    2:{ unfold ret in E1. now injection E1 as <-. }
    destruct (kind ci =? 6);
      apply bind_inr in E1 as (ids & _ & E1);
      unfold ret in E1; injection E1 as <-; exact Hacc.
Qed.

Lemma assign_stream_range (l : list signal_channel) (idx : list Z) (s : Z) :
  0 <= s ->
  Forall (fun c => 0 <= sc_stream_id c < Z.max 1 s) l ->
  Forall (fun c => 0 <= sc_stream_id c < Z.max 1 (s + 1)) (assign_stream l idx s).
Proof.
  intros Hs H. unfold assign_stream. apply Forall_forall. intros c Hc.
  apply in_map_iff in Hc as ([i c0] & <- & Hin). cbn [fst snd].
  apply in_enumerate_snd in Hin.
  pose proof (proj1 (Forall_forall _ _) H _ Hin) as Hc0. cbv beta in Hc0.
  destruct (existsb _ _); cbn [set_stream_id sc_stream_id]; lia.
Qed.

Lemma group_fold_range all_blocks by_seg nb chars (cs : list characteristic) :
  forall (s : nat) g gr,
    foldM (group_step all_blocks by_seg nb chars)
          (combine (map Z.of_nat (seq s (length cs))) cs) g = inr gr ->
    Forall (fun c => 0 <= sc_stream_id c < Z.max 1 (Z.of_nat s)) (gr_channels g) ->
    Forall (fun c => 0 <= sc_stream_id c
                     < Z.max 1 (Z.of_nat s + Z.of_nat (length cs)))
           (gr_channels gr).
Proof.
  induction cs as [|x cs IH]; intros s g gr H Hg.
  - simpl in H. unfold ret in H. injection H as <-.
    simpl. now rewrite Z.add_0_r.
  - cbn [length seq map combine foldM] in H.
    apply bind_inr in H as (g1 & E1 & H).
    specialize (IH (S s) g1 gr H).
    replace (Z.of_nat s + Z.of_nat (length (x :: cs)))
      with (Z.of_nat (S s) + Z.of_nat (length cs)) by (simpl length; lia).
    apply IH. unfold group_step in E1. cbn [fst snd] in E1.
    apply bind_inr in E1 as (u & _ & E1). unfold ret in E1.
    injection E1 as <-. cbn [gr_channels].
    replace (Z.of_nat (S s)) with (Z.of_nat s + 1) by lia.
    apply assign_stream_range; [lia | exact Hg].
Qed.

Lemma charact_insert_nonempty x l : charact_insert x l <> [].
Proof. destruct l as [|y l]; simpl; [discriminate|]. destruct (charact_cmp x y); discriminate. Qed.

Lemma unique_characteristics_nonempty l :
  l <> [] -> unique_characteristics l <> [].
Proof.
  destruct l as [|x l]; [contradiction|]. intros _.
  unfold unique_characteristics. cbn [fold_right].
  pose proof (charact_insert_nonempty x (fold_right charact_insert [] l)).
  destruct (charact_insert x _); [contradiction | discriminate].
Qed.

(** After lines 306-346 the stream id of every signal channel is the
    number of a stream of the header. *)
Lemma group_signals_range cfg all_blocks by_seg nb scs gr :
  group_signals cfg all_blocks by_seg nb scs = inr gr ->
  Forall (fun c => sc_stream_id c = 0) scs ->
  Forall (fun c => 0 <= sc_stream_id c < Py.len (gr_streams gr)) (gr_channels gr).
Proof.
  unfold group_signals. destruct (0 <? Py.len scs) eqn:El.
  - apply Z.ltb_lt in El.
    destruct (try_signal_grouping cfg); intros H Hz.
    + destruct (group_fold_keys _ _ _ _ _ _ _ H) as (H1 & _ & _).
      cbn [gr_streams map app] in H1.
      assert (Hlen : Py.len (gr_streams gr)
                     = Py.len (unique_characteristics (map characteristic_of scs))).
      { rewrite <- (len_map st_id), H1, len_map. unfold Py.len.
        now rewrite length_enumerate. }
      rewrite enumerate_from in H.
      apply (group_fold_range _ _ _ _ _ 0%nat) in H.
      * cbn [gr_channels] in H. rewrite Hlen.
        assert (Hne : 1 <= Py.len (unique_characteristics
                                     (map characteristic_of scs))).
        { pose proof (unique_characteristics_nonempty
                        (map characteristic_of scs)) as Hu.
          destruct (unique_characteristics _) as [|u us].
          - exfalso. apply Hu; [|reflexivity].
            destruct scs; [unfold Py.len in El; simpl in El; lia | discriminate].
          - unfold Py.len. simpl length. lia. }
        eapply Forall_impl; [|exact H]. cbv beta. unfold Py.len in *.
        intros c Hc. lia.
      * cbn [gr_channels]. eapply Forall_impl; [|exact Hz]. cbv beta.
        intros c Hc. lia.
    + unfold ret in H. injection H as <-. cbn [gr_channels gr_streams].
      rewrite len_map. apply Forall_forall. intros c Hc.
      apply in_map_iff in Hc as ([i c0] & <- & Hin).
      cbn [fst snd set_stream_id sc_stream_id].
      apply in_enumerate_inv in Hin as [Hi Hn].
      apply nth_error_Some_lt in Hn. unfold Py.len.
      rewrite length_enumerate. lia.
  - unfold ret. intros [= <-] Hz. cbn [gr_channels gr_streams].
    destruct scs; [constructor|]. apply Z.ltb_ge in El.
    unfold Py.len in El. simpl in El. lia.
Qed.

Lemma filter_mask {A} (p : A -> bool) (l : list A) :
  map snd (filter fst (combine (map p l) l)) = filter p l.
Proof.
  induction l as [|x l IH]; [reflexivity|].
  cbn [map combine filter fst]. destruct (p x); cbn [map snd]; now rewrite IH.
Qed.

Lemma stream_members (r : Spike2RawIO) (stream_index : Z) (s : signal_stream) :
  Py.index (signal_streams r) stream_index = inr s ->
  stream_chan_ids r stream_index
  = inr (st_id s,
         map sc_id (filter (fun c => sc_stream_id c =? st_id s)
                           (signal_channels r))).
Proof.
  intros H. unfold stream_chan_ids. rewrite H. cbn [bind]. unfold ret.
  f_equal. f_equal.
  rewrite <- (filter_mask (fun c => sc_stream_id c =? st_id s)).
  now rewrite map_map.
Qed.

(** Every signal channel of the header belongs to a stream of the header:
    its stream id addresses a stream with that id, and the channel is
    among the channels of that stream. *)
Theorem signal_channel_belongs_to_stream (cfg : config) (f : smr_file)
  (r : Spike2RawIO) (c : signal_channel) :
  _parse_header cfg f = inr r ->
  In c (signal_channels r) ->
  exists members,
    stream_chan_ids r (sc_stream_id c) = inr (sc_stream_id c, members) /\
    In (sc_id c) members.
Proof.
  intros Hparse Hc.
  pose proof Hparse as Hp.
  apply parse_header_inv in Hp
    as (types & index & gaps & sg & tc & gr & _ & _ & _ & _ & Htc & Hgr & ->).
  cbn [signal_channels] in Hc.
  destruct (group_signals_keys _ _ _ _ _ _ Hgr) as (H1 & _ & _).
  assert (Hz : Forall (fun c => sc_stream_id c = 0) (tc_signal tc)).
  { eapply typed_fold_stream_zero; [exact Htc | constructor]. }
  pose proof (group_signals_range _ _ _ _ _ _ Hgr Hz) as Hr.
  pose proof (proj1 (Forall_forall _ _) Hr _ Hc) as Hb. cbv beta in Hb.
  destruct (index_in_range (gr_streams gr) (sc_stream_id c) ltac:(lia))
    as (s & Es).
  assert (Hid : st_id s = sc_stream_id c).
  { destruct (index_position _ _ _ Es) as (j & _ & Ej & Hjk).
    replace (sc_stream_id c <? 0) with false in Hjk
      by (symmetry; apply Z.ltb_ge; lia).
    rewrite <- Hjk.
    apply (nth_error_range_inv (Py.len (gr_streams gr)) j).
    rewrite <- H1, nth_error_map, Ej. reflexivity. }
  eexists. split.
  - match goal with
    | |- context [stream_chan_ids ?r0 _] => rewrite (stream_members r0 _ s Es)
    end.
    cbn [signal_channels].
    rewrite Hid. reflexivity.
  - apply in_map. apply filter_In. split; [exact Hc | apply Z.eqb_refl].
Qed.

Lemma signal_channel_belongs_to_stream_witness :
  exists r c,
    _parse_header default_config Scenario.size_mismatch = inr r /\
    Py.index (signal_channels r) 1 = inr c /\
    exists members,
      stream_chan_ids r (sc_stream_id c) = inr (sc_stream_id c, members) /\
      In (sc_id c) members.
Proof.
  eexists. eexists. split; [vm_compute; reflexivity|].
  split; [vm_compute; reflexivity|].
  apply (signal_channel_belongs_to_stream default_config Scenario.size_mismatch).
  - vm_compute. reflexivity.
  - vm_compute. right. left. reflexivity.
Defined.

Lemma nth_error_numbered {A} (l : list A) (s j : nat) :
  nth_error (combine (map Z.of_nat (seq s (length l))) l) j
  = option_map (fun x => (Z.of_nat (s + j), x)) (nth_error l j).
Proof.
  revert s j. induction l as [|x l IH]; intros s [|j]; try reflexivity.
  - cbn. now rewrite Nat.add_0_r.
  - cbn [length seq map combine nth_error]. rewrite IH.
    now replace (S s + j)%nat with (s + S j)%nat by lia.
Qed.

Lemma nth_error_enumerate {A} (l : list A) (j : nat) :
  nth_error (Py.enumerate l) j
  = option_map (fun x => (Z.of_nat j, x)) (nth_error l j).
Proof. rewrite enumerate_from. apply nth_error_numbered. Qed.

Lemma filter_key_above {A} (key : A -> Z) (l : list A) (s : nat) (k : Z) :
  map key l = map Z.of_nat (seq s (length l)) -> k < Z.of_nat s ->
  filter (fun c => key c =? k) l = [].
Proof.
  revert s. induction l as [|x l IH]; intros s H Hk; [reflexivity|].
  cbn [length seq map] in H. injection H as Hx H. cbn [filter].
  replace (key x =? k) with false by (symmetry; apply Z.eqb_neq; lia).
  apply (IH (S s)); [exact H | lia].
Qed.

(** In a list whose keys are consecutive numbers, a key selects the one
    element at its position. *)
Lemma filter_key_unique {A} (key : A -> Z) (l : list A) :
  forall (s i : nat) (c : A),
    map key l = map Z.of_nat (seq s (length l)) ->
    nth_error l i = Some c ->
    filter (fun c' => key c' =? Z.of_nat (s + i)) l = [c].
Proof.
  induction l as [|x l IH]; intros s i c H Hc; [destruct i; discriminate|].
  cbn [length seq map] in H. injection H as Hx H. cbn [filter].
  destruct i as [|i].
  - injection Hc as ->. rewrite Nat.add_0_r, Hx, Z.eqb_refl. f_equal.
    apply (filter_key_above key l (S s)); [exact H | lia].
  - replace (key x =? Z.of_nat (s + S i)) with false
      by (symmetry; apply Z.eqb_neq; lia).
    replace (s + S i)%nat with (S s + i)%nat by lia.
    now apply IH.
Qed.

(** Without grouping (lines 336-344) the stream at position [i] holds
    exactly the signal channel at position [i], and carries its name. *)
Theorem ungrouped_streams_are_single_channels (cfg : config) (f : smr_file)
  (r : Spike2RawIO) (i : Z) (c : signal_channel) :
  _parse_header cfg f = inr r ->
  try_signal_grouping cfg = false ->
  0 <= i ->
  Py.index (signal_channels r) i = inr c ->
  sc_stream_id c = i /\
  stream_chan_ids r i = inr (i, [sc_id c]) /\
  exists s, Py.index (signal_streams r) i = inr s /\ st_name s = sc_name c.
Proof.
  intros Hparse Hcfg Hi Hc.
  apply parse_header_inv in Hparse
    as (types & index & gaps & sg & tc & gr & _ & _ & _ & _ & _ & Hgr & ->).
  cbn [signal_channels] in Hc.
  unfold group_signals in Hgr. rewrite Hcfg in Hgr.
  destruct (0 <? Py.len (tc_signal tc)) eqn:El.
  2:{ unfold ret in Hgr. injection Hgr as <-. cbn [gr_channels] in Hc.
      apply index_inr_bounds in Hc. apply Z.ltb_ge in El. lia. }
  unfold ret in Hgr. injection Hgr as <-. cbn [gr_channels] in Hc.
  apply (index_nonneg_inr _ c Hi) in Hc.
  rewrite nth_error_map, nth_error_enumerate in Hc.
  destruct (nth_error (tc_signal tc) (Z.to_nat i)) as [c0|] eqn:E0;
    [|discriminate].
  cbn [option_map fst snd] in Hc. injection Hc as <-.
  rewrite Z2Nat.id by lia.
  split; [reflexivity|].
  assert (Es : Py.index
                 (map (fun ic : Z * signal_channel =>
                         {| st_name := sc_name (snd ic); st_id := fst ic |})
                      (Py.enumerate (tc_signal tc))) i
               = inr {| st_name := sc_name c0; st_id := i |}).
  { apply index_nonneg_inr; [exact Hi|].
    rewrite nth_error_map, nth_error_enumerate, E0. cbn [option_map fst snd].
    now rewrite Z2Nat.id by lia. }
  split; [|eexists; split; [exact Es | reflexivity]].
  match goal with
  | |- context [stream_chan_ids ?r0 _] =>
      rewrite (stream_members r0 i {| st_name := sc_name c0; st_id := i |} Es)
  end.
  cbn [signal_channels st_id gr_channels]. f_equal. f_equal.
  pose proof (filter_key_unique sc_stream_id
                (map (fun ic : Z * signal_channel =>
                        set_stream_id (snd ic) (fst ic))
                     (Py.enumerate (tc_signal tc)))
                0 (Z.to_nat i) (set_stream_id c0 (Z.of_nat (Z.to_nat i)))) as F.
  cbn [Nat.add] in F. rewrite Z2Nat.id in F by lia.
  rewrite F; [reflexivity | |].
  - rewrite map_map. cbn [set_stream_id sc_stream_id].
    rewrite length_map, length_enumerate.
    change (map (fun x : Z * signal_channel => fst x) (Py.enumerate (tc_signal tc)))
      with (map fst (Py.enumerate (tc_signal tc))).
    rewrite map_fst_enumerate. unfold Py.range, Py.len. now rewrite Nat2Z.id.
  - rewrite nth_error_map, nth_error_enumerate, E0. cbn [option_map fst snd].
    now rewrite Z2Nat.id by lia.
Qed.

Lemma ungrouped_streams_are_single_channels_witness :
  exists r c,
    _parse_header {| take_ideal_sampling_rate := false; ced_units := true;
                     try_signal_grouping := false |}
                  Scenario.size_mismatch = inr r /\
    Py.index (signal_channels r) 1 = inr c /\
    sc_stream_id c = 1 /\
    stream_chan_ids r 1 = inr (1, [sc_id c]) /\
    exists s, Py.index (signal_streams r) 1 = inr s /\ st_name s = sc_name c.
Proof.
  eexists. eexists. split; [vm_compute; reflexivity|].
  split; [vm_compute; reflexivity|].
  apply (ungrouped_streams_are_single_channels
           {| take_ideal_sampling_rate := false; ced_units := true;
              try_signal_grouping := false |} Scenario.size_mismatch).
  - vm_compute. reflexivity.
  - reflexivity.
  - lia.
  - vm_compute. reflexivity.
Defined.

(** ** Contents of a chunk *)

Lemma mapM_of_Forall2 {A B} (f : A -> result B) (xs : list A) (ys : list B) :
  Forall2 (fun x y => f x = inr y) xs ys -> mapM f xs = inr ys.
Proof.
  induction 1 as [|x y xs ys Hxy _ IH]; [reflexivity|].
  cbn [mapM]. rewrite Hxy. cbn [bind]. rewrite IH. reflexivity.
Qed.

Lemma Forall2_flip {A B} (R : A -> B -> Prop) (l : list A) (l' : list B) :
  Forall2 R l l' -> Forall2 (fun y x => R x y) l' l.
Proof. induction 1; constructor; auto. Qed.

(** Picking entries of two lists of one length by the same indices. *)
Lemma mapM_index_Forall2 {A B} (R : A -> B -> Prop) (l : list A) (l' : list B)
  (idx : list Z) (ys : list B) :
  Forall2 R l l' ->
  mapM (Py.index l') idx = inr ys ->
  exists xs, mapM (Py.index l) idx = inr xs /\ Forall2 R xs ys.
Proof.
  intros H. revert ys. induction idx as [|i idx IH]; intros ys Hys.
  - simpl in Hys. unfold ret in Hys. injection Hys as <-.
    exists []. split; [reflexivity | constructor].
  - cbn [mapM] in Hys. apply bind_inr in Hys as (y & Ey & Hys).
    apply bind_inr in Hys as (ys' & Eys & Hys). unfold ret in Hys.
    injection Hys as <-.
    destruct (IH ys' Eys) as (xs & Exs & Hxs).
    destruct (Forall2_index _ _ _ _ _ (Forall2_flip _ _ _ H) Ey)
      as (x & Ex & Hxy).
    exists (x :: xs). split; [|constructor; auto].
    cbn [mapM]. rewrite Ex. cbn [bind]. rewrite Exs. reflexivity.
Qed.

(** Reading a selection of the channels of a stream gives the columns the
    read of all its channels has at the selected positions. *)
Theorem channel_selection_picks_columns (r : Spike2RawIO)
  (block_index seg_index : Z) (i_start i_stop : option Z) (stream_index : Z)
  (idx : list Z) (whole : matrix) (cols : list (list sample)) :
  _get_analogsignal_chunk r block_index seg_index i_start i_stop stream_index
    None = inr whole ->
  mapM (Py.index (columns whole)) idx = inr cols ->
  _get_analogsignal_chunk r block_index seg_index i_start i_stop stream_index
    (Some idx) = inr {| nrows := nrows whole; columns := cols |}.
Proof.
  unfold _get_analogsignal_chunk. cbv zeta. intros H Hcols.
  apply bind_inr in H as (stop & Estop & H). rewrite Estop. cbn [bind].
  apply bind_inr in H as ([sid members] & Es & H). rewrite Es. cbn [bind].
  apply bind_inr in H as (dt & Edt & H). rewrite Edt. cbn [bind].
  apply bind_inr in H as (members' & Em & H). unfold ret in Em.
  injection Em as <-.
  destruct (stop - match i_start with Some i => i | None => 0 end <? 0) eqn:En;
    [discriminate|].
  apply bind_inr in H as (all & Eall & H). unfold ret in H.
  injection H as <-. cbn [columns nrows] in *.
  apply mapM_inr in Eall.
  destruct (mapM_index_Forall2 _ _ _ _ _ Eall Hcols) as (chans & Ec & Hc).
  rewrite Ec. cbn [bind].
  rewrite (mapM_of_Forall2 _ _ _ Hc). reflexivity.
Qed.

Lemma channel_selection_picks_columns_witness :
  exists r whole,
    _parse_header default_config Scenario.size_mismatch = inr r /\
    _get_analogsignal_chunk r 0 0 (Some 2) (Some 5) 0 None = inr whole /\
    exists c0 c1,
      columns whole = [c0; c1] /\
      _get_analogsignal_chunk r 0 0 (Some 2) (Some 5) 0 (Some [-1; 0])
      = inr {| nrows := nrows whole; columns := [c1; c0] |}.
Proof.
  eexists. eexists. split; [vm_compute; reflexivity|].
  split; [vm_compute; reflexivity|].
  eexists. eexists. split; [reflexivity|].
  eapply channel_selection_picks_columns; vm_compute; reflexivity.
Defined.

Lemma payloads_read mm dt blocks datas :
  Forall2 (payload_of mm dt) blocks datas ->
  mapM (read_block mm dt) blocks = inr datas.
Proof.
  intros H. apply mapM_of_Forall2.
  eapply Forall2_impl; [|exact H]. now intros b d [Hb _].
Qed.

Lemma chunk_columns_contents cfg f r dt (seg_index : Z) (chans : list Z) :
  _parse_header cfg f = inr r ->
  payloads_complete r dt seg_index chans = true ->
  exists flats : list (list sample),
    Forall2 (fun chan_id flat => channel_samples r dt seg_index chan_id = inr flat)
            chans flats /\
    forall a b, 0 <= a <= b ->
      mapM (fun chan_id =>
              data_blocks <- by_seg_data_blocks (_all_data_blocks r)
                               (_by_seg_data_blocks r) chan_id seg_index ;;
              chunk_column (_memmap r) dt data_blocks a b) chans
      = inr (map (column_of dt a b) flats).
Proof.
  intros Hparse. induction chans as [|c chans IH]; intros H.
  - exists []. split; [constructor | reflexivity].
  - cbn [payloads_complete forallb] in H. apply andb_true_iff in H as [Hc H].
    destruct (IH H) as (flats & Hflats & Hcols).
    destruct (by_seg_data_blocks _ _ c seg_index) as [|blocks] eqn:Eb;
      [discriminate|].
    destruct (segment_blocks _ _ _ _ _ _ Hparse Eb) as [Hne Hwf].
    destruct (complete_payloads _ _ _ Hc) as (datas & Hd).
    exists (concat datas :: flats). split.
    + constructor; [|exact Hflats]. unfold channel_samples.
      rewrite Eb. cbn [bind]. now rewrite (payloads_read _ _ _ _ Hd).
    + intros a b Hab. cbn [mapM map]. rewrite Eb. cbn [bind].
      rewrite (chunk_column_spec _ dt blocks datas a b Hne Hwf Hd Hab).
      cbn [bind]. rewrite (Hcols a b Hab). reflexivity.
Qed.

Lemma Forall2_map_r {A B C} (R : A -> C -> Prop) (g : B -> C) (l : list A)
  (l' : list B) :
  Forall2 (fun x y => R x (g y)) l l' -> Forall2 R l (map g l').
Proof. induction 1; constructor; auto. Qed.

(** The chunk holds, for each selected channel, the samples
    [i_start .. i_stop) of the channel in the segment, in file order; the
    rows past the end of the channel's data stay zero. *)
Theorem chunk_holds_the_samples (cfg : config) (f : smr_file)
  (r : Spike2RawIO) (block_index seg_index stream_index : Z)
  (channel_indexes : option (list Z)) (stream_id : Z) (members : list Z)
  (dt : np_dtype) (chans : list Z) (a b : Z) :
  _parse_header cfg f = inr r ->
  stream_chan_ids r stream_index = inr (stream_id, members) ->
  Py.getitem (_sig_dtypes r) stream_id = inr dt ->
  match channel_indexes with
  | Some idx => mapM (Py.index members) idx
  | None => ret members
  end = inr chans ->
  payloads_complete r dt seg_index chans = true ->
  0 <= a <= b ->
  exists m,
    _get_analogsignal_chunk r block_index seg_index (Some a) (Some b)
      stream_index channel_indexes = inr m /\
    nrows m = b - a /\
    Forall2 (fun chan_id col =>
               exists flat,
                 channel_samples r dt seg_index chan_id = inr flat /\
                 col = Py.view_of flat (a, b)
                       ++ repeat (zero_sample dt)
                            (Z.to_nat (b - a - Py.len (Py.view_of flat (a, b)))))
            chans (columns m).
Proof.
  intros Hparse Hstream Hdt Hsel Hfull Hab.
  destruct (chunk_columns_contents cfg f r dt seg_index chans Hparse Hfull)
    as (flats & Hflats & Hcols).
  exists {| nrows := b - a; columns := map (column_of dt a b) flats |}.
  split; [|split; [reflexivity|]].
  - unfold _get_analogsignal_chunk. cbn [bind ret].
    rewrite Hstream. cbn [bind]. rewrite Hdt. cbn [bind].
    rewrite Hsel. cbn [bind].
    replace (b - a <? 0) with false by (symmetry; apply Z.ltb_ge; lia).
    rewrite (Hcols a b Hab). reflexivity.
  - cbn [columns]. apply Forall2_map_r.
    eapply Forall2_impl; [|exact Hflats]. cbv beta.
    intros c flat Hc. exists flat. split; [exact Hc | reflexivity].
Qed.

Lemma chunk_holds_the_samples_witness :
  exists r m,
    _parse_header default_config Scenario.size_mismatch = inr r /\
    _get_analogsignal_chunk r 0 0 (Some 8) (Some 12) 0 None = inr m /\
    nrows m = 12 - 8 /\
    Forall2 (fun chan_id col =>
               exists flat,
                 channel_samples r int16_dtype 0 chan_id = inr flat /\
                 col = Py.view_of flat (8, 12)
                       ++ repeat (zero_sample int16_dtype)
                            (Z.to_nat (12 - 8 - Py.len (Py.view_of flat (8, 12)))))
            [0; 1] (columns m).
Proof.
  eexists.
  destruct (chunk_holds_the_samples default_config Scenario.size_mismatch _
              0 0 0 None 0 [0; 1] int16_dtype [0; 1] 8 12
              ltac:(vm_compute; reflexivity) ltac:(vm_compute; reflexivity)
              ltac:(vm_compute; reflexivity) ltac:(vm_compute; reflexivity)
              ltac:(vm_compute; reflexivity) ltac:(lia))
    as (m & H1 & H2 & H3).
  exists m. split; [vm_compute; reflexivity|]. auto.
Defined.

Lemma payload_total mm dt blocks datas :
  Forall2 (payload_of mm dt) blocks datas ->
  Py.sum (map size blocks) = Py.len (concat datas).
Proof.
  intros H. rewrite <- (block_offset_total mm dt blocks datas H).
  unfold block_offset. rewrite <- (length_map size blocks). now rewrite firstn_all.
Qed.

Lemma column_of_whole dt (flat : list sample) :
  column_of dt 0 (Py.len flat) flat = flat.
Proof.
  unfold column_of. rewrite view_of_all.
  replace (Z.to_nat (Py.len flat - 0 - Py.len flat)) with 0%nat by lia.
  apply app_nil_r.
Qed.

(** With [i_start] and [i_stop] left out, the read covers the whole
    segment: it has as many rows as the stream's signal size, and the
    column of the stream's first channel is the channel's samples, all of
    them and nothing else. *)
Theorem default_read_is_whole_segment (cfg : config) (f : smr_file)
  (r : Spike2RawIO) (block_index seg_index stream_index stream_id : Z)
  (chan_id0 : Z) (others : list Z) (dt : np_dtype) :
  _parse_header cfg f = inr r ->
  stream_chan_ids r stream_index = inr (stream_id, chan_id0 :: others) ->
  Py.getitem (_sig_dtypes r) stream_id = inr dt ->
  payloads_complete r dt seg_index (chan_id0 :: others) = true ->
  exists n m flat rest,
    _get_signal_size r block_index seg_index stream_index = inr n /\
    _get_analogsignal_chunk r block_index seg_index None None stream_index None
      = inr m /\
    nrows m = n /\
    channel_samples r dt seg_index chan_id0 = inr flat /\
    columns m = flat :: rest /\
    Py.len flat = n.
Proof.
  intros Hparse Hstream Hdt Hfull.
  destruct (chunk_columns_contents cfg f r dt seg_index _ Hparse Hfull)
    as (flats & Hflats & Hcols).
  inversion Hflats as [|? flat ? flats' Hflat _]; subst.
  cbn [payloads_complete forallb] in Hfull.
  apply andb_true_iff in Hfull as [Hc _].
  destruct (by_seg_data_blocks _ _ chan_id0 seg_index) as [|blocks] eqn:Eb;
    [discriminate|].
  destruct (complete_payloads _ _ _ Hc) as (datas & Hd).
  assert (Ef : flat = concat datas).
  { unfold channel_samples in Hflat. rewrite Eb in Hflat. cbn [bind] in Hflat.
    rewrite (payloads_read _ _ _ _ Hd) in Hflat. cbn [bind] in Hflat.
    unfold ret in Hflat. now injection Hflat. }
  pose proof (payload_total _ _ _ _ Hd) as Hsum. rewrite <- Ef in Hsum.
  assert (Hsize : _get_signal_size r block_index seg_index stream_index
                  = inr (Py.len flat)).
  { unfold _get_signal_size. rewrite Hstream. cbn [bind].
    rewrite index_0_cons. cbn [bind]. rewrite Eb. cbn [bind].
    now rewrite Hsum. }
  pose proof (len_nonneg flat) as Hpos.
  exists (Py.len flat),
         {| nrows := Py.len flat - 0;
            columns := map (column_of dt 0 (Py.len flat)) (flat :: flats') |},
         flat, (map (column_of dt 0 (Py.len flat)) flats').
  split; [exact Hsize|]. split.
  - unfold _get_analogsignal_chunk. rewrite Hsize. cbn [bind].
    rewrite Hstream. cbn [bind]. rewrite Hdt. cbn [bind ret].
    replace (Py.len flat - 0 <? 0) with false
      by (symmetry; apply Z.ltb_ge; lia).
    rewrite (Hcols 0 (Py.len flat) ltac:(lia)). reflexivity.
  - cbn [nrows columns map]. rewrite column_of_whole.
    repeat split; auto. lia.
Qed.

Lemma default_read_is_whole_segment_witness :
  exists r n m flat rest,
    _parse_header default_config two_segments = inr r /\
    _get_signal_size r 0 0 0 = inr n /\
    _get_analogsignal_chunk r 0 0 None None 0 None = inr m /\
    nrows m = n /\
    channel_samples r int16_dtype 0 0 = inr flat /\
    columns m = flat :: rest /\
    Py.len flat = n.
Proof.
  eexists.
  destruct (default_read_is_whole_segment default_config two_segments _
              0 0 0 0 0 [] int16_dtype
              ltac:(vm_compute; reflexivity) ltac:(vm_compute; reflexivity)
              ltac:(vm_compute; reflexivity) ltac:(vm_compute; reflexivity))
    as (n & m & flat & rest & H).
  exists n, m, flat, rest. split; [vm_compute; reflexivity | exact H].
Defined.

(** ** Events, labels and waveforms *)

Lemma other_column_length dt name raw o :
  other_column dt name raw = inr o -> length o = length raw.
Proof.
  unfold other_column. destruct (existsb _ _).
  - unfold ret. intros [= <-]. apply length_map.
  - destruct (fields dt); discriminate.
Qed.

Lemma tick_column_length dt raw ts :
  tick_column dt raw = inr ts -> length ts = length raw.
Proof.
  intros H. apply int_column_inr in H. subst. apply length_map.
Qed.

(** The loop of lines 503-517 keeps one field value per kept tick. *)
Lemma timestamp_loop_values mm dt lim0 lim1 name mf blocks :
  forall tss ovs tss' ovs',
    timestamp_loop mm dt lim0 lim1 (Some name) mf blocks tss ovs
      = inr (tss', ovs') ->
    Py.len (concat ovs) = Py.len (concat tss) ->
    Py.len (concat ovs') = Py.len (concat tss').
Proof.
  induction blocks as [|b blocks IH]; intros tss ovs tss' ovs' H Hlen.
  - simpl in H. inv_ret H. now subst.
  - cbn [timestamp_loop] in H.
    inv_bind H. inv_bind H. inv_bind H. inv_bind H. inv_bind H. inv_bind E2.
    inv_ret E2. subst x2.
    assert (Hsel : Py.len (concat (ovs ++ [select x1 x4]))
                   = Py.len (concat (tss ++ [select x1 x0]))).
    { rewrite !len_concat_snoc, Hlen. f_equal.
      pose proof (@keep_mask_length _ _ _ _ _ _ _ E1) as Hk.
      apply tick_column_length in E0. apply other_column_length in E4.
      rewrite !select_length by lia. reflexivity. }
    destruct x3.
    + inv_ret H. now subst.
    + eapply IH; eauto.
Qed.

Lemma extraction_values (r : Spike2RawIO) (seg_index chan_id : Z)
  (t_start t_stop : option float) (name : string)
  (marker_filter : option unit_id) ts ov :
  _get_internal_timestamp_ r seg_index chan_id t_start t_stop (Some name)
    marker_filter = inr (ts, ov) ->
  exists values, ov = Some values /\ Py.len values = Py.len ts.
Proof.
  unfold _get_internal_timestamp_. intros H.
  inv_bind H. inv_bind H. inv_bind H. inv_bind H. destruct x2 as [lim0 lim1].
  inv_bind H. destruct x2 as [tss ovs].
  destruct (existsb _ _); [|discriminate].
  inv_ret H. subst. eexists. split; [reflexivity|].
  eapply timestamp_loop_values; eauto.
Qed.

(** The event count of a segment is the number of event timestamps of the
    segment, each timestamp has its label, and the durations are [None]. *)
Theorem event_count_is_length (r : Spike2RawIO)
  (block_index seg_index event_channel_index : Z)
  (ts : list Z) (durations : option (list Z)) (labels : list label) :
  _get_event_timestamps r block_index seg_index event_channel_index None None
    = inr (ts, durations, labels) ->
  _event_count r block_index seg_index event_channel_index = inr (Py.len ts) /\
  Py.len labels = Py.len ts /\
  durations = None.
Proof.
  unfold _get_event_timestamps, _event_count. intros H.
  inv_bind H. inv_bind H. inv_bind H. destruct x1 as [ts' labels'].
  inv_ret H. subst. rewrite E. cbn [bind].
  assert (Hx : exists other tv,
             _get_internal_timestamp_ r seg_index (ev_id x) None None other None
               = inr tv /\ fst tv = ts /\ Py.len labels = Py.len ts).
  { destruct (kind x0 =? 5); [|destruct (kind x0 =? 8)];
      inv_bind E1; inv_ret E1; subst; destruct x1 as [t ov]; cbn [fst snd];
      eexists; eexists; (split; [exact E2|]); (split; [reflexivity|]).
    - destruct (extraction_values _ _ _ _ _ _ _ _ _ E2) as (v & -> & Hv).
      now rewrite len_map.
    - destruct (extraction_values _ _ _ _ _ _ _ _ _ E2) as (v & -> & Hv).
      now rewrite len_map.
    - unfold Py.len. now rewrite repeat_length. }
  destruct Hx as (other & [t ov] & Ex & <- & Hlab). cbn [fst] in *.
  destruct (@extraction_has_limits _ _ _ _ _ _ _ _ Ex) as (lim0 & lim1 & Elim).
  pose proof Elim as Elim'.
  apply segment_limits in Elim' as (l0 & -> & Hl0 & Hl1).
  rewrite Hl0, Hl1. cbn [bind].
  destruct (@extraction_gives_count _ _ _ _ _ _ _ _ _ _ _ Elim Ex) as [Hc _].
  auto.
Qed.

Lemma event_count_is_length_witness :
  exists r,
    _parse_header default_config Scenario.events_only = inr r /\
    _get_event_timestamps r 0 0 0 None None
      = inr ([5; 15; 25; 35; 45], None, repeat Blank 5) /\
    _event_count r 0 0 0 = inr (Py.len [5; 15; 25; 35; 45]).
Proof.
  eexists. split; [vm_compute; reflexivity|].
  split; [vm_compute; reflexivity|].
  eapply event_count_is_length. vm_compute. reflexivity.
Defined.

Lemma typed_step_unit_kinds cfg info mm part c ci bl acc acc' :
  typed_channel_step cfg info mm part (c, (ci, bl)) acc = inr acc' ->
  tc_unit_ids acc' = tc_unit_ids acc \/
  (kind_in ci [6; 7] = true /\
   exists ids, tc_unit_ids acc' = tc_unit_ids acc ++ map (fun u => (c, u)) ids).
Proof.
  unfold typed_channel_step. cbn [fst snd].
  intros H. apply bind_inr in H as (rate & _ & H).
  destruct (kind_in ci [1; 9]).
  { left. destruct (negb _); [|destruct (kind ci =? 1)];
      unfold ret in H; now injection H as <-. }
  destruct (kind_in ci [2; 3; 4; 5; 8]).
  { left. unfold ret in H. now injection H as <-. }
  destruct (kind_in ci [6; 7]).
  2:{ left. unfold ret in H. now injection H as <-. }
  right. split; [reflexivity|].
  destruct (kind ci =? 6);
    apply bind_inr in H as (ids & _ & H);
    unfold ret in H; injection H as <-; exists ids; reflexivity.
Qed.

Lemma typed_fold_unit_kinds cfg info mm part (channels : list chan_info)
  (chans : list (Z * (chan_info * list data_block))) :
  (forall c ci bl, In (c, (ci, bl)) chans ->
                   0 <= c /\ nth_error channels (Z.to_nat c) = Some ci) ->
  forall acc tc,
    foldM (typed_channel_step cfg info mm part) chans acc = inr tc ->
    Forall (fun cu => exists ci, Py.index channels (fst cu) = inr ci
                                 /\ kind_in ci [6; 7] = true)
           (tc_unit_ids acc) ->
    Forall (fun cu => exists ci, Py.index channels (fst cu) = inr ci
                                 /\ kind_in ci [6; 7] = true)
           (tc_unit_ids tc).
Proof.
  induction chans as [|[c [ci bl]] chans IH]; intros Hin acc tc H Hacc.
  - simpl in H. unfold ret in H. now injection H as <-.
  - cbn [foldM] in H. apply bind_inr in H as (acc1 & E1 & H).
    apply (IH (fun c' ci' bl' Hc => Hin c' ci' bl' (or_intror Hc)) acc1 tc H).
    destruct (typed_step_unit_kinds _ _ _ _ _ _ _ _ _ E1)
      as [-> | (Hk & ids & ->)]; [exact Hacc|].
    apply Forall_app. split; [exact Hacc|].
    apply Forall_forall. intros cu Hcu.
    apply in_map_iff in Hcu as (u & <- & _). cbn [fst].
    destruct (Hin c ci bl (or_introl eq_refl)) as [Hc Hn].
    exists ci. split; [now apply index_nonneg_inr | exact Hk].
Qed.

(** Every unit of the header sits on a waveform channel (kind 6 or 7). *)
Lemma unit_channels_are_waveforms cfg f r :
  _parse_header cfg f = inr r ->
  Forall (fun cu => exists ci, Py.index (_channel_infos r) (fst cu) = inr ci
                               /\ kind_in ci [6; 7] = true)
         (internal_unit_ids r).
Proof.
  intros Hparse.
  apply parse_header_inv in Hparse
    as (types & index & gaps & sg & tc & gr & _ & _ & _ & _ & Htc & _ & ->).
  cbn [_channel_infos internal_unit_ids].
  eapply typed_fold_unit_kinds; [|exact Htc | constructor].
  intros c ci bl Hin. apply in_enumerate_inv in Hin as [Hc Hn].
  apply nth_error_combine_inv in Hn as [Hn _]. auto.
Qed.

Lemma waveform_dtype ci dt :
  kind_in ci [6; 7] = true -> get_channel_dtype ci = inr dt ->
  existsb (String.eqb "waveform") (fields dt) = true.
Proof.
  intros Hk. unfold get_channel_dtype.
  destruct (waveform_kind ci Hk) as [Hs He].
  assert (H1 : (kind ci =? 1) = false).
  { unfold kind_in in Hs. cbn [existsb] in Hs.
    now apply orb_false_iff in Hs as [Hs _]. }
  assert (H234 : kind_in ci [2; 3; 4] = false).
  { unfold kind_in in *. cbn [existsb] in *.
    repeat (apply orb_false_iff in He as [? He]).
    repeat (apply orb_false_iff; split); auto. }
  assert (H5 : kind_in ci [5] = false).
  { unfold kind_in in *. cbn [existsb] in *.
    repeat (apply orb_false_iff in He as [? He]).
    repeat (apply orb_false_iff; split); auto. }
  rewrite H1, H234, H5.
  destruct (kind_in ci [6]) eqn:E6.
  { destruct (n_extra ci / 2 <? 0); [discriminate|].
    unfold ret. now intros [= <-]. }
  assert (E7 : kind_in ci [7] = true).
  { unfold kind_in in *. cbn [existsb] in *.
    rewrite orb_false_r in *. now rewrite E6 in Hk. }
  rewrite E7. destruct (n_extra ci / 4 <? 0); [discriminate|].
  unfold ret. now intros [= <-].
Qed.

Lemma other_column_present dt name raw :
  existsb (String.eqb name) (fields dt) = true ->
  exists o, other_column dt name raw = inr o.
Proof. intros H. unfold other_column. rewrite H. eauto. Qed.

(** Asking the loop of lines 503-517 for a field the records have does
    not change the timestamps it keeps. *)
Lemma timestamp_loop_with_field mm dt lim0 lim1 name mf blocks :
  existsb (String.eqb name) (fields dt) = true ->
  forall tss ovs tss' ovs' ovs0,
    timestamp_loop mm dt lim0 lim1 None mf blocks tss ovs = inr (tss', ovs') ->
    exists ovs1,
      timestamp_loop mm dt lim0 lim1 (Some name) mf blocks tss ovs0
        = inr (tss', ovs1).
Proof.
  intros Hf. induction blocks as [|b blocks IH];
    intros tss ovs tss' ovs' ovs0 H.
  - simpl in H. inv_ret H. subst. simpl. eauto.
  - cbn [timestamp_loop] in H.
    inv_bind H. inv_bind H. inv_bind H. inv_bind H. inv_bind H.
    cbn [timestamp_loop]. step E. step E0. step E1.
    destruct (other_column_present dt name x Hf) as (o & Eo).
    rewrite Eo. cbn [bind ret]. step E3.
    destruct x3.
    + inv_ret H. subst. eauto.
    + eapply IH; eauto.
Qed.

Lemma spike_ids_of_parse cfg f r :
  _parse_header cfg f = inr r ->
  map sp_id (spike_channels r) = internal_unit_ids r.
Proof.
  intros Hparse.
  apply parse_header_inv in Hparse
    as (types & index & gaps & sg & tc & gr & _ & _ & _ & _ & Htc & _ & ->).
  cbn [spike_channels internal_unit_ids].
  eapply typed_fold_spike_ids; [exact Htc | reflexivity].
Qed.

(** [_get_spike_raw_waveforms] returns one waveform per timestamp of the
    unit in the window (the timestamps of lines 552-554, extracted with
    the same marker filter), and raises [ValueError] when there is
    none. *)
Theorem waveforms_match_timestamps (cfg : config) (f : smr_file)
  (r : Spike2RawIO) (block_index seg_index unit_index : Z)
  (t_start t_stop : option float) (chan_id : Z) (unit_id : unit_id)
  (ts : list Z) (ov : option (list (list byte))) :
  _parse_header cfg f = inr r ->
  unit_of r unit_index = inr (chan_id, unit_id) ->
  _get_internal_timestamp_ r seg_index chan_id t_start t_stop None
    (if ced_units (options r) then Some unit_id else None) = inr (ts, ov) ->
  (ts = [] ->
   _get_spike_raw_waveforms r block_index seg_index unit_index t_start t_stop
     = inl ValueError) /\
  (ts <> [] ->
   exists waveforms,
     _get_spike_raw_waveforms r block_index seg_index unit_index t_start t_stop
       = inr waveforms /\
     Py.len waveforms = Py.len ts).
Proof.
  intros Hparse E E0.
  pose proof (unit_channels_are_waveforms _ _ _ Hparse) as Hkinds.
  pose proof (spike_ids_of_parse _ _ _ Hparse) as Hids.
  (* the unit's channel holds waveform records *)
  assert (Hu : In (chan_id, unit_id) (internal_unit_ids r) /\
               0 <= unit_index < Py.len (spike_channels r)).
  { unfold unit_of in E. destruct (andb _ _) eqn:Eb; [|discriminate].
    apply andb_true_iff in Eb as [E1 E2].
    apply Z.leb_le in E1. apply Z.ltb_lt in E2.
    split; [now apply index_inr_In in E|].
    rewrite <- Hids, len_map in E2. lia. }
  destruct Hu as [Hu Hrange].
  pose proof (proj1 (Forall_forall _ _) Hkinds _ Hu) as (ci & Eci & Hk).
  cbn [fst] in Eci.
  destruct (index_in_range (spike_channels r) unit_index ltac:(lia))
    as (hd & Ehd).
  (* the extraction of the waveform field *)
  assert (Hw : exists values,
             _get_internal_timestamp_ r seg_index chan_id t_start t_stop
               (Some "waveform"%string)
               (if ced_units (options r) then Some unit_id else None)
             = inr (ts, Some values) /\ Py.len values = Py.len ts).
  { unfold _get_internal_timestamp_ in E0 |- *.
    inv_bind E0. inv_bind E0. inv_bind E0. inv_bind E0.
    destruct x2 as [lim0 lim1]. inv_bind E0. destruct x2 as [tss ovs].
    inv_ret E0. subst.
    rewrite Eci in E1. injection E1 as <-.
    pose proof (waveform_dtype _ _ Hk E3) as Hf.
    step Eci. step E2. step E3. step E4.
    destruct (timestamp_loop_with_field _ _ _ _ _ _ _ Hf _ _ _ _ [] E5)
      as (ovs1 & E6).
    rewrite E6. cbn [bind]. rewrite Hf. unfold ret.
    eexists. split; [reflexivity|].
    eapply timestamp_loop_values; [exact E6 | reflexivity]. }
  destruct Hw as (values & Ew & Hlen).
  unfold _get_spike_raw_waveforms. rewrite Ehd. cbn [bind].
  rewrite E. cbn [bind]. rewrite Ew. cbn [bind fst snd].
  split.
  - intros ->. reflexivity.
  - intros Hne. destruct ts as [|t ts]; [contradiction|].
    replace (Py.len (t :: ts) =? 0) with false
      by (symmetry; apply Z.eqb_neq; unfold Py.len; simpl length; lia).
    eauto.
Qed.

Lemma waveforms_match_timestamps_witness :
  exists r,
    _parse_header default_config Scenario.four_spikes = inr r /\
    unit_of r 1 = inr (0, Marker 1) /\
    _get_internal_timestamp_ r 0 0 None None None (Some (Marker 1))
      = inr ([20; 30], None) /\
    (exists waveforms,
       _get_spike_raw_waveforms r 0 0 1 None None = inr waveforms /\
       Py.len waveforms = Py.len [20; 30]) /\
    _get_internal_timestamp_ r 0 0 None (Some 0%float) None (Some (Marker 1))
      = inr ([], None) /\
    _get_spike_raw_waveforms r 0 0 1 None (Some 0%float) = inl ValueError.
Proof.
  eexists. split; [vm_compute; reflexivity|].
  split; [vm_compute; reflexivity|].
  split; [vm_compute; reflexivity|].
  split.
  - apply (proj2 (waveforms_match_timestamps default_config Scenario.four_spikes
                    _ 0 0 1 None None 0 (Marker 1) [20; 30] None
                    ltac:(vm_compute; reflexivity)
                    ltac:(vm_compute; reflexivity)
                    ltac:(vm_compute; reflexivity))).
    discriminate.
  - split; [vm_compute; reflexivity|].
    apply (proj1 (waveforms_match_timestamps default_config Scenario.four_spikes
                    _ 0 0 1 None (Some 0%float) 0 (Marker 1) [] None
                    ltac:(vm_compute; reflexivity)
                    ltac:(vm_compute; reflexivity)
                    ltac:(vm_compute; reflexivity))).
    reflexivity.
Defined.

(** ** The block loops of the extractor *)

(** Both loops stop at the first block whose last tick is past the upper
    limit: what follows that block in the chain is never read. *)
Theorem loops_stop_at_first_late_block mm dt
  (lim0 lim1 : option Z) (other : option string) (mf : option unit_id)
  (pre : list data_block) (b : data_block) (rest : list data_block)
  (raw : list (list byte)) (ts : list Z) :
  read_block mm dt b = inr raw ->
  tick_column dt raw = inr ts ->
  past_limit ts lim1 = inr true ->
  (forall nb,
     count_loop mm dt lim0 lim1 mf (pre ++ b :: rest) nb
     = count_loop mm dt lim0 lim1 mf (pre ++ [b]) nb) /\
  (forall tss ovs,
     timestamp_loop mm dt lim0 lim1 other mf (pre ++ b :: rest) tss ovs
     = timestamp_loop mm dt lim0 lim1 other mf (pre ++ [b]) tss ovs).
Proof.
  intros Hraw Hts Hpast. split.
  - induction pre as [|p pre IH]; intros nb.
    + cbn [app count_loop]. rewrite Hraw. cbn [bind]. rewrite Hts. cbn [bind].
      destruct (keep_mask dt raw ts lim0 lim1 mf) as [e|keep]; [reflexivity|].
      cbn [bind]. rewrite Hpast. reflexivity.
    + cbn [app count_loop].
      destruct (read_block mm dt p) as [e|raw']; [reflexivity|]. cbn [bind].
      destruct (tick_column dt raw') as [e|ts']; [reflexivity|]. cbn [bind].
      destruct (keep_mask dt raw' ts' lim0 lim1 mf) as [e|keep];
        [reflexivity|]. cbn [bind].
      destruct (past_limit ts' lim1) as [e|[|]]; try reflexivity.
      cbn [bind]. apply IH.
  - induction pre as [|p pre IH]; intros tss ovs.
    + cbn [app timestamp_loop]. rewrite Hraw. cbn [bind].
      rewrite Hts. cbn [bind].
      destruct (keep_mask dt raw ts lim0 lim1 mf) as [e|keep]; [reflexivity|].
      cbn [bind].
      destruct (match other with
                | Some name => o <- other_column dt name raw;;
                               ret (ovs ++ [select keep o])
                | None => ret ovs
                end) as [e|ovs']; [reflexivity|].
      cbn [bind]. rewrite Hpast. reflexivity.
    + cbn [app timestamp_loop].
      destruct (read_block mm dt p) as [e|raw']; [reflexivity|]. cbn [bind].
      destruct (tick_column dt raw') as [e|ts']; [reflexivity|]. cbn [bind].
      destruct (keep_mask dt raw' ts' lim0 lim1 mf) as [e|keep];
        [reflexivity|]. cbn [bind].
      destruct (match other with
                | Some name => o <- other_column dt name raw';;
                               ret (ovs ++ [select keep o])
                | None => ret ovs
                end) as [e|ovs']; [reflexivity|].
      cbn [bind].
      destruct (past_limit ts' lim1) as [e|[|]]; try reflexivity.
      cbn [bind]. apply IH.
Qed.

Lemma loops_stop_at_first_late_block_witness :
  let mm := file_bytes Scenario.events_only in
  let dt := {| itemsize := 4; fields := ["tick"%string] |} in
  let b0 := {| pos := 812; size := 3; cumsum := 0;
               start_time := 5; end_time := 25 |} in
  let junk := {| pos := 0; size := 7; cumsum := 0;
                 start_time := 0; end_time := 0 |} in
  count_loop mm dt (Some 0) (Some 20) None ([] ++ b0 :: [junk]) 0 = inr 2 /\
  forall nb,
    count_loop mm dt (Some 0) (Some 20) None ([] ++ b0 :: [junk]) nb
    = count_loop mm dt (Some 0) (Some 20) None ([] ++ [b0]) nb.
Proof.
  cbv zeta. split; [vm_compute; reflexivity|].
  refine (proj1 (loops_stop_at_first_late_block
                   (file_bytes Scenario.events_only)
                   {| itemsize := 4; fields := ["tick"%string] |}
                   (Some 0) (Some 20) None None []
                   {| pos := 812; size := 3; cumsum := 0;
                      start_time := 5; end_time := 25 |}
                   [{| pos := 0; size := 7; cumsum := 0;
                       start_time := 0; end_time := 0 |}]
                   (map (Fixture.le_bytes 4) [5; 15; 25]) [5; 15; 25] _ _ _));
    vm_compute; reflexivity.
Defined.

Lemma dtype_tick_or_scalar ci dt :
  get_channel_dtype ci = inr dt ->
  fields dt = [] \/ existsb (String.eqb "tick") (fields dt) = true.
Proof.
  unfold get_channel_dtype.
  repeat match goal with
         | |- context [if ?c then _ else _] => destruct c
         end; unfold ret, raise; intros H; inversion H; subst; cbn; auto.
Qed.

(** A block without any record makes the count fail: [ts[-1]] (line 479)
    is an index into an empty array. *)
Theorem count_fails_on_empty_block (r : Spike2RawIO) (seg_index chan_id : Z)
  (lim0 lim1 : option Z) (ci : chan_info) (dt : np_dtype)
  (b : data_block) (rest : list data_block) :
  Py.getitem (_all_data_blocks r) chan_id = inr (b :: rest) ->
  Py.index (_channel_infos r) chan_id = inr ci ->
  get_channel_dtype ci = inr dt ->
  read_block (_memmap r) dt b = inr [] ->
  _count_in_time_slice r seg_index chan_id lim0 lim1 None = inl IndexError.
Proof.
  intros Hbl Hci Hdt Hraw. unfold _count_in_time_slice.
  rewrite Hbl. cbn [bind]. rewrite Hci. cbn [bind]. rewrite Hdt. cbn [bind].
  cbn [count_loop]. rewrite Hraw. cbn [bind].
  unfold tick_column, int_column.
  destruct (dtype_tick_or_scalar ci dt Hdt) as [E | E]; rewrite E.
  - reflexivity.
  - cbn [bind map ret]. unfold keep_mask.
    assert (Hc : forall op lim, cmp_mask op [] lim = inr []).
    { intros op [l|]; reflexivity. }
    rewrite !Hc. reflexivity.
Qed.

Lemma count_fails_on_empty_block_witness :
  exists r,
    _parse_header default_config empty_first_block = inr r /\
    _count_in_time_slice r 0 0 (Some 0) (Some 10) None = inl IndexError.
Proof.
  eexists. split; [vm_compute; reflexivity|].
  eapply (count_fails_on_empty_block _ 0 0 (Some 0) (Some 10));
    vm_compute; reflexivity.
Defined.

(** ** Units partition the spikes of a channel *)

Lemma count_loop_shift mm dt lim0 lim1 mf bls :
  forall nb d,
    count_loop mm dt lim0 lim1 mf bls (nb + d)
    = match count_loop mm dt lim0 lim1 mf bls nb with
      | inr n => inr (n + d)
      | inl e => inl e
      end.
Proof.
  induction bls as [|b bls IH]; intros nb d; [reflexivity|].
  cbn [count_loop].
  destruct (read_block mm dt b) as [e|raw]; [reflexivity|]. cbn [bind].
  destruct (tick_column dt raw) as [e|ts]; [reflexivity|]. cbn [bind].
  destruct (keep_mask dt raw ts lim0 lim1 mf) as [e|keep]; [reflexivity|].
  cbn [bind].
  destruct (past_limit ts lim1) as [e|[|]]; cbn [bind]; try reflexivity.
  - unfold ret. f_equal. lia.
  - replace (nb + d + Py.len (filter id keep))
      with (nb + Py.len (filter id keep) + d) by lia.
    apply IH.
Qed.

Lemma sum_map_add {A} (g h : A -> Z) (l : list A) :
  Py.sum (map (fun v => g v + h v) l) = Py.sum (map g l) + Py.sum (map h l).
Proof. unfold Py.sum. induction l; simpl; lia. Qed.

Lemma sum_map_zero {A} (l : list A) : Py.sum (map (fun _ => 0) l) = 0.
Proof. unfold Py.sum. induction l; simpl; lia. Qed.

(** Among distinct unit values exactly one is the low byte of a marker. *)
Lemma sum_indicator (a : Z) (ids : list Z) :
  NoDup ids -> In a ids ->
  Py.sum (map (fun v => if a =? v then 1 else 0) ids) = 1.
Proof.
  unfold Py.sum. induction ids as [|x ids IH]; intros Hnd Hin; [contradiction|].
  inversion Hnd as [|? ? Hx Hnd']; subst. cbn [map fold_right].
  destruct (Z.eqb_spec a x) as [-> | Hne].
  - assert (E : fold_right Z.add 0 (map (fun v => if x =? v then 1 else 0) ids) = 0).
    { clear IH Hnd Hnd' Hin. induction ids as [|y ids IH]; [reflexivity|].
      cbn [map fold_right].
      destruct (Z.eqb_spec x y) as [-> | _].
      - exfalso. apply Hx. now left.
      - rewrite IH; [lia|]. intros C. apply Hx. now right. }
    rewrite E. lia.
  - destruct Hin as [-> | Hin]; [contradiction|].
    rewrite (IH Hnd' Hin). lia.
Qed.

(** The records a block keeps for the units of a channel, added over the
    units, are the records it keeps without a marker filter. *)
Lemma mask_partition (ids : list Z) (keep : list bool) (m : list Z) :
  NoDup ids -> length keep = length m ->
  Forall (fun x => In (low_byte x) ids) m ->
  Py.sum (map (fun v =>
                 Py.len (filter id
                   (map (fun p : bool * bool => fst p && snd p)
                        (combine keep (map (marker_matches (Marker v)) m)))))
              ids)
  = Py.len (filter id keep).
Proof.
  intros Hnd. revert m. induction keep as [|k keep IH]; intros [|x m] Hlen HF;
    try discriminate.
  - cbn. apply sum_map_zero.
  - injection Hlen as Hlen. inversion HF as [|? ? Hx HF']; subst.
    specialize (IH m Hlen HF').
    cbn [map combine fst snd marker_matches]. fold (low_byte x).
    destruct k; cbn [andb filter id].
    + rewrite len_cons, <- IH.
      rewrite <- (sum_indicator (low_byte x) ids Hnd Hx).
      rewrite <- sum_map_add. f_equal. apply map_ext. intros v.
      destruct (low_byte x =? v); cbn [filter id]; [apply len_cons | lia].
    + exact IH.
Qed.

Lemma cmp_mask_len op ts lim mask :
  cmp_mask op ts lim = inr mask -> length mask = length ts.
Proof.
  destruct lim as [l|]; simpl.
  - unfold ret. intros [= <-]. apply length_map.
  - destruct ts; [unfold ret; now intros [= <-] | discriminate].
Qed.

(** The count of line 478 with no marker filter is the sum, over the
    units whose markers the blocks carry, of the counts with the unit as
    the filter. *)
Lemma count_loop_by_units mm dt lim0 lim1 (ids : list Z) (bls : list data_block) :
  NoDup ids ->
  forall marks n,
    mapM (block_marks mm dt) bls = inr marks ->
    Forall (fun tm => In (low_byte (snd tm)) ids) (concat marks) ->
    count_loop mm dt lim0 lim1 None bls 0 = inr n ->
    exists cnt : Z -> Z,
      (forall v, count_loop mm dt lim0 lim1 (Some (Marker v)) bls 0
                 = inr (cnt v)) /\
      Py.sum (map cnt ids) = n.
Proof.
  intros Hnd. induction bls as [|b bls IH]; intros marks n Hm HF H.
  - simpl in H. inv_ret H. subst. exists (fun _ => 0).
    split; [reflexivity | apply sum_map_zero].
  - cbn [mapM] in Hm.
    apply bind_inr in Hm as (mk & Ek & Hm).
    apply bind_inr in Hm as (marks' & Ems & Hm). inv_ret Hm. subst marks.
    cbn [concat] in HF. apply Forall_app in HF as [HFb HF'].
    apply block_marks_inr in Ek as (raw & ts & m & Er & Et & Em & -> & Lt & Lm).
    cbn [count_loop] in H. rewrite Er in H. cbn [bind] in H.
    rewrite Et in H. cbn [bind] in H.
    unfold keep_mask in H.
    destruct (cmp_mask Z.geb ts lim0) as [e|ge] eqn:Ege; [discriminate|].
    destruct (cmp_mask Z.leb ts lim1) as [e|le] eqn:Ele; [discriminate|].
    cbn [bind ret] in H.
    set (keep := map (fun p : bool * bool => fst p && snd p) (combine ge le)) in *.
    assert (Hkeep : length keep = length m).
    { unfold keep. rewrite length_map, length_combine.
      apply cmp_mask_len in Ege. apply cmp_mask_len in Ele. lia. }
    assert (Hm : Forall (fun x => In (low_byte x) ids) m).
    { apply Forall_forall. intros x Hx.
      assert (Hin : In x (map snd (combine ts m)))
        by (rewrite map_snd_combine_le by lia; exact Hx).
      apply in_map_iff in Hin as (tm & <- & Htm).
      exact (proj1 (Forall_forall _ _) HFb _ Htm). }
    pose proof (mask_partition ids keep m Hnd Hkeep Hm) as Hpart.
    assert (Hstep : forall v,
               count_loop mm dt lim0 lim1 (Some (Marker v)) (b :: bls) 0
               = (stop <- past_limit ts lim1 ;;
                  if (stop : bool)
                  then ret (0 + Py.len (filter id
                              (map (fun p : bool * bool => fst p && snd p)
                                 (combine keep (map (marker_matches (Marker v)) m)))))
                  else count_loop mm dt lim0 lim1 (Some (Marker v)) bls
                         (0 + Py.len (filter id
                              (map (fun p : bool * bool => fst p && snd p)
                                 (combine keep (map (marker_matches (Marker v)) m))))))).
    { intros v. cbn [count_loop]. rewrite Er. cbn [bind]. rewrite Et. cbn [bind].
      unfold keep_mask. rewrite Ege, Ele. cbn [bind ret]. rewrite Em.
      cbn [bind ret]. reflexivity. }
    destruct (past_limit ts lim1) as [e|stop] eqn:Estop; [discriminate|].
    cbn [bind] in H. destruct stop.
    + inv_ret H. subst n.
      exists (fun v => 0 + Py.len (filter id
                (map (fun p : bool * bool => fst p && snd p)
                   (combine keep (map (marker_matches (Marker v)) m))))).
      split; [intros v; rewrite Hstep; reflexivity|].
      rewrite sum_map_add, sum_map_zero, Hpart. reflexivity.
    + rewrite count_loop_shift in H.
      destruct (count_loop mm dt lim0 lim1 None bls 0) as [e|n'] eqn:En';
        [discriminate|].
      injection H as <-.
      destruct (IH marks' n' Ems HF' eq_refl) as (cnt & Hcnt & Hsum).
      exists (fun v => cnt v + Py.len (filter id
                (map (fun p : bool * bool => fst p && snd p)
                   (combine keep (map (marker_matches (Marker v)) m))))).
      split.
      * intros v. rewrite Hstep. cbn [bind]. rewrite count_loop_shift, Hcnt.
        reflexivity.
      * rewrite sum_map_add, Hsum, Hpart. reflexivity.
Qed.

Lemma scan_reads_all mm dt (bls : list data_block) :
  existsb (String.eqb "tick") (fields dt) = true ->
  forall acc u,
    foldM (fun bl unit_ids =>
             raw_data <- read_block mm dt bl ;;
             m <- marker_column dt raw_data ;;
             let marker := map (fun x => Z.land x 255) m in
             ret (Py.set_update unit_ids (np_unique marker)))
          bls acc = inr u ->
    exists marks, mapM (block_marks mm dt) bls = inr marks.
Proof.
  intros Hf. induction bls as [|b bls IH]; intros acc u H.
  - exists []. reflexivity.
  - cbn [foldM] in H. inv_bind H. inv_bind E. inv_bind E. inv_ret E. subst x.
    destruct (IH _ _ H) as (marks & Em).
    cbn [mapM]. unfold block_marks at 1. rewrite E0. cbn [bind].
    unfold tick_column, int_column. rewrite Hf. cbn [bind ret].
    rewrite E1. cbn [bind]. rewrite Em. cbn [bind ret]. eauto.
Qed.

Lemma waveform_dtype_tick ci dt :
  kind_in ci [6; 7] = true -> get_channel_dtype ci = inr dt ->
  existsb (String.eqb "tick") (fields dt) = true.
Proof.
  intros Hk Hdt. pose proof (waveform_dtype ci dt Hk Hdt) as Hw.
  revert Hdt Hw. unfold get_channel_dtype.
  repeat match goal with
         | |- context [if ?c then _ else _] => destruct c
         end; unfold ret, raise; intros [= <-]; try discriminate; reflexivity.
Qed.

Lemma strictly_sorted_NoDup (l : list Z) : StronglySorted Z.lt l -> NoDup l.
Proof.
  induction 1 as [|x l _ IH Hall]; constructor; [|exact IH].
  intros Hin. pose proof (proj1 (Forall_forall _ _) Hall _ Hin). lia.
Qed.

(** With CED units every spike of a waveform channel is counted for
    exactly one unit of the channel: over any window the counts of the
    units add up to the count taken without a marker filter. *)
Theorem units_partition_the_spikes (cfg : config) (f : smr_file)
  (r : Spike2RawIO) (seg_index chan_id : Z) (ci : chan_info)
  (lim0 lim1 : option Z) (n : Z) :
  _parse_header cfg f = inr r ->
  ced_units cfg = true ->
  Py.index (file_channels f) chan_id = inr ci ->
  kind_in ci [6; 7] = true ->
  _count_in_time_slice r seg_index chan_id lim0 lim1 None = inr n ->
  exists counts,
    mapM (fun u => _count_in_time_slice r seg_index chan_id lim0 lim1 (Some u))
         (units_of_channel r chan_id) = inr counts /\
    Py.sum counts = n.
Proof.
  intros Hparse Hced Hci Kw Hn.
  apply parse_header_inv in Hparse
    as (types & index & gaps & sg & tc & gr & _ & _ & _ & _ & Htc & _ & ->).
  unfold _count_in_time_slice in Hn |- *.
  cbn [_all_data_blocks _channel_infos _memmap] in *.
  apply bind_inr in Hn as (bl & Ebl & Hn).
  apply bind_inr in Hn as (ci' & Eci & Hn).
  rewrite Hci in Eci. injection Eci as <-.
  apply bind_inr in Hn as (dt & Edt & Hn).
  pose proof Ebl as Ebl'. apply getitem_inr in Ebl'.
  apply lookup_range_keys in Ebl' as [Hk Hbl]; [|apply final_all_keys].
  pose proof Hci as Hci'. apply index_nonneg_inr in Hci'; [|exact Hk].
  unfold typed_channels_of in Htc.
  destruct (@typed_fold_units cfg (fix_info (file_info f)) (file_bytes f)
              (map fst (seg_channels sg)) chan_id ci bl _ Kw Hced _ _ Htc)
    as (dt' & vs & Edt' & Evs & Hunits).
  { apply NoDup_keys_enumerate. }
  { apply in_enumerate; [exact Hk|]. now apply nth_error_combine. }
  rewrite Edt in Edt'. injection Edt' as <-.
  pose proof (waveform_dtype_tick _ _ Kw Edt) as Htick.
  assert (Hmarks : exists marks,
             mapM (block_marks (file_bytes f) dt) bl = inr marks).
  { unfold scan_unit_ids in Evs. apply bind_inr in Evs as (u & Eu & _).
    eapply scan_reads_all; eauto. }
  destruct Hmarks as (marks & Hmarks).
  destruct (@scan_unit_ids_spec _ _ _ _ _ Evs Hmarks) as [Hsorted Hin].
  destruct (count_loop_by_units (file_bytes f) dt lim0 lim1 vs bl
              (strictly_sorted_NoDup _ Hsorted) marks n Hmarks)
    as (cnt & Hcnt & Hsum); [|exact Hn|].
  { apply Forall_forall. intros tm Htm. apply Hin.
    apply in_map_iff. exists tm. split; [reflexivity | exact Htm]. }
  exists (map cnt vs). split; [|exact Hsum].
  unfold units_of_channel. cbn [internal_unit_ids].
  fold (of_chan chan_id (tc_unit_ids tc)). rewrite Hunits.
  cbn [tc_unit_ids of_chan filter app].
  rewrite !map_map. cbn [snd].
  rewrite <- (map_map Marker (fun u => cnt match u with Marker v => v | All => 0 end)).
  apply mapM_ok. intros u Hu. apply in_map_iff in Hu as (v & <- & _).
  rewrite Ebl. cbn [bind]. rewrite Hci. cbn [bind]. rewrite Edt. cbn [bind].
  apply Hcnt.
Qed.

Lemma units_partition_the_spikes_witness :
  exists r,
    _parse_header default_config Scenario.four_spikes = inr r /\
    units_of_channel r 0 = [Marker 0; Marker 1; Marker 2] /\
    _count_in_time_slice r 0 0 (Some 15) (Some 40) None = inr 3 /\
    exists counts,
      mapM (fun u => _count_in_time_slice r 0 0 (Some 15) (Some 40) (Some u))
           (units_of_channel r 0) = inr counts /\
      Py.sum counts = 3.
Proof.
  eexists. split; [vm_compute; reflexivity|].
  split; [vm_compute; reflexivity|].
  split; [vm_compute; reflexivity|].
  eapply (units_partition_the_spikes default_config Scenario.four_spikes _ 0 0);
    try (vm_compute; reflexivity).
Defined.

(** ** Segments are the runs of blocks without a pause *)

Lemma nonzero_spec (mask : list bool) (k : Z) :
  In k (Py.nonzero mask) <->
  0 <= k /\ nth_error mask (Z.to_nat k) = Some true.
Proof.
  unfold Py.nonzero. split.
  - intros H. apply in_map_iff in H as ([k' v] & <- & H).
    apply filter_In in H as [H Hv]. cbn [fst snd] in *. subst v.
    now apply in_enumerate_inv in H.
  - intros [Hk H]. apply in_map_iff. exists (k, true). split; [reflexivity|].
    apply filter_In. split; [|reflexivity]. now apply in_enumerate.
Qed.

Lemma nth_error_slice_from_1 {A} (l : list A) (k : nat) :
  nth_error (Py.slice_from l 1) k = nth_error l (S k).
Proof.
  rewrite slice_from_nonneg by lia. rewrite view_of_eq.
  rewrite firstn_all2 by (rewrite length_skipn; unfold Py.len; lia).
  now rewrite nth_error_skipn.
Qed.

Lemma nth_error_slice_to_last {A} (l : list A) (k : nat) (x y : A) :
  nth_error l k = Some x -> nth_error l (S k) = Some y ->
  nth_error (Py.slice_to l (-1)) k = Some x.
Proof.
  intros Hx Hy. rewrite slice_to_last, nth_error_firstn.
  pose proof (@nth_error_Some_lt _ _ _ _ Hy) as Hlt.
  destruct (Nat.ltb_spec k (length l - 1)); [exact Hx | lia].
Qed.

Lemma nth_error_slice_to_last_inv {A} (l : list A) (k : nat) (x : A) :
  nth_error (Py.slice_to l (-1)) k = Some x -> nth_error l k = Some x.
Proof.
  rewrite slice_to_last, nth_error_firstn.
  destruct (Nat.ltb_spec k (length l - 1)); [auto | discriminate].
Qed.

(** Lines 168-169: a gap index is a block that is followed, after more
    than [interval] ticks, by another block. *)
Lemma detect_gaps_spec (interval : Z) (bl : list data_block) (k : Z) :
  In k (detect_gaps interval bl) <->
  0 <= k /\
  exists b b',
    nth_error bl (Z.to_nat k) = Some b /\
    nth_error bl (S (Z.to_nat k)) = Some b' /\
    interval < Py.int32 (start_time b' - end_time b).
Proof.
  unfold detect_gaps. cbv zeta. rewrite nonzero_spec.
  rewrite !nth_error_map. split.
  - intros [Hk H]. split; [exact Hk|].
    destruct (nth_error (combine _ _) (Z.to_nat k)) as [[s e]|] eqn:E;
      [|discriminate].
    cbn [option_map fst snd] in H. injection H as H. apply Z.ltb_lt in H.
    apply nth_error_combine_inv in E as [Es Ee].
    rewrite nth_error_slice_from_1, nth_error_map in Es.
    apply nth_error_slice_to_last_inv in Ee. rewrite nth_error_map in Ee.
    destruct (nth_error bl (S (Z.to_nat k))) as [b'|]; [|discriminate].
    destruct (nth_error bl (Z.to_nat k)) as [b|]; [|discriminate].
    cbn [option_map] in Es, Ee. injection Es as <-. injection Ee as <-.
    eauto.
  - intros [Hk (b & b' & Hb & Hb' & H)]. split; [exact Hk|].
    rewrite (@nth_error_combine _ _ _ _ (Z.to_nat k) (start_time b') (end_time b)).
    + cbn [option_map fst snd]. f_equal. apply Z.ltb_lt. exact H.
    + rewrite nth_error_slice_from_1, nth_error_map, Hb'. reflexivity.
    + apply nth_error_slice_to_last with (y := end_time b');
        rewrite nth_error_map; [rewrite Hb | rewrite Hb']; reflexivity.
Qed.

Lemma segment_step_cuts bl gaps nb j s s' :
  Forall (fun g => 0 <= g) gaps ->
  0 <= j ->
  seg_inv bl gaps nb j s ->
  seg_inv bl gaps nb (j + 1) s' ->
  cuts_inv gaps nb s ->
  segment_step nb gaps j s = inr s' ->
  cuts_inv gaps nb s'.
Proof.
  intros Hpos Hj Hinv Hinv' Hcuts H.
  pose proof (len_store_inv _ _ _ _ _ Hinv) as Hlen.
  destruct Hinv as (_ & Hviews & _).
  destruct Hinv' as (_ & _ & e' & _ & _ & _ & _ & _ & _ & _ & Hfull).
  unfold segment_step in H.
  apply bind_inr in H as (fisrt_bl & Efirst & H).
  apply bind_inr in H as (b0 & Eb0 & H).
  apply bind_inr in H as (last_bl & Elast & H).
  apply bind_inr in H as (b1 & Eb1 & H).
  unfold ret in H. injection H as <-. cbn [views] in *.
  assert (Hf0 : 0 <= fisrt_bl).
  { destruct (j =? 0) eqn:Ej.
    - unfold ret in Efirst. injection Efirst as <-. lia.
    - apply bind_inr in Efirst as (g & Eg & Efirst).
      unfold ret in Efirst. injection Efirst as <-.
      apply index_inr_In in Eg.
      pose proof (proj1 (Forall_forall _ _) Hpos _ Eg) as Hg.
      cbv beta in Hg. lia. }
  apply index_inr_bounds in Eb0 as Hb0.
  apply index_inr_bounds in Eb1 as Hb1.
  assert (Hl0 : 0 <= last_bl).
  { destruct (j <? nb - 1).
    - apply index_inr_In in Elast.
      exact (proj1 (Forall_forall _ _) Hpos _ Elast).
    - unfold ret in Elast. injection Elast as <-. lia. }
  apply Forall_app in Hfull as [_ Hv]. inversion Hv as [|? ? Hlt _]; subst.
  unfold Py.slice_bounds, Py.norm_bound in Hlt |- *. cbn [fst snd] in Hlt.
  replace (fisrt_bl <? 0) with false in * by (symmetry; apply Z.ltb_ge; lia).
  replace (last_bl + 1 <? 0) with false in * by (symmetry; apply Z.ltb_ge; lia).
  unfold cuts_inv. cbn [views]. intros k v Hk.
  assert (Hlv : length (views s) = Z.to_nat (Py.len (views s)))
    by (unfold Py.len; lia).
  destruct (Nat.lt_ge_cases k (length (views s))) as [Hlt' | Hge].
  { rewrite nth_error_app1 in Hk by exact Hlt'. now apply Hcuts. }
  rewrite nth_error_app2 in Hk by exact Hge.
  destruct (k - length (views s))%nat as [|n] eqn:En;
    [|destruct n; discriminate].
  cbn [nth_error] in Hk. injection Hk as <-. cbn [fst snd].
  assert (Ek : Z.of_nat k = Py.len (views s)) by (unfold Py.len; lia).
  repeat split.
  - intros ->. replace (Py.len (views s)) with 0 in * by lia.
    cbn [Z.eqb] in Efirst. unfold ret in Efirst. injection Efirst as <-. lia.
  - intros k' ->.
    replace (Py.len (views s) =? 0) with false in Efirst
      by (symmetry; apply Z.eqb_neq; lia).
    apply bind_inr in Efirst as (g & Eg & Efirst).
    unfold ret in Efirst. injection Efirst as <-.
    apply index_nonneg_inr in Eg; [|lia].
    replace (Z.to_nat (Py.len (views s) - 1)) with k' in Eg by lia.
    rewrite Eg. f_equal. lia.
  - intros Hk.
    replace (Py.len (views s) <? nb - 1) with true in Elast
      by (symmetry; apply Z.ltb_lt; lia).
    apply index_nonneg_inr in Elast; [|lia].
    replace (Z.to_nat (Py.len (views s))) with k in Elast by lia.
    rewrite Elast. f_equal. lia.
Qed.

Lemma segment_fold_cuts bl gaps nb :
  Forall (fun g => 0 <= g) gaps -> StronglySorted Z.lt gaps ->
  forall (n j : nat) (s s' : chan_segments),
    Z.of_nat j + Z.of_nat n = nb ->
    seg_inv bl gaps nb (Z.of_nat j) s ->
    cuts_inv gaps nb s ->
    foldM (segment_step nb gaps) (map Z.of_nat (seq j n)) s = inr s' ->
    cuts_inv gaps nb s'.
Proof.
  intros Hpos Hsorted. induction n as [|n IH]; intros j s s' Hn Hinv Ht H.
  - simpl in H. unfold ret in H. now injection H as <-.
  - cbn [seq map foldM] in H. apply bind_inr in H as (s1 & Es & H).
    assert (Hinv1 : seg_inv bl gaps nb (Z.of_nat j + 1) s1)
      by (eapply segment_step_inv; eauto; lia).
    apply (IH (S j) s1 s'); [lia | | | exact H].
    + now replace (Z.of_nat (S j)) with (Z.of_nat j + 1) by lia.
    + apply (segment_step_cuts bl gaps nb (Z.of_nat j) s s1); auto. lia.
Qed.

Lemma segment_channel_cuts bl gaps nb s :
  Forall (fun g => 0 <= g) gaps -> StronglySorted Z.lt gaps ->
  0 < nb ->
  Forall (fun b => cumsum b = 0) bl ->
  segment_channel nb bl gaps = inr s ->
  seg_inv bl gaps nb nb s /\ cuts_inv gaps nb s.
Proof.
  intros Hpos Hsorted Hnb Hzero H.
  split; [now apply segment_channel_spec|].
  unfold segment_channel, Py.range in H.
  apply (segment_fold_cuts bl gaps nb Hpos Hsorted (Z.to_nat nb) 0
           {| store := bl; t_starts := []; t_stops := []; views := [] |} s);
    [lia | | | exact H].
  - unfold seg_inv. cbn [store views].
    split; [reflexivity|]. split; [reflexivity|].
    exists 0. simpl. pose proof (len_nonneg bl).
    repeat split; auto; try lia.
  - intros k v Hk. cbn [views] in Hk. destruct k; discriminate.
Qed.

Lemma all_gaps_in_interval info tf chans gaps c g :
  all_gaps info tf chans = inr gaps -> In (c, g) gaps ->
  exists ci bl interval,
    In (c, (ci, bl)) chans /\
    interval_ticks info tf ci = inr interval /\
    g = detect_gaps interval bl.
Proof.
  revert gaps. induction chans as [|[c' [ci bl]] chans IH]; intros gaps H Hin.
  - simpl in H. inv_ret H. subst. contradiction.
  - cbn [all_gaps] in H.
    apply bind_inr in H as (og & Eg & H).
    apply bind_inr in H as (gs & Egs & H). inv_ret H. subst gaps.
    assert (Hrest : In (c, g) gs -> exists ci0 bl0 interval,
                      In (c, (ci0, bl0)) ((c', (ci, bl)) :: chans)
                      /\ interval_ticks info tf ci0 = inr interval
                      /\ g = detect_gaps interval bl0).
    { intros Hg. destruct (IH gs Egs Hg) as (ci0 & bl0 & i0 & Hi & Ei & ->).
      exists ci0, bl0, i0. split; [now right | auto]. }
    destruct og as [g'|]; [|auto].
    destruct Hin as [Heq | Hin]; [|auto].
    injection Heq as -> ->.
    unfold channel_gaps in Eg.
    destruct (kind_in ci [1; 9]); [|discriminate].
    destruct (0 <? _); [|discriminate].
    apply bind_inr in Eg as (interval & Ei & Eg). inv_ret Eg. subst g.
    exists ci, bl, interval. split; [now left | auto].
Qed.

(** The number of segments is taken from the first channel of
    [all_gaps_block_ind] (line 194). *)
Lemma segment_count_first all_blocks gaps sg c g rest :
  segment all_blocks gaps = inr sg ->
  gaps = (c, g) :: rest ->
  seg_nb_segment sg = Py.len g + 1.
Proof.
  intros H ->. unfold segment in H.
  rewrite len_cons in H.
  replace (1 + Py.len rest =? 0) with false in H
    by (symmetry; apply Z.eqb_neq; pose proof (len_nonneg rest); lia).
  apply bind_inr in H as (differ & Ed & H).
  apply pauses_differ_false in Ed. subst differ.
  apply bind_inr in H as (nb & Enb & H).
  apply bind_inr in H as (chs & Echs & H).
  apply bind_inr in H as (bounds & _ & H). inv_ret H. subst sg.
  cbn [seg_nb_segment]. cbn in Enb. unfold ret in Enb. now injection Enb as <-.
Qed.

(** What [_parse_header] leaves for a channel that takes part in
    segmentation, with the gaps that cut its index. *)
Lemma participating_cuts cfg f r chan_id :
  _parse_header cfg f = inr r ->
  In chan_id (map fst (_sig_t_starts r)) ->
  exists index original s ci interval,
    block_index_of f = inr index /\
    0 <= chan_id /\
    nth_error index (Z.to_nat chan_id) = Some original /\
    nth_error (file_channels f) (Z.to_nat chan_id) = Some ci /\
    interval_ticks (_global_info r) (_time_factor r) ci = inr interval /\
    Py.getitem (_all_data_blocks r) chan_id = inr (store s) /\
    Py.getitem (_by_seg_data_blocks r) chan_id = inr (views s) /\
    0 < nb_segment r /\
    seg_inv original (detect_gaps interval original)
            (nb_segment r) (nb_segment r) s /\
    cuts_inv (detect_gaps interval original) (nb_segment r) s /\
    (hd_error (map fst (_sig_t_starts r)) = Some chan_id ->
     nb_segment r = Py.len (detect_gaps interval original) + 1).
Proof.
  intros Hparse Hin.
  apply parse_header_inv in Hparse
    as (types & index & gaps & sg & tc & gr & _ & Hidx & Hgaps & Hseg & _ & _ & ->).
  cbn [_sig_t_starts _sig_t_stops _all_data_blocks _by_seg_data_blocks
       nb_segment _global_info _time_factor] in *.
  rewrite map_map in Hin. cbn [fst] in Hin.
  destruct (segment_with_signal _ _ _ Hseg) as [Hnb Hchs].
  { intros E. rewrite E in Hin. contradiction. }
  destruct (in_keys _ _ Hin) as (s & Hs).
  destruct (segment_channels_spec _ _ _ _ Hchs) as [Hkeys Hspec].
  destruct (Hspec _ _ Hs) as (g & bl & Hg & Hbl & Hsegc).
  assert (Hnd : NoDup (map fst gaps)).
  { apply (proj2 (all_gaps_keys _ _ _ _ Hgaps)). apply NoDup_keys_enumerate. }
  destruct (all_gaps_in_interval _ _ _ _ _ _ Hgaps Hg)
    as (ci & bl' & interval & Hc & Ei & ->).
  apply getitem_enumerate in Hbl as [Hk Hbl].
  apply in_enumerate_inv in Hc as [_ Hc].
  apply nth_error_combine_inv in Hc as [Hci Hc].
  rewrite Hbl in Hc. injection Hc as <-.
  assert (Hnd' : NoDup (map fst (seg_channels sg))) by now rewrite Hkeys.
  pose proof (lookup_in_nodup _ _ _ Hnd' Hs) as Hlk.
  assert (Hlookup : Py.lookup (Py.enumerate index) chan_id = Some bl).
  { rewrite lookup_enumerate.
    destruct (Z.leb_spec 0 chan_id); [exact Hbl | lia]. }
  exists index, bl, s, ci, interval.
  split; [exact Hidx|]. split; [exact Hk|]. split; [exact Hbl|].
  split; [exact Hci|]. split; [exact Ei|].
  split.
  { unfold Py.getitem, final_all_data_blocks.
    rewrite lookup_map_values, Hlookup. cbn [option_map fst]. now rewrite Hlk. }
  split.
  { unfold Py.getitem, final_by_seg.
    rewrite lookup_map_values, Hlookup. cbn [option_map fst]. now rewrite Hlk. }
  split; [exact Hnb|].
  destruct (detect_gaps_sorted interval bl) as [Hsorted Hpos].
  assert (Hzero : Forall (fun b => cumsum b = 0) bl).
  { unfold block_index_of in Hidx. apply build_all_index_zero in Hidx.
    apply (proj1 (Forall_forall _ _) Hidx). eapply nth_error_In; eauto. }
  destruct (segment_channel_cuts _ _ _ _ Hpos Hsorted Hnb Hzero Hsegc)
    as [Hinv Hcuts].
  split; [exact Hinv|]. split; [exact Hcuts|].
  intros Hhd. rewrite map_map in Hhd.
  change (hd_error (map fst (seg_channels sg)) = Some chan_id) in Hhd.
  rewrite Hkeys in Hhd.
  destruct gaps as [|[c0 g0] rest]; [discriminate|].
  cbn [map hd_error fst] in Hhd. injection Hhd as ->.
  rewrite (segment_count_first _ _ _ _ _ _ Hseg eq_refl).
  destruct Hg as [Hg | Hg]; [now injection Hg as -> |].
  exfalso. cbn [map fst] in Hnd. inversion Hnd as [|? ? Hnot _]; subst.
  apply Hnot. now apply (in_map fst) in Hg.
Qed.

Lemma nth_error_view_of {A} (l : list A) (a b : Z) (i : nat) (x : A) :
  0 <= a ->
  nth_error (Py.view_of l (a, b)) i = Some x ->
  Z.of_nat i < b - a /\ nth_error l (Z.to_nat (a + Z.of_nat i)) = Some x.
Proof.
  intros Ha H. rewrite view_of_eq, nth_error_firstn in H.
  destruct (Nat.ltb_spec i (Z.to_nat (b - a))); [|discriminate].
  rewrite nth_error_skipn in H. split; [lia|].
  now replace (Z.to_nat (a + Z.of_nat i)) with (Z.to_nat a + i)%nat by lia.
Qed.

(** A strictly increasing list has no entry strictly between two
    consecutive ones, before its first or after its last. *)
Lemma sorted_nth_between (l : list Z) (m : nat) (x : Z) :
  StronglySorted Z.lt l -> nth_error l m = Some x ->
  forall k : nat,
    (forall k', k = S k' -> exists lo, nth_error l k' = Some lo /\ lo < x) ->
    (forall hi, nth_error l k = Some hi -> x < hi) ->
    (k < length l)%nat \/ (k = length l) ->
    False.
Proof.
  intros Hs Hm k Hlo Hhi Hk.
  pose proof (@nth_error_Some_lt _ _ _ _ Hm) as Hml.
  destruct (Nat.lt_ge_cases m k) as [Hlt | Hge].
  - destruct k as [|k']; [lia|].
    destruct (Hlo k' eq_refl) as (lo & Elo & Hlt').
    destruct (Nat.eq_dec m k') as [-> | Hne].
    + rewrite Hm in Elo. injection Elo as <-. lia.
    + pose proof (sorted_nth_lt l m k' x lo Hs ltac:(lia) Hm Elo). lia.
  - destruct Hk as [Hk | Hk]; [|lia].
    destruct (nth_error l k) as [hi|] eqn:Ek;
      [|apply nth_error_None in Ek; lia].
    specialize (Hhi hi eq_refl).
    destruct (Nat.eq_dec m k) as [-> | Hne].
    + rewrite Hm in Ek. injection Ek as <-. lia.
    + pose proof (sorted_nth_lt l k m hi x Hs ltac:(lia) Ek Hm). lia.
Qed.
(** Segments are the runs of blocks without a pause.  Two consecutive
    blocks of a segment are never more than the channel's sample interval
    apart (in every segment but the last; in the last one too for the
    first signal channel, whose gaps fix the number of segments), and the
    last block of a segment is followed by the first block of the next
    after more than this interval. *)
Theorem segments_are_runs_without_pause (cfg : config) (f : smr_file)
  (r : Spike2RawIO) (chan_id seg_index : Z) (ci : chan_info) (interval : Z)
  (blocks : list data_block) :
  _parse_header cfg f = inr r ->
  Py.index (_channel_infos r) chan_id = inr ci ->
  interval_ticks (_global_info r) (_time_factor r) ci = inr interval ->
  0 <= seg_index ->
  by_seg_data_blocks (_all_data_blocks r) (_by_seg_data_blocks r)
    chan_id seg_index = inr blocks ->
  (seg_index < nb_segment r - 1 \/
   hd_error (map fst (_sig_t_starts r)) = Some chan_id ->
   forall (i : nat) (x y : data_block),
     nth_error blocks i = Some x -> nth_error blocks (S i) = Some y ->
     Py.int32 (start_time y - end_time x) <= interval) /\
  (forall (blocks' : list data_block) (x y : data_block),
     by_seg_data_blocks (_all_data_blocks r) (_by_seg_data_blocks r)
       chan_id (seg_index + 1) = inr blocks' ->
     Py.index blocks (-1) = inr x -> Py.index blocks' 0 = inr y ->
     interval < Py.int32 (start_time y - end_time x)).
Proof.
  intros Hparse Hci Hint Hseg Hby.
  pose proof (by_seg_participating _ _ _ _ _ _ Hparse Hby) as Hin.
  destruct (participating_cuts _ _ _ _ Hparse Hin)
    as (index & original & s & ci' & interval' & _ & Hk & _ & Hci' & Hint'
        & Hall & Hbs & Hnb & Hinv & Hcuts & Hfirst).
  assert (Eci : _channel_infos r = file_channels f).
  { apply parse_header_inv in Hparse
      as (? & ? & ? & ? & ? & ? & _ & _ & _ & _ & _ & _ & ->). reflexivity. }
  rewrite Eci in Hci. apply index_nonneg_inr in Hci; [|exact Hk].
  rewrite Hci in Hci'. injection Hci' as <-.
  rewrite Hint in Hint'. injection Hint' as <-.
  set (gaps := detect_gaps interval original) in *.
  destruct (detect_gaps_sorted interval original) as [Hsorted Hpos].
  fold gaps in Hsorted, Hpos.
  pose proof (len_store_inv _ _ _ _ _ Hinv) as Hlen.
  destruct Hinv as (Hentries & Hviews & e & Hch & He & _ & _ & Hend & _ & _ & Hfull).
  pose proof (chained_bounds _ _ _ Hch) as Hbounds.
  rewrite (Hend Hnb eq_refl) in Hbounds.
  (* the view of the segment *)
  assert (Hview : forall k bls,
             0 <= k ->
             by_seg_data_blocks (_all_data_blocks r) (_by_seg_data_blocks r)
               chan_id k = inr bls ->
             exists a b,
               nth_error (views s) (Z.to_nat k) = Some (a, b) /\
               bls = Py.view_of (store s) (a, b) /\
               0 <= a < b /\ b <= Py.len original /\ k < nb_segment r).
  { intros k bls Hk0 H. unfold by_seg_data_blocks in H.
    rewrite Hbs in H. cbn [bind] in H.
    apply bind_inr in H as ([a b] & Ev & H).
    rewrite Hall in H. cbn [bind] in H. unfold ret in H. injection H as <-.
    pose proof (@index_inr_bounds _ _ _ _ Ev) as Hkb.
    apply index_nonneg_inr in Ev; [|exact Hk0].
    pose proof (nth_error_In _ _ Ev) as Hv.
    pose proof (proj1 (Forall_forall _ _) Hbounds _ Hv) as Hb1.
    pose proof (proj1 (Forall_forall _ _) Hfull _ Hv) as Hb2.
    cbn [fst snd] in Hb1, Hb2.
    exists a, b. repeat split; auto; lia. }
  (* times of the blocks of the store are those of the chain *)
  assert (Htimes : forall n b,
             nth_error (store s) n = Some b ->
             exists b', nth_error original n = Some b' /\
                        start_time b' = start_time b /\
                        end_time b' = end_time b).
  { intros n b Hn.
    destruct (nth_error_chain_entry _ _ _ _ Hentries Hn) as (b' & Hb' & Hc).
    apply chain_entry_times in Hc as (H1 & H2 & _). eauto. }
  destruct (Hview _ _ Hseg Hby) as (a & b & Ev & -> & Hab & Hb & Hlt).
  destruct (Hcuts _ _ Ev) as (Hc0 & Hcs & Hcn). cbn [fst snd] in *.
  split.
  - intros Hcase i x y Hx Hy.
    apply nth_error_view_of in Hx as [Hi Hx]; [|lia].
    apply nth_error_view_of in Hy as [Hi' Hy]; [|lia].
    destruct (Htimes _ _ Hx) as (x' & Ex' & Hxs & Hxe).
    destruct (Htimes _ _ Hy) as (y' & Ey' & Hys & Hye).
    rewrite <- Hys, <- Hxe.
    destruct (Z.le_gt_cases (Py.int32 (start_time y' - end_time x')) interval)
      as [Hle | Hgt]; [exact Hle | exfalso].
    assert (Hg : In (a + Z.of_nat i) gaps).
    { apply detect_gaps_spec. split; [lia|]. exists x', y'.
      split; [exact Ex'|]. split; [|lia].
      replace (S (Z.to_nat (a + Z.of_nat i)))
        with (Z.to_nat (a + Z.of_nat (S i))) by lia.
      exact Ey'. }
    apply In_nth_error in Hg as (m & Hm).
    apply (sorted_nth_between gaps m (a + Z.of_nat i) Hsorted Hm
             (Z.to_nat seg_index)).
    + intros k' Ek. exists (a - 1). split; [now apply Hcs | lia].
    + intros hi Ehi.
      destruct (Z.lt_ge_cases seg_index (nb_segment r - 1)) as [Hl | Hg].
      * rewrite Hcn in Ehi by lia. injection Ehi as <-. lia.
      * destruct Hcase as [Hcase | Hcase]; [lia|].
        apply Hfirst in Hcase.
        apply (@nth_error_Some_lt _ _ _ _) in Ehi.
        unfold Py.len in Hcase. lia.
    + destruct (Z.lt_ge_cases seg_index (nb_segment r - 1)) as [Hl | Hg].
      * left. eapply nth_error_Some_lt. apply Hcn. lia.
      * destruct Hcase as [Hcase | Hcase]; [lia|].
        apply Hfirst in Hcase. right. unfold Py.len in Hcase. lia.
  - intros blocks' x y Hby' Hx Hy.
    destruct (Hview (seg_index + 1) blocks' ltac:(lia) Hby') as (a' & b' & Ev' & -> & Hab' & Hb' & Hlt').
    destruct (Hcuts _ _ Ev') as (_ & Hcs' & _). cbn [fst snd] in *.
    specialize (Hcs' (Z.to_nat seg_index) ltac:(lia)).
    rewrite Hcn in Hcs' by lia. injection Hcs' as Eab.
    assert (Hg : In (b - 1) gaps).
    { eapply nth_error_In. apply Hcn. lia. }
    apply detect_gaps_spec in Hg as (_ & x' & y' & Ex' & Ey' & Hgt).
    apply index_nonneg_inr in Hy; [|lia].
    apply nth_error_view_of in Hy as [_ Hy]; [|lia].
    apply index_position in Hx as (j & Hj & Hx & Ej).
    replace (-1 <? 0) with true in Ej by reflexivity.
    apply nth_error_view_of in Hx as [Hj' Hx]; [|lia].
    assert (Elen : Py.len (Py.view_of (store s) (a, b)) = b - a).
    { unfold Py.len. rewrite view_of_eq, length_firstn, length_skipn.
      unfold Py.len in Hlen, Hb. lia. }
    rewrite Elen in Ej.
    destruct (Htimes _ _ Hx) as (x1 & Ex1 & Hxs & Hxe).
    destruct (Htimes _ _ Hy) as (y1 & Ey1 & Hys & Hye).
    assert (Ex2 : nth_error original (Z.to_nat (b - 1)) = Some x1)
      by (rewrite <- Ex1; f_equal; lia).
    assert (Ey2 : nth_error original (S (Z.to_nat (b - 1))) = Some y1)
      by (rewrite <- Ey1; f_equal; lia).
    rewrite Ex' in Ex2. injection Ex2 as <-.
    rewrite Ey' in Ey2. injection Ey2 as <-.
    rewrite <- Hys, <- Hxe. exact Hgt.
Qed.

Lemma segments_are_runs_without_pause_witness :
  exists r ci blocks blocks' x y,
    _parse_header default_config two_segments = inr r /\
    Py.index (_channel_infos r) 0 = inr ci /\
    interval_ticks (_global_info r) (_time_factor r) ci = inr 10 /\
    by_seg_data_blocks (_all_data_blocks r) (_by_seg_data_blocks r) 0 0
      = inr blocks /\
    by_seg_data_blocks (_all_data_blocks r) (_by_seg_data_blocks r) 0 1
      = inr blocks' /\
    map start_time blocks = [0; 100] /\ map end_time blocks = [90; 150] /\
    map start_time blocks' = [460] /\
    Py.index blocks (-1) = inr x /\ Py.index blocks' 0 = inr y /\
    10 < Py.int32 (start_time y - end_time x).
Proof.
  do 6 eexists.
  split; [vm_compute; reflexivity|].
  split; [vm_compute; reflexivity|].
  split; [vm_compute; reflexivity|].
  split; [vm_compute; reflexivity|].
  split; [vm_compute; reflexivity|].
  split; [vm_compute; reflexivity|].
  split; [vm_compute; reflexivity|].
  split; [vm_compute; reflexivity|].
  split; [vm_compute; reflexivity|].
  split; [vm_compute; reflexivity|].
  refine (proj2 (segments_are_runs_without_pause default_config two_segments
                   _ 0 0 _ 10 _ _ _ _ _ _) _ _ _ _ _ _);
    try (vm_compute; reflexivity).
  vm_compute. discriminate.
Defined.
(** ** A file without analog data has no stream *)

Lemma index_nil {A} (k : Z) : Py.index (@nil A) k = inl IndexError.
Proof.
  unfold Py.index. cbv zeta. change (Py.len (@nil A)) with 0.
  destruct (k <? 0) eqn:E.
  - apply Z.ltb_lt in E.
    replace (0 <=? k + 0) with false by (symmetry; apply Z.leb_gt; lia).
    reflexivity.
  - replace (k <? 0) with false by (symmetry; exact E).
    now rewrite andb_false_r.
Qed.

Lemma filter_part_nil (chans : list (Z * (chan_info * list data_block))) :
  filter (fun c => kind_in (fst (snd c)) [1; 9]
                   && existsb (Z.eqb (fst c)) []) chans = [].
Proof.
  induction chans as [|c chans IH]; [reflexivity|].
  cbn [filter existsb]. now rewrite andb_false_r.
Qed.

(** When no channel qualifies as a signal, the header has no signal
    channel and no stream, and every query on a stream raises
    [IndexError], whatever its arguments. *)
Theorem no_signal_no_stream (cfg : config) (f : smr_file)
  (index : list (list data_block)) (r : Spike2RawIO) :
  block_index_of f = inr index ->
  no_signal f index = true ->
  _parse_header cfg f = inr r ->
  signal_channels r = [] /\ signal_streams r = [] /\
  forall block_index seg_index stream_index,
    _get_signal_size r block_index seg_index stream_index = inl IndexError /\
    _get_signal_t_start r block_index seg_index stream_index = inl IndexError /\
    forall i_start i_stop channel_indexes,
      _get_analogsignal_chunk r block_index seg_index i_start i_stop
        stream_index channel_indexes = inl IndexError.
Proof.
  intros Hidx Hno H.
  apply parse_header_inv in H
    as (types & index' & gaps & sg & tc & gr & _ & Hidx' & Hg & Hs & Htc & Hgr & ->).
  rewrite Hidx in Hidx'. injection Hidx' as <-.
  rewrite (no_signal_gaps f index _ _ Hno) in Hg. injection Hg as <-.
  destruct (segment_without_signal (Py.enumerate index)) as (t & E & _).
  rewrite E in Hs. injection Hs as <-. cbn [seg_channels map] in Htc, Hgr.
  destruct (typed_fold_adds _ _ _ _ _ _ _ Htc) as [_ Hsig].
  cbn [tc_signal map app] in Hsig. rewrite filter_part_nil in Hsig.
  apply map_eq_nil in Hsig. rewrite Hsig in Hgr.
  unfold group_signals in Hgr. cbn in Hgr. unfold ret in Hgr.
  injection Hgr as <-.
  cbn [signal_channels signal_streams gr_channels gr_streams].
  split; [reflexivity|]. split; [reflexivity|].
  intros block_index seg_index stream_index.
  assert (Hsize : forall r0,
             signal_streams r0 = [] ->
             _get_signal_size r0 block_index seg_index stream_index
             = inl IndexError).
  { intros r0 E0. unfold _get_signal_size, stream_chan_ids.
    now rewrite E0, index_nil. }
  split; [now apply Hsize|].
  split.
  { unfold _get_signal_t_start, stream_chan_ids.
    cbn [signal_streams gr_streams]. now rewrite index_nil. }
  intros i_start i_stop channel_indexes. unfold _get_analogsignal_chunk.
  destruct i_stop as [i|].
  - cbn [bind ret]. unfold stream_chan_ids.
    cbn [signal_streams gr_streams]. now rewrite index_nil.
  - rewrite Hsize by reflexivity. reflexivity.
Qed.

Lemma no_signal_no_stream_witness :
  exists index r,
    block_index_of Scenario.events_only = inr index /\
    _parse_header default_config Scenario.events_only = inr r /\
    Py.len (event_channels r) = 1 /\
    signal_streams r = [] /\
    _get_analogsignal_chunk r 0 0 (Some 0) (Some 1) 0 None = inl IndexError.
Proof.
  do 2 eexists.
  split; [vm_compute; reflexivity|].
  split; [vm_compute; reflexivity|].
  split; [vm_compute; reflexivity|].
  refine ((fun H => conj (proj1 (proj2 H))
                         (proj2 (proj2 (proj2 (proj2 H) 0 0 0))
                                (Some 0) (Some 1) None))
            (no_signal_no_stream default_config Scenario.events_only _ _ _ _ _));
    vm_compute; reflexivity.
Defined.

(** ** Reading a header structure *)

Lemma slice_read {A} (c : list A) (p n : Z) :
  0 <= p -> 0 <= n ->
  Py.slice c p (p + n) = firstn (Z.to_nat n) (skipn (Z.to_nat p) c).
Proof.
  intros Hp Hn. unfold Py.slice, Py.slice_bounds, Py.norm_bound.
  replace (p <? 0) with false by (symmetry; apply Z.ltb_ge; lia).
  replace (p + n <? 0) with false by (symmetry; apply Z.ltb_ge; lia).
  rewrite view_of_eq. pose proof (len_nonneg c) as Hl. unfold Py.len in *.
  destruct (Z.le_gt_cases p (Z.of_nat (length c))) as [Hle | Hgt].
  - replace (Z.min p (Z.of_nat (length c))) with p by lia.
    destruct (Z.le_gt_cases (p + n) (Z.of_nat (length c))) as [Hle' | Hgt'].
    + f_equal. lia.
    + rewrite !firstn_all2; [reflexivity | |]; rewrite length_skipn; lia.
  - rewrite (skipn_all2 c (n := Z.to_nat p)) by lia.
    rewrite skipn_all2 by lia. now rewrite !firstn_nil.
Qed.

Lemma names_repeat_app (a b : list string) :
  names_repeat (a ++ b) = false ->
  names_repeat a = false /\ names_repeat b = false.
Proof.
  induction a as [|k a IH]; cbn [app names_repeat]; [auto|].
  intros H. apply orb_false_iff in H as [H1 H2].
  destruct (IH H2) as [Ha Hb]. split; [|exact Hb].
  rewrite Ha, orb_false_r.
  rewrite existsb_app in H1. now apply orb_false_iff in H1 as [H1 _].
Qed.

Lemma dtype_itemsize_app (d1 d2 : list (string * field_type)) :
  dtype_itemsize (d1 ++ d2) = (dtype_itemsize d1 + dtype_itemsize d2)%nat.
Proof.
  induction d1 as [|[k t] d1 IH]; [reflexivity|].
  cbn [app dtype_itemsize fold_right snd] in *.
  fold (dtype_itemsize (d1 ++ d2)). fold (dtype_itemsize d1). lia.
Qed.

(** The values of a description depend on the first [itemsize] bytes of
    the record only. *)
Lemma fields_of_firstn (d : list (string * field_type)) :
  forall (m : nat) (h : list byte),
    (dtype_itemsize d <= m)%nat ->
    fields_of d (firstn m h) = fields_of d h.
Proof.
  induction d as [|[k t] d IH]; intros m h Hm; [reflexivity|].
  cbn [dtype_itemsize fold_right snd] in Hm. fold (dtype_itemsize d) in Hm.
  cbn [fields_of]. rewrite firstn_firstn.
  replace (Nat.min (field_width t) m) with (field_width t) by lia.
  f_equal. rewrite skipn_firstn_comm. apply IH. lia.
Qed.

Lemma fields_of_app (d1 d2 : list (string * field_type)) :
  forall h : list byte,
    fields_of (d1 ++ d2) h
    = fields_of d1 h ++ fields_of d2 (skipn (dtype_itemsize d1) h).
Proof.
  induction d1 as [|[k t] d1 IH]; intros h; [reflexivity|].
  cbn [app fields_of dtype_itemsize fold_right snd].
  fold (dtype_itemsize d1). rewrite IH, skipn_skipn.
  now rewrite (Nat.add_comm (dtype_itemsize d1)).
Qed.

Lemma view_one (n : Z) (data : list byte) :
  0 < n -> Py.len data = n -> view n data = inr [data].
Proof.
  intros Hn Hl. unfold view.
  replace (n <=? 0) with false by (symmetry; apply Z.leb_gt; lia).
  rewrite Hl, Z_mod_same_full, Z_div_same_full by lia.
  change (Z.to_nat 1) with 1%nat. cbn [Z.eqb seq map Nat.mul]. unfold ret.
  do 2 f_equal. unfold field. cbn [skipn].
  apply firstn_all2. unfold Py.len in Hl. lia.
Qed.

(** [read_as_dict] on a description with distinct names and a positive
    item size: the read succeeds exactly when [itemsize] bytes remain. *)
Lemma read_as_dict_spec (fid : file_object)
  (dtype : list (string * field_type)) :
  names_repeat (map fst dtype) = false ->
  0 <= position fid ->
  (0 < dtype_itemsize dtype)%nat ->
  let n := Z.of_nat (dtype_itemsize dtype) in
  let left := Py.len (content fid) - position fid in
  read_as_dict fid dtype
  = (if n <=? left
     then inr (fields_of dtype
                 (firstn (dtype_itemsize dtype)
                         (skipn (Z.to_nat (position fid)) (content fid))))
     else inl (if left <=? 0 then IndexError else ValueError),
     {| content := content fid;
        position := position fid + Z.min n (Z.max 0 left) |}).
Proof.
  intros Hnames Hp Hn n left. unfold read_as_dict, fid_read.
  rewrite Hnames. fold n. rewrite slice_read by lia.
  unfold n at 2 3. rewrite Nat2Z.id.
  set (data := firstn (dtype_itemsize dtype)
                 (skipn (Z.to_nat (position fid)) (content fid))).
  assert (Hlen : Py.len data = Z.min n (Z.max 0 left)).
  { unfold data, Py.len, left, n, Py.len.
    rewrite length_firstn, length_skipn. lia. }
  rewrite Hlen. f_equal.
  destruct (Z.leb_spec n left) as [Hle | Hgt].
  - rewrite view_one by (subst n; lia). cbn [bind].
    change (Py.index [data] 0) with (@inr exn _ data). reflexivity.
  - destruct (Z.leb_spec left 0) as [Hz | Hpos].
    + assert (data = []) as ->.
      { destruct data; [reflexivity|].
        unfold Py.len in Hlen. simpl in Hlen. lia. }
      unfold view.
      replace (n <=? 0) with false by (symmetry; apply Z.leb_gt; lia).
      change (Py.len (@nil byte)) with 0.
      rewrite Z.mod_0_l, Z.div_0_l by lia. reflexivity.
    + unfold view.
      replace (n <=? 0) with false by (symmetry; apply Z.leb_gt; lia).
      rewrite Hlen.
      replace (Z.min n (Z.max 0 left)) with left by lia.
      rewrite Z.mod_small by lia.
      replace (left =? 0) with false by (symmetry; apply Z.eqb_neq; lia).
      reflexivity.
Qed.
(** [read_as_dict] returns a dict exactly when the whole structure is
    left in the file: then the dict has the fields of the description in
    their order and the position has moved by the item size.  On a
    shorter file it raises [IndexError] when no byte is left at the
    position and [ValueError] when a part of the structure is. *)
Theorem read_as_dict_needs_whole_structure (fid : file_object)
  (dtype : list (string * field_type)) :
  names_repeat (map fst dtype) = false ->
  0 <= position fid ->
  (0 < dtype_itemsize dtype)%nat ->
  let n := Z.of_nat (dtype_itemsize dtype) in
  let left := Py.len (content fid) - position fid in
  (n <= left ->
   exists info,
     fst (read_as_dict fid dtype) = inr info /\
     map fst info = map fst dtype /\
     position (snd (read_as_dict fid dtype)) = position fid + n) /\
  (left < n ->
   fst (read_as_dict fid dtype)
   = inl (if left <=? 0 then IndexError else ValueError)).
Proof.
  intros Hnames Hp Hn n left.
  rewrite (read_as_dict_spec fid dtype Hnames Hp Hn). cbn [fst snd position].
  fold n. fold left. split.
  - intros Hle.
    replace (n <=? left) with true by (symmetry; apply Z.leb_le; lia).
    eexists. split; [reflexivity|]. split; [|lia].
    generalize (firstn (dtype_itemsize dtype)
                  (skipn (Z.to_nat (position fid)) (content fid))).
    clear. induction dtype as [|[k t] d IH]; intros h; [reflexivity|].
    cbn [fields_of map fst]. now rewrite IH.
  - intros Hlt.
    replace (n <=? left) with false by (symmetry; apply Z.leb_gt; lia).
    reflexivity.
Qed.

Lemma read_as_dict_needs_whole_structure_witness :
  let whole := {| content := Fixture.block_header (-1) 692 5 25 0 3;
                  position := 0 |} in
  let part := {| content := Fixture.block_header (-1) 692 5 25 0 3;
                 position := 8 |} in
  (exists info,
     fst (read_as_dict whole blockHeaderDesciption) = inr info /\
     map fst info = map fst blockHeaderDesciption /\
     position (snd (read_as_dict whole blockHeaderDesciption)) = 0 + 20) /\
  fst (read_as_dict part blockHeaderDesciption) = inl ValueError.
Proof.
  cbv zeta. split.
  - refine (proj1 (read_as_dict_needs_whole_structure
                     {| content := Fixture.block_header (-1) 692 5 25 0 3;
                        position := 0 |} blockHeaderDesciption _ _ _) _);
      try (vm_compute; reflexivity); try (vm_compute; discriminate);
      vm_compute; lia.
  - refine (proj2 (read_as_dict_needs_whole_structure
                     {| content := Fixture.block_header (-1) 692 5 25 0 3;
                        position := 8 |} blockHeaderDesciption _ _ _) _);
      try (vm_compute; reflexivity); try (vm_compute; discriminate);
      vm_compute; lia.
Defined.

(** Reading a structure in two parts, one read after the other, gives
    what one read of the whole structure gives, and leaves the file at the
    same position. *)
Theorem read_as_dict_in_parts (fid fid' : file_object)
  (d1 d2 : list (string * field_type)) (info : list (string * field_value)) :
  names_repeat (map fst (d1 ++ d2)) = false ->
  0 <= position fid ->
  (0 < dtype_itemsize d1)%nat -> (0 < dtype_itemsize d2)%nat ->
  (read_as_dict fid (d1 ++ d2) = (inr info, fid') <->
   exists info1 info2 fid1,
     read_as_dict fid d1 = (inr info1, fid1) /\
     read_as_dict fid1 d2 = (inr info2, fid') /\
     info = info1 ++ info2).
Proof.
  intros Hnames Hp H1 H2.
  pose proof Hnames as Hparts. rewrite map_app in Hparts.
  apply names_repeat_app in Hparts as [Hn1 Hn2].
  set (n1 := dtype_itemsize d1) in *. set (n2 := dtype_itemsize d2) in *.
  set (p := position fid) in *. set (c := content fid).
  assert (Hwhole : forall X : list byte,
             fields_of (d1 ++ d2) (firstn (n1 + n2) X)
             = fields_of d1 (firstn n1 X)
               ++ fields_of d2 (firstn n2 (skipn n1 X))).
  { intros X. rewrite fields_of_app. fold n1. f_equal.
    - rewrite !fields_of_firstn; [reflexivity | |]; fold n1; lia.
    - rewrite skipn_firstn_comm. f_equal. f_equal. lia. }
  rewrite (read_as_dict_spec fid (d1 ++ d2) Hnames Hp)
    by (rewrite dtype_itemsize_app; fold n1; lia).
  rewrite (read_as_dict_spec fid d1 Hn1 Hp H1).
  rewrite dtype_itemsize_app. fold n1 n2 p c. cbv zeta.
  set (left := Py.len c - p).
  assert (Hskip : skipn n1 (skipn (Z.to_nat p) c)
                  = skipn (Z.to_nat (p + Z.of_nat n1)) c).
  { rewrite skipn_skipn. f_equal. lia. }
  split.
  - intros H.
    destruct (Z.leb_spec (Z.of_nat (n1 + n2)) left) as [Hle | Hgt];
      [|discriminate].
    injection H as Hinfo Hfid.
    replace (Z.of_nat n1 <=? left) with true by (symmetry; apply Z.leb_le; lia).
    do 3 eexists. split; [reflexivity|].
    rewrite (read_as_dict_spec _ d2 Hn2) by (cbn [position]; fold n2; lia).
    cbn [position content]. fold n2.
    replace (Z.of_nat n2 <=?
             Py.len c - (p + Z.min (Z.of_nat n1) (Z.max 0 left)))
      with true by (symmetry; apply Z.leb_le; lia).
    split.
    + f_equal. rewrite <- Hfid. f_equal. lia.
    + rewrite <- Hinfo, Hwhole, Hskip.
      now replace (Z.min (Z.of_nat n1) (Z.max 0 left)) with (Z.of_nat n1)
        by lia.
  - intros (info1 & info2 & fid1 & E1 & E2 & ->).
    destruct (Z.leb_spec (Z.of_nat n1) left) as [Hle | Hgt]; [|discriminate].
    injection E1 as <- <-.
    rewrite (read_as_dict_spec _ d2 Hn2) in E2
      by (cbn [position]; fold n2; lia).
    cbn [position content] in E2. fold n2 in E2.
    destruct (Z.leb_spec (Z.of_nat n2)
                (Py.len c - (p + Z.min (Z.of_nat n1) (Z.max 0 left))))
      as [Hle2 | Hgt2]; [|discriminate].
    injection E2 as <- <-.
    replace (Z.of_nat (n1 + n2) <=? left) with true
      by (symmetry; apply Z.leb_le; unfold left in *; lia).
    f_equal.
    + f_equal. rewrite Hwhole, Hskip.
      now replace (Z.min (Z.of_nat n1) (Z.max 0 left)) with (Z.of_nat n1)
        by lia.
    + f_equal. unfold left in *. lia.
Qed.

Lemma read_as_dict_in_parts_witness :
  let fid := {| content := Fixture.block_header (-1) 692 5 25 0 3;
                position := 0 |} in
  let d1 := [("pred_block", i4); ("succ_block", i4)]%string in
  let d2 := [("start_time", i4); ("end_time", i4); ("channel_num", i2);
             ("items", i2)]%string in
  exists info1 info2 fid1,
    read_as_dict fid d1 = (inr info1, fid1) /\
    read_as_dict fid1 d2
    = (inr info2, {| content := content fid; position := 20 |}) /\
    map snd info1 = [IntV (-1); IntV 692] /\
    fst (read_as_dict fid blockHeaderDesciption) = inr (info1 ++ info2).
Proof.
  cbv zeta.
  destruct (proj1 (read_as_dict_in_parts
                     {| content := Fixture.block_header (-1) 692 5 25 0 3;
                        position := 0 |}
                     {| content := Fixture.block_header (-1) 692 5 25 0 3;
                        position := 20 |}
                     [("pred_block", i4); ("succ_block", i4)]%string
                     [("start_time", i4); ("end_time", i4);
                      ("channel_num", i2); ("items", i2)]%string
                     [("pred_block"%string, IntV (-1));
                      ("succ_block"%string, IntV 692);
                      ("start_time"%string, IntV 5);
                      ("end_time"%string, IntV 25);
                      ("channel_num"%string, IntV 0);
                      ("items"%string, IntV 3)]
                     ltac:(vm_compute; reflexivity)
                     ltac:(vm_compute; discriminate)
                     ltac:(vm_compute; lia) ltac:(vm_compute; lia))
                  ltac:(vm_compute; reflexivity))
    as (info1 & info2 & fid1 & E1 & E2 & E).
  exists info1, info2, fid1.
  split; [exact E1|]. split; [exact E2|].
  split.
  - vm_compute in E1. injection E1 as <- _. reflexivity.
  - rewrite <- E. vm_compute. reflexivity.
Defined.

(** A string field holds a Pascal string: the value is the text after the
    length byte, without its trailing NUL bytes, cut to the length the
    first byte announces; a length greater than the text is no error. *)
Theorem string_field_is_pascal (width : nat) :
  field_value_of (S_ width) [] = StrV [] /\
  forall (c : byte) (body : list byte),
    field_value_of (S_ width) (c :: body)
    = StrV (firstn (Z.to_nat (byte_val c)) (strip_nuls body)).
Proof.
  split; [reflexivity|]. intros c body.
  cbn [field_value_of]. f_equal. unfold pascal_string. cbv zeta.
  assert (Hc : 0 <= byte_val c) by (unfold byte_val; lia).
  cbn [strip_nuls].
  destruct (strip_nuls body) as [|b rest].
  - rewrite firstn_nil. destruct (Byte.eqb c x00); [reflexivity|].
    change (0 <? Py.len [c]) with true. cbv iota.
    rewrite (Z.add_comm (byte_val c) 1), slice_read by lia.
    change (Z.to_nat 1) with 1%nat. cbn [skipn]. apply firstn_nil.
  - replace (0 <? Py.len (c :: b :: rest)) with true
      by (symmetry; apply Z.ltb_lt; rewrite len_cons;
          pose proof (len_nonneg (b :: rest)); lia).
    rewrite (Z.add_comm (byte_val c) 1), slice_read by lia.
    reflexivity.
Qed.
(** ** The units of a waveform channel *)

Lemma typed_step_all cfg info mm part c ci bl acc acc' :
  typed_channel_step cfg info mm part (c, (ci, bl)) acc = inr acc' ->
  kind_in ci [6; 7] = true -> ced_units cfg = false ->
  tc_unit_ids acc' = tc_unit_ids acc ++ [(c, All)].
Proof.
  unfold typed_channel_step. cbn [fst snd]. intros H Kw Hced.
  apply bind_inr in H as (sr & _ & H).
  destruct (waveform_kind ci Kw) as [K19 Kev].
  rewrite K19, Kev, Kw, Hced in H.
  destruct (kind ci =? 6); cbn [bind ret] in H; unfold ret in H;
    injection H as <-; reflexivity.
Qed.

Lemma typed_fold_all cfg info mm part chan_id ci bl
  (chans : list (Z * (chan_info * list data_block))) :
  kind_in ci [6; 7] = true -> ced_units cfg = false ->
  forall acc tc,
    foldM (typed_channel_step cfg info mm part) chans acc = inr tc ->
    NoDup (map fst chans) ->
    In (chan_id, (ci, bl)) chans ->
    of_chan chan_id (tc_unit_ids tc)
    = of_chan chan_id (tc_unit_ids acc) ++ [(chan_id, All)].
Proof.
  intros Kw Hced.
  induction chans as [|[c [ci' bl']] chans IH]; intros acc tc H Hnd Hin.
  - contradiction.
  - cbn [foldM] in H. apply bind_inr in H as (acc' & Es & H).
    cbn [map fst] in Hnd. inversion Hnd as [|? ? Hnot Hnd']; subst.
    destruct Hin as [Heq | Hin].
    + injection Heq as -> -> ->.
      rewrite (@typed_fold_without _ _ _ _ _ _ _ _ H Hnot).
      rewrite (typed_step_all _ _ _ _ _ _ _ _ _ Es Kw Hced).
      rewrite of_chan_app. f_equal.
      exact (of_chan_same chan_id [All]).
    + rewrite (IH _ _ H Hnd' Hin). f_equal.
      destruct (@typed_step_units _ _ _ _ _ _ _ _ _ Es) as (ids & Eacc & _).
      rewrite Eacc, of_chan_app, of_chan_other, app_nil_r; [reflexivity|].
      intros ->. apply Hnot.
      apply (in_map fst) in Hin. exact Hin.
Qed.

Lemma getitem_range_keys {A} (d : list (Z * A)) (k : Z) (v : A) :
  map fst d = Py.range (Py.len d) ->
  0 <= k -> nth_error (map snd d) (Z.to_nat k) = Some v ->
  Py.getitem d k = inr v.
Proof.
  intros Hk H0 H. rewrite <- (combine_fst_snd d). rewrite Hk.
  replace (Py.len d) with (Py.len (map snd d)) by apply len_map.
  change (Py.getitem (Py.enumerate (map snd d)) k = inr v).
  apply getitem_enumerate. auto.
Qed.

(** The units of a waveform channel.  With CED units, the channel has one
    unit for each value that the low byte of a marker takes in its
    records, in increasing order of the values; without, it has the one
    unit [all]. *)
Theorem units_are_the_markers_found (cfg : config) (f : smr_file)
  (r : Spike2RawIO) (chan_id : Z) (ci : chan_info) :
  _parse_header cfg f = inr r ->
  0 <= chan_id ->
  Py.index (file_channels f) chan_id = inr ci ->
  kind_in ci [6; 7] = true ->
  (ced_units cfg = false -> units_of_channel r chan_id = [All]) /\
  (ced_units cfg = true ->
   exists marks vs,
     channel_marks r chan_id = inr marks /\
     units_of_channel r chan_id = map Marker vs /\
     StronglySorted Z.lt vs /\
     forall v, In v vs <->
               In v (map (fun tm => low_byte (snd tm)) (concat marks))).
Proof.
  intros Hparse Hk Hci Kw.
  apply parse_header_inv in Hparse
    as (types & index & gaps & sg & tc & gr & _ & Hidx & _ & _ & Htc & _ & ->).
  pose proof Hci as Hci'. apply index_nonneg_inr in Hci'; [|exact Hk].
  unfold typed_channels_of in Htc.
  assert (Hbl : exists bl,
             nth_error (map snd (final_all_data_blocks (Py.enumerate index)
                                   (seg_channels sg))) (Z.to_nat chan_id)
             = Some bl).
  { pose proof (@nth_error_Some_lt _ _ _ _ Hci') as Hlt.
    destruct (nth_error (map snd (final_all_data_blocks (Py.enumerate index)
                                    (seg_channels sg))) (Z.to_nat chan_id))
      as [bl|] eqn:E; [eauto|].
    apply nth_error_None in E.
    rewrite length_map, length_final_all, length_enumerate in E.
    pose proof (length_block_index _ _ Hidx). lia. }
  destruct Hbl as (bl & Hbl).
  assert (Hin : In (chan_id, (ci, bl))
                   (Py.enumerate
                      (combine (file_channels f)
                         (map snd (final_all_data_blocks (Py.enumerate index)
                                     (seg_channels sg)))))).
  { apply in_enumerate; [exact Hk|]. now apply nth_error_combine. }
  unfold units_of_channel. cbn [internal_unit_ids].
  fold (of_chan chan_id (tc_unit_ids tc)).
  split.
  - intros Hced.
    rewrite (typed_fold_all cfg _ _ _ chan_id ci bl _ Kw Hced _ _ Htc
               (NoDup_keys_enumerate _) Hin).
    reflexivity.
  - intros Hced.
    destruct (@typed_fold_units cfg (fix_info (file_info f)) (file_bytes f)
                (map fst (seg_channels sg)) chan_id ci bl _ Kw Hced _ _ Htc
                (NoDup_keys_enumerate _) Hin)
      as (dt & vs & Edt & Evs & Hunits).
    pose proof (waveform_dtype_tick _ _ Kw Edt) as Htick.
    assert (Hmarks : exists marks,
               mapM (block_marks (file_bytes f) dt) bl = inr marks).
    { unfold scan_unit_ids in Evs. apply bind_inr in Evs as (u & Eu & _).
      eapply scan_reads_all; eauto. }
    destruct Hmarks as (marks & Hmarks).
    destruct (@scan_unit_ids_spec _ _ _ _ _ Evs Hmarks) as [Hsorted Hspec].
    exists marks, vs. split.
    { unfold channel_marks. cbn [_all_data_blocks _channel_infos _memmap].
      assert (Ebl : Py.getitem (final_all_data_blocks (Py.enumerate index)
                                  (seg_channels sg)) chan_id = inr bl).
      { apply getitem_range_keys; [apply final_all_keys | exact Hk | exact Hbl]. }
      rewrite Ebl. cbn [bind]. rewrite Hci. cbn [bind]. rewrite Edt.
      cbn [bind]. exact Hmarks. }
    split; [|split; [exact Hsorted | exact Hspec]].
    rewrite Hunits. cbn [tc_unit_ids of_chan filter app].
    rewrite !map_map. cbn [snd]. reflexivity.
Qed.

Lemma units_are_the_markers_found_witness :
  exists r ci,
    _parse_header default_config Scenario.four_spikes = inr r /\
    Py.index (file_channels Scenario.four_spikes) 0 = inr ci /\
    exists marks vs,
      channel_marks r 0 = inr marks /\
      units_of_channel r 0 = map Marker vs /\
      vs = [0; 1; 2].
Proof.
  do 2 eexists.
  split; [vm_compute; reflexivity|].
  split; [vm_compute; reflexivity|].
  destruct (proj2 (units_are_the_markers_found default_config
                     Scenario.four_spikes _ 0 _
                     ltac:(vm_compute; reflexivity) ltac:(lia)
                     ltac:(vm_compute; reflexivity)
                     ltac:(vm_compute; reflexivity))
                  ltac:(vm_compute; reflexivity))
    as (marks & vs & Em & Eu & _ & _).
  exists marks, vs. split; [exact Em|]. split; [exact Eu|].
  vm_compute in Eu.
  destruct vs as [|a [|b [|c' [|d vs]]]]; try discriminate.
  now injection Eu as -> -> ->.
Defined.
(** ** The number of segments *)

(** The number of segments is that of the first signal channel, one more
    than its pauses; a parse that completes has found at least as many
    pauses on every other signal channel. *)
Theorem first_channel_sets_segment_count (cfg : config) (f : smr_file)
  (r : Spike2RawIO) (gaps : list (Z * list Z)) :
  _parse_header cfg f = inr r ->
  gaps_of_file f = inr gaps ->
  match gaps with
  | [] => nb_segment r = 1
  | (_, g0) :: _ => nb_segment r = Py.len g0 + 1
  end /\
  Forall (fun cg => nb_segment r <= Py.len (snd cg) + 1) gaps.
Proof.
  intros Hparse Hgf.
  apply parse_header_inv in Hparse
    as (types & index & gaps' & sg & tc & gr & _ & Hidx & Hgaps & Hseg & _ & _ & ->).
  cbn [nb_segment].
  unfold gaps_of_file in Hgf. unfold block_index_of in Hidx.
  cbv zeta in Hgf. rewrite Hidx in Hgf. cbn [bind] in Hgf.
  rewrite Hgaps in Hgf. injection Hgf as ->.
  destruct gaps as [|[c0 g0] rest] eqn:Egaps.
  { destruct (segment_without_signal (Py.enumerate index)) as (t & E & _).
    rewrite E in Hseg. injection Hseg as <-. split; [reflexivity | constructor]. }
  rewrite <- Egaps in *.
  split; [eapply segment_count_first; eauto|].
  pose proof (segment_keys _ _ _ Hseg) as Hkeys.
  destruct (segment_with_signal _ _ _ Hseg) as [Hnb Hchs].
  { intros E. rewrite E, Egaps in Hkeys. discriminate. }
  destruct (segment_channels_spec _ _ _ _ Hchs) as [_ Hspec].
  assert (Hnd : NoDup (map fst gaps)).
  { apply (proj2 (all_gaps_keys _ _ _ _ Hgaps)). apply NoDup_keys_enumerate. }
  apply Forall_forall. intros [c g] Hin. cbn [snd].
  assert (Hc : In c (map fst (seg_channels sg))).
  { rewrite Hkeys. now apply (in_map fst) in Hin. }
  destruct (in_keys _ _ Hc) as (s & Hs).
  destruct (Hspec _ _ Hs) as (g' & bl & Hg' & Hbl & Hsegc).
  assert (g' = g) as ->.
  { pose proof (lookup_in_nodup _ _ _ Hnd Hin) as L1.
    pose proof (lookup_in_nodup _ _ _ Hnd Hg') as L2. congruence. }
  destruct (all_gaps_in _ _ _ _ _ _ Hgaps Hin) as (ci & bl' & interval & Hcb & ->).
  apply getitem_enumerate in Hbl as [Hk Hbl].
  apply in_enumerate_inv in Hcb as [_ Hcb].
  apply nth_error_combine_inv in Hcb as [_ Hcb].
  rewrite Hbl in Hcb. injection Hcb as <-.
  destruct (detect_gaps_sorted interval bl) as [Hsorted Hpos].
  assert (Hzero : Forall (fun b => cumsum b = 0) bl).
  { apply build_all_index_zero in Hidx.
    apply (proj1 (Forall_forall _ _) Hidx). eapply nth_error_In; eauto. }
  destruct (segment_channel_cuts _ _ _ _ Hpos Hsorted Hnb Hzero Hsegc)
    as [Hinv Hcuts].
  destruct Hinv as (_ & Hviews & _).
  pose proof (len_nonneg (detect_gaps interval bl)) as Hl.
  destruct (Z.le_gt_cases (seg_nb_segment sg) 1) as [Hle | Hgt]; [lia|].
  destruct (nth_error (views s) (Z.to_nat (seg_nb_segment sg - 2)))
    as [v|] eqn:Ev.
  - destruct (Hcuts _ _ Ev) as (_ & _ & Hcn).
    specialize (Hcn ltac:(lia)).
    apply (@nth_error_Some_lt _ _ _ _) in Hcn. unfold Py.len. lia.
  - apply nth_error_None in Ev. unfold Py.len in Hviews. lia.
Qed.

Lemma first_channel_sets_segment_count_witness :
  exists r,
    _parse_header default_config Scenario.pause_mismatch = inr r /\
    gaps_of_file Scenario.pause_mismatch = inr [(0, []); (1, [0])] /\
    nb_segment r = Py.len (@nil Z) + 1 /\
    Forall (fun cg => nb_segment r <= Py.len (snd cg) + 1) [(0, []); (1, [0])].
Proof.
  eexists. split; [vm_compute; reflexivity|].
  split; [vm_compute; reflexivity|].
  apply (first_channel_sets_segment_count default_config
           Scenario.pause_mismatch _ [(0, []); (1, [0])]);
    vm_compute; reflexivity.
Defined.
